(** * PspSerialStub: a shallow embedding of [PspSerialStub/main.c]

    The serial stub runs on the PSP (a 32-bit ARM core), talks to an external
    host over a UART and proxies memory accesses.  This file embeds the stub's
    state, its two mapping-window allocators, the millisecond timekeeper, the
    PDU framer and parser, the request handlers and the main loop, and proves
    properties of them.

    Conventions.
    - A [uint32_t] is a [Z] kept in [0, 2^32) by [wrap32]; [X86PADDR] is a
      64-bit [Z]; bytes are [Z] in [0, 256).
    - The stub state [PSPSTUBSTATE] and the hardware around it ([World]) are
      threaded explicitly through a state monad [St]; the only loops that may
      not terminate (the receive loop, the beacon loop, the connected loop)
      take fuel and live in [Run].
    - Everything the source takes from headers that are not part of the
      source tree ([err.h], [types.h], [psp-stub/psp-serial-stub.h]) is a field
      of the class [ProtocolConsts], so every theorem holds for whatever
      values those headers give; so is where the linker puts the stub.
    - The stub serves transfers to any local address, its own storage
      included.  [stub] and [mem] are kept apart; a transfer that stores into
      the stub itself, or copies from behind the PDU buffer, sets the flag
      [strayed]; theorems that rest on request handling leaving [stub] what
      [g_StubState] holds are stated for the runs in which the flag is down
      ([intact]).

    Layout: the model of the source; the vocabulary the statements use;
    sample constants and inputs; the properties, component by component;
    the properties at concrete inputs. *)

From Stdlib Require Import ZArith List Lia Bool.
From stdpp Require Import base list gmap.
Import ListNotations.

Local Open Scope Z_scope.

(** ** Machine integers *)

Definition wrap16 (z : Z) : Z := z mod 2 ^ 16.
Definition wrap32 (z : Z) : Z := z mod 2 ^ 32.

(** The size constants of [cdefs.h]. *)
Definition _1K : Z := 1024.
Definition _4K : Z := 4 * _1K.
Definition _1M : Z := 1024 * _1K.
Definition _64M : Z := 64 * _1M.

(** [a & ~(n - 1)]: the mask is sign-extended to the width of [a]. *)
Definition align_mask (a n : Z) : Z := Z.land a (Z.lnot (n - 1)).

(** Little-endian bytes of the low [n] bytes of [v]. *)
Fixpoint le_bytes (n : nat) (v : Z) : list Z :=
  match n with
  | O => []
  | S n' => Z.land v 255 :: le_bytes n' (Z.shiftr v 8)
  end.

(** The value of a little-endian byte string. *)
Fixpoint le_val (bs : list Z) : Z :=
  match bs with
  | [] => 0
  | b :: bs' => b + 256 * le_val bs'
  end.

(** A 32-bit pattern read as [int32_t]. *)
Definition signed32 (z : Z) : Z := if z <? 2 ^ 31 then z else z - 2 ^ 32.

(** [n] bytes of a buffer from offset [off]; reads past the end give 0. *)
Definition buf_read (buf : list Z) (off n : Z) : list Z :=
  map (fun i => nth (Z.to_nat off + i)%nat buf 0) (seq 0 (Z.to_nat n)).

(** Store [bs] into a buffer from offset [off]; stores past the end are lost. *)
Fixpoint buf_write (buf : list Z) (off : nat) (bs : list Z) : list Z :=
  match bs with
  | [] => buf
  | b :: bs' => buf_write (<[off := b]> buf) (S off) bs'
  end.

(** Running byte sum, as the checksum loops accumulate it in a [uint32_t]. *)
Definition sum_bytes (acc : Z) (bs : list Z) : Z :=
  fold_left (fun a b => wrap32 (a + b)) bs acc.

(** ** Constants of the headers that are not part of the source tree *)

(** Modelled from the spec: [err.h], [types.h] and
    [psp-stub/psp-serial-stub.h] are not in the source tree.  The status
    codes, the x86 "no address" sentinel, the four PDU magics and the
    request/response/notification IDs are taken as parameters; the only facts
    assumed about them are the ones the compiler enforces on the source (the
    [case] labels of [pspStubPduProcess] are pairwise different). *)
Class ProtocolConsts := {
  (* err.h *)
  INF_TRY_AGAIN : Z;
  ERR_INVALID_PARAMETER : Z;
  ERR_INVALID_STATE : Z;
  (* types.h *)
  NIL_X86PADDR : Z;
  (* psp-stub/psp-serial-stub.h *)
  PSP_SERIAL_EXT_2_PSP_PDU_START_MAGIC : Z;
  PSP_SERIAL_EXT_2_PSP_PDU_END_MAGIC : Z;
  PSP_SERIAL_PSP_2_EXT_PDU_START_MAGIC : Z;
  PSP_SERIAL_PSP_2_EXT_PDU_END_MAGIC : Z;
  PSPSERIALPDURRNID_INVALID : Z;
  PSPSERIALPDURRNID_NOTIFICATION_BEACON : Z;
  PSPSERIALPDURRNID_NOTIFICATION_LOG_MSG : Z;
  PSPSERIALPDURRNID_REQUEST_FIRST : Z;
  PSPSERIALPDURRNID_REQUEST_CONNECT : Z;
  PSPSERIALPDURRNID_REQUEST_PSP_MEM_READ : Z;
  PSPSERIALPDURRNID_REQUEST_PSP_MEM_WRITE : Z;
  PSPSERIALPDURRNID_REQUEST_PSP_MMIO_READ : Z;
  PSPSERIALPDURRNID_REQUEST_PSP_MMIO_WRITE : Z;
  PSPSERIALPDURRNID_REQUEST_PSP_SMN_READ : Z;
  PSPSERIALPDURRNID_REQUEST_PSP_SMN_WRITE : Z;
  PSPSERIALPDURRNID_REQUEST_PSP_X86_MEM_READ : Z;
  PSPSERIALPDURRNID_REQUEST_PSP_X86_MEM_WRITE : Z;
  PSPSERIALPDURRNID_REQUEST_PSP_X86_MMIO_READ : Z;
  PSPSERIALPDURRNID_REQUEST_PSP_X86_MMIO_WRITE : Z;
  PSPSERIALPDURRNID_REQUEST_INVALID_FIRST : Z;
  PSPSERIALPDURRNID_RESPONSE_CONNECT : Z;
  PSPSERIALPDURRNID_RESPONSE_PSP_MEM_READ : Z;
  PSPSERIALPDURRNID_RESPONSE_PSP_MEM_WRITE : Z;
  PSPSERIALPDURRNID_RESPONSE_PSP_MMIO_READ : Z;
  PSPSERIALPDURRNID_RESPONSE_PSP_MMIO_WRITE : Z;
  PSPSERIALPDURRNID_RESPONSE_PSP_SMN_READ : Z;
  PSPSERIALPDURRNID_RESPONSE_PSP_SMN_WRITE : Z;
  PSPSERIALPDURRNID_RESPONSE_PSP_X86_MEM_READ : Z;
  PSPSERIALPDURRNID_RESPONSE_PSP_X86_MEM_WRITE : Z;
  PSPSERIALPDURRNID_RESPONSE_PSP_X86_MMIO_READ : Z;
  PSPSERIALPDURRNID_RESPONSE_PSP_X86_MMIO_WRITE : Z;
  (* where the linker puts g_StubState.abScratch *)
  PspAddrScratch : Z;
  (* where the linker puts the rest of the stub: the ranges [first, behind)
     of the local address space that hold its code, its stack and the
     members of g_StubState in front of aX86MapSlots, whose sizes the absent
     headers decide *)
  stub_image : list (Z * Z);
  (* the switch of pspStubPduProcess compiles: its labels are distinct *)
  process_labels_distinct :
    NoDup [ PSPSERIALPDURRNID_REQUEST_PSP_MEM_READ;
            PSPSERIALPDURRNID_REQUEST_PSP_MEM_WRITE;
            PSPSERIALPDURRNID_REQUEST_PSP_MMIO_READ;
            PSPSERIALPDURRNID_REQUEST_PSP_MMIO_WRITE;
            PSPSERIALPDURRNID_REQUEST_PSP_SMN_READ;
            PSPSERIALPDURRNID_REQUEST_PSP_SMN_WRITE;
            PSPSERIALPDURRNID_REQUEST_PSP_X86_MEM_READ;
            PSPSERIALPDURRNID_REQUEST_PSP_X86_MEM_WRITE;
            PSPSERIALPDURRNID_REQUEST_PSP_X86_MMIO_READ;
            PSPSERIALPDURRNID_REQUEST_PSP_X86_MMIO_WRITE ]
}.

(** [INF_SUCCESS] is 0: the source tests status codes with [!rc]. *)
Definition INF_SUCCESS : Z := 0.

(** [#define PSP_SERIAL_STUB_INDEFINITE_WAIT 0xffffffff] *)
Definition PSP_SERIAL_STUB_INDEFINITE_WAIT : Z := 0xffffffff.

(** ** Data model *)

(** x86 memory mapping slot. *)
Record PSPX86MAPPING := {
  PhysX86AddrBase : Z;
  uMemType : Z;
  cRefs : Z
}.

(** SMN mapping slot (its reference counter is [cRefs] in the source too). *)
Record PSPSMNMAPPING := {
  SmnAddrBase : Z;
  cRefsSmn : Z
}.

(** Timekeeping data.  Modelled from the spec: the timekeeping manager [TM]
    ([tm.h]) is an opaque tick accumulator whose only observation is its
    millisecond count; [Tm] is that count. *)
Record PSPTIMER := {
  Tm : Z;
  cCnts : Z;
  cSubMsTicks : Z
}.

Inductive PSPSERIALPDURECVSTATE :=
| PSPSERIALPDURECVSTATE_INVALID
| PSPSERIALPDURECVSTATE_HDR
| PSPSERIALPDURECVSTATE_PAYLOAD
| PSPSERIALPDURECVSTATE_FOOTER.

(** PDU header.  Modelled from the spec: the layout is declared in
    [psp-stub/psp-serial-stub.h]; the source shows a start magic followed by a
    union [u] of the fields and a byte view [ab], the spec gives the wire
    order and widths (little-endian: magic 4, length 4, counter 4, tag 2,
    unit 2, status 4, timestamp 4). *)
Record PSPSERIALPDUHDR := {
  u32Magic : Z;
  cbPdu : Z;
  cPdus : Z;
  enmRrnId : Z;
  idCcd : Z;
  rcReq : Z;
  tsMillies : Z
}.

(** PDU footer: checksum, then end magic. *)
Record PSPSERIALPDUFOOTER := {
  u32ChkSum : Z;
  u32MagicEnd : Z
}.

(** [PduHdr.u.ab]: the byte view of the union, i.e. the header without its
    start magic. *)
Definition hdr_ab (h : PSPSERIALPDUHDR) : list Z :=
  le_bytes 4 (cbPdu h) ++ le_bytes 4 (cPdus h) ++ le_bytes 2 (enmRrnId h)
  ++ le_bytes 2 (idCcd h) ++ le_bytes 4 (rcReq h) ++ le_bytes 4 (tsMillies h).

(** The header as it goes over the wire. *)
Definition hdr_bytes (h : PSPSERIALPDUHDR) : list Z :=
  le_bytes 4 (u32Magic h) ++ hdr_ab h.

Definition footer_bytes (f : PSPSERIALPDUFOOTER) : list Z :=
  le_bytes 4 (u32ChkSum f) ++ le_bytes 4 (u32MagicEnd f).

(** [sizeof(PSPSERIALPDUHDR)], [ELEMENTS(PduHdr.u.ab)], [sizeof(PSPSERIALPDUFOOTER)] *)
Definition cbPduHdr : Z := 24.
Definition cbHdrAb : Z := 20.
Definition cbPduFooter : Z := 8.

(** The header a pointer to the start of [buf] designates. *)
Definition hdr_at (buf : list Z) : PSPSERIALPDUHDR :=
  {| u32Magic := le_val (buf_read buf 0 4);
     cbPdu := le_val (buf_read buf 4 4);
     cPdus := le_val (buf_read buf 8 4);
     enmRrnId := le_val (buf_read buf 12 2);
     idCcd := le_val (buf_read buf 14 2);
     rcReq := signed32 (le_val (buf_read buf 16 4));
     tsMillies := le_val (buf_read buf 20 4) |}.

(** Global stub instance.  The logger, the UART driver instances and the
    scratch area hold no state the modelled functions read. *)
Record PSPSTUBSTATE := {
  Timer : PSPTIMER;
  aX86MapSlots : list PSPX86MAPPING;
  aSmnMapSlots : list PSPSMNMAPPING;
  cCcds : Z;
  fConnected : bool;
  cBeaconsSent : Z;
  cPdusSent : Z;
  cPduRecvNext : Z;
  enmPduRecvState : PSPSERIALPDURECVSTATE;
  cbPduRecvLeft : Z;
  offPduRecv : Z;
  abPdu : list Z
}.

(** ** The hardware around the stub *)

(** What one call of [PSPUartWrite] was handed. *)
Inductive TxBuf :=
| BufHdr (h : PSPSERIALPDUHDR)
| BufPayload (b : list Z)
| BufFooter (f : PSPSERIALPDUFOOTER).

Definition buf_bytes (b : TxBuf) : list Z :=
  match b with
  | BufHdr h => hdr_bytes h
  | BufPayload p => p
  | BufFooter f => footer_bytes f
  end.

Record TxWrite := { tx_buf : TxBuf; tx_rc : Z }.

(** The UART driver ([uart.h]), the free-running 100 MHz counter, the local
    address space and what the externally implemented initialisers return.
    - [uart_arrivals]: the bytes that reach the receive FIFO before each
      successive poll of [PSPUartGetDataAvail];
    - [uart_rd_rcs], [uart_wr_rcs]: the status of each successive
      [PSPUartRead] / [PSPUartWrite] (success once the script is used up);
    - [uart_tx]: every [PSPUartWrite] call so far, oldest first;
    - [cnt_script]: the values successive reads of the counter register
      return ([cnt_now] once the script is used up);
    - [mem]: the local address space, byte-wise, [abScratch] included
      (unwritten cells read 0; device registers read back what was stored;
      nothing but the stub's own stores changes it); what [g_StubState]
      holds in front of [abScratch] is in [stub], not here;
    - [reg_log]: every 32-bit store to a control register, oldest first;
    - [strayed]: set once the stub, serving a request, has stored into its
      own image or past the end of the address space, or has copied from
      behind [abPdu].  [g_StubState], the code and the stack live in the
      address space the local transfers address, and no handler checks the
      range of a transfer: after such a store the code goes on with a
      [g_StubState] that is no longer what [stub] holds, and after such a
      copy with bytes that [mem] did not get. *)
Record World := {
  uart_fifo : list Z;
  uart_arrivals : list (list Z);
  uart_rd_rcs : list Z;
  uart_wr_rcs : list Z;
  uart_tx : list TxWrite;
  cnt_now : Z;
  cnt_script : list Z;
  mem : gmap Z Z;
  reg_log : list (Z * Z);
  strayed : bool;
  rc_PSPUartCreate : Z;
  rc_PSPUartParamsSet : Z;
  rc_TMInit : Z;
  rc_LOGLoggerInit : Z
}.

Record Sys := { stub : PSPSTUBSTATE; hw : World }.

(** ** State monad for the code that always returns *)

Definition St (A : Type) : Type := Sys -> A * Sys.

Definition ret {A} (a : A) : St A := fun s => (a, s).
Definition bind {A B} (m : St A) (k : A -> St B) : St B :=
  fun s => let '(a, s') := m s in k a s'.

Declare Scope stub_scope.
Delimit Scope stub_scope with stub.
Notation "'let*' x ':=' m 'in' k" := (bind m (fun x => k))
  (at level 10, x pattern, m at level 100, k at level 200) : stub_scope.
Notation "m1 ';;' m2" := (bind m1 (fun _ => m2))
  (at level 100, m2 at level 200, right associativity) : stub_scope.

Definition gets {A} (f : PSPSTUBSTATE -> A) : St A := fun s => (f (stub s), s).
Definition getw {A} (f : World -> A) : St A := fun s => (f (hw s), s).
Definition modify (f : PSPSTUBSTATE -> PSPSTUBSTATE) : St unit :=
  fun s => (tt, {| stub := f (stub s); hw := hw s |}).
Definition modifyw (f : World -> World) : St unit :=
  fun s => (tt, {| stub := stub s; hw := f (hw s) |}).

(** Field updates of the stub state and of the world. *)
Definition set_Timer (v : PSPTIMER) (t : PSPSTUBSTATE) : PSPSTUBSTATE :=
  {| Timer := v; aX86MapSlots := aX86MapSlots t; aSmnMapSlots := aSmnMapSlots t;
     cCcds := cCcds t; fConnected := fConnected t; cBeaconsSent := cBeaconsSent t;
     cPdusSent := cPdusSent t; cPduRecvNext := cPduRecvNext t;
     enmPduRecvState := enmPduRecvState t; cbPduRecvLeft := cbPduRecvLeft t;
     offPduRecv := offPduRecv t; abPdu := abPdu t |}.
Definition set_aX86MapSlots (v : list PSPX86MAPPING) (t : PSPSTUBSTATE) : PSPSTUBSTATE :=
  {| Timer := Timer t; aX86MapSlots := v; aSmnMapSlots := aSmnMapSlots t;
     cCcds := cCcds t; fConnected := fConnected t; cBeaconsSent := cBeaconsSent t;
     cPdusSent := cPdusSent t; cPduRecvNext := cPduRecvNext t;
     enmPduRecvState := enmPduRecvState t; cbPduRecvLeft := cbPduRecvLeft t;
     offPduRecv := offPduRecv t; abPdu := abPdu t |}.
Definition set_aSmnMapSlots (v : list PSPSMNMAPPING) (t : PSPSTUBSTATE) : PSPSTUBSTATE :=
  {| Timer := Timer t; aX86MapSlots := aX86MapSlots t; aSmnMapSlots := v;
     cCcds := cCcds t; fConnected := fConnected t; cBeaconsSent := cBeaconsSent t;
     cPdusSent := cPdusSent t; cPduRecvNext := cPduRecvNext t;
     enmPduRecvState := enmPduRecvState t; cbPduRecvLeft := cbPduRecvLeft t;
     offPduRecv := offPduRecv t; abPdu := abPdu t |}.
Definition set_fConnected (v : bool) (t : PSPSTUBSTATE) : PSPSTUBSTATE :=
  {| Timer := Timer t; aX86MapSlots := aX86MapSlots t; aSmnMapSlots := aSmnMapSlots t;
     cCcds := cCcds t; fConnected := v; cBeaconsSent := cBeaconsSent t;
     cPdusSent := cPdusSent t; cPduRecvNext := cPduRecvNext t;
     enmPduRecvState := enmPduRecvState t; cbPduRecvLeft := cbPduRecvLeft t;
     offPduRecv := offPduRecv t; abPdu := abPdu t |}.
Definition set_cBeaconsSent (v : Z) (t : PSPSTUBSTATE) : PSPSTUBSTATE :=
  {| Timer := Timer t; aX86MapSlots := aX86MapSlots t; aSmnMapSlots := aSmnMapSlots t;
     cCcds := cCcds t; fConnected := fConnected t; cBeaconsSent := v;
     cPdusSent := cPdusSent t; cPduRecvNext := cPduRecvNext t;
     enmPduRecvState := enmPduRecvState t; cbPduRecvLeft := cbPduRecvLeft t;
     offPduRecv := offPduRecv t; abPdu := abPdu t |}.
Definition set_cPdusSent (v : Z) (t : PSPSTUBSTATE) : PSPSTUBSTATE :=
  {| Timer := Timer t; aX86MapSlots := aX86MapSlots t; aSmnMapSlots := aSmnMapSlots t;
     cCcds := cCcds t; fConnected := fConnected t; cBeaconsSent := cBeaconsSent t;
     cPdusSent := v; cPduRecvNext := cPduRecvNext t;
     enmPduRecvState := enmPduRecvState t; cbPduRecvLeft := cbPduRecvLeft t;
     offPduRecv := offPduRecv t; abPdu := abPdu t |}.
Definition set_cPduRecvNext (v : Z) (t : PSPSTUBSTATE) : PSPSTUBSTATE :=
  {| Timer := Timer t; aX86MapSlots := aX86MapSlots t; aSmnMapSlots := aSmnMapSlots t;
     cCcds := cCcds t; fConnected := fConnected t; cBeaconsSent := cBeaconsSent t;
     cPdusSent := cPdusSent t; cPduRecvNext := v;
     enmPduRecvState := enmPduRecvState t; cbPduRecvLeft := cbPduRecvLeft t;
     offPduRecv := offPduRecv t; abPdu := abPdu t |}.
(** The three parser registers move together. *)
Definition set_parser (e : PSPSERIALPDURECVSTATE) (left off : Z) (t : PSPSTUBSTATE) : PSPSTUBSTATE :=
  {| Timer := Timer t; aX86MapSlots := aX86MapSlots t; aSmnMapSlots := aSmnMapSlots t;
     cCcds := cCcds t; fConnected := fConnected t; cBeaconsSent := cBeaconsSent t;
     cPdusSent := cPdusSent t; cPduRecvNext := cPduRecvNext t;
     enmPduRecvState := e; cbPduRecvLeft := left;
     offPduRecv := off; abPdu := abPdu t |}.
Definition set_abPdu (v : list Z) (t : PSPSTUBSTATE) : PSPSTUBSTATE :=
  {| Timer := Timer t; aX86MapSlots := aX86MapSlots t; aSmnMapSlots := aSmnMapSlots t;
     cCcds := cCcds t; fConnected := fConnected t; cBeaconsSent := cBeaconsSent t;
     cPdusSent := cPdusSent t; cPduRecvNext := cPduRecvNext t;
     enmPduRecvState := enmPduRecvState t; cbPduRecvLeft := cbPduRecvLeft t;
     offPduRecv := offPduRecv t; abPdu := v |}.

Definition set_uart_rx (fifo : list Z) (arr : list (list Z)) (rcs : list Z) (w : World) : World :=
  {| uart_fifo := fifo; uart_arrivals := arr; uart_rd_rcs := rcs;
     uart_wr_rcs := uart_wr_rcs w; uart_tx := uart_tx w; cnt_now := cnt_now w;
     cnt_script := cnt_script w; mem := mem w; reg_log := reg_log w; strayed := strayed w;
     rc_PSPUartCreate := rc_PSPUartCreate w; rc_PSPUartParamsSet := rc_PSPUartParamsSet w;
     rc_TMInit := rc_TMInit w; rc_LOGLoggerInit := rc_LOGLoggerInit w |}.
Definition set_uart_tx (rcs : list Z) (tx : list TxWrite) (w : World) : World :=
  {| uart_fifo := uart_fifo w; uart_arrivals := uart_arrivals w; uart_rd_rcs := uart_rd_rcs w;
     uart_wr_rcs := rcs; uart_tx := tx; cnt_now := cnt_now w;
     cnt_script := cnt_script w; mem := mem w; reg_log := reg_log w; strayed := strayed w;
     rc_PSPUartCreate := rc_PSPUartCreate w; rc_PSPUartParamsSet := rc_PSPUartParamsSet w;
     rc_TMInit := rc_TMInit w; rc_LOGLoggerInit := rc_LOGLoggerInit w |}.
Definition set_cnt (now : Z) (script : list Z) (w : World) : World :=
  {| uart_fifo := uart_fifo w; uart_arrivals := uart_arrivals w; uart_rd_rcs := uart_rd_rcs w;
     uart_wr_rcs := uart_wr_rcs w; uart_tx := uart_tx w; cnt_now := now;
     cnt_script := script; mem := mem w; reg_log := reg_log w; strayed := strayed w;
     rc_PSPUartCreate := rc_PSPUartCreate w; rc_PSPUartParamsSet := rc_PSPUartParamsSet w;
     rc_TMInit := rc_TMInit w; rc_LOGLoggerInit := rc_LOGLoggerInit w |}.
Definition set_mem (m : gmap Z Z) (w : World) : World :=
  {| uart_fifo := uart_fifo w; uart_arrivals := uart_arrivals w; uart_rd_rcs := uart_rd_rcs w;
     uart_wr_rcs := uart_wr_rcs w; uart_tx := uart_tx w; cnt_now := cnt_now w;
     cnt_script := cnt_script w; mem := m; reg_log := reg_log w; strayed := strayed w;
     rc_PSPUartCreate := rc_PSPUartCreate w; rc_PSPUartParamsSet := rc_PSPUartParamsSet w;
     rc_TMInit := rc_TMInit w; rc_LOGLoggerInit := rc_LOGLoggerInit w |}.
Definition set_strayed (b : bool) (w : World) : World :=
  {| uart_fifo := uart_fifo w; uart_arrivals := uart_arrivals w; uart_rd_rcs := uart_rd_rcs w;
     uart_wr_rcs := uart_wr_rcs w; uart_tx := uart_tx w; cnt_now := cnt_now w;
     cnt_script := cnt_script w; mem := mem w; reg_log := reg_log w; strayed := b;
     rc_PSPUartCreate := rc_PSPUartCreate w; rc_PSPUartParamsSet := rc_PSPUartParamsSet w;
     rc_TMInit := rc_TMInit w; rc_LOGLoggerInit := rc_LOGLoggerInit w |}.
Definition set_reg_log (l : list (Z * Z)) (w : World) : World :=
  {| uart_fifo := uart_fifo w; uart_arrivals := uart_arrivals w; uart_rd_rcs := uart_rd_rcs w;
     uart_wr_rcs := uart_wr_rcs w; uart_tx := uart_tx w; cnt_now := cnt_now w;
     cnt_script := cnt_script w; mem := mem w; reg_log := l; strayed := strayed w;
     rc_PSPUartCreate := rc_PSPUartCreate w; rc_PSPUartParamsSet := rc_PSPUartParamsSet w;
     rc_TMInit := rc_TMInit w; rc_LOGLoggerInit := rc_LOGLoggerInit w |}.

(** ** Memory and device primitives *)

(** [n] bytes of the local address space from [addr]. *)
Definition mem_read (m : gmap Z Z) (addr n : Z) : list Z :=
  map (fun i => default 0 (m !! (addr + Z.of_nat i))) (seq 0 (Z.to_nat n)).

Fixpoint mem_write (m : gmap Z Z) (addr : Z) (bs : list Z) : gmap Z Z :=
  match bs with
  | [] => m
  | b :: bs' => mem_write (<[addr := b]> m) (addr + 1) bs'
  end.

Local Open Scope stub_scope.

(** A volatile 32-bit store to the control register at [addr]. *)
Definition store32 (addr v : Z) : St unit :=
  modifyw (fun w => set_reg_log (reg_log w ++ [(addr, wrap32 v)])
                      (set_mem (mem_write (mem w) addr (le_bytes 4 v)) w)).

(** A volatile 32-bit load from [addr]. *)
Definition load32 (addr : Z) : St Z :=
  getw (fun w => le_val (mem_read (mem w) addr 4)).

(** A read of the free-running counter at [0x03010424 + 32]. *)
Definition read_counter : St Z :=
  fun s =>
    match cnt_script (hw s) with
    | [] => (cnt_now (hw s), s)
    | v :: rest => (v, {| stub := stub s; hw := set_cnt v rest (hw s) |})
    end.

(** [PSPUartGetDataAvail]: the bytes that arrived since the last poll join
    the FIFO; the answer is the FIFO's fill. *)
Definition PSPUartGetDataAvail : St Z :=
  fun s =>
    let w := hw s in
    let fifo := uart_fifo w ++ hd [] (uart_arrivals w) in
    (Z.of_nat (length fifo),
     {| stub := stub s; hw := set_uart_rx fifo (tl (uart_arrivals w)) (uart_rd_rcs w) w |}).

(** [PSPUartRead(&pThis->Uart, &pThis->abPdu[off], cb, NULL)]: on success the
    first [cb] bytes of the FIFO move into the PDU buffer. *)
Definition PSPUartRead (off cb : Z) : St Z :=
  fun s =>
    let w := hw s in
    let rc := hd 0 (uart_rd_rcs w) in
    if rc =? 0 then
      let n := Z.to_nat cb in
      (rc, {| stub := set_abPdu (buf_write (abPdu (stub s)) (Z.to_nat off) (take n (uart_fifo w))) (stub s);
              hw := set_uart_rx (drop n (uart_fifo w)) (uart_arrivals w) (tl (uart_rd_rcs w)) w |})
    else
      (rc, {| stub := stub s;
              hw := set_uart_rx (uart_fifo w) (uart_arrivals w) (tl (uart_rd_rcs w)) w |}).

(** [PSPUartWrite(&pThis->Uart, buf, cb, NULL)] *)
Definition PSPUartWrite (b : TxBuf) : St Z :=
  fun s =>
    let w := hw s in
    let rc := hd 0 (uart_wr_rcs w) in
    (rc, {| stub := stub s;
            hw := set_uart_tx (tl (uart_wr_rcs w)) (uart_tx w ++ [ {| tx_buf := b; tx_rc := rc |} ]) w |}).

(** ** Code that may not return *)

Inductive Res (A : Type) :=
| Ret (a : A) (s : Sys)     (* returned [a] in state [s] *)
| OutOfFuel (s : Sys)       (* still looping in state [s] when the fuel ran out *)
| Undefined (s : Sys).      (* read through a pointer that was never set *)
Arguments Ret {A} a s.
Arguments OutOfFuel {A} s.
Arguments Undefined {A} s.

Definition Run (A : Type) : Type := Sys -> Res A.

Definition rret {A} (a : A) : Run A := fun s => Ret a s.
Definition rbind {A B} (m : Run A) (k : A -> Run B) : Run B :=
  fun s =>
    match m s with
    | Ret a s' => k a s'
    | OutOfFuel s' => OutOfFuel s'
    | Undefined s' => Undefined s'
    end.
Definition lift {A} (m : St A) : Run A := fun s => let '(a, s') := m s in Ret a s'.

Notation "'let+' x ':=' m 'in' k" := (rbind m (fun x => k))
  (at level 10, x pattern, m at level 100, k at level 200) : stub_scope.

Section Stub.
Context {C : ProtocolConsts}.

(** ** x86 mapping windows *)

(** [ELEMENTS(pThis->aX86MapSlots)], [ELEMENTS(pThis->aSmnMapSlots)] *)
Definition cX86MapSlots : Z := 15.
Definition cSmnMapSlots : Z := 32.

(** The test of the search loop of [pspStubX86PhysMap]: a free slot, or a
    slot that already maps this base with this memory type. *)
Definition x86_slot_usable (PhysBase uMemType' : Z) (m : PSPX86MAPPING) : bool :=
  ((PhysX86AddrBase m =? NIL_X86PADDR) && (cRefs m =? 0))
  || ((PhysX86AddrBase m =? PhysBase) && (uMemType m =? uMemType')).

(** The search loop: the first usable slot at or after index [i]. *)
Fixpoint x86_find_slot (PhysBase uMemType' : Z) (i : nat) (slots : list PSPX86MAPPING)
  : option (nat * PSPX86MAPPING) :=
  match slots with
  | [] => None
  | m :: rest =>
      if x86_slot_usable PhysBase uMemType' m then Some (i, m)
      else x86_find_slot PhysBase uMemType' (S i) rest
  end.

Definition upd_x86_slot (idxSlot : nat) (f : PSPX86MAPPING -> PSPX86MAPPING) : St unit :=
  modify (fun t => set_aX86MapSlots (alter f idxSlot (aX86MapSlots t)) t).

(** The six register stores that program slot [idxSlot]. *)
Definition x86_program_slot (idxSlot PhysBase uMemType' : Z) : St unit :=
  let PspAddrSlotBase := 0x03230000 + idxSlot * 4 * 4 in
  store32 PspAddrSlotBase
    (Z.lor (Z.shiftl (Z.shiftr PhysBase 32) 6) (Z.land (Z.shiftr PhysBase 26) 0x3f)) ;;
  store32 (PspAddrSlotBase + 4) 0x12 ;;
  store32 (PspAddrSlotBase + 8) uMemType' ;;
  store32 (PspAddrSlotBase + 12) uMemType' ;;
  store32 (0x032303e0 + idxSlot * 4) 0xffffffff ;;
  store32 (0x032304d8 + idxSlot * 4) 0xc0000000.

(** [pspStubX86PhysMap]: the status and, on success, the pointer stored
    through [ppv]. *)
Definition pspStubX86PhysMap (PhysX86Addr : Z) (fMmio : bool) : St (Z * option Z) :=
  let uMemType' := if fMmio then 0x6 else 0x4 in
  let PhysBase := align_mask PhysX86Addr _64M in
  let offStart := wrap32 (PhysX86Addr - PhysBase) in
  let* slots := gets aX86MapSlots in
  match x86_find_slot PhysBase uMemType' 0 slots with
  | Some (idxSlot, m) =>
      (if PhysX86AddrBase m =? NIL_X86PADDR then
         upd_x86_slot idxSlot (fun m =>
           {| PhysX86AddrBase := PhysBase; uMemType := uMemType'; cRefs := cRefs m |}) ;;
         x86_program_slot (Z.of_nat idxSlot) PhysBase uMemType'
       else ret tt) ;;
      upd_x86_slot idxSlot (fun m =>
        {| PhysX86AddrBase := PhysX86AddrBase m; uMemType := uMemType m;
           cRefs := wrap32 (cRefs m + 1) |}) ;;
      ret (INF_SUCCESS, Some (wrap32 (0x04000000 + Z.of_nat idxSlot * _64M + offStart)))
  | None => ret (ERR_INVALID_STATE, None)
  end.

(** The six register stores that clear slot [idxSlot]. *)
Definition x86_clear_slot (idxSlot : Z) : St unit :=
  let PspAddrSlotBase := 0x03230000 + idxSlot * 4 * 4 in
  store32 PspAddrSlotBase 0 ;;
  store32 (PspAddrSlotBase + 4) 0 ;;
  store32 (PspAddrSlotBase + 8) 0 ;;
  store32 (PspAddrSlotBase + 12) 0 ;;
  store32 (0x032303e0 + idxSlot * 4) 0xffffffff ;;
  store32 (0x032304d8 + idxSlot * 4) 0.

(** [pspStubX86PhysUnmapByPtr] *)
Definition pspStubX86PhysUnmapByPtr (pv : Z) : St Z :=
  let PspAddrMapBase := wrap32 (align_mask pv _64M - 0x04000000) in
  let idxSlot := PspAddrMapBase / _64M in
  if (idxSlot <? cX86MapSlots) && (PspAddrMapBase mod _64M =? 0) then
    let* slots := gets aX86MapSlots in
    match slots !! Z.to_nat idxSlot with
    | Some m =>
        if 0 <? cRefs m then
          upd_x86_slot (Z.to_nat idxSlot) (fun m =>
            {| PhysX86AddrBase := PhysX86AddrBase m; uMemType := uMemType m;
               cRefs := cRefs m - 1 |}) ;;
          (if cRefs m - 1 =? 0 then
             upd_x86_slot (Z.to_nat idxSlot) (fun m =>
               {| PhysX86AddrBase := NIL_X86PADDR; uMemType := 0; cRefs := cRefs m |}) ;;
             x86_clear_slot idxSlot
           else ret tt) ;;
          ret INF_SUCCESS
        else ret ERR_INVALID_PARAMETER
    | None => ret ERR_INVALID_PARAMETER
    end
  else ret ERR_INVALID_PARAMETER.

(** ** SMN mapping windows *)

Definition smn_slot_usable (SmnBase : Z) (m : PSPSMNMAPPING) : bool :=
  ((SmnAddrBase m =? 0) && (cRefsSmn m =? 0)) || (SmnAddrBase m =? SmnBase).

Fixpoint smn_find_slot (SmnBase : Z) (i : nat) (slots : list PSPSMNMAPPING)
  : option (nat * PSPSMNMAPPING) :=
  match slots with
  | [] => None
  | m :: rest =>
      if smn_slot_usable SmnBase m then Some (i, m)
      else smn_find_slot SmnBase (S i) rest
  end.

Definition upd_smn_slot (idxSlot : nat) (f : PSPSMNMAPPING -> PSPSMNMAPPING) : St unit :=
  modify (fun t => set_aSmnMapSlots (alter f idxSlot (aSmnMapSlots t)) t).

(** [pspStubSmnPhysMap] *)
Definition pspStubSmnPhysMap (SmnAddr : Z) : St (Z * option Z) :=
  let SmnBase := wrap32 (align_mask SmnAddr _1M) in
  let offStart := wrap32 (SmnAddr - SmnBase) in
  let* slots := gets aSmnMapSlots in
  match smn_find_slot SmnBase 0 slots with
  | Some (idxSlot, m) =>
      (if SmnAddrBase m =? 0 then
         upd_smn_slot idxSlot (fun m => {| SmnAddrBase := SmnBase; cRefsSmn := cRefsSmn m |}) ;;
         let PspAddrSlotBase := 0x03220000 + (Z.of_nat idxSlot / 2) * 4 in
         let* u32RegSmnMapCtrl := load32 PspAddrSlotBase in
         store32 PspAddrSlotBase
           (if Z.odd (Z.of_nat idxSlot)
            then Z.lor u32RegSmnMapCtrl (wrap32 (Z.shiftl (Z.shiftr SmnBase 20) 16))
            else Z.lor u32RegSmnMapCtrl (Z.shiftr SmnBase 20))
       else ret tt) ;;
      upd_smn_slot idxSlot (fun m =>
        {| SmnAddrBase := SmnAddrBase m; cRefsSmn := wrap32 (cRefsSmn m + 1) |}) ;;
      ret (INF_SUCCESS, Some (wrap32 (0x01000000 + Z.of_nat idxSlot * _1M + offStart)))
  | None => ret (ERR_INVALID_STATE, None)
  end.

(** [pspStubSmnUnmapByPtr] *)
Definition pspStubSmnUnmapByPtr (pv : Z) : St Z :=
  let PspAddrMapBase := wrap32 (align_mask pv _1M - 0x01000000) in
  let idxSlot := PspAddrMapBase / _1M in
  if (idxSlot <? cSmnMapSlots) && (PspAddrMapBase mod _1M =? 0) then
    let* slots := gets aSmnMapSlots in
    match slots !! Z.to_nat idxSlot with
    | Some m =>
        if 0 <? cRefsSmn m then
          upd_smn_slot (Z.to_nat idxSlot) (fun m =>
            {| SmnAddrBase := SmnAddrBase m; cRefsSmn := cRefsSmn m - 1 |}) ;;
          (if cRefsSmn m - 1 =? 0 then
             upd_smn_slot (Z.to_nat idxSlot) (fun m =>
               {| SmnAddrBase := 0; cRefsSmn := cRefsSmn m |}) ;;
             let PspAddrSlotBase := 0x03220000 + (idxSlot / 2) * 4 in
             let* u32RegSmnMapCtrl := load32 PspAddrSlotBase in
             store32 PspAddrSlotBase
               (if Z.odd idxSlot
                then Z.land u32RegSmnMapCtrl 0xffff
                else Z.land u32RegSmnMapCtrl 0xffff0000)
           else ret tt) ;;
          ret INF_SUCCESS
        else ret ERR_INVALID_PARAMETER
    | None => ret ERR_INVALID_PARAMETER
    end
  else ret ERR_INVALID_PARAMETER.

(** ** Millisecond timekeeper *)

(** Modelled from the spec: [TMTick] / [TMGetMillies] of [tm.h] advance and
    read the millisecond accumulator. *)
Definition TMTick (tm : Z) : Z := tm + 1.
Definition TMGetMillies (tm : Z) : Z := wrap32 tm.

(** [while (cTicksPassed >= 100 * 1000) { TMTick(); cTicksPassed -= 100 * 1000; }] *)
Fixpoint timer_whole_ms (n : nat) (tm cTicksPassed : Z) : Z * Z :=
  match n with
  | O => (tm, cTicksPassed)
  | S n' =>
      if 100 * 1000 <=? cTicksPassed
      then timer_whole_ms n' (TMTick tm) (cTicksPassed - 100 * 1000)
      else (tm, cTicksPassed)
  end.

(** [pspStubTimerHandle]; the loop runs at most [cTicksPassed / 100000] times. *)
Definition pspStubTimerHandle : St unit :=
  let* cnts := read_counter in
  let* t := gets Timer in
  let cTicksPassed :=
    if cCnts t <=? cnts then wrap32 (cnts - cCnts t)
    else wrap32 (cnts + (0xffffffff - cCnts t) + 1) in
  let '(tm1, cTicksPassed1) :=
    timer_whole_ms (Z.to_nat (cTicksPassed / (100 * 1000))) (Tm t) cTicksPassed in
  let cTicksPassed2 := wrap32 (cTicksPassed1 + cSubMsTicks t) in
  let '(tm2, cTicksPassed3) :=
    if 100 * 1000 <=? cTicksPassed2
    then (TMTick tm1, cTicksPassed2 - 100 * 1000)
    else (tm1, cTicksPassed2) in
  modify (set_Timer {| Tm := tm2; cCnts := cnts; cSubMsTicks := cTicksPassed3 |}).

(** [pspStubTimerGetMillies] / [pspStubGetMillies] *)
Definition pspStubGetMillies : St Z :=
  pspStubTimerHandle ;;
  gets (fun t => TMGetMillies (Tm (Timer t))).

(** [pspStubTimerInit] *)
Definition pspStubTimerInit : St Z :=
  let* rc := getw rc_TMInit in
  if rc =? 0 then
    modify (fun t => set_Timer {| Tm := 0; cCnts := 0; cSubMsTicks := 0 |} t) ;;
    store32 (0x03010424 + 32) 0 ;;
    store32 0x03010424 0x101 ;;
    ret rc
  else ret rc.

(** ** PDU framer *)

(** A payload pointer: an address of the local address space (0 is [NULL])
    or a buffer of the caller (a local array or struct). *)
Inductive PayloadPtr :=
| AtAddr (a : Z)
| InBuf (b : list Z).

Definition payload_is_null (p : PayloadPtr) : bool :=
  match p with AtAddr a => a =? 0 | InBuf _ => false end.

(** The [cb] bytes [pbPayload[0 .. cb)]. *)
Definition payload_bytes (w : World) (p : PayloadPtr) (cb : Z) : list Z :=
  match p with
  | AtAddr a => mem_read (mem w) a cb
  | InBuf b => buf_read b 0 cb
  end.

(** The footer checksum over a running sum. *)
Definition chksum_of (uChkSum : Z) : Z := wrap32 ((0xffffffff - uChkSum) + 1).

(** The first half of [pspStubPduSend], "Initialize header and footer":
    the counter is pre-incremented, the clock is read, the checksum runs over
    the header's byte view and the payload.  It yields the header, the
    payload bytes the checksum loop read, and the footer. *)
Definition pspStubPduSend_init (rcReq' idCcd' enmPduRrnId : Z) (pvPayload : PayloadPtr)
  (cbPayload : Z) : St (PSPSERIALPDUHDR * list Z * PSPSERIALPDUFOOTER) :=
  modify (fun t => set_cPdusSent (wrap32 (cPdusSent t + 1)) t) ;;
  let* cnt := gets cPdusSent in
  let* ts := pspStubGetMillies in
  let PduHdr :=
    {| u32Magic := PSP_SERIAL_PSP_2_EXT_PDU_START_MAGIC;
       cbPdu := wrap32 cbPayload;
       cPdus := cnt;
       enmRrnId := wrap16 enmPduRrnId;
       idCcd := wrap16 idCcd';
       rcReq := rcReq';
       tsMillies := ts |} in
  let* pbPayload := getw (fun w => payload_bytes w pvPayload cbPayload) in
  let uChkSum := sum_bytes (sum_bytes 0 (hdr_ab PduHdr)) pbPayload in
  let PduFooter :=
    {| u32ChkSum := chksum_of uChkSum;
       u32MagicEnd := PSP_SERIAL_PSP_2_EXT_PDU_END_MAGIC |} in
  ret (PduHdr, pbPayload, PduFooter).

(** The second half, "Send everything, header first, then payload and
    footer last". *)
Definition pspStubPduSend_xmit (pvPayload : PayloadPtr) (cbPayload : Z)
  (pdu : PSPSERIALPDUHDR * list Z * PSPSERIALPDUFOOTER) : St Z :=
  let '(PduHdr, pbPayload, PduFooter) := pdu in
  let* rc := PSPUartWrite (BufHdr PduHdr) in
  let* rc :=
    (if (rc =? 0) && negb (payload_is_null pvPayload) && negb (cbPayload =? 0)
     then PSPUartWrite (BufPayload pbPayload) else ret rc) in
  let* rc := (if rc =? 0 then PSPUartWrite (BufFooter PduFooter) else ret rc) in
  ret rc.

(** [pspStubPduSend] *)
Definition pspStubPduSend (rcReq' idCcd' enmPduRrnId : Z) (pvPayload : PayloadPtr) (cbPayload : Z)
  : St Z :=
  let* pdu := pspStubPduSend_init rcReq' idCcd' enmPduRrnId pvPayload cbPayload in
  pspStubPduSend_xmit pvPayload cbPayload pdu.

(** ** PDU parser *)

(** [sizeof(pThis->abPdu)] *)
Definition cbAbPdu : Z := _4K.

(** [pspStubPduRecvReset] *)
Definition pspStubPduRecvReset : St unit :=
  modify (set_parser PSPSERIALPDURECVSTATE_HDR cbPduHdr 0).

(** [pspStubPduHdrValidate] *)
Definition pspStubPduHdrValidate (t : PSPSTUBSTATE) (pHdr : PSPSERIALPDUHDR) : Z :=
  if negb (u32Magic pHdr =? PSP_SERIAL_EXT_2_PSP_PDU_START_MAGIC) then -1
  else if cbAbPdu - cbPduHdr - cbPduFooter <? cbPdu pHdr then -1
  else if (enmRrnId pHdr <? PSPSERIALPDURRNID_REQUEST_FIRST)
          || (PSPSERIALPDURRNID_REQUEST_INVALID_FIRST <=? enmRrnId pHdr) then -1
  else if negb (cPdus pHdr =? cPduRecvNext t) then -1
  else if cCcds t <=? idCcd pHdr then -1
  else 0.

(** The running sum [pspStubPduValidate] computes over the PDU that starts
    [buf]: the header's byte view, then [cbPdu] payload bytes. *)
Definition recv_chksum (buf : list Z) : Z :=
  sum_bytes (sum_bytes 0 (buf_read buf 4 cbHdrAb))
            (buf_read buf cbPduHdr (cbPdu (hdr_at buf))).

(** The footer that follows the payload. *)
Definition footer_at (buf : list Z) : PSPSERIALPDUFOOTER :=
  let off := cbPduHdr + cbPdu (hdr_at buf) in
  {| u32ChkSum := le_val (buf_read buf off 4);
     u32MagicEnd := le_val (buf_read buf (off + 4) 4) |}.

(** [pspStubPduValidate] *)
Definition pspStubPduValidate (buf : list Z) : Z :=
  let pFooter := footer_at buf in
  if negb (wrap32 (recv_chksum buf + u32ChkSum pFooter) =? 0)
     || negb (u32MagicEnd pFooter =? PSP_SERIAL_EXT_2_PSP_PDU_END_MAGIC)
  then -1 else 0.

(** A [PCPSPSERIALPDUHDR] the receive path hands out: [NULL] (or never
    set), or the start of [abPdu]. *)
Inductive PduPtr := PduNull | PduBuf.

(** [pspStubPduRecvAdvance]: the status and the pointer stored through
    [ppPduRcvd]. *)
Definition pspStubPduRecvAdvance : St (Z * PduPtr) :=
  let* e := gets enmPduRecvState in
  match e with
  | PSPSERIALPDURECVSTATE_HDR =>
      let* t := gets id in
      let pHdr := hdr_at (abPdu t) in
      (if pspStubPduHdrValidate t pHdr =? 0 then
         if negb (cbPdu pHdr =? 0)
         then modify (fun t => set_parser PSPSERIALPDURECVSTATE_PAYLOAD (cbPdu pHdr) (offPduRecv t) t)
         else modify (fun t => set_parser PSPSERIALPDURECVSTATE_FOOTER cbPduFooter (offPduRecv t) t)
       else pspStubPduRecvReset) ;;
      ret (INF_SUCCESS, PduNull)
  | PSPSERIALPDURECVSTATE_PAYLOAD =>
      modify (fun t => set_parser PSPSERIALPDURECVSTATE_FOOTER cbPduFooter (offPduRecv t) t) ;;
      ret (INF_SUCCESS, PduNull)
  | PSPSERIALPDURECVSTATE_FOOTER =>
      let* buf := gets abPdu in
      let rc := pspStubPduValidate buf in
      (if rc =? 0
       then modify (fun t => set_cPduRecvNext (wrap32 (cPduRecvNext t + 1)) t)
       else ret tt) ;;
      pspStubPduRecvReset ;;
      ret (rc, if rc =? 0 then PduBuf else PduNull)
  | PSPSERIALPDURECVSTATE_INVALID => ret (ERR_INVALID_STATE, PduNull)
  end.

(** One turn of the body of the [do ... while] of [pspStubPduRecv]: the new
    status, the new [*ppPduRcvd], and whether the body left through
    [break]. *)
Definition recv_poll (rc : Z) (pPdu : PduPtr) : St (Z * PduPtr * bool) :=
  let* cbAvail := PSPUartGetDataAvail in
  if negb (cbAvail =? 0) then
    let* cbLeft := gets cbPduRecvLeft in
    let* off := gets offPduRecv in
    let cbThisRecv := Z.min cbAvail cbLeft in
    let* rc := PSPUartRead off cbThisRecv in
    if rc =? 0 then
      modify (fun t => set_parser (enmPduRecvState t)
                         (wrap32 (cbPduRecvLeft t - cbThisRecv))
                         (wrap32 (offPduRecv t + cbThisRecv)) t) ;;
      let* cbLeft := gets cbPduRecvLeft in
      if cbLeft =? 0 then
        let* (rc, pPdu) := pspStubPduRecvAdvance in
        match pPdu with
        | PduBuf => ret (rc, pPdu, rc =? 0)
        | PduNull => ret (rc, pPdu, false)
        end
      else ret (rc, pPdu, false)
    else ret (rc, pPdu, false)
  else ret (rc, pPdu, false).

(** The loop condition
    [!rc && (pspStubGetMillies(pThis) - tsStartMs < cMillies) || (cMillies == PSP_SERIAL_STUB_INDEFINITE_WAIT)]:
    [&&] binds tighter than [||], and the clock is read only when [!rc]. *)
Definition recv_again (tsStartMs cMillies rc : Z) : St bool :=
  let* in_time :=
    (if rc =? 0
     then let* now := pspStubGetMillies in ret (wrap32 (now - tsStartMs) <? cMillies)
     else ret false) in
  ret (in_time || (cMillies =? PSP_SERIAL_STUB_INDEFINITE_WAIT)).

(** The [do ... while] loop of [pspStubPduRecv]. *)
Fixpoint pspStubPduRecv_loop (fuel : nat) (tsStartMs cMillies rc : Z) (pPdu : PduPtr)
  : Run (Z * PduPtr) :=
  match fuel with
  | O => fun s => OutOfFuel s
  | S fuel' =>
      let+ (rc, pPdu, brk) := lift (recv_poll rc pPdu) in
      if brk : bool then rret (rc, pPdu)
      else
        let+ again := lift (recv_again tsStartMs cMillies rc) in
        if again : bool then pspStubPduRecv_loop fuel' tsStartMs cMillies rc pPdu
        else rret (rc, pPdu)
  end.

(** [pspStubPduRecv]: the status and [*ppPduRcvd]. *)
Definition pspStubPduRecv (fuel : nat) (cMillies : Z) : Run (Z * PduPtr) :=
  let+ tsStartMs := lift pspStubGetMillies in
  let+ (rc, pPdu) := pspStubPduRecv_loop fuel tsStartMs cMillies INF_SUCCESS PduNull in
  let+ now := lift pspStubGetMillies in
  rret (if cMillies <=? wrap32 (tsStartMs + now) then INF_TRY_AGAIN else rc, pPdu).

(** The payload of the connect response.  Modelled from the spec:
    [PSPSERIALCONNECTRESP] is declared in [psp-stub/psp-serial-stub.h]; six
    32-bit fields in the order the source fills them. *)
Definition connect_resp : list Z :=
  le_bytes 4 cbAbPdu ++ le_bytes 4 (16 * _1K) ++ le_bytes 4 PspAddrScratch
  ++ le_bytes 4 1 ++ le_bytes 4 1 ++ le_bytes 4 0.

(** [pspStubCheckConnection] *)
Definition pspStubCheckConnection (fuel : nat) (cMillies : Z) : Run Z :=
  let+ (rc, pPdu) := pspStubPduRecv fuel cMillies in
  if rc =? INF_SUCCESS then
    match pPdu with
    | PduNull => fun s => Undefined s
    | PduBuf =>
        let+ tag := lift (gets (fun t => enmRrnId (hdr_at (abPdu t)))) in
        if tag =? PSPSERIALPDURRNID_REQUEST_CONNECT then
          let+ _ := lift (modify (set_cPdusSent 0)) in
          let+ rc := lift (pspStubPduSend INF_SUCCESS 0 PSPSERIALPDURRNID_RESPONSE_CONNECT
                             (InBuf connect_resp) (Z.of_nat (length connect_resp))) in
          let+ _ := lift (if rc =? 0 then modify (set_fConnected true) else ret tt) in
          rret INF_SUCCESS
        else rret INF_SUCCESS
    end
  else rret INF_SUCCESS.

(** ** Request handlers *)

(** Modelled from the spec: the request structures
    ([PSPSERIALPSPMEMXFERREQ], [PSPSERIALSMNMEMXFERREQ],
    [PSPSERIALX86MEMXFERREQ]) are declared in [psp-stub/psp-serial-stub.h];
    each is a 64-bit start address followed by a 32-bit transfer length, and
    the bytes to write follow the structure, at [(pReq + 1)], i.e. at offset
    [pvPayload + cbXferReq] of [abPdu]. *)
Definition cbXferReq : Z := 12.
Definition req_addr (buf : list Z) (pvPayload : Z) : Z := le_val (buf_read buf pvPayload 8).
Definition req_cbXfer (buf : list Z) (pvPayload : Z) : Z := le_val (buf_read buf (pvPayload + 8) 4).

(** The widths [pspStubMmioAccess] performs an access for. *)
Definition mmio_width (cb : Z) : bool :=
  (cb =? 1) || (cb =? 2) || (cb =? 4) || (cb =? 8).

(** [pspStubMmioAccess(&abRead[0], pvSrc, cb)]: the bytes the array holds
    afterwards (nothing is read for any other width). *)
Definition pspStubMmioAccess_load (pvSrc cb : Z) : St (list Z) :=
  if mmio_width cb then getw (fun w => mem_read (mem w) pvSrc cb) else ret [].

(** Whether the [n] bytes from the local address [a] meet the range [r]. *)
Definition range_meets (a n : Z) (r : Z * Z) : bool :=
  (a <? snd r) && (fst r <? a + n).

(** The members of [g_StubState] from [aX86MapSlots] to [abPdu] lie right
    in front of [abScratch]: fifteen slots of 16 bytes, thirty-two of 8,
    eight 32-bit words ([cCcds], [fConnected] with its padding,
    [cBeaconsSent], [cPdusSent], [cPduRecvNext], [enmPduRecvState],
    [cbPduRecvLeft], [offPduRecv]; the PSP is a 32-bit core) and the 4 KiB of
    [abPdu]. *)
Definition cbStubStateTail : Z := 15 * 16 + 32 * 8 + 8 * 4 + cbAbPdu.

(** A store of [n] bytes to the local address [a] that runs into the stub
    itself -- those members of [g_StubState], or the rest of its image -- or
    off the end of the 32-bit address space. *)
Definition store_strays (a n : Z) : bool :=
  range_meets a n (PspAddrScratch - cbStubStateTail, PspAddrScratch)
  || existsb (range_meets a n) stub_image
  || (2 ^ 32 <? a + n).

(** A copy of [n] bytes from offset [off] of [abPdu] that reads on behind
    the buffer, into [abScratch] and what follows it. *)
Definition copy_overruns (off n : Z) : bool := cbAbPdu <? off + n.

(** [cb] bytes go from offset [offSrc] of [abPdu] to the local address
    [pvDst].  Neither the source nor the destination range is checked by the
    code: the bytes land in [mem], and a transfer that stores into the stub
    itself, or takes bytes from behind [abPdu], is recorded in [strayed]. *)
Definition xfer_to_mem (pvDst : Z) (buf : list Z) (offSrc cb : Z) (w : World) : World :=
  set_strayed
    (strayed w || ((0 <? cb) && (store_strays pvDst cb || copy_overruns offSrc cb)))
    (set_mem (mem_write (mem w) pvDst (buf_read buf offSrc cb)) w).

(** [pspStubMmioAccess(pvDst, (pReq + 1), cb)], [(pReq + 1)] being offset
    [offSrc] of [abPdu] (nothing is stored for any other width). *)
Definition pspStubMmioAccess_store (pvDst : Z) (buf : list Z) (offSrc cb : Z) : St unit :=
  if mmio_width cb then modifyw (xfer_to_mem pvDst buf offSrc cb) else ret tt.

(** [memcpy(pvDst, (pReq + 1), cb)], [(pReq + 1)] being offset [offSrc] of
    [abPdu]. *)
Definition memcpy_to_mem (pvDst : Z) (buf : list Z) (offSrc cb : Z) : St unit :=
  modifyw (xfer_to_mem pvDst buf offSrc cb).

Definition NULL : PayloadPtr := AtAddr 0.

(** [pspStubPduProcessPspMemXfer] *)
Definition pspStubPduProcessPspMemXfer (pvPayload cbPayload : Z) (fWrite : bool) : St Z :=
  if cbPayload <? cbXferReq then ret ERR_INVALID_PARAMETER
  else
    let* buf := gets abPdu in
    let PspAddrStart := wrap32 (req_addr buf pvPayload) in
    let cbXfer := req_cbXfer buf pvPayload in
    if fWrite then
      memcpy_to_mem PspAddrStart buf (pvPayload + cbXferReq) cbXfer ;;
      pspStubPduSend INF_SUCCESS 0 PSPSERIALPDURRNID_RESPONSE_PSP_MEM_WRITE NULL 0
    else
      pspStubPduSend INF_SUCCESS 0 PSPSERIALPDURRNID_RESPONSE_PSP_MEM_READ
        (AtAddr PspAddrStart) cbXfer.

(** [pspStubPduProcessPspMmioXfer] *)
Definition pspStubPduProcessPspMmioXfer (pvPayload cbPayload : Z) (fWrite : bool) : St Z :=
  let* buf := gets abPdu in
  if (cbPayload <? cbXferReq) || negb (mmio_width (req_cbXfer buf pvPayload))
  then ret ERR_INVALID_PARAMETER
  else
    let PspAddrStart := wrap32 (req_addr buf pvPayload) in
    let cbXfer := req_cbXfer buf pvPayload in
    if fWrite then
      pspStubMmioAccess_store PspAddrStart buf (pvPayload + cbXferReq) cbXfer ;;
      pspStubPduSend INF_SUCCESS 0 PSPSERIALPDURRNID_RESPONSE_PSP_MEM_WRITE NULL 0
    else
      let* abRead := pspStubMmioAccess_load PspAddrStart cbXfer in
      pspStubPduSend INF_SUCCESS 0 PSPSERIALPDURRNID_RESPONSE_PSP_MEM_READ
        (InBuf abRead) cbXfer.

(** [pspStubPduProcessPspSmnXfer] *)
Definition pspStubPduProcessPspSmnXfer (pvPayload cbPayload : Z) (fWrite : bool) : St Z :=
  let* buf := gets abPdu in
  if (cbPayload <? cbXferReq) || negb (mmio_width (req_cbXfer buf pvPayload))
  then ret ERR_INVALID_PARAMETER
  else
    let cbXfer := req_cbXfer buf pvPayload in
    let enmResponse :=
      if fWrite then PSPSERIALPDURRNID_RESPONSE_PSP_SMN_WRITE
      else PSPSERIALPDURRNID_RESPONSE_PSP_SMN_READ in
    let* (rc, ppv) := pspStubSmnPhysMap (wrap32 (req_addr buf pvPayload)) in
    let pvMap := default 0 ppv in
    if rc =? 0 then
      let* rc :=
        (if fWrite then
           pspStubMmioAccess_store pvMap buf (pvPayload + cbXferReq) cbXfer ;;
           pspStubPduSend INF_SUCCESS 0 enmResponse NULL 0
         else
           let* abRead := pspStubMmioAccess_load pvMap cbXfer in
           pspStubPduSend INF_SUCCESS 0 enmResponse (InBuf abRead) cbXfer) in
      let* _ := pspStubSmnUnmapByPtr pvMap in
      ret rc
    else pspStubPduSend rc 0 enmResponse NULL 0.

(** [pspStubPduProcessPspX86MemXfer] *)
Definition pspStubPduProcessPspX86MemXfer (pvPayload cbPayload : Z) (fWrite : bool) : St Z :=
  if cbPayload <? cbXferReq then ret ERR_INVALID_PARAMETER
  else
    let* buf := gets abPdu in
    let enmResponse :=
      if fWrite then PSPSERIALPDURRNID_RESPONSE_PSP_X86_MEM_WRITE
      else PSPSERIALPDURRNID_RESPONSE_PSP_X86_MEM_READ in
    let* (rc, ppv) := pspStubX86PhysMap (req_addr buf pvPayload) false in
    let pvMap := default 0 ppv in
    if rc =? 0 then
      let cbXfer := req_cbXfer buf pvPayload in
      let* rc :=
        (if fWrite then
           memcpy_to_mem pvMap buf (pvPayload + cbXferReq) cbXfer ;;
           pspStubPduSend INF_SUCCESS 0 enmResponse NULL 0
         else pspStubPduSend INF_SUCCESS 0 enmResponse (AtAddr pvMap) cbXfer) in
      let* _ := pspStubX86PhysUnmapByPtr pvMap in
      ret rc
    else pspStubPduSend rc 0 enmResponse NULL 0.

(** [pspStubPduProcessPspX86MmioXfer] (it maps with [fMmio = false], as the
    source does) *)
Definition pspStubPduProcessPspX86MmioXfer (pvPayload cbPayload : Z) (fWrite : bool) : St Z :=
  let* buf := gets abPdu in
  if (cbPayload <? cbXferReq) || negb (mmio_width (req_cbXfer buf pvPayload))
  then ret ERR_INVALID_PARAMETER
  else
    let cbXfer := req_cbXfer buf pvPayload in
    let enmResponse :=
      if fWrite then PSPSERIALPDURRNID_RESPONSE_PSP_X86_MMIO_WRITE
      else PSPSERIALPDURRNID_RESPONSE_PSP_X86_MMIO_READ in
    let* (rc, ppv) := pspStubX86PhysMap (req_addr buf pvPayload) false in
    let pvMap := default 0 ppv in
    if rc =? 0 then
      let* rc :=
        (if fWrite then
           pspStubMmioAccess_store pvMap buf (pvPayload + cbXferReq) cbXfer ;;
           pspStubPduSend INF_SUCCESS 0 enmResponse NULL 0
         else
           let* abRead := pspStubMmioAccess_load pvMap cbXfer in
           pspStubPduSend INF_SUCCESS 0 enmResponse (InBuf abRead) cbXfer) in
      let* _ := pspStubX86PhysUnmapByPtr pvMap in
      ret rc
    else pspStubPduSend rc 0 enmResponse NULL 0.

(** [pspStubPduProcess] for the PDU at the start of [abPdu]; [(pPdu + 1)] is
    offset [cbPduHdr]. *)
Definition pspStubPduProcess : St Z :=
  let* pPdu := gets (fun t => hdr_at (abPdu t)) in
  let id := enmRrnId pPdu in
  let pv := cbPduHdr in
  let cb := cbPdu pPdu in
  if id =? PSPSERIALPDURRNID_REQUEST_PSP_MEM_READ then pspStubPduProcessPspMemXfer pv cb false
  else if id =? PSPSERIALPDURRNID_REQUEST_PSP_MEM_WRITE then pspStubPduProcessPspMemXfer pv cb true
  else if id =? PSPSERIALPDURRNID_REQUEST_PSP_MMIO_READ then pspStubPduProcessPspMmioXfer pv cb false
  else if id =? PSPSERIALPDURRNID_REQUEST_PSP_MMIO_WRITE then pspStubPduProcessPspMmioXfer pv cb true
  else if id =? PSPSERIALPDURRNID_REQUEST_PSP_SMN_READ then pspStubPduProcessPspSmnXfer pv cb false
  else if id =? PSPSERIALPDURRNID_REQUEST_PSP_SMN_WRITE then pspStubPduProcessPspSmnXfer pv cb true
  else if id =? PSPSERIALPDURRNID_REQUEST_PSP_X86_MEM_READ then pspStubPduProcessPspX86MemXfer pv cb false
  else if id =? PSPSERIALPDURRNID_REQUEST_PSP_X86_MEM_WRITE then pspStubPduProcessPspX86MemXfer pv cb true
  else if id =? PSPSERIALPDURRNID_REQUEST_PSP_X86_MMIO_READ then pspStubPduProcessPspX86MmioXfer pv cb false
  else if id =? PSPSERIALPDURRNID_REQUEST_PSP_X86_MMIO_WRITE then pspStubPduProcessPspX86MmioXfer pv cb true
  else ret INF_SUCCESS.

(** ** Session control *)

(** The beacon loop of [pspStubMainloop].  ([LogRel] only fills the logger's
    buffer; the logger of [log.h] decides when [pspStubLogFlush] runs.) *)
Fixpoint pspStubMainloop_beacon (fuel : nat) (rc : Z) : Run Z :=
  match fuel with
  | O => fun s => OutOfFuel s
  | S fuel' =>
      let+ conn := lift (gets fConnected) in
      if negb conn && (rc =? 0) then
        let+ _ := lift (modify (fun t => set_cBeaconsSent (wrap32 (cBeaconsSent t + 1)) t)) in
        let+ n := lift (gets cBeaconsSent) in
        let+ rc := lift (pspStubPduSend INF_SUCCESS 0 PSPSERIALPDURRNID_NOTIFICATION_BEACON
                           (InBuf (le_bytes 4 n ++ le_bytes 4 0)) 8) in
        let+ rc := (if rc =? 0 then pspStubCheckConnection fuel' 1000 else rret rc) in
        pspStubMainloop_beacon fuel' rc
      else rret rc
  end.

(** One turn of the [for (;;)] of the connected phase: the status it leaves
    in [rc]. *)
Definition pspStubMainloop_turn (fuel : nat) : Run Z :=
  let+ (rc, pPdu) := pspStubPduRecv fuel PSP_SERIAL_STUB_INDEFINITE_WAIT in
  if rc =? 0 then
    match pPdu with
    | PduBuf => lift pspStubPduProcess
    | PduNull => fun s => Undefined s
    end
  else rret rc.

(** The [for (;;)] of the connected phase. *)
Fixpoint pspStubMainloop_connected (fuel : nat) : Run Z :=
  match fuel with
  | O => fun s => OutOfFuel s
  | S fuel' =>
      let+ _ := pspStubMainloop_turn fuel' in
      pspStubMainloop_connected fuel'
  end.

(** [pspStubMainloop] *)
Definition pspStubMainloop (fuel : nat) : Run Z :=
  let+ rc := pspStubMainloop_beacon fuel INF_SUCCESS in
  let+ conn := lift (gets fConnected) in
  if (rc =? 0) && conn then pspStubMainloop_connected fuel else rret rc.


(** The stub state [main] sets up before it maps the UART. *)
Definition main_init (t : PSPSTUBSTATE) : PSPSTUBSTATE :=
  {| Timer := Timer t;
     aX86MapSlots :=
       replicate (Z.to_nat cX86MapSlots)
         {| PhysX86AddrBase := NIL_X86PADDR; uMemType := 0; cRefs := 0 |};
     aSmnMapSlots :=
       replicate (Z.to_nat cSmnMapSlots) {| SmnAddrBase := 0; cRefsSmn := 0 |};
     cCcds := 1;
     fConnected := false;
     cBeaconsSent := 0;
     cPdusSent := 0;
     cPduRecvNext := 1;
     enmPduRecvState := PSPSERIALPDURECVSTATE_HDR;
     cbPduRecvLeft := cbPduHdr;
     offPduRecv := 0;
     abPdu := abPdu t |}.

(** [main]: it never returns; on every path it ends in [for (;;);]. *)
Definition main (fuel : nat) : Run unit :=
  let+ _ := lift (modify main_init) in
  let+ (rc, _) := lift (pspStubX86PhysMap 0xfffdfc0003f8 true) in
  let+ rc := (if rc =? 0 then lift (getw rc_PSPUartCreate) else rret rc) in
  let+ rc := (if rc =? 0 then lift (getw rc_PSPUartParamsSet) else rret rc) in
  let+ rc := (if rc =? 0 then lift pspStubTimerInit else rret rc) in
  let+ rc := (if rc =? 0 then lift (getw rc_LOGLoggerInit) else rret rc) in
  let+ _ := (if rc =? 0 then pspStubMainloop fuel else rret rc) in
  fun s => OutOfFuel s.

(** ** Inputs to run the model on *)

(** A powered-up machine: zeroed stub state, quiet UART, counter at 0. *)
Definition world0 : World :=
  {| uart_fifo := []; uart_arrivals := []; uart_rd_rcs := []; uart_wr_rcs := [];
     uart_tx := []; cnt_now := 0; cnt_script := []; mem := ∅; reg_log := [];
     strayed := false; rc_PSPUartCreate := 0; rc_PSPUartParamsSet := 0; rc_TMInit := 0;
     rc_LOGLoggerInit := 0 |}.

Definition stub0 : PSPSTUBSTATE :=
  {| Timer := {| Tm := 0; cCnts := 0; cSubMsTicks := 0 |};
     aX86MapSlots := replicate 15 {| PhysX86AddrBase := 0; uMemType := 0; cRefs := 0 |};
     aSmnMapSlots := replicate 32 {| SmnAddrBase := 0; cRefsSmn := 0 |};
     cCcds := 0; fConnected := false; cBeaconsSent := 0; cPdusSent := 0;
     cPduRecvNext := 0; enmPduRecvState := PSPSERIALPDURECVSTATE_INVALID;
     cbPduRecvLeft := 0; offPduRecv := 0; abPdu := replicate 4096 0 |}.

(** The machine at power-up, before [main] runs. *)
Definition powered_up : Sys := {| stub := stub0; hw := world0 |}.

(** The state in which [main] enters [pspStubMainloop]: tables initialised,
    UART window mapped in slot 0, timer started. *)
Definition booted : Sys :=
  let s1 := snd (modify main_init powered_up) in
  let s2 := snd (pspStubX86PhysMap 0xfffdfc0003f8 true s1) in
  snd (pspStubTimerInit s2).

(** A request PDU as the peer frames it. *)
Definition request_pdu (counter tag : Z) (payload : list Z) : list Z :=
  let h := {| u32Magic := PSP_SERIAL_EXT_2_PSP_PDU_START_MAGIC;
              cbPdu := Z.of_nat (length payload); cPdus := counter;
              enmRrnId := tag; idCcd := 0; rcReq := 0; tsMillies := 0 |} in
  hdr_bytes h ++ payload
  ++ footer_bytes {| u32ChkSum := chksum_of (sum_bytes (sum_bytes 0 (hdr_ab h)) payload);
                     u32MagicEnd := PSP_SERIAL_EXT_2_PSP_PDU_END_MAGIC |}.

(** The payload of a memory-transfer request. *)
Definition xfer_req (addr cbXfer : Z) (data : list Z) : list Z :=
  le_bytes 8 addr ++ le_bytes 4 cbXfer ++ data.

(** The machine [s] with the peer's bytes about to arrive: one chunk before
    each successive poll. *)
Definition with_rx (arrivals : list (list Z)) (s : Sys) : Sys :=
  {| stub := stub s; hw := set_uart_rx (uart_fifo (hw s)) arrivals (uart_rd_rcs (hw s)) (hw s) |}.

(** The machine [s] with the values the next reads of the counter return. *)
Definition with_clock (script : list Z) (s : Sys) : Sys :=
  {| stub := stub s; hw := set_cnt (cnt_now (hw s)) script (hw s) |}.

(** The machine [s] with a PDU sitting at the start of the receive buffer. *)
Definition with_pdu (pdu : list Z) (s : Sys) : Sys :=
  {| stub := set_abPdu (buf_write (abPdu (stub s)) 0 pdu) (stub s); hw := hw s |}.


(** The machine [s] with its x86 mapping table replaced. *)
Definition with_x86_slots (slots : list PSPX86MAPPING) (s : Sys) : Sys :=
  {| stub := set_aX86MapSlots slots (stub s); hw := hw s |}.

(** The state a run ends in, whichever way it ends. *)
Definition final_state {A} (r : Res A) : Sys :=
  match r with Ret _ s => s | OutOfFuel s => s | Undefined s => s end.

End Stub.

(** * Specification vocabulary

    The predicates and functions the theorems below are stated with. *)

Section Vocabulary.
Context {C : ProtocolConsts}.

(** ** Allocator *)

(** The register stores of [x86_program_slot], in program order. *)
Definition x86_program_stores (idxSlot PhysBase uMemType' : Z) : list (Z * Z) :=
  [ (0x03230000 + idxSlot * 4 * 4,
     wrap32 (Z.lor (Z.shiftl (Z.shiftr PhysBase 32) 6) (Z.land (Z.shiftr PhysBase 26) 0x3f)));
    (0x03230000 + idxSlot * 4 * 4 + 4, 0x12);
    (0x03230000 + idxSlot * 4 * 4 + 8, wrap32 uMemType');
    (0x03230000 + idxSlot * 4 * 4 + 12, wrap32 uMemType');
    (0x032303e0 + idxSlot * 4, 0xffffffff);
    (0x032304d8 + idxSlot * 4, 0xc0000000) ].

(** The register stores of [x86_clear_slot], in program order. *)
Definition x86_clear_stores (idxSlot : Z) : list (Z * Z) :=
  [ (0x03230000 + idxSlot * 4 * 4, 0);
    (0x03230000 + idxSlot * 4 * 4 + 4, 0);
    (0x03230000 + idxSlot * 4 * 4 + 8, 0);
    (0x03230000 + idxSlot * 4 * 4 + 12, 0);
    (0x032303e0 + idxSlot * 4, 0xffffffff);
    (0x032304d8 + idxSlot * 4, 0) ].

(** ** Framer *)

(** The plain sum of a byte string. *)
Definition byte_total (bs : list Z) : Z := fold_right Z.add 0 bs.

(** The UART writes of [pspStubPduSend_xmit], given the statuses the driver
    will return. *)
Definition xmit_writes (rcs : list Z) (pvPayload : PayloadPtr) (cbPayload : Z)
  (pdu : PSPSERIALPDUHDR * list Z * PSPSERIALPDUFOOTER) : list TxWrite :=
  let '(h, p, f) := pdu in
  let rc1 := hd 0 rcs in
  {| tx_buf := BufHdr h; tx_rc := rc1 |}
  :: (if rc1 =? 0 then
        if negb (payload_is_null pvPayload) && negb (cbPayload =? 0) then
          let rc2 := hd 0 (tl rcs) in
          {| tx_buf := BufPayload p; tx_rc := rc2 |}
          :: (if rc2 =? 0
              then [ {| tx_buf := BufFooter f; tx_rc := hd 0 (tl (tl rcs)) |} ]
              else [])
        else [ {| tx_buf := BufFooter f; tx_rc := hd 0 (tl rcs) |} ]
      else []).

(** The buffers of a complete PDU, in the order they go out. *)
Definition pdu_bufs (pvPayload : PayloadPtr) (cbPayload : Z)
  (pdu : PSPSERIALPDUHDR * list Z * PSPSERIALPDUFOOTER) : list TxBuf :=
  let '(h, p, f) := pdu in
  BufHdr h
  :: (if negb (payload_is_null pvPayload) && negb (cbPayload =? 0) then [BufPayload p] else [])
  ++ [BufFooter f].

(** The header and the footer [pspStubPduSend_init] builds, as functions of
    the counter and the timestamp it stamps. *)
Definition sent_hdr (rcReq' idCcd' enmPduRrnId cbPayload cnt ts : Z) : PSPSERIALPDUHDR :=
  {| u32Magic := PSP_SERIAL_PSP_2_EXT_PDU_START_MAGIC;
     cbPdu := wrap32 cbPayload; cPdus := cnt; enmRrnId := wrap16 enmPduRrnId;
     idCcd := wrap16 idCcd'; rcReq := rcReq'; tsMillies := ts |}.

Definition sent_footer (h : PSPSERIALPDUHDR) (p : list Z) : PSPSERIALPDUFOOTER :=
  {| u32ChkSum := chksum_of (sum_bytes (sum_bytes 0 (hdr_ab h)) p);
     u32MagicEnd := PSP_SERIAL_PSP_2_EXT_PDU_END_MAGIC |}.

(** The headers handed to the UART so far, oldest first, and their counter
    fields. *)
Definition sent_hdrs (log : list TxWrite) : list PSPSERIALPDUHDR :=
  flat_map (fun w => match tx_buf w with BufHdr h => [h] | _ => [] end) log.

Definition sent_counters (log : list TxWrite) : list Z := map cPdus (sent_hdrs log).



(** ** Parser *)

(** What the receive path leaves alone: the mapping tables, the session
    flags and counters of the send side, everything written to the UART and
    to the control registers, and the local address space. *)
Definition recv_preserves (s s' : Sys) : Prop :=
  aX86MapSlots (stub s') = aX86MapSlots (stub s)
  /\ aSmnMapSlots (stub s') = aSmnMapSlots (stub s)
  /\ cCcds (stub s') = cCcds (stub s)
  /\ fConnected (stub s') = fConnected (stub s)
  /\ cBeaconsSent (stub s') = cBeaconsSent (stub s)
  /\ cPdusSent (stub s') = cPdusSent (stub s)
  /\ uart_tx (hw s') = uart_tx (hw s)
  /\ uart_wr_rcs (hw s') = uart_wr_rcs (hw s)
  /\ mem (hw s') = mem (hw s)
  /\ reg_log (hw s') = reg_log (hw s).

(** How a receive step relates the handed-out pointer and the expected
    counter: either a PDU was handed out with status 0 and the counter moved
    up by one, or nothing was handed out and the counter stayed. *)
Definition recv_outcome (s s' : Sys) (rc : Z) (pPdu : PduPtr) : Prop :=
  (pPdu = PduBuf /\ rc = 0 /\ cPduRecvNext (stub s') = wrap32 (cPduRecvNext (stub s) + 1))
  \/ (pPdu = PduNull /\ cPduRecvNext (stub s') = cPduRecvNext (stub s)).

(** ** Session control *)

(** The state in which [pspStubCheckConnection] sends the connect response:
    the send counter was just reset. *)
Definition connect_reset (s : Sys) : Sys :=
  {| stub := set_cPdusSent 0 (stub s); hw := hw s |}.

Definition send_connect_resp : St Z :=
  pspStubPduSend INF_SUCCESS 0 PSPSERIALPDURRNID_RESPONSE_CONNECT
    (InBuf connect_resp) (Z.of_nat (length connect_resp)).

(** ** Request handlers *)

(** The [cb] bytes a write request carries behind its request structure,
    as long as they lie inside [abPdu]. *)
Definition req_data (buf : list Z) (pvPayload cb : Z) : list Z :=
  buf_read buf (pvPayload + cbXferReq) cb.

(** No transfer has strayed so far: [stub] is what [g_StubState] holds. *)
Definition intact (s : Sys) : Prop := strayed (hw s) = false.

(** A step that writes nothing to the UART and leaves the send counter. *)
Definition send_neutral (s s' : Sys) : Prop :=
  uart_tx (hw s') = uart_tx (hw s) /\ cPdusSent (stub s') = cPdusSent (stub s).

(** A step in which the UART is handed exactly one PDU header, [h], stamped
    with the successor of the send counter. *)
Definition response_sent (s s' : Sys) (h : PSPSERIALPDUHDR) : Prop :=
  exists (rc1 : Z) (rest : list TxWrite),
    uart_tx (hw s') = uart_tx (hw s) ++ {| tx_buf := BufHdr h; tx_rc := rc1 |} :: rest
    /\ sent_hdrs rest = []
    /\ cPdus h = wrap32 (cPdusSent (stub s) + 1)
    /\ cPdusSent (stub s') = cPdus h.

(** A step that leaves [strayed] as it is, and a step that does not clear
    it. *)
Definition stray_kept (s s' : Sys) : Prop := strayed (hw s') = strayed (hw s).
Definition stray_sticks (s s' : Sys) : Prop := intact s' -> intact s.




(** A computation every run of which is [send_neutral]. *)
Definition neutral {A} (m : St A) : Prop := forall s, send_neutral s (snd (m s)).

(** A computation every run of which hands the UART exactly one header,
    and that header satisfies [P]. *)
Definition responds {A} (m : St A) (P : PSPSERIALPDUHDR -> Prop) : Prop :=
  forall s, exists h, response_sent s (snd (m s)) h /\ P h.

(** What the header of a response to a transfer request looks like: unit ID
    0, and either status 0, or the mapping failure status with no payload. *)
Definition transfer_response (h : PSPSERIALPDUHDR) : Prop :=
  idCcd h = 0
  /\ (rcReq h = INF_SUCCESS \/ (rcReq h = ERR_INVALID_STATE /\ cbPdu h = 0)).

(** The header of a response carrying tag [tag]. *)
Definition response_to (tag : Z) (h : PSPSERIALPDUHDR) : Prop :=
  enmRrnId h = wrap16 tag /\ transfer_response h.

(** The [case] labels of [pspStubPduProcess], the handler call of each
    case, and the response ID the handler called passes to
    [pspStubPduSend], in source order. *)
Definition process_labels : list Z :=
  [ PSPSERIALPDURRNID_REQUEST_PSP_MEM_READ; PSPSERIALPDURRNID_REQUEST_PSP_MEM_WRITE;
    PSPSERIALPDURRNID_REQUEST_PSP_MMIO_READ; PSPSERIALPDURRNID_REQUEST_PSP_MMIO_WRITE;
    PSPSERIALPDURRNID_REQUEST_PSP_SMN_READ; PSPSERIALPDURRNID_REQUEST_PSP_SMN_WRITE;
    PSPSERIALPDURRNID_REQUEST_PSP_X86_MEM_READ; PSPSERIALPDURRNID_REQUEST_PSP_X86_MEM_WRITE;
    PSPSERIALPDURRNID_REQUEST_PSP_X86_MMIO_READ; PSPSERIALPDURRNID_REQUEST_PSP_X86_MMIO_WRITE ].

Definition process_handlers : list (Z -> Z -> St Z) :=
  [ fun pv cb => pspStubPduProcessPspMemXfer pv cb false;
    fun pv cb => pspStubPduProcessPspMemXfer pv cb true;
    fun pv cb => pspStubPduProcessPspMmioXfer pv cb false;
    fun pv cb => pspStubPduProcessPspMmioXfer pv cb true;
    fun pv cb => pspStubPduProcessPspSmnXfer pv cb false;
    fun pv cb => pspStubPduProcessPspSmnXfer pv cb true;
    fun pv cb => pspStubPduProcessPspX86MemXfer pv cb false;
    fun pv cb => pspStubPduProcessPspX86MemXfer pv cb true;
    fun pv cb => pspStubPduProcessPspX86MmioXfer pv cb false;
    fun pv cb => pspStubPduProcessPspX86MmioXfer pv cb true ].

Definition process_responses : list Z :=
  [ PSPSERIALPDURRNID_RESPONSE_PSP_MEM_READ; PSPSERIALPDURRNID_RESPONSE_PSP_MEM_WRITE;
    PSPSERIALPDURRNID_RESPONSE_PSP_MEM_READ; PSPSERIALPDURRNID_RESPONSE_PSP_MEM_WRITE;
    PSPSERIALPDURRNID_RESPONSE_PSP_SMN_READ; PSPSERIALPDURRNID_RESPONSE_PSP_SMN_WRITE;
    PSPSERIALPDURRNID_RESPONSE_PSP_X86_MEM_READ; PSPSERIALPDURRNID_RESPONSE_PSP_X86_MEM_WRITE;
    PSPSERIALPDURRNID_RESPONSE_PSP_X86_MMIO_READ; PSPSERIALPDURRNID_RESPONSE_PSP_X86_MMIO_WRITE ].

(** The transfers whose length must be 1, 2, 4 or 8: local MMIO, SMN and
    x86 MMIO. *)
Definition width_constrained (tag : Z) : bool :=
  existsb (Z.eqb tag)
    [ PSPSERIALPDURRNID_REQUEST_PSP_MMIO_READ; PSPSERIALPDURRNID_REQUEST_PSP_MMIO_WRITE;
      PSPSERIALPDURRNID_REQUEST_PSP_SMN_READ; PSPSERIALPDURRNID_REQUEST_PSP_SMN_WRITE;
      PSPSERIALPDURRNID_REQUEST_PSP_X86_MMIO_READ; PSPSERIALPDURRNID_REQUEST_PSP_X86_MMIO_WRITE ].

(** The per-request validation of the handlers, for the PDU at the start of
    the receive buffer: the payload holds a whole request structure, and a
    width-constrained transfer has one of the four widths. *)
Definition request_well_formed (t : PSPSTUBSTATE) : bool :=
  let pPdu := hdr_at (abPdu t) in
  (cbXferReq <=? cbPdu pPdu)
  && (negb (width_constrained (enmRrnId pPdu)) || mmio_width (req_cbXfer (abPdu t) cbPduHdr)).

(** ** The stream of send counters *)







(** ** Mapping windows *)

(** A slot of the x86 table as [main] and the two allocator functions leave
    it: free (sentinel base, memory type 0, no reference) or held (a base, at
    least one reference). *)
Definition x86_slot_wf (m : PSPX86MAPPING) : Prop :=
  (PhysX86AddrBase m = NIL_X86PADDR /\ uMemType m = 0 /\ cRefs m = 0)
  \/ (PhysX86AddrBase m <> NIL_X86PADDR /\ 0 < cRefs m < 2 ^ 32).

(** The first address of the window of slot [idx] and the slot a local
    pointer falls into, as [pspStubX86PhysUnmapByPtr] computes it. *)
Definition x86_window (idx : Z) : Z := 0x04000000 + idx * _64M.
Definition x86_slot_of (pv : Z) : Z := wrap32 (align_mask pv _64M - 0x04000000) / _64M.

(** The first address of the window of SMN slot [idx], and the control
    register that holds the slot's 16-bit field: two slots share a register,
    the even slot in the low half, the odd slot in the high half. *)
Definition smn_window (idx : Z) : Z := 0x01000000 + idx * _1M.
Definition smn_ctrl_reg (idx : Z) : Z := 0x03220000 + (idx / 2) * 4.
Definition smn_own_half (idx : Z) (reg : Z) : Z :=
  if Z.odd idx then Z.shiftr reg 16 else Z.land reg 0xffff.
Definition smn_other_half (idx : Z) (reg : Z) : Z :=
  if Z.odd idx then Z.land reg 0xffff else Z.shiftr reg 16.

(** The value [pspStubSmnPhysMap] ORs into the control register for slot
    [idx]. *)
Definition smn_ctrl_bits (idx SmnBase : Z) : Z :=
  if Z.odd idx then wrap32 (Z.shiftl (Z.shiftr SmnBase 20) 16) else Z.shiftr SmnBase 20.

(** A slot of the SMN table: its reference count is a 32-bit value with
    room for one more, and a slot nobody holds has base 0. *)
Definition smn_slot_wf (m : PSPSMNMAPPING) : Prop :=
  0 <= cRefsSmn m < 2 ^ 32 - 1 /\ (cRefsSmn m = 0 -> SmnAddrBase m = 0).

(** A step that leaves the x86 table, or the SMN table, as it was. *)
Definition x86_kept (s s' : Sys) : Prop := aX86MapSlots (stub s') = aX86MapSlots (stub s).
Definition smn_kept (s s' : Sys) : Prop := aSmnMapSlots (stub s') = aSmnMapSlots (stub s).

(** ** Timekeeper *)

(** The value the next read of the free-running counter returns. *)
Definition next_count (s : Sys) : Z := fst (read_counter s).

(** The timekeeper's registers are in range, and so is whatever the 32-bit
    counter register is going to read: the snapshot [cCnts] is a 32-bit
    value, the remainder [cSubMsTicks] is less than a millisecond of ticks,
    the millisecond count is not negative. *)
Definition clock_ok (s : Sys) : Prop :=
  0 <= Tm (Timer (stub s))
  /\ 0 <= cCnts (Timer (stub s)) < 2 ^ 32
  /\ 0 <= cSubMsTicks (Timer (stub s)) < 100 * 1000
  /\ 0 <= cnt_now (hw s) < 2 ^ 32
  /\ Forall (fun v => 0 <= v < 2 ^ 32) (cnt_script (hw s)).

(** A step that keeps the clock in range and does not set it back. *)
Definition clock_advances (s s' : Sys) : Prop :=
  clock_ok s -> clock_ok s' /\ Tm (Timer (stub s)) <= Tm (Timer (stub s')).

(** A step that does not touch the clock. *)
Definition clock_kept (s s' : Sys) : Prop :=
  Timer (stub s') = Timer (stub s)
  /\ cnt_now (hw s') = cnt_now (hw s)
  /\ cnt_script (hw s') = cnt_script (hw s).

(** ** Bytes and framing *)

(** A value of type [uint8_t]. *)
Definition is_byte (b : Z) : Prop := 0 <= b < 256.

(** The header fields hold values of their C types. *)
Definition hdr_in_range (h : PSPSERIALPDUHDR) : Prop :=
  0 <= u32Magic h < 2 ^ 32 /\ 0 <= cbPdu h < 2 ^ 32 /\ 0 <= cPdus h < 2 ^ 32
  /\ 0 <= enmRrnId h < 2 ^ 16 /\ 0 <= idCcd h < 2 ^ 16
  /\ - 2 ^ 31 <= rcReq h < 2 ^ 31 /\ 0 <= tsMillies h < 2 ^ 32.

(** ** Receive buffer *)

(** The parser registers between two polls: the bytes still to come for the
    current state fit behind the write offset, inside [abPdu]. *)
Definition parser_ok (t : PSPSTUBSTATE) : Prop :=
  length (abPdu t) = Z.to_nat cbAbPdu
  /\ Forall is_byte (abPdu t)
  /\ 0 <= offPduRecv t
  /\ 0 < cbPduRecvLeft t
  /\ match enmPduRecvState t with
     | PSPSERIALPDURECVSTATE_HDR => offPduRecv t + cbPduRecvLeft t = cbPduHdr
     | PSPSERIALPDURECVSTATE_PAYLOAD =>
         offPduRecv t + cbPduRecvLeft t + cbPduFooter <= cbAbPdu
     | PSPSERIALPDURECVSTATE_FOOTER => offPduRecv t + cbPduRecvLeft t <= cbAbPdu
     | PSPSERIALPDURECVSTATE_INVALID => False
     end.

(** What the UART delivers is bytes. *)
Definition rx_bytes (w : World) : Prop :=
  Forall is_byte (uart_fifo w) /\ Forall (Forall is_byte) (uart_arrivals w).

(** The receive side is in order. *)
Definition recv_ok (s : Sys) : Prop := parser_ok (stub s) /\ rx_bytes (hw s).

(** A step that keeps the receive side in order. *)
Definition keeps_recv_ok (s s' : Sys) : Prop := recv_ok s -> recv_ok s'.

(** ** A silent line *)

(** Nothing in the receive FIFO and nothing on its way. *)
Definition rx_silent (s : Sys) : Prop :=
  uart_fifo (hw s) = [] /\ uart_arrivals (hw s) = [].

(** The receive side as a call of [pspStubPduRecv] finds it. *)
Definition parser_kept (s s' : Sys) : Prop :=
  enmPduRecvState (stub s') = enmPduRecvState (stub s)
  /\ cbPduRecvLeft (stub s') = cbPduRecvLeft (stub s)
  /\ offPduRecv (stub s') = offPduRecv (stub s)
  /\ abPdu (stub s') = abPdu (stub s)
  /\ cPduRecvNext (stub s') = cPduRecvNext (stub s)
  /\ uart_rd_rcs (hw s') = uart_rd_rcs (hw s).

(** On a silent line the step keeps the line silent and the receive side
    as it was. *)
Definition silent_step (s s' : Sys) : Prop :=
  rx_silent s -> rx_silent s' /\ parser_kept s s'.

(** ** Footprints *)

(** What a send leaves alone: everything but the timer, the send counter,
    the clock and the UART's transmit side, which only grows. *)
Definition send_frame (s s' : Sys) : Prop :=
  aX86MapSlots (stub s') = aX86MapSlots (stub s)
  /\ aSmnMapSlots (stub s') = aSmnMapSlots (stub s)
  /\ cCcds (stub s') = cCcds (stub s)
  /\ fConnected (stub s') = fConnected (stub s)
  /\ cBeaconsSent (stub s') = cBeaconsSent (stub s)
  /\ cPduRecvNext (stub s') = cPduRecvNext (stub s)
  /\ enmPduRecvState (stub s') = enmPduRecvState (stub s)
  /\ cbPduRecvLeft (stub s') = cbPduRecvLeft (stub s)
  /\ offPduRecv (stub s') = offPduRecv (stub s)
  /\ abPdu (stub s') = abPdu (stub s)
  /\ uart_fifo (hw s') = uart_fifo (hw s)
  /\ uart_arrivals (hw s') = uart_arrivals (hw s)
  /\ uart_rd_rcs (hw s') = uart_rd_rcs (hw s)
  /\ mem (hw s') = mem (hw s)
  /\ reg_log (hw s') = reg_log (hw s)
  /\ exists l, uart_tx (hw s') = uart_tx (hw s) ++ l.

(** Memory, control registers and both mapping tables are as they were. *)
Definition untouched (s s' : Sys) : Prop :=
  mem (hw s') = mem (hw s)
  /\ reg_log (hw s') = reg_log (hw s)
  /\ aX86MapSlots (stub s') = aX86MapSlots (stub s)
  /\ aSmnMapSlots (stub s') = aSmnMapSlots (stub s).

(** What request processing leaves alone: the session flags, the receive
    side (expected counter, parser registers, PDU buffer, the UART's receive
    side), and what was already written to the UART, which only grows. *)
Definition process_frame (s s' : Sys) : Prop :=
  cCcds (stub s') = cCcds (stub s)
  /\ fConnected (stub s') = fConnected (stub s)
  /\ cBeaconsSent (stub s') = cBeaconsSent (stub s)
  /\ cPduRecvNext (stub s') = cPduRecvNext (stub s)
  /\ enmPduRecvState (stub s') = enmPduRecvState (stub s)
  /\ cbPduRecvLeft (stub s') = cbPduRecvLeft (stub s)
  /\ offPduRecv (stub s') = offPduRecv (stub s)
  /\ abPdu (stub s') = abPdu (stub s)
  /\ uart_fifo (hw s') = uart_fifo (hw s)
  /\ uart_arrivals (hw s') = uart_arrivals (hw s)
  /\ uart_rd_rcs (hw s') = uart_rd_rcs (hw s)
  /\ exists l, uart_tx (hw s') = uart_tx (hw s) ++ l.

(** What the initialisers of [main] leave alone: the UART log, the
    connection flag and the statuses the external initialisers return. *)
Definition init_rcs_kept (s s' : Sys) : Prop :=
  uart_tx (hw s') = uart_tx (hw s)
  /\ fConnected (stub s') = fConnected (stub s)
  /\ rc_PSPUartCreate (hw s') = rc_PSPUartCreate (hw s)
  /\ rc_PSPUartParamsSet (hw s') = rc_PSPUartParamsSet (hw s)
  /\ rc_TMInit (hw s') = rc_TMInit (hw s)
  /\ rc_LOGLoggerInit (hw s') = rc_LOGLoggerInit (hw s).

(** ** Handshake *)

(** The UART has taken a whole connect response: header, payload and
    footer, each write with status 0. *)
Definition connect_response_sent (log : list TxWrite) : Prop :=
  exists (pre post : list TxWrite) (h : PSPSERIALPDUHDR),
    log = pre
          ++ [ {| tx_buf := BufHdr h; tx_rc := 0 |};
               {| tx_buf := BufPayload connect_resp; tx_rc := 0 |};
               {| tx_buf := BufFooter (sent_footer h connect_resp); tx_rc := 0 |} ]
          ++ post
    /\ enmRrnId h = wrap16 PSPSERIALPDURRNID_RESPONSE_CONNECT
    /\ cPdus h = 1 /\ rcReq h = INF_SUCCESS.

(** [fConnected] is set only behind a whole connect response. *)
Definition connected_ok (s : Sys) : Prop :=
  fConnected (stub s) = true -> connect_response_sent (uart_tx (hw s)).

(** A step that keeps it so. *)
Definition keeps_connected_ok (s s' : Sys) : Prop := connected_ok s -> connected_ok s'.

End Vocabulary.

(** ** Relations kept step by step *)

Section StepVocabulary.
Variable R : Sys -> Sys -> Prop.

(** [R] relates the state before and after every run of the computation;
    for code that may not return, the state it is left in. *)
Definition st_frames {A} (m : St A) : Prop := forall s, R s (snd (m s)).
Definition run_frames {A} (m : Run A) : Prop := forall s, R s (final_state (m s)).

End StepVocabulary.

(** * Sample constants and inputs

    Stand-ins for the constants of the absent headers, used only to run the
    model on concrete inputs; no theorem below depends on them. *)

Lemma sample_labels_distinct : NoDup [4; 5; 6; 7; 8; 9; 10; 11; 12; 13].
Proof. apply (bool_decide_unpack _). vm_compute. exact I. Qed.

Definition sample_consts : ProtocolConsts := {|
  INF_TRY_AGAIN := 1;
  ERR_INVALID_PARAMETER := -2;
  ERR_INVALID_STATE := -3;
  NIL_X86PADDR := 0xffffffffffffffff;
  PSP_SERIAL_EXT_2_PSP_PDU_START_MAGIC := 0xebadc0de;
  PSP_SERIAL_EXT_2_PSP_PDU_END_MAGIC := 0xebadf00d;
  PSP_SERIAL_PSP_2_EXT_PDU_START_MAGIC := 0xdeadc0de;
  PSP_SERIAL_PSP_2_EXT_PDU_END_MAGIC := 0xdeadf00d;
  PSPSERIALPDURRNID_INVALID := 0;
  PSPSERIALPDURRNID_NOTIFICATION_BEACON := 1;
  PSPSERIALPDURRNID_NOTIFICATION_LOG_MSG := 2;
  PSPSERIALPDURRNID_REQUEST_FIRST := 3;
  PSPSERIALPDURRNID_REQUEST_CONNECT := 3;
  PSPSERIALPDURRNID_REQUEST_PSP_MEM_READ := 4;
  PSPSERIALPDURRNID_REQUEST_PSP_MEM_WRITE := 5;
  PSPSERIALPDURRNID_REQUEST_PSP_MMIO_READ := 6;
  PSPSERIALPDURRNID_REQUEST_PSP_MMIO_WRITE := 7;
  PSPSERIALPDURRNID_REQUEST_PSP_SMN_READ := 8;
  PSPSERIALPDURRNID_REQUEST_PSP_SMN_WRITE := 9;
  PSPSERIALPDURRNID_REQUEST_PSP_X86_MEM_READ := 10;
  PSPSERIALPDURRNID_REQUEST_PSP_X86_MEM_WRITE := 11;
  PSPSERIALPDURRNID_REQUEST_PSP_X86_MMIO_READ := 12;
  PSPSERIALPDURRNID_REQUEST_PSP_X86_MMIO_WRITE := 13;
  PSPSERIALPDURRNID_REQUEST_INVALID_FIRST := 14;
  PSPSERIALPDURRNID_RESPONSE_CONNECT := 15;
  PSPSERIALPDURRNID_RESPONSE_PSP_MEM_READ := 16;
  PSPSERIALPDURRNID_RESPONSE_PSP_MEM_WRITE := 17;
  PSPSERIALPDURRNID_RESPONSE_PSP_MMIO_READ := 18;
  PSPSERIALPDURRNID_RESPONSE_PSP_MMIO_WRITE := 19;
  PSPSERIALPDURRNID_RESPONSE_PSP_SMN_READ := 20;
  PSPSERIALPDURRNID_RESPONSE_PSP_SMN_WRITE := 21;
  PSPSERIALPDURRNID_RESPONSE_PSP_X86_MEM_READ := 22;
  PSPSERIALPDURRNID_RESPONSE_PSP_X86_MEM_WRITE := 23;
  PSPSERIALPDURRNID_RESPONSE_PSP_X86_MMIO_READ := 24;
  PSPSERIALPDURRNID_RESPONSE_PSP_X86_MMIO_WRITE := 25;
  PspAddrScratch := 0x00020000;
  stub_image := [(0x00015000, 0x0001edf0); (0x00024000, 0x00028000)];
  process_labels_distinct := sample_labels_distinct
|}.

(** ** Sample inputs *)

Section SampleInputs.
#[local] Existing Instance sample_consts.

(** Fifteen slots, each held once for a different 64 MiB window. *)
Definition slots_full : list PSPX86MAPPING :=
  map (fun i => {| PhysX86AddrBase := Z.of_nat i * _64M; uMemType := 4; cRefs := 1 |})
      (seq 0 15).



Definition pdu_connect : list Z := request_pdu 1 PSPSERIALPDURRNID_REQUEST_CONNECT [].


(** The booted stub with a completed header in its buffer whose counter, 7,
    is not the expected 1. *)
Definition wrong_counter : Sys :=
  with_pdu (request_pdu 7 PSPSERIALPDURRNID_REQUEST_CONNECT []) booted.

(** A PSP_MEM_READ request with counter 1, arriving before any CONNECT. *)
Definition early_request : Sys :=
  with_rx [request_pdu 1 PSPSERIALPDURRNID_REQUEST_PSP_MEM_READ (xfer_req 0x50000 4 [])] booted.

(** The booted stub 600 ms after power-up, a CONNECT request already waiting. *)
Definition connect_at_600ms : Sys := with_clock [60000000] (with_rx [pdu_connect] booted).

(** The stub once a peer has connected. *)
Definition connected : Sys :=
  final_state (pspStubMainloop_beacon 4 INF_SUCCESS (with_rx [pdu_connect] booted)).

(** PSP_MMIO_READ of the timer control register with counter 2. *)
Definition pdu_mmio_read (cbXfer : Z) : list Z :=
  request_pdu 2 PSPSERIALPDURRNID_REQUEST_PSP_MMIO_READ (xfer_req 0x03010424 cbXfer []).

(** PSP_MEM_READ of four bytes at 0x50000 with counter 2. *)
Definition pdu_mem_read : list Z :=
  request_pdu 2 PSPSERIALPDURRNID_REQUEST_PSP_MEM_READ (xfer_req 0x50000 4 []).


(** The connected stub with the bad request on the wire, then a good one. *)
Definition bad_then_good : Sys :=
  with_rx [ pdu_mmio_read 3;
            request_pdu 3 PSPSERIALPDURRNID_REQUEST_PSP_MEM_READ (xfer_req 0x50000 4 []) ]
    connected.


(** Thirty-two SMN slots, each held once for a different 1 MiB window. *)
Definition smn_slots_full : list PSPSMNMAPPING :=
  map (fun i => {| SmnAddrBase := Z.of_nat (S i) * _1M; cRefsSmn := 1 |}) (seq 0 32).

(** The booted stub with its SMN table full. *)
Definition smn_full : Sys :=
  {| stub := set_aSmnMapSlots smn_slots_full (stub booted); hw := hw booted |}.

(** A machine whose UART driver fails to come up. *)
Definition no_uart : Sys :=
  {| stub := stub0;
     hw := {| uart_fifo := []; uart_arrivals := []; uart_rd_rcs := []; uart_wr_rcs := [];
              uart_tx := []; cnt_now := 0; cnt_script := []; mem := ∅; reg_log := [];
              strayed := false; rc_PSPUartCreate := -1; rc_PSPUartParamsSet := 0; rc_TMInit := 0;
              rc_LOGLoggerInit := 0 |} |}.

(** The booted stub at 250000 ticks, i.e. 2.5 ms, on the counter. *)
Definition at_2500us : Sys := with_clock [250000] booted.

(** The connected stub holding an x86 memory read of four bytes at
    0x123456789. *)
Definition x86_read_pending : Sys :=
  with_pdu (request_pdu 2 PSPSERIALPDURRNID_REQUEST_PSP_X86_MEM_READ (xfer_req 0x123456789 4 []))
    connected.

(** The connected stub holding a PSP memory write of [1; 2; 3; 4] to
    0x50000, and the stub after that write holding the read of the same
    range. *)
Definition mem_write_pending : Sys :=
  with_pdu (request_pdu 2 PSPSERIALPDURRNID_REQUEST_PSP_MEM_WRITE
              (xfer_req 0x50000 4 [1; 2; 3; 4])) connected.

Definition mem_read_after_write : Sys :=
  with_pdu (request_pdu 3 PSPSERIALPDURRNID_REQUEST_PSP_MEM_READ (xfer_req 0x50000 4 []))
    (snd (pspStubPduProcessPspMemXfer cbPduHdr 16 true mem_write_pending)).

(** PSP_MEM_WRITE of [1; 2; 3; 4] to 0x50000 with counter 2. *)
Definition pdu_mem_write : list Z :=
  request_pdu 2 PSPSERIALPDURRNID_REQUEST_PSP_MEM_WRITE (xfer_req 0x50000 4 [1; 2; 3; 4]).

(** The machine at power-up with a CONNECT request and then that write on
    their way. *)
Definition connect_then_write : Sys := with_rx [pdu_connect; pdu_mem_write] powered_up.

(** The booted stub with the same two requests on their way and the counter
    moving on by 1.5 ms from one read to the next. *)
Definition ticking : Sys :=
  with_clock (map (fun k => Z.of_nat k * 150000) (seq 1 12))
    (with_rx [pdu_connect; pdu_mem_write] booted).

(** The connected stub holding an x86 memory write of four bytes to
    0x123456789. *)
Definition x86_write_pending : Sys :=
  with_pdu (request_pdu 2 PSPSERIALPDURRNID_REQUEST_PSP_X86_MEM_WRITE
              (xfer_req 0x123456789 4 [1; 2; 3; 4])) connected.



(** A request header and payload as the peer would frame them. *)
Definition sample_hdr : PSPSERIALPDUHDR :=
  {| u32Magic := PSP_SERIAL_EXT_2_PSP_PDU_START_MAGIC; cbPdu := 4; cPdus := 1;
     enmRrnId := PSPSERIALPDURRNID_REQUEST_PSP_MEM_READ; idCcd := 0; rcReq := 0;
     tsMillies := 0 |}.

Definition sample_pdu : list Z :=
  request_pdu 1 PSPSERIALPDURRNID_REQUEST_PSP_MEM_READ [1; 2; 3; 4].

(** The booted stub a hundred milliseconds short of 2^31 ms of uptime, on a
    silent line, the counter about to jump by 1.1 s. *)
Definition late_and_silent : Sys :=
  {| stub := set_Timer {| Tm := 2 ^ 31 - 100; cCnts := 0; cSubMsTicks := 0 |} (stub booted);
     hw := set_cnt 0 [0; 110000000; 110000000] (hw booted) |}.

End SampleInputs.

(** * Properties *)

(** ** x86 and SMN window allocators *)

Section AllocatorProperties.
Context {C : ProtocolConsts}.

(** *** Arithmetic *)

Lemma wrap32_range z : 0 <= wrap32 z < 2 ^ 32.
Proof. unfold wrap32. apply Z.mod_pos_bound. lia. Qed.

Lemma wrap32_small z : 0 <= z < 2 ^ 32 -> wrap32 z = z.
Proof. intros H. unfold wrap32. apply Z.mod_small. exact H. Qed.

Lemma wrap32_idem z : wrap32 (wrap32 z) = wrap32 z.
Proof. apply wrap32_small, wrap32_range. Qed.

Lemma wrap32_add_l a b : wrap32 (wrap32 a + b) = wrap32 (a + b).
Proof. unfold wrap32. apply Zplus_mod_idemp_l. Qed.

Lemma wrap32_add_r a b : wrap32 (a + wrap32 b) = wrap32 (a + b).
Proof. unfold wrap32. apply Zplus_mod_idemp_r. Qed.

(** [a & ~(2^n - 1)] rounds [a] down to a multiple of [2^n]. *)
Lemma align_mask_pow2 a n : 0 <= n -> align_mask a (2 ^ n) = 2 ^ n * (a / 2 ^ n).
Proof.
  intros Hn. unfold align_mask.
  replace (2 ^ n - 1) with (Z.ones n) by (rewrite Z.ones_equiv; lia).
  rewrite <- Z.ldiff_land, Z.ldiff_ones_r by exact Hn.
  rewrite Z.shiftr_div_pow2, Z.shiftl_mul_pow2 by exact Hn. lia.
Qed.

Lemma align_mask_64M a : align_mask a _64M = _64M * (a / _64M).
Proof. change _64M with (2 ^ 26). apply align_mask_pow2. lia. Qed.

Lemma align_mask_64M_off a : 0 <= a - align_mask a _64M < _64M.
Proof.
  rewrite align_mask_64M.
  pose proof (Z.mod_pos_bound a _64M ltac:(reflexivity)) as Hm.
  rewrite Z.mod_eq in Hm by discriminate. exact Hm.
Qed.

(** *** The x86 window allocator *)

Lemma x86_find_slot_None base mt slots :
  Forall (fun m => x86_slot_usable base mt m = false) slots ->
  forall i, x86_find_slot base mt i slots = None.
Proof.
  induction 1 as [|m rest Hm _ IH]; intros i; simpl.
  - reflexivity.
  - rewrite Hm. apply IH.
Qed.

Lemma x86_find_slot_Some base mt slots :
  forall i j m, x86_find_slot base mt i slots = Some (j, m) ->
  exists k, j = (i + k)%nat /\ slots !! k = Some m
            /\ x86_slot_usable base mt m = true
            /\ Forall (fun m' => x86_slot_usable base mt m' = false) (take k slots).
Proof.
  induction slots as [|m0 rest IH]; intros i j m; simpl.
  - discriminate.
  - destruct (x86_slot_usable base mt m0) eqn:Hu.
    + intros [= <- <-]. exists 0%nat.
      split; [lia|]. split; [reflexivity|]. split; [exact Hu|]. simpl. constructor.
    + intros H. destruct (IH _ _ _ H) as (k & -> & Hk & Hm & Hpre).
      exists (S k). split; [lia|]. split; [exact Hk|]. split; [exact Hm|].
      simpl. constructor; assumption.
Qed.

Lemma x86_find_slot_at base mt slots k m :
  slots !! k = Some m ->
  x86_slot_usable base mt m = true ->
  Forall (fun m' => x86_slot_usable base mt m' = false) (take k slots) ->
  forall i, x86_find_slot base mt i slots = Some ((i + k)%nat, m).
Proof.
  revert k. induction slots as [|m0 rest IH]; intros k Hk Hm Hpre i.
  - discriminate.
  - destruct k as [|k]; simpl in *.
    + injection Hk as ->. rewrite Hm. do 2 f_equal. lia.
    + inversion Hpre as [|? ? H0 Hrest]; subst. rewrite H0.
      rewrite (IH k Hk Hm Hrest). do 2 f_equal. lia.
Qed.

(** C8.  When every x86 slot is held (reference count above zero) for a
    base other than the requested one, [pspStubX86PhysMap] returns
    [ERR_INVALID_STATE], stores no pointer, and leaves the whole machine --
    every slot's base, memory type and reference count, and the control
    registers -- as it was.  With the 15 slots of the stub this is the 16th
    distinct base. *)
Theorem x86_map_exhausted (s : Sys) (PhysX86Addr : Z) (fMmio : bool) :
  Forall (fun m => 0 < cRefs m /\ PhysX86AddrBase m <> align_mask PhysX86Addr _64M)
         (aX86MapSlots (stub s)) ->
  pspStubX86PhysMap PhysX86Addr fMmio s = ((ERR_INVALID_STATE, None), s).
Proof.
  intros Hheld. unfold pspStubX86PhysMap, bind, gets. 
  rewrite x86_find_slot_None; [reflexivity|].
  eapply Forall_impl; [exact Hheld|]. intros m [Hrefs Hbase]. simpl.
  unfold x86_slot_usable.
  apply orb_false_intro.
  - apply andb_false_intro2. apply Z.eqb_neq. lia.
  - apply andb_false_intro1. apply Z.eqb_neq. exact Hbase.
Qed.

(** *** Reading [St] computations *)

Lemma bind_eq {A B} (m : St A) (k : A -> St B) s :
  bind m k s = k (fst (m s)) (snd (m s)).
Proof. unfold bind. destruct (m s). reflexivity. Qed.

Lemma x86_program_slot_stub i b t s : stub (snd (x86_program_slot i b t s)) = stub s.
Proof. reflexivity. Qed.

Lemma x86_program_slot_log i b t s :
  reg_log (hw (snd (x86_program_slot i b t s)))
  = reg_log (hw s) ++ x86_program_stores i b t.
Proof.
  unfold x86_program_slot, x86_program_stores. rewrite !bind_eq.
  unfold store32, modifyw. cbn [snd fst stub hw reg_log set_reg_log set_mem].
  rewrite <- !app_assoc. reflexivity.
Qed.

Lemma x86_clear_slot_stub i s : stub (snd (x86_clear_slot i s)) = stub s.
Proof. reflexivity. Qed.

Lemma x86_clear_slot_log i s :
  reg_log (hw (snd (x86_clear_slot i s))) = reg_log (hw s) ++ x86_clear_stores i.
Proof.
  unfold x86_clear_slot, x86_clear_stores. rewrite !bind_eq.
  unfold store32, modifyw. cbn [snd fst stub hw reg_log set_reg_log set_mem].
  rewrite <- !app_assoc. reflexivity.
Qed.

(** What a successful [pspStubX86PhysMap] does, given the slot its search
    loop finds. *)
Lemma pspStubX86PhysMap_found (s : Sys) (PhysX86Addr : Z) (fMmio : bool) (idx : nat)
  (m : PSPX86MAPPING) :
  let mt := if fMmio then 6 else 4 in
  let base := align_mask PhysX86Addr _64M in
  x86_find_slot base mt 0 (aX86MapSlots (stub s)) = Some (idx, m) ->
  let r := pspStubX86PhysMap PhysX86Addr fMmio s in
  fst r = (INF_SUCCESS,
           Some (wrap32 (0x04000000 + Z.of_nat idx * _64M + wrap32 (PhysX86Addr - base))))
  /\ aX86MapSlots (stub (snd r))
     = <[idx := {| PhysX86AddrBase := base; uMemType := mt; cRefs := wrap32 (cRefs m + 1) |}]>
         (aX86MapSlots (stub s))
  /\ reg_log (hw (snd r))
     = reg_log (hw s)
       ++ (if PhysX86AddrBase m =? NIL_X86PADDR
           then x86_program_stores (Z.of_nat idx) base mt else []).
Proof.
  intros mt base Hfind r.
  destruct (x86_find_slot_Some _ _ _ _ _ _ Hfind) as (k & Hk & Hlook & Huse & _).
  simpl in Hk. subst k.
  assert (Hbase : PhysX86AddrBase m = NIL_X86PADDR \/ (PhysX86AddrBase m = base /\ uMemType m = mt)).
  { unfold x86_slot_usable in Huse. apply orb_true_iff in Huse as [H|H];
      apply andb_true_iff in H as [H1 H2]; apply Z.eqb_eq in H1; apply Z.eqb_eq in H2; auto. }
  subst r. unfold pspStubX86PhysMap, bind, gets, upd_x86_slot, modify, ret.
  fold mt. fold base. rewrite Hfind.
  destruct (PhysX86AddrBase m =? NIL_X86PADDR) eqn:Hnil.
  - match goal with |- context [x86_program_slot ?i ?b ?t ?s0] =>
      pose proof (x86_program_slot_log i b t s0) as Hlog;
      pose proof (x86_program_slot_stub i b t s0) as Hstub;
      destruct (x86_program_slot i b t s0) as [[] s1] end.
    cbn [fst snd stub hw aX86MapSlots set_aX86MapSlots] in *.
    rewrite Hstub, Hlog. cbn [aX86MapSlots set_aX86MapSlots].
    split; [reflexivity|]. split; [|reflexivity].
    apply list_eq. intros i. destruct (decide (i = idx)) as [->|Hne].
    + rewrite !list_lookup_alter_eq, list_lookup_insert_eq by (eapply lookup_lt_Some; eauto).
      rewrite Hlook. reflexivity.
    + rewrite !list_lookup_alter_ne, list_lookup_insert_ne by congruence. reflexivity.
  - cbn [fst snd stub hw aX86MapSlots set_aX86MapSlots].
    rewrite app_nil_r. split; [reflexivity|]. split; [|reflexivity].
    apply Z.eqb_neq in Hnil. destruct Hbase as [?|[Hb Ht]]; [contradiction|].
    apply list_eq. intros i. destruct (decide (i = idx)) as [->|Hne].
    + rewrite list_lookup_alter_eq, list_lookup_insert_eq by (eapply lookup_lt_Some; eauto).
      rewrite Hlook. simpl. rewrite Hb, Ht. reflexivity.
    + rewrite list_lookup_alter_ne, list_lookup_insert_ne by congruence. reflexivity.
Qed.

(** A pointer into the window of slot [idx] leads [pspStubX86PhysUnmapByPtr]
    back to that slot. *)
Lemma x86_ptr_slot (idx : nat) (off : Z) :
  (idx < 15)%nat -> 0 <= off < _64M ->
  wrap32 (align_mask (wrap32 (0x04000000 + Z.of_nat idx * _64M + off)) _64M - 0x04000000)
  = Z.of_nat idx * _64M.
Proof.
  intros Hidx Hoff. rewrite align_mask_64M. unfold _64M, _1M, _1K in *.
  rewrite (wrap32_small (_ + _ + off)) by lia.
  assert (Hq : (67108864 + Z.of_nat idx * (64 * (1024 * 1024)) + off) / (64 * (1024 * 1024))
               = Z.of_nat idx + 1).
  { symmetry. apply (Z.div_unique_pos _ _ _ off); lia. }
  rewrite Hq.
  replace (64 * (1024 * 1024) * (Z.of_nat idx + 1) - 67108864)
    with (Z.of_nat idx * (64 * (1024 * 1024))) by lia.
  apply wrap32_small. lia.
Qed.

(** What [pspStubX86PhysUnmapByPtr] does with a pointer into the window of
    a slot that is held. *)
Lemma pspStubX86PhysUnmapByPtr_held (s : Sys) (idx : nat) (off : Z) (m : PSPX86MAPPING) :
  (idx < 15)%nat -> 0 <= off < _64M ->
  aX86MapSlots (stub s) !! idx = Some m ->
  0 < cRefs m ->
  let r := pspStubX86PhysUnmapByPtr (wrap32 (0x04000000 + Z.of_nat idx * _64M + off)) s in
  fst r = INF_SUCCESS
  /\ aX86MapSlots (stub (snd r))
     = <[idx := if cRefs m - 1 =? 0
                then {| PhysX86AddrBase := NIL_X86PADDR; uMemType := 0; cRefs := cRefs m - 1 |}
                else {| PhysX86AddrBase := PhysX86AddrBase m; uMemType := uMemType m;
                        cRefs := cRefs m - 1 |}]> (aX86MapSlots (stub s))
  /\ reg_log (hw (snd r))
     = reg_log (hw s) ++ (if cRefs m - 1 =? 0 then x86_clear_stores (Z.of_nat idx) else []).
Proof.
  intros Hidx Hoff Hlook Hrefs r. subst r. unfold pspStubX86PhysUnmapByPtr.
  rewrite (x86_ptr_slot idx off Hidx Hoff).
  assert (Hdiv : Z.of_nat idx * _64M / _64M = Z.of_nat idx) by (apply Z.div_mul; discriminate).
  assert (Hmod : Z.of_nat idx * _64M mod _64M = 0) by (apply Z.mod_mul; discriminate).
  rewrite Hdiv, Hmod, Nat2Z.id.
  assert (Hlt : (Z.of_nat idx <? cX86MapSlots) = true) by (apply Z.ltb_lt; unfold cX86MapSlots; lia).
  rewrite Hlt. cbn [andb Z.eqb].
  unfold bind, gets, upd_x86_slot, modify, ret. rewrite Hlook.
  assert (Hpos : (0 <? cRefs m) = true) by (apply Z.ltb_lt; exact Hrefs).
  rewrite Hpos. destruct (cRefs m - 1 =? 0) eqn:Hz.
  - match goal with |- context [x86_clear_slot ?i ?s0] =>
      pose proof (x86_clear_slot_log i s0) as Hlog;
      pose proof (x86_clear_slot_stub i s0) as Hstub;
      destruct (x86_clear_slot i s0) as [[] s1] end.
    cbn [fst snd stub hw aX86MapSlots set_aX86MapSlots] in *.
    rewrite Hstub, Hlog. cbn [aX86MapSlots set_aX86MapSlots].
    split; [reflexivity|]. split; [|reflexivity].
    apply list_eq. intros i. destruct (decide (i = idx)) as [->|Hne].
    + rewrite !list_lookup_alter_eq, list_lookup_insert_eq by (eapply lookup_lt_Some; eauto).
      rewrite Hlook. reflexivity.
    + rewrite !list_lookup_alter_ne, list_lookup_insert_ne by congruence. reflexivity.
  - cbn [fst snd stub hw aX86MapSlots set_aX86MapSlots].
    rewrite app_nil_r. split; [reflexivity|]. split; [|reflexivity].
    apply list_eq. intros i. destruct (decide (i = idx)) as [->|Hne].
    + rewrite list_lookup_alter_eq, list_lookup_insert_eq by (eapply lookup_lt_Some; eauto).
      rewrite Hlook. reflexivity.
    + rewrite list_lookup_alter_ne, list_lookup_insert_ne by congruence. reflexivity.
Qed.

(** C7.  Let the search loop of [pspStubX86PhysMap] find slot [idx] for a
    base and memory type.  Mapping the same address twice then returns the
    same local pointer both times and raises the slot's reference count by
    one per call; the second call stores to no control register.  When the
    slot was taken from the sentinel state, the first call programs the
    slot's six control registers (so they are programmed exactly once), the
    counts are 1 and 2, and two unmaps of the pointer succeed and leave the
    slot with the sentinel base, memory type 0 and reference count 0. *)
Theorem x86_map_twice_reuses_slot (s : Sys) (PhysX86Addr : Z) (fMmio : bool)
  (idx : nat) (m : PSPX86MAPPING) :
  let mt := if fMmio then 6 else 4 in
  let base := align_mask PhysX86Addr _64M in
  length (aX86MapSlots (stub s)) = 15%nat ->
  base <> NIL_X86PADDR ->
  x86_find_slot base mt 0 (aX86MapSlots (stub s)) = Some (idx, m) ->
  let r1 := pspStubX86PhysMap PhysX86Addr fMmio s in
  let r2 := pspStubX86PhysMap PhysX86Addr fMmio (snd r1) in
  let slot (x : Sys) := aX86MapSlots (stub x) !! idx in
  exists pv : Z,
    fst r1 = (INF_SUCCESS, Some pv) /\ fst r2 = (INF_SUCCESS, Some pv)
    /\ slot (snd r1)
       = Some {| PhysX86AddrBase := base; uMemType := mt; cRefs := wrap32 (cRefs m + 1) |}
    /\ slot (snd r2)
       = Some {| PhysX86AddrBase := base; uMemType := mt;
                 cRefs := wrap32 (wrap32 (cRefs m + 1) + 1) |}
    /\ reg_log (hw (snd r2)) = reg_log (hw (snd r1))
    /\ (PhysX86AddrBase m = NIL_X86PADDR ->
        let u1 := pspStubX86PhysUnmapByPtr pv (snd r2) in
        let u2 := pspStubX86PhysUnmapByPtr pv (snd u1) in
        reg_log (hw (snd r1))
        = reg_log (hw s) ++ x86_program_stores (Z.of_nat idx) base mt
        /\ slot (snd r1) = Some {| PhysX86AddrBase := base; uMemType := mt; cRefs := 1 |}
        /\ slot (snd r2) = Some {| PhysX86AddrBase := base; uMemType := mt; cRefs := 2 |}
        /\ fst u1 = INF_SUCCESS /\ fst u2 = INF_SUCCESS
        /\ slot (snd u1) = Some {| PhysX86AddrBase := base; uMemType := mt; cRefs := 1 |}
        /\ slot (snd u2)
           = Some {| PhysX86AddrBase := NIL_X86PADDR; uMemType := 0; cRefs := 0 |}).
Proof.
  intros mt base Hlen Hbase Hfind r1 r2 slot.
  destruct (x86_find_slot_Some _ _ _ _ _ _ Hfind) as (k & Hk & Hlook & Huse & Hpre).
  simpl in Hk. subst k.
  assert (Hidx : (idx < 15)%nat) by (rewrite <- Hlen; eapply lookup_lt_Some; eauto).
  destruct (pspStubX86PhysMap_found s PhysX86Addr fMmio idx m Hfind) as (Hr1 & Hs1 & Hl1).
  fold r1 mt base in Hr1, Hs1, Hl1.
  set (m1 := {| PhysX86AddrBase := base; uMemType := mt; cRefs := wrap32 (cRefs m + 1) |}) in *.
  assert (Hlook1 : aX86MapSlots (stub (snd r1)) !! idx = Some m1).
  { rewrite Hs1. apply list_lookup_insert_eq. lia. }
  assert (Huse1 : x86_slot_usable base mt m1 = true).
  { unfold x86_slot_usable, m1. cbn [PhysX86AddrBase uMemType cRefs].
    rewrite !Z.eqb_refl. apply orb_true_r. }
  assert (Hfind1 : x86_find_slot base mt 0 (aX86MapSlots (stub (snd r1))) = Some (idx, m1)).
  { apply (x86_find_slot_at base mt _ idx m1 Hlook1 Huse1).
    rewrite Hs1, take_insert_ge by lia. exact Hpre. }
  destruct (pspStubX86PhysMap_found (snd r1) PhysX86Addr fMmio idx m1 Hfind1) as (Hr2 & Hs2 & Hl2).
  fold r2 mt base in Hr2, Hs2, Hl2.
  assert (Hnot : (PhysX86AddrBase m1 =? NIL_X86PADDR) = false) by (apply Z.eqb_neq; exact Hbase).
  rewrite Hnot, app_nil_r in Hl2.
  set (m2 := {| PhysX86AddrBase := base; uMemType := mt; cRefs := wrap32 (cRefs m1 + 1) |}) in *.
  assert (Hlook2 : aX86MapSlots (stub (snd r2)) !! idx = Some m2).
  { rewrite Hs2. apply list_lookup_insert_eq. rewrite Hs1, length_insert. lia. }
  exists (wrap32 (0x04000000 + Z.of_nat idx * _64M + wrap32 (PhysX86Addr - base))).
  split; [exact Hr1|]. split; [exact Hr2|]. split; [exact Hlook1|].
  split; [exact Hlook2|]. split; [exact Hl2|].
  intros Hnil u1 u2.
  assert (Hzero : cRefs m = 0).
  { unfold x86_slot_usable in Huse. apply orb_true_iff in Huse as [H|H];
      apply andb_true_iff in H as [H1 H2]; apply Z.eqb_eq in H1; apply Z.eqb_eq in H2;
      [exact H2|congruence]. }
  assert (Hc1 : m1 = {| PhysX86AddrBase := base; uMemType := mt; cRefs := 1 |}).
  { unfold m1. rewrite Hzero. reflexivity. }
  assert (Hc2 : m2 = {| PhysX86AddrBase := base; uMemType := mt; cRefs := 2 |}).
  { unfold m2. rewrite Hc1. reflexivity. }
  assert (Hoff : 0 <= wrap32 (PhysX86Addr - base) < _64M).
  { rewrite wrap32_small; pose proof (align_mask_64M_off PhysX86Addr) as Ho; fold base in Ho;
      [exact Ho|]. unfold _64M, _1M, _1K in Ho. lia. }
  assert (Hn : (PhysX86AddrBase m =? NIL_X86PADDR) = true) by (apply Z.eqb_eq; exact Hnil).
  rewrite Hn in Hl1.
  destruct (pspStubX86PhysUnmapByPtr_held (snd r2) idx _ m2 Hidx Hoff Hlook2) as (Hu1 & Hsu1 & _).
  { rewrite Hc2. reflexivity. }
  fold u1 in Hu1, Hsu1. rewrite Hc2 in Hsu1. cbn [cRefs Z.sub Z.eqb Z.add Z.opp Z.pos_sub Pos.pred_double PhysX86AddrBase uMemType] in Hsu1.
  assert (Hlooku1 : aX86MapSlots (stub (snd u1)) !! idx
                    = Some {| PhysX86AddrBase := base; uMemType := mt; cRefs := 1 |}).
  { rewrite Hsu1. apply list_lookup_insert_eq. rewrite Hs2, Hs1, !length_insert. lia. }
  destruct (pspStubX86PhysUnmapByPtr_held (snd u1) idx _ _ Hidx Hoff Hlooku1) as (Hu2 & Hsu2 & _).
  { reflexivity. }
  fold u2 in Hu2, Hsu2. cbn [cRefs Z.sub Z.eqb Z.add Z.opp Z.pos_sub] in Hsu2.
  split; [exact Hl1|]. split; [rewrite <- Hc1; exact Hlook1|].
  split; [rewrite <- Hc2; exact Hlook2|]. split; [exact Hu1|]. split; [exact Hu2|].
  split; [exact Hlooku1|].
  unfold slot. rewrite Hsu2. apply list_lookup_insert_eq.
  rewrite Hsu1, Hs2, Hs1, !length_insert. lia.
Qed.

End AllocatorProperties.

(** ** Millisecond timekeeper *)

Section TimerProperties.

(** The fuel [pspStubTimerHandle] gives the loop is enough: the loop ends
    because fewer than 100000 ticks are left, having advanced the
    accumulator once per whole millisecond. *)
Lemma timer_whole_ms_spec (n : nat) : forall tm c : Z,
  0 <= c -> c / (100 * 1000) <= Z.of_nat n ->
  timer_whole_ms n tm c = (tm + c / (100 * 1000), c mod (100 * 1000)).
Proof.
  change (100 * 1000) with 100000.
  induction n as [|n IH]; intros tm c Hc Hn; cbn [timer_whole_ms];
    change (100 * 1000) with 100000.
  - assert (c < 100000).
    { destruct (Z_lt_ge_dec c 100000) as [|Hge]; [assumption|].
      pose proof (Z.div_le_mono 100000 c 100000 ltac:(lia) ltac:(lia)) as H.
      rewrite Z.div_same in H by lia. lia. }
    rewrite Z.div_small, Z.mod_small by lia. f_equal. lia.
  - destruct (Z.leb_spec 100000 c) as [Hge|Hlt].
    + assert (E : c = (c - 100000) + 1 * 100000) by lia.
      assert (Hd : c / 100000 = (c - 100000) / 100000 + 1).
      { rewrite E at 1. apply Z.div_add. lia. }
      assert (Hm : c mod 100000 = (c - 100000) mod 100000).
      { rewrite E at 1. apply Z.mod_add. lia. }
      rewrite IH by lia. unfold TMTick. rewrite Hd, Hm. f_equal. lia.
    + rewrite Z.div_small, Z.mod_small by lia. f_equal. lia.
Qed.

Lemma timer_whole_ms_done (tm c : Z) :
  0 <= c ->
  let r := timer_whole_ms (Z.to_nat (c / (100 * 1000))) tm c in
  0 <= snd r < 100 * 1000 /\ fst r = tm + c / (100 * 1000).
Proof.
  intros Hc r. subst r. rewrite timer_whole_ms_spec.
  - cbn [fst snd]. split; [apply Z.mod_pos_bound; lia|reflexivity].
  - exact Hc.
  - rewrite Z2Nat.id; [lia|]. apply Z.div_pos; lia.
Qed.

End TimerProperties.

(** ** PDU framer *)

Section FramerProperties.
Context {C : ProtocolConsts}.

Lemma sum_bytes_range acc bs : 0 <= acc < 2 ^ 32 -> 0 <= sum_bytes acc bs < 2 ^ 32.
Proof.
  revert acc. induction bs as [|b bs IH]; intros acc Hacc.
  - exact Hacc.
  - change (sum_bytes acc (b :: bs)) with (sum_bytes (wrap32 (acc + b)) bs).
    apply IH, wrap32_range.
Qed.

Lemma sum_bytes_total acc bs : wrap32 (sum_bytes acc bs) = wrap32 (acc + byte_total bs).
Proof.
  revert acc. induction bs as [|b bs IH]; intros acc.
  - simpl. f_equal. lia.
  - change (sum_bytes acc (b :: bs)) with (sum_bytes (wrap32 (acc + b)) bs).
    change (byte_total (b :: bs)) with (b + byte_total bs).
    rewrite IH, wrap32_add_l. f_equal. lia.
Qed.

(** The two checksum loops together compute the sum of all the bytes they
    visit, modulo 2^32. *)
Lemma sum_bytes_two bs1 bs2 :
  sum_bytes (sum_bytes 0 bs1) bs2 = wrap32 (byte_total bs1 + byte_total bs2).
Proof.
  rewrite <- (wrap32_small (sum_bytes (sum_bytes 0 bs1) bs2))
    by (apply sum_bytes_range, sum_bytes_range; lia).
  rewrite sum_bytes_total, <- wrap32_add_l, sum_bytes_total, wrap32_add_l. reflexivity.
Qed.

Lemma chksum_of_cancels sum : wrap32 (sum + chksum_of sum) = 0.
Proof.
  unfold chksum_of. rewrite wrap32_add_r.
  replace (sum + (0xffffffff - sum + 1)) with (1 * 2 ^ 32) by lia.
  unfold wrap32. apply Z.mod_mul. lia.
Qed.

(** Reading the clock touches the timer and the counter script only. *)
Lemma pspStubGetMillies_frame (s : Sys) :
  exists ts T n sc,
    pspStubGetMillies s
    = (ts, {| stub := set_Timer T (stub s); hw := set_cnt n sc (hw s) |}).
Proof.
  unfold pspStubGetMillies, pspStubTimerHandle, bind, read_counter, gets, ret.
  destruct s as [t w]. destruct w as [? ? ? ? ? cn cs ? ? ? ? ? ? ?].
  cbn [hw stub cnt_script cnt_now].
  destruct cs as [|v rest];
    cbn [fst snd stub hw Timer];
    match goal with |- context [timer_whole_ms ?a ?b ?c] =>
      destruct (timer_whole_ms a b c) as [tm1 c1] end;
    match goal with |- context [if ?b then _ else _] => destruct b end;
    unfold modify; cbn [fst snd stub hw]; do 4 eexists; reflexivity.
Qed.

Lemma pspStubPduSend_xmit_spec pv cb pdu (s : Sys) :
  let r := pspStubPduSend_xmit pv cb pdu s in
  let ws := xmit_writes (uart_wr_rcs (hw s)) pv cb pdu in
  stub (snd r) = stub s
  /\ uart_tx (hw (snd r)) = uart_tx (hw s) ++ ws
  /\ fst r = tx_rc (List.last ws {| tx_buf := BufPayload []; tx_rc := 0 |})
  /\ (fst r = 0 -> map tx_buf ws = pdu_bufs pv cb pdu).
Proof.
  destruct pdu as [[h p] f].
  unfold pspStubPduSend_xmit, xmit_writes, pdu_bufs, bind, PSPUartWrite, ret.
  cbn [fst snd stub hw uart_wr_rcs uart_tx set_uart_tx].
  destruct (hd 0 (uart_wr_rcs (hw s)) =? 0) eqn:H1; cbn [andb];
    [destruct (negb (payload_is_null pv) && negb (cb =? 0)) eqn:Hp|];
    cbn [fst snd stub hw uart_wr_rcs uart_tx set_uart_tx]; rewrite ?H1;
    [destruct (hd 0 (tl (uart_wr_rcs (hw s))) =? 0) eqn:H2| |];
    cbn [fst snd stub hw uart_wr_rcs uart_tx set_uart_tx tx_rc tx_buf map List.last app];
    rewrite <- ?app_assoc; cbn [app];
    repeat split; try reflexivity;
    try (intros Hz; first [ reflexivity
                          | apply Z.eqb_neq in H2; contradiction
                          | apply Z.eqb_neq in H1; contradiction ]).
Qed.

Lemma pspStubPduSend_init_spec rc id tag pv cb (s : Sys) :
  exists ts T n sc,
    let h := sent_hdr rc id tag cb (wrap32 (cPdusSent (stub s) + 1)) ts in
    let p := payload_bytes (hw s) pv cb in
    pspStubPduSend_init rc id tag pv cb s
    = ((h, p, sent_footer h p),
       {| stub := set_Timer T (set_cPdusSent (wrap32 (cPdusSent (stub s) + 1)) (stub s));
          hw := set_cnt n sc (hw s) |}).
Proof.
  unfold pspStubPduSend_init, bind, modify, gets. cbn [fst snd stub hw].
  match goal with |- context [pspStubGetMillies ?s0] =>
    destruct (pspStubGetMillies_frame s0) as (ts & T & n & sc & E) end.
  rewrite E. exists ts, T, n, sc. cbn [fst snd stub hw cPdusSent set_cPdusSent].
  unfold getw, ret. cbn [fst snd stub hw].
  assert (Hp : payload_bytes (set_cnt n sc (hw s)) pv cb = payload_bytes (hw s) pv cb)
    by (destruct pv; reflexivity).
  rewrite Hp. reflexivity.
Qed.

(** What one call of [pspStubPduSend] does: it stamps the pre-incremented
    counter, and hands the UART the header, then (when there is one) the
    payload, then the footer, stopping at the first write that fails. *)
Lemma pspStubPduSend_spec rc id tag pv cb (s : Sys) :
  exists ts T,
    let cnt := wrap32 (cPdusSent (stub s) + 1) in
    let h := sent_hdr rc id tag cb cnt ts in
    let p := payload_bytes (hw s) pv cb in
    let ws := xmit_writes (uart_wr_rcs (hw s)) pv cb (h, p, sent_footer h p) in
    let r := pspStubPduSend rc id tag pv cb s in
    stub (snd r) = set_Timer T (set_cPdusSent cnt (stub s))
    /\ uart_tx (hw (snd r)) = uart_tx (hw s) ++ ws
    /\ fst r = tx_rc (List.last ws {| tx_buf := BufPayload []; tx_rc := 0 |})
    /\ (fst r = 0 -> map tx_buf ws = pdu_bufs pv cb (h, p, sent_footer h p)).
Proof.
  destruct (pspStubPduSend_init_spec rc id tag pv cb s) as (ts & T & n & sc & E).
  exists ts, T. cbn zeta in *. unfold pspStubPduSend, bind. rewrite E.
  match goal with |- context [pspStubPduSend_xmit ?a ?b ?c ?s0] =>
    pose proof (pspStubPduSend_xmit_spec a b c s0) as X;
    destruct (pspStubPduSend_xmit a b c s0) as [rc' s'] end.
  cbn [fst snd stub hw uart_wr_rcs uart_tx set_cnt] in *. exact X.
Qed.







(** The receive-side validator accepts exactly when the same sum, taken
    over the received byte view and payload, cancels against the received
    checksum, and the end magic is the expected one. *)
Lemma pspStubPduValidate_ok (buf : list Z) :
  pspStubPduValidate buf = 0
  <-> wrap32 (byte_total (buf_read buf 4 cbHdrAb)
              + byte_total (buf_read buf cbPduHdr (cbPdu (hdr_at buf)))
              + u32ChkSum (footer_at buf)) = 0
      /\ u32MagicEnd (footer_at buf) = PSP_SERIAL_EXT_2_PSP_PDU_END_MAGIC.
Proof.
  unfold pspStubPduValidate, recv_chksum. rewrite sum_bytes_two, wrap32_add_l.
  destruct (Z.eqb_spec (wrap32 (byte_total (buf_read buf 4 cbHdrAb)
                                + byte_total (buf_read buf cbPduHdr (cbPdu (hdr_at buf)))
                                + u32ChkSum (footer_at buf))) 0) as [Hs|Hs];
    destruct (Z.eqb_spec (u32MagicEnd (footer_at buf)) PSP_SERIAL_EXT_2_PSP_PDU_END_MAGIC)
      as [Hm|Hm];
    cbn [negb orb]; split; intros H; try tauto; try discriminate.
Qed.





End FramerProperties.

(** ** PDU parser *)

Section ParserProperties.
Context {C : ProtocolConsts}.

Lemma recv_preserves_refl s : recv_preserves s s.
Proof. repeat split. Qed.

Lemma recv_preserves_trans s1 s2 s3 :
  recv_preserves s1 s2 -> recv_preserves s2 s3 -> recv_preserves s1 s3.
Proof.
  unfold recv_preserves. intros H12 H23.
  destruct H12 as (?&?&?&?&?&?&?&?&?&?), H23 as (?&?&?&?&?&?&?&?&?&?).
  repeat split; congruence.
Qed.

Lemma pspStubGetMillies_preserves s : recv_preserves s (snd (pspStubGetMillies s)).
Proof.
  destruct (pspStubGetMillies_frame s) as (ts & T & n & sc & E). rewrite E.
  repeat split.
Qed.

Lemma pspStubGetMillies_next s :
  cPduRecvNext (stub (snd (pspStubGetMillies s))) = cPduRecvNext (stub s).
Proof.
  destruct (pspStubGetMillies_frame s) as (ts & T & n & sc & E). rewrite E. reflexivity.
Qed.

(** C6, first part as a lemma: the header checks, one by one. *)
Lemma pspStubPduHdrValidate_rejects (t : PSPSTUBSTATE) (h : PSPSERIALPDUHDR) :
  pspStubPduHdrValidate t h <> 0
  <-> (u32Magic h <> PSP_SERIAL_EXT_2_PSP_PDU_START_MAGIC
       \/ cbPdu h > _4K - cbPduHdr - cbPduFooter
       \/ (enmRrnId h < PSPSERIALPDURRNID_REQUEST_FIRST
           \/ enmRrnId h >= PSPSERIALPDURRNID_REQUEST_INVALID_FIRST)
       \/ cPdus h <> cPduRecvNext t
       \/ idCcd h >= cCcds t).
Proof.
  unfold pspStubPduHdrValidate, cbAbPdu.
  destruct (Z.eqb_spec (u32Magic h) PSP_SERIAL_EXT_2_PSP_PDU_START_MAGIC) as [Hm|Hm];
    cbn [negb]; [|split; [tauto|discriminate]].
  destruct (Z.ltb_spec (_4K - cbPduHdr - cbPduFooter) (cbPdu h)) as [Hl|Hl];
    [split; [intros _; right; left; lia|discriminate]|].
  destruct (Z.ltb_spec (enmRrnId h) PSPSERIALPDURRNID_REQUEST_FIRST) as [Hf|Hf];
    cbn [orb]; [split; [tauto|discriminate]|].
  destruct (Z.leb_spec PSPSERIALPDURRNID_REQUEST_INVALID_FIRST (enmRrnId h)) as [Hi|Hi];
    [split; [intros _; right; right; left; right; lia|discriminate]|].
  destruct (Z.eqb_spec (cPdus h) (cPduRecvNext t)) as [Hc|Hc];
    cbn [negb]; [|split; [tauto|discriminate]].
  destruct (Z.leb_spec (cCcds t) (idCcd h)) as [Hu|Hu];
    [split; [intros _; do 4 right; lia|discriminate]|].
  split; [congruence|]. intros [?|[?|[[?|?]|[?|?]]]]; try contradiction; lia.
Qed.

(** What one call of [pspStubPduRecvAdvance] does to the expected counter
    and to the pointer it hands out. *)
Lemma pspStubPduRecvAdvance_spec (s : Sys) :
  let r := pspStubPduRecvAdvance s in
  recv_preserves s (snd r)
  /\ abPdu (stub (snd r)) = abPdu (stub s)
  /\ ((fst r = (INF_SUCCESS, PduBuf)
       /\ enmPduRecvState (stub s) = PSPSERIALPDURECVSTATE_FOOTER
       /\ pspStubPduValidate (abPdu (stub s)) = 0
       /\ cPduRecvNext (stub (snd r)) = wrap32 (cPduRecvNext (stub s) + 1))
      \/ (snd (fst r) = PduNull
          /\ cPduRecvNext (stub (snd r)) = cPduRecvNext (stub s))).
Proof.
  unfold pspStubPduRecvAdvance, pspStubPduRecvReset, bind, gets, modify, ret.
  cbn [fst snd stub hw].
  destruct (enmPduRecvState (stub s)) eqn:He; cbn [fst snd stub hw].
  - split; [apply recv_preserves_refl|]. split; [reflexivity|]. right. split; reflexivity.
  - destruct (pspStubPduHdrValidate _ _ =? 0); [destruct (negb _)|];
      cbn [fst snd stub hw]; (split; [repeat split|]); (split; [reflexivity|]);
      right; split; reflexivity.
  - split; [repeat split|]. split; [reflexivity|]. right. split; reflexivity.
  - destruct (pspStubPduValidate (abPdu (stub s)) =? 0) eqn:Hv; cbn [fst snd stub hw].
    + apply Z.eqb_eq in Hv. rewrite Hv. split; [repeat split|]. split; [reflexivity|].
      left. repeat split.
    + split; [repeat split|]. split; [reflexivity|]. right. split; reflexivity.
Qed.

(** C6.  [pspStubPduHdrValidate] rejects a header exactly when its start
    magic is not the EXT-to-PSP one, or its payload length exceeds 4 KiB minus
    the header and footer sizes, or its tag lies outside
    [REQUEST_FIRST, REQUEST_INVALID_FIRST), or its counter differs from
    [cPduRecvNext], or its unit ID is not below [cCcds].  When a completed
    header is rejected, [pspStubPduRecvAdvance] puts the parser back into the
    header state (a whole header left, offset 0) and changes nothing else:
    nothing is written to the UART and [cPduRecvNext] stays.  Whenever
    [pspStubPduRecvAdvance] changes [cPduRecvNext], the parser was in the
    footer state, the complete PDU passed [pspStubPduValidate], the counter
    went up by one and the PDU was handed out. *)
Theorem hdr_rejected_iff_and_parser_resets :
  (forall (t : PSPSTUBSTATE) (h : PSPSERIALPDUHDR),
     pspStubPduHdrValidate t h <> 0
     <-> (u32Magic h <> PSP_SERIAL_EXT_2_PSP_PDU_START_MAGIC
          \/ cbPdu h > _4K - cbPduHdr - cbPduFooter
          \/ (enmRrnId h < PSPSERIALPDURRNID_REQUEST_FIRST
              \/ enmRrnId h >= PSPSERIALPDURRNID_REQUEST_INVALID_FIRST)
          \/ cPdus h <> cPduRecvNext t
          \/ idCcd h >= cCcds t))
  /\ (forall s : Sys,
        enmPduRecvState (stub s) = PSPSERIALPDURECVSTATE_HDR ->
        pspStubPduHdrValidate (stub s) (hdr_at (abPdu (stub s))) <> 0 ->
        pspStubPduRecvAdvance s
        = ((INF_SUCCESS, PduNull),
           {| stub := set_parser PSPSERIALPDURECVSTATE_HDR cbPduHdr 0 (stub s); hw := hw s |})
        /\ uart_tx (hw (snd (pspStubPduRecvAdvance s))) = uart_tx (hw s)
        /\ cPduRecvNext (stub (snd (pspStubPduRecvAdvance s))) = cPduRecvNext (stub s))
  /\ (forall s : Sys,
        cPduRecvNext (stub (snd (pspStubPduRecvAdvance s))) <> cPduRecvNext (stub s) ->
        enmPduRecvState (stub s) = PSPSERIALPDURECVSTATE_FOOTER
        /\ pspStubPduValidate (abPdu (stub s)) = 0
        /\ cPduRecvNext (stub (snd (pspStubPduRecvAdvance s)))
           = wrap32 (cPduRecvNext (stub s) + 1)
        /\ fst (pspStubPduRecvAdvance s) = (INF_SUCCESS, PduBuf)).
Proof.
  split; [exact pspStubPduHdrValidate_rejects|]. split.
  - intros s Hst Hrej.
    assert (E : pspStubPduRecvAdvance s
                = ((INF_SUCCESS, PduNull),
                   {| stub := set_parser PSPSERIALPDURECVSTATE_HDR cbPduHdr 0 (stub s);
                      hw := hw s |})).
    { unfold pspStubPduRecvAdvance, pspStubPduRecvReset, bind, gets, modify, ret.
      cbn [fst snd stub hw]. rewrite Hst. cbn [fst snd stub hw id].
      apply Z.eqb_neq in Hrej. unfold id. rewrite Hrej. reflexivity. }
    rewrite E. repeat split.
  - intros s Hchg. destruct (pspStubPduRecvAdvance_spec s) as (_ & _ & [H|[_ H]]).
    + tauto.
    + contradiction.
Qed.

Lemma PSPUartGetDataAvail_frame (s : Sys) :
  let r := PSPUartGetDataAvail s in
  recv_preserves s (snd r) /\ stub (snd r) = stub s.
Proof. repeat split. Qed.

Lemma PSPUartRead_frame (off cb : Z) (s : Sys) :
  let r := PSPUartRead off cb s in
  recv_preserves s (snd r)
  /\ cPduRecvNext (stub (snd r)) = cPduRecvNext (stub s).
Proof.
  unfold PSPUartRead. destruct (hd 0 (uart_rd_rcs (hw s)) =? 0); repeat split.
Qed.

Lemma recv_poll_spec (rc : Z) (s : Sys) :
  let r := recv_poll rc PduNull s in
  recv_preserves s (snd r)
  /\ recv_outcome s (snd r) (fst (fst (fst r))) (snd (fst (fst r)))
  /\ snd (fst r) = match snd (fst (fst r)) with PduBuf => true | PduNull => false end.
Proof.
  intros r. subst r.
  destruct (recv_poll rc PduNull s) as [[[rcR pR] brk] sR] eqn:E. cbn [fst snd].
  unfold recv_poll, bind in E.
  pose proof (PSPUartGetDataAvail_frame s) as (Hp1 & Hs1).
  destruct (PSPUartGetDataAvail s) as [cbAvail s1]. cbn [fst snd] in *.
  destruct (negb (cbAvail =? 0)); unfold ret in E.
  2:{ injection E as <- <- <- <-.
      split; [exact Hp1|split; [right; split; [reflexivity|congruence]|reflexivity]]. }
  unfold gets at 1 2 in E. cbn [fst snd] in E.
  match type of E with context [PSPUartRead ?o ?c s1] =>
    pose proof (PSPUartRead_frame o c s1) as (Hp2 & Hn2);
    destruct (PSPUartRead o c s1) as [rc1 s2] end.
  cbn [fst snd] in *.
  assert (Hp12 : recv_preserves s s2) by (eapply recv_preserves_trans; eassumption).
  assert (Hn12 : cPduRecvNext (stub s2) = cPduRecvNext (stub s)) by congruence.
  destruct (rc1 =? 0).
  2:{ injection E as <- <- <- <-.
      split; [exact Hp12|split; [right; split; [reflexivity|exact Hn12]|reflexivity]]. }
  unfold modify, gets in E. cbn [fst snd stub hw cbPduRecvLeft set_parser] in E.
  destruct (wrap32 _ =? 0).
  2:{ injection E as <- <- <- <-.
      split; [eapply recv_preserves_trans; [exact Hp12|repeat split]
             |split; [right; split; [reflexivity|exact Hn12]|reflexivity]]. }
  match type of E with context [pspStubPduRecvAdvance ?s0] =>
    pose proof (pspStubPduRecvAdvance_spec s0) as (Hp & _ & Ho);
    destruct (pspStubPduRecvAdvance s0) as [[rc' p'] s'] end.
  cbn [fst snd stub hw cPduRecvNext set_parser] in *.
  assert (Hpres : recv_preserves s s').
  { eapply recv_preserves_trans; [exact Hp12|].
    eapply recv_preserves_trans; [|exact Hp]. repeat split. }
  destruct Ho as [(E' & _ & _ & Hn)|(E' & Hn)].
  - injection E' as -> ->. injection E as <- <- <- <-.
    split; [exact Hpres|]. split; [|reflexivity].
    left. repeat split. congruence.
  - subst p'. injection E as <- <- <- <-.
    split; [exact Hpres|]. split; [|reflexivity].
    right. split; [reflexivity|congruence].
Qed.

Lemma recv_again_spec (ts c rc : Z) (s : Sys) :
  let r := recv_again ts c rc s in
  recv_preserves s (snd r) /\ cPduRecvNext (stub (snd r)) = cPduRecvNext (stub s).
Proof.
  unfold recv_again, bind, ret. destruct (rc =? 0); cbn [fst snd].
  - pose proof (pspStubGetMillies_preserves s) as Hp.
    pose proof (pspStubGetMillies_next s) as Hn.
    destruct (pspStubGetMillies s) as [now s1]. cbn [fst snd] in *. split; assumption.
  - split; [apply recv_preserves_refl|reflexivity].
Qed.

(** The receive loop, entered with nothing handed out yet. *)
Lemma pspStubPduRecv_loop_spec (fuel : nat) (ts c : Z) :
  forall (rc : Z) (s : Sys) (rc' : Z) (p' : PduPtr) (s' : Sys),
    pspStubPduRecv_loop fuel ts c rc PduNull s = Ret (rc', p') s' ->
    recv_preserves s s' /\ recv_outcome s s' rc' p'.
Proof.
  induction fuel as [|fuel IH]; intros rc s rc' p' s'; cbn [pspStubPduRecv_loop].
  - discriminate.
  - unfold rbind, lift.
    pose proof (recv_poll_spec rc s) as (Hp & Ho & Hb).
    destruct (recv_poll rc PduNull s) as [[[rc1 p1] brk] s1]. cbn [fst snd] in *.
    destruct Ho as [(-> & -> & Hn)|(-> & Hn)]; subst brk.
    + unfold rret. intros [= <- <- <-]. split; [exact Hp|]. left. repeat split. exact Hn.
    + pose proof (recv_again_spec ts c rc1 s1) as (Hp2 & Hn2).
      destruct (recv_again ts c rc1 s1) as [again s2]. cbn [fst snd] in *.
      assert (Hp12 : recv_preserves s s2) by (eapply recv_preserves_trans; eassumption).
      destruct again.
      * intros Hloop. destruct (IH _ _ _ _ _ Hloop) as (Hp3 & Ho3).
        split; [eapply recv_preserves_trans; eassumption|].
        unfold recv_outcome in *. rewrite <- Hn, <- Hn2. exact Ho3.
      * unfold rret. intros [= <- <- <-]. split; [exact Hp12|].
        right. split; [reflexivity|]. congruence.
Qed.

(** [pspStubPduRecv]: it writes nothing to the UART, and it hands out a PDU
    exactly when it has moved the expected counter up by one. *)
Lemma pspStubPduRecv_spec (fuel : nat) (c : Z) (s : Sys) (rc : Z) (p : PduPtr) (s' : Sys) :
  pspStubPduRecv fuel c s = Ret (rc, p) s' ->
  recv_preserves s s'
  /\ ((p = PduBuf /\ cPduRecvNext (stub s') = wrap32 (cPduRecvNext (stub s) + 1))
      \/ (p = PduNull /\ cPduRecvNext (stub s') = cPduRecvNext (stub s))).
Proof.
  unfold pspStubPduRecv, rbind, lift, rret.
  pose proof (pspStubGetMillies_preserves s) as Hp0.
  pose proof (pspStubGetMillies_next s) as Hn0.
  destruct (pspStubGetMillies s) as [ts s0]. cbn [fst snd] in *.
  destruct (pspStubPduRecv_loop fuel ts c INF_SUCCESS PduNull s0) as [[rc1 p1] s1|s1|s1] eqn:Hloop;
    try discriminate.
  destruct (pspStubPduRecv_loop_spec _ _ _ _ _ _ _ _ Hloop) as (Hp1 & Ho1).
  pose proof (pspStubGetMillies_preserves s1) as Hp2.
  pose proof (pspStubGetMillies_next s1) as Hn2.
  destruct (pspStubGetMillies s1) as [now s2]. cbn [fst snd] in *.
  intros [= <- <- <-].
  split; [eapply recv_preserves_trans; [|exact Hp2]; eapply recv_preserves_trans; eassumption|].
  unfold recv_outcome in Ho1. rewrite Hn2, <- Hn0.
  destruct Ho1 as [(-> & _ & Hn)|(-> & Hn)]; [left|right]; split; auto.
Qed.

End ParserProperties.

(** ** Session control *)

Section SessionProperties.
Context {C : ProtocolConsts}.

(** [pspStubCheckConnection], case by case on what [pspStubPduRecv] returns. *)
Lemma pspStubCheckConnection_cases (fuel : nat) (c : Z) (s : Sys) (rc : Z) (p : PduPtr)
  (s1 : Sys) :
  pspStubPduRecv fuel c s = Ret (rc, p) s1 ->
  pspStubCheckConnection fuel c s
  = if rc =? INF_SUCCESS then
      match p with
      | PduNull => Undefined s1
      | PduBuf =>
          if enmRrnId (hdr_at (abPdu (stub s1))) =? PSPSERIALPDURRNID_REQUEST_CONNECT then
            let r := send_connect_resp (connect_reset s1) in
            Ret INF_SUCCESS
              (if fst r =? 0
               then {| stub := set_fConnected true (stub (snd r)); hw := hw (snd r) |}
               else snd r)
          else Ret INF_SUCCESS s1
      end
    else Ret INF_SUCCESS s1.
Proof.
  intros Hrecv. unfold pspStubCheckConnection, rbind. rewrite Hrecv.
  destruct (rc =? INF_SUCCESS); [|reflexivity].
  destruct p; [reflexivity|].
  unfold lift, gets. cbn [fst snd].
  destruct (enmRrnId (hdr_at (abPdu (stub s1))) =? PSPSERIALPDURRNID_REQUEST_CONNECT);
    [|reflexivity].
  unfold modify. cbn [fst snd stub hw]. fold (connect_reset s1). fold send_connect_resp.
  destruct (send_connect_resp (connect_reset s1)) as [rc2 s2]. cbn [fst snd].
  destruct (rc2 =? 0); reflexivity.
Qed.

(** C10.  In [pspStubCheckConnection]:
    - when [pspStubPduRecv] hands out a validated PDU whose tag is not the
      CONNECT request, the function returns [INF_SUCCESS] in the very state
      the receive left: the expected counter [cPduRecvNext] has already moved
      up by one, nothing was written to the UART, [fConnected] is unchanged;
    - whatever it returns is [INF_SUCCESS];
    - when the receive returns a status other than [INF_SUCCESS] (timeout or
      error), it returns [INF_SUCCESS];
    - when the PDU is a CONNECT request it returns [INF_SUCCESS] whether or
      not the response could be sent, and sets [fConnected] only if it could;
    - so a turn of the beacon loop in which the beacon went out re-enters the
      loop with status 0, whatever the receive or the response send did. *)
Theorem check_connection_swallows_pdu_and_errors :
  (forall (fuel : nat) (c : Z) (s s1 : Sys),
     pspStubPduRecv fuel c s = Ret (INF_SUCCESS, PduBuf) s1 ->
     enmRrnId (hdr_at (abPdu (stub s1))) <> PSPSERIALPDURRNID_REQUEST_CONNECT ->
     pspStubCheckConnection fuel c s = Ret INF_SUCCESS s1
     /\ cPduRecvNext (stub s1) = wrap32 (cPduRecvNext (stub s) + 1)
     /\ uart_tx (hw s1) = uart_tx (hw s)
     /\ fConnected (stub s1) = fConnected (stub s))
  /\ (forall (fuel : nat) (c : Z) (s : Sys) (rc : Z) (s' : Sys),
        pspStubCheckConnection fuel c s = Ret rc s' -> rc = INF_SUCCESS)
  /\ (forall (fuel : nat) (c : Z) (s : Sys) (rc : Z) (p : PduPtr) (s1 : Sys),
        pspStubPduRecv fuel c s = Ret (rc, p) s1 ->
        rc <> INF_SUCCESS ->
        pspStubCheckConnection fuel c s = Ret INF_SUCCESS s1)
  /\ (forall (fuel : nat) (c : Z) (s s1 : Sys),
        pspStubPduRecv fuel c s = Ret (INF_SUCCESS, PduBuf) s1 ->
        enmRrnId (hdr_at (abPdu (stub s1))) = PSPSERIALPDURRNID_REQUEST_CONNECT ->
        let r := send_connect_resp (connect_reset s1) in
        exists s2, pspStubCheckConnection fuel c s = Ret INF_SUCCESS s2
                   /\ fConnected (stub s2)
                      = if fst r =? 0 then true else fConnected (stub s))
  /\ (forall (fuel : nat) (s sb s2 : Sys) (rc : Z),
        fConnected (stub s) = false ->
        pspStubPduSend INF_SUCCESS 0 PSPSERIALPDURRNID_NOTIFICATION_BEACON
          (InBuf (le_bytes 4 (wrap32 (cBeaconsSent (stub s) + 1)) ++ le_bytes 4 0)) 8
          {| stub := set_cBeaconsSent (wrap32 (cBeaconsSent (stub s) + 1)) (stub s);
             hw := hw s |}
        = (0, sb) ->
        pspStubCheckConnection fuel 1000 sb = Ret rc s2 ->
        pspStubMainloop_beacon (S fuel) INF_SUCCESS s
        = pspStubMainloop_beacon fuel INF_SUCCESS s2).
Proof.
  assert (Hall : forall fuel c s rc s',
             pspStubCheckConnection fuel c s = Ret rc s' -> rc = INF_SUCCESS).
  { intros fuel c s rc s' H.
    destruct (pspStubPduRecv fuel c s) as [[rc1 p1] s1|s1|s1] eqn:Hrecv.
    - rewrite (pspStubCheckConnection_cases _ _ _ _ _ _ Hrecv) in H.
      destruct (rc1 =? INF_SUCCESS); [|congruence].
      destruct p1; [discriminate|].
      destruct (_ =? PSPSERIALPDURRNID_REQUEST_CONNECT); cbn zeta in H; congruence.
    - unfold pspStubCheckConnection, rbind in H. rewrite Hrecv in H. discriminate.
    - unfold pspStubCheckConnection, rbind in H. rewrite Hrecv in H. discriminate. }
  split; [|split; [exact Hall|split; [|split]]].
  - intros fuel c s s1 Hrecv Htag.
    rewrite (pspStubCheckConnection_cases _ _ _ _ _ _ Hrecv). cbn [INF_SUCCESS Z.eqb].
    apply Z.eqb_neq in Htag. rewrite Htag.
    destruct (pspStubPduRecv_spec _ _ _ _ _ _ Hrecv) as (Hp & [[_ Hn]|[Hx _]]);
      [|discriminate].
    destruct Hp as (_&_&_&Hconn&_&_&Htx&_).
    repeat split; assumption.
  - intros fuel c s rc p s1 Hrecv Hrc.
    rewrite (pspStubCheckConnection_cases _ _ _ _ _ _ Hrecv).
    apply Z.eqb_neq in Hrc. rewrite Hrc. reflexivity.
  - intros fuel c s s1 Hrecv Htag r.
    rewrite (pspStubCheckConnection_cases _ _ _ _ _ _ Hrecv). cbn [INF_SUCCESS Z.eqb].
    apply Z.eqb_eq in Htag. rewrite Htag. cbn zeta. fold r.
    eexists. split; [reflexivity|].
    destruct (pspStubPduRecv_spec _ _ _ _ _ _ Hrecv) as ((_&_&_&Hconn&_) & _).
    destruct (fst r =? 0); [reflexivity|].
    subst r. unfold send_connect_resp.
    match goal with |- context [pspStubPduSend ?a ?b ?c0 ?d ?e ?s0] =>
      destruct (pspStubPduSend_spec a b c0 d e s0) as (ts & T & Hstub & _) end.
    cbn zeta in Hstub. rewrite Hstub. exact Hconn.
  - intros fuel s sb s2 rc Hconn Hsend Hcheck.
    cbn [pspStubMainloop_beacon]. unfold rbind, lift, gets, modify. cbn [fst snd stub hw].
    rewrite Hconn. cbn [negb andb INF_SUCCESS Z.eqb].
    cbn [cBeaconsSent set_cBeaconsSent]. rewrite Hsend.
    cbn [Z.eqb]. rewrite Hcheck. rewrite (Hall _ _ _ _ _ Hcheck). reflexivity.
Qed.

(** C3 (what the code does).  [pspStubPduRecv] decides between its status
    and [INF_TRY_AGAIN] by comparing the bound with the SUM of the entry time
    and the exit time, not with the time elapsed: when the loop has received a
    complete valid PDU (status 0, PDU handed out) and that sum, modulo 2^32,
    is not below the bound, the function returns [INF_TRY_AGAIN] although the
    PDU was consumed and [cPduRecvNext] advanced -- however little time has
    elapsed. *)
Theorem recv_try_again_despite_complete_pdu (fuel : nat) (cMillies : Z) (s s1 : Sys) :
  let tsStartMs := fst (pspStubGetMillies s) in
  let now := fst (pspStubGetMillies s1) in
  pspStubPduRecv_loop fuel tsStartMs cMillies INF_SUCCESS PduNull (snd (pspStubGetMillies s))
  = Ret (INF_SUCCESS, PduBuf) s1 ->
  cMillies <= wrap32 (tsStartMs + now) ->
  pspStubPduRecv fuel cMillies s = Ret (INF_TRY_AGAIN, PduBuf) (snd (pspStubGetMillies s1))
  /\ cPduRecvNext (stub (snd (pspStubGetMillies s1))) = wrap32 (cPduRecvNext (stub s) + 1).
Proof.
  intros ts now Hloop Hsum.
  assert (E : pspStubPduRecv fuel cMillies s
              = Ret (INF_TRY_AGAIN, PduBuf) (snd (pspStubGetMillies s1))).
  { unfold pspStubPduRecv, rbind, lift. subst ts now.
    destruct (pspStubGetMillies s) as [ts s0]. cbn [fst snd] in *. rewrite Hloop.
    destruct (pspStubGetMillies s1) as [now s2]. cbn [fst snd] in *. unfold rret.
    apply Z.leb_le in Hsum. rewrite Hsum. reflexivity. }
  split; [exact E|].
  destruct (pspStubPduRecv_spec _ _ _ _ _ _ E) as (_ & [[_ Hn]|[Hx _]]);
    [exact Hn|discriminate].
Qed.

(** C4 (what the code does).  The [for (;;)] of the connected phase has no
    exit: with any amount of fuel it does not return; after a turn that left
    any status [rc] in hand -- an error included -- it goes on with the next
    turn; and so [pspStubMainloop] can only return out of the beacon phase,
    with a non-zero status or not connected. *)
Theorem connected_loop_never_exits :
  (forall (fuel : nat) (s : Sys) (rc : Z) (s' : Sys),
     pspStubMainloop_connected fuel s <> Ret rc s')
  /\ (forall (fuel : nat) (s : Sys) (rc : Z) (s1 : Sys),
        pspStubMainloop_turn fuel s = Ret rc s1 ->
        pspStubMainloop_connected (S fuel) s = pspStubMainloop_connected fuel s1)
  /\ (forall (fuel : nat) (s : Sys) (rc : Z) (s' : Sys),
        pspStubMainloop fuel s = Ret rc s' ->
        rc <> 0 \/ fConnected (stub s') = false).
Proof.
  assert (Hnever : forall fuel s rc s', pspStubMainloop_connected fuel s <> Ret rc s').
  { induction fuel as [|fuel IH]; intros s rc s'; cbn [pspStubMainloop_connected].
    - discriminate.
    - unfold rbind. destruct (pspStubMainloop_turn fuel s) as [rc1 s1|s1|s1];
        [apply IH|discriminate|discriminate]. }
  split; [exact Hnever|]. split.
  - intros fuel s rc s1 Hturn. cbn [pspStubMainloop_connected]. unfold rbind.
    rewrite Hturn. reflexivity.
  - intros fuel s rc s'. unfold pspStubMainloop, rbind, lift, gets.
    destruct (pspStubMainloop_beacon fuel INF_SUCCESS s) as [rc1 s1|s1|s1];
      [|discriminate|discriminate].
    cbn [fst snd]. destruct (Z.eqb_spec rc1 0) as [->|Hrc]; cbn [andb].
    + destruct (fConnected (stub s1)) eqn:Hc.
      * intros H. exfalso. exact (Hnever _ _ _ _ H).
      * unfold rret. intros [= <- <-]. right. exact Hc.
    + unfold rret. intros [= <- <-]. left. exact Hrc.
Qed.

End SessionProperties.

(** ** Request handlers *)

Section HandlerProperties.
Context {C : ProtocolConsts}.

Lemma send_neutral_refl s : send_neutral s s.
Proof. split; reflexivity. Qed.

Lemma send_neutral_trans s1 s2 s3 :
  send_neutral s1 s2 -> send_neutral s2 s3 -> send_neutral s1 s3.
Proof. intros [? ?] [? ?]. split; congruence. Qed.

Lemma response_sent_after s s1 s2 h :
  send_neutral s s1 -> response_sent s1 s2 h -> response_sent s s2 h.
Proof.
  intros [Htx Hc] (rc1 & rest & H1 & H2 & H3 & H4).
  exists rc1, rest. rewrite <- Htx, <- Hc. auto.
Qed.

Lemma response_sent_before s s1 s2 h :
  response_sent s s1 h -> send_neutral s1 s2 -> response_sent s s2 h.
Proof.
  intros (rc1 & rest & H1 & H2 & H3 & H4) [Htx Hc].
  exists rc1, rest. rewrite Htx, Hc. auto.
Qed.

Lemma pspStubPduSend_response rc id tag pv cb (s : Sys) :
  exists h : PSPSERIALPDUHDR,
    response_sent s (snd (pspStubPduSend rc id tag pv cb s)) h
    /\ rcReq h = rc /\ idCcd h = wrap16 id /\ enmRrnId h = wrap16 tag /\ cbPdu h = wrap32 cb.
Proof.
  destruct (pspStubPduSend_spec rc id tag pv cb s) as (ts & T & Hstub & Htx & _).
  cbn zeta in *.
  exists (sent_hdr rc id tag cb (wrap32 (cPdusSent (stub s) + 1)) ts).
  split; [|repeat split].
  unfold response_sent. rewrite Htx, Hstub. unfold xmit_writes.
  eexists _, _. split; [reflexivity|]. split; [|split; reflexivity].
  destruct (hd 0 (uart_wr_rcs (hw s)) =? 0); [|reflexivity].
  destruct (negb (payload_is_null pv) && negb (cb =? 0)); [|reflexivity].
  destruct (hd 0 (tl (uart_wr_rcs (hw s))) =? 0); reflexivity.
Qed.

Lemma neutral_ret {A} (a : A) : neutral (ret a).
Proof. intros s. apply send_neutral_refl. Qed.

Lemma neutral_bind {A B} (m : St A) (k : A -> St B) :
  neutral m -> (forall a, neutral (k a)) -> neutral (bind m k).
Proof.
  intros Hm Hk s. unfold bind. specialize (Hm s). destruct (m s) as [a s1].
  eapply send_neutral_trans; [exact Hm|apply Hk].
Qed.

Lemma neutral_gets {A} (f : PSPSTUBSTATE -> A) : neutral (gets f).
Proof. intros s. apply send_neutral_refl. Qed.

Lemma neutral_getw {A} (f : World -> A) : neutral (getw f).
Proof. intros s. apply send_neutral_refl. Qed.

Lemma neutral_store32 a v : neutral (store32 a v).
Proof. intros s. split; reflexivity. Qed.

Lemma neutral_load32 a : neutral (load32 a).
Proof. intros s. apply send_neutral_refl. Qed.

Lemma neutral_upd_x86_slot i f : neutral (upd_x86_slot i f).
Proof. intros s. split; reflexivity. Qed.

Lemma neutral_upd_smn_slot i f : neutral (upd_smn_slot i f).
Proof. intros s. split; reflexivity. Qed.

Lemma neutral_xfer_to_mem pv buf off cb : neutral (modifyw (xfer_to_mem pv buf off cb)).
Proof. intros s. split; reflexivity. Qed.

(** Decompose a computation built from the neutral primitives. *)
Ltac neutral_tac :=
  repeat match goal with
         | |- neutral (ret _) => apply neutral_ret
         | |- neutral (gets _) => apply neutral_gets
         | |- neutral (getw _) => apply neutral_getw
         | |- neutral (store32 _ _) => apply neutral_store32
         | |- neutral (load32 _) => apply neutral_load32
         | |- neutral (upd_x86_slot _ _) => apply neutral_upd_x86_slot
         | |- neutral (upd_smn_slot _ _) => apply neutral_upd_smn_slot
         | |- neutral (modifyw _) => apply neutral_xfer_to_mem
         | |- neutral (bind _ _) => apply neutral_bind; [|intros ?]
         | |- neutral (if ?b then _ else _) => destruct b
         | |- neutral (match ?x with Some _ => _ | None => _ end) => destruct x
         | |- neutral (let '(_, _) := ?p in _) => destruct p
         end.

Lemma pspStubX86PhysMap_neutral a f : neutral (pspStubX86PhysMap a f).
Proof. unfold pspStubX86PhysMap, x86_program_slot. neutral_tac. Qed.

Lemma pspStubX86PhysUnmapByPtr_neutral pv : neutral (pspStubX86PhysUnmapByPtr pv).
Proof. unfold pspStubX86PhysUnmapByPtr, x86_clear_slot. neutral_tac. Qed.

Lemma pspStubSmnPhysMap_neutral a : neutral (pspStubSmnPhysMap a).
Proof. unfold pspStubSmnPhysMap. neutral_tac. Qed.

Lemma pspStubSmnUnmapByPtr_neutral pv : neutral (pspStubSmnUnmapByPtr pv).
Proof. unfold pspStubSmnUnmapByPtr. neutral_tac. Qed.

Lemma memcpy_to_mem_neutral pv buf off cb : neutral (memcpy_to_mem pv buf off cb).
Proof. unfold memcpy_to_mem. neutral_tac. Qed.

Lemma pspStubMmioAccess_store_neutral pv buf off cb :
  neutral (pspStubMmioAccess_store pv buf off cb).
Proof. unfold pspStubMmioAccess_store. neutral_tac. Qed.

Lemma pspStubMmioAccess_load_neutral pv cb : neutral (pspStubMmioAccess_load pv cb).
Proof. unfold pspStubMmioAccess_load. neutral_tac. Qed.

(** The only statuses the two map functions return. *)
Lemma pspStubX86PhysMap_rc a f (s : Sys) :
  fst (fst (pspStubX86PhysMap a f s)) = INF_SUCCESS
  \/ fst (fst (pspStubX86PhysMap a f s)) = ERR_INVALID_STATE.
Proof.
  unfold pspStubX86PhysMap, bind, gets, ret. cbn [fst snd].
  destruct (x86_find_slot _ _ _ _) as [[i m]|]; [left|right; reflexivity].
  destruct (PhysX86AddrBase m =? NIL_X86PADDR); cbn [fst snd].
  - destruct (let '(_, _) := upd_x86_slot _ _ _ in _) as [[] s1].
    destruct (upd_x86_slot _ _ _). reflexivity.
  - destruct (upd_x86_slot _ _ _). reflexivity.
Qed.

Lemma pspStubSmnPhysMap_rc a (s : Sys) :
  fst (fst (pspStubSmnPhysMap a s)) = INF_SUCCESS
  \/ fst (fst (pspStubSmnPhysMap a s)) = ERR_INVALID_STATE.
Proof.
  unfold pspStubSmnPhysMap, bind, gets, ret. cbn [fst snd].
  destruct (smn_find_slot _ _ _) as [[i m]|]; [left|right; reflexivity].
  destruct (SmnAddrBase m =? 0); cbn [fst snd].
  - destruct (let '(_, _) := upd_smn_slot _ _ _ in _) as [[] s1].
    destruct (upd_smn_slot _ _ _). reflexivity.
  - destruct (upd_smn_slot _ _ _). reflexivity.
Qed.

Lemma responds_send rc id tag pv cb :
  responds (pspStubPduSend rc id tag pv cb)
    (fun h => rcReq h = rc /\ idCcd h = wrap16 id /\ enmRrnId h = wrap16 tag
              /\ cbPdu h = wrap32 cb).
Proof.
  intros s. destruct (pspStubPduSend_response rc id tag pv cb s) as (h & H & ? & ? & ? & ?).
  exists h. auto.
Qed.

Lemma responds_weaken {A} (m : St A) (P Q : PSPSERIALPDUHDR -> Prop) :
  responds m P -> (forall h, P h -> Q h) -> responds m Q.
Proof. intros Hm HPQ s. destruct (Hm s) as (h & H & HP). exists h. auto. Qed.

Lemma responds_after {A B} (m : St A) (k : A -> St B) (R : A -> Prop) P :
  neutral m -> (forall s, R (fst (m s))) -> (forall a, R a -> responds (k a) P) ->
  responds (bind m k) P.
Proof.
  intros Hm HR Hk s. unfold bind. specialize (Hm s). specialize (HR s).
  destruct (m s) as [a s1]. cbn [fst snd] in *.
  destruct (Hk a HR s1) as (h & H & HP). exists h. split; [|exact HP].
  eapply response_sent_after; eassumption.
Qed.

Lemma responds_before {A B} (m : St A) (k : A -> St B) P :
  responds m P -> (forall a, neutral (k a)) -> responds (bind m k) P.
Proof.
  intros Hm Hk s. unfold bind. destruct (Hm s) as (h & H & HP).
  destruct (m s) as [a s1]. cbn [fst snd] in *. exists h. split; [|exact HP].
  eapply response_sent_before; [exact H|apply Hk].
Qed.

Lemma responds_send_ok tag pv cb :
  responds (pspStubPduSend INF_SUCCESS 0 tag pv cb) (response_to tag).
Proof.
  eapply responds_weaken; [apply responds_send|].
  intros h (Hrc & Hid & Htag & _). split; [exact Htag|]. split; [exact Hid|left; exact Hrc].
Qed.

Lemma responds_send_map_failure tag :
  responds (pspStubPduSend ERR_INVALID_STATE 0 tag NULL 0) (response_to tag).
Proof.
  eapply responds_weaken; [apply responds_send|].
  intros h (Hrc & Hid & Htag & Hcb). split; [exact Htag|].
  split; [exact Hid|right; split; assumption].
Qed.

Lemma pspStubPduProcessPspMemXfer_responds pv cb fWrite :
  cbXferReq <= cb ->
  responds (pspStubPduProcessPspMemXfer pv cb fWrite)
    (response_to (if fWrite then PSPSERIALPDURRNID_RESPONSE_PSP_MEM_WRITE
                  else PSPSERIALPDURRNID_RESPONSE_PSP_MEM_READ)).
Proof.
  intros Hlen. unfold pspStubPduProcessPspMemXfer.
  apply Z.ltb_ge in Hlen. rewrite Hlen.
  apply (responds_after _ _ (fun _ => True)); [apply neutral_gets|auto|]. intros buf _.
  destruct fWrite.
  - apply (responds_after _ _ (fun _ => True)); [apply memcpy_to_mem_neutral|auto|].
    intros _ _. apply responds_send_ok.
  - apply responds_send_ok.
Qed.

(** Pass from one run to the computation that is run. *)
Ltac responds_at :=
  match goal with
  | |- exists h, response_sent ?s0 (snd (?m ?s0)) h /\ response_to ?tag h =>
      cut (responds m (response_to tag)); [intros Hr; exact (Hr s0)|]
  end.

Lemma pspStubPduProcessPspMmioXfer_responds pv cb fWrite (s : Sys) :
  cbXferReq <= cb -> mmio_width (req_cbXfer (abPdu (stub s)) pv) = true ->
  exists h, response_sent s (snd (pspStubPduProcessPspMmioXfer pv cb fWrite s)) h
            /\ response_to (if fWrite then PSPSERIALPDURRNID_RESPONSE_PSP_MEM_WRITE
                            else PSPSERIALPDURRNID_RESPONSE_PSP_MEM_READ) h.
Proof.
  intros Hlen Hw. unfold pspStubPduProcessPspMmioXfer, bind at 1, gets at 1. cbn [fst snd].
  apply Z.ltb_ge in Hlen. rewrite Hlen, Hw. cbn [negb orb]. responds_at.
  destruct fWrite.
  - apply (responds_after _ _ (fun _ => True));
      [apply pspStubMmioAccess_store_neutral|auto|].
    intros _ _. apply responds_send_ok.
  - apply (responds_after _ _ (fun _ => True));
      [apply pspStubMmioAccess_load_neutral|auto|].
    intros abRead _. apply responds_send_ok.
Qed.

(** The part of the SMN and x86 handlers after the map call: access, send,
    unmap on success; an error response otherwise. *)
Lemma responds_mapped {A} (access : St A) (k : A -> St Z) (unmap : St Z) P :
  neutral access -> (forall a, responds (k a) P) -> neutral unmap ->
  responds (let* rc := (let* a := access in k a) in let* _ := unmap in ret rc) P.
Proof.
  intros Ha Hk Hu. apply responds_before.
  - apply (responds_after _ _ (fun _ => True)); auto.
  - intros rc. apply neutral_bind; [exact Hu|]. intros _. apply neutral_ret.
Qed.

Lemma pspStubPduProcessPspSmnXfer_responds pv cb fWrite (s : Sys) :
  cbXferReq <= cb -> mmio_width (req_cbXfer (abPdu (stub s)) pv) = true ->
  exists h, response_sent s (snd (pspStubPduProcessPspSmnXfer pv cb fWrite s)) h
            /\ response_to (if fWrite then PSPSERIALPDURRNID_RESPONSE_PSP_SMN_WRITE
                            else PSPSERIALPDURRNID_RESPONSE_PSP_SMN_READ) h.
Proof.
  intros Hlen Hw. unfold pspStubPduProcessPspSmnXfer, bind at 1, gets at 1. cbn [fst snd].
  apply Z.ltb_ge in Hlen. rewrite Hlen, Hw. cbn [negb orb]. responds_at.
  apply (responds_after _ _
           (fun r => fst r = INF_SUCCESS \/ fst r = ERR_INVALID_STATE));
    [apply pspStubSmnPhysMap_neutral|apply pspStubSmnPhysMap_rc|].
  intros [rc ppv] Hrc. cbn [fst] in Hrc.
  destruct (Z.eqb_spec rc 0) as [-> | Hne].
  - destruct fWrite.
    + apply responds_mapped;
        [apply pspStubMmioAccess_store_neutral|intros; apply responds_send_ok
        |apply pspStubSmnUnmapByPtr_neutral].
    + apply responds_mapped;
        [apply pspStubMmioAccess_load_neutral|intros; apply responds_send_ok
        |apply pspStubSmnUnmapByPtr_neutral].
  - destruct Hrc as [-> | ->]; [contradiction|]. apply responds_send_map_failure.
Qed.

Lemma pspStubPduProcessPspX86MemXfer_responds pv cb fWrite :
  cbXferReq <= cb ->
  responds (pspStubPduProcessPspX86MemXfer pv cb fWrite)
    (response_to (if fWrite then PSPSERIALPDURRNID_RESPONSE_PSP_X86_MEM_WRITE
                  else PSPSERIALPDURRNID_RESPONSE_PSP_X86_MEM_READ)).
Proof.
  intros Hlen. unfold pspStubPduProcessPspX86MemXfer.
  apply Z.ltb_ge in Hlen. rewrite Hlen.
  apply (responds_after _ _ (fun _ => True)); [apply neutral_gets|auto|]. intros buf _.
  apply (responds_after _ _
           (fun r => fst r = INF_SUCCESS \/ fst r = ERR_INVALID_STATE));
    [apply pspStubX86PhysMap_neutral|apply pspStubX86PhysMap_rc|].
  intros [rc ppv] Hrc. cbn [fst] in Hrc.
  destruct (Z.eqb_spec rc 0) as [-> | Hne].
  - apply responds_before.
    + destruct fWrite.
      * apply (responds_after _ _ (fun _ => True)); [apply memcpy_to_mem_neutral|auto|].
        intros _ _. apply responds_send_ok.
      * apply responds_send_ok.
    + intros rc. apply neutral_bind; [apply pspStubX86PhysUnmapByPtr_neutral|].
      intros _. apply neutral_ret.
  - destruct Hrc as [-> | ->]; [contradiction|]. apply responds_send_map_failure.
Qed.

Lemma pspStubPduProcessPspX86MmioXfer_responds pv cb fWrite (s : Sys) :
  cbXferReq <= cb -> mmio_width (req_cbXfer (abPdu (stub s)) pv) = true ->
  exists h, response_sent s (snd (pspStubPduProcessPspX86MmioXfer pv cb fWrite s)) h
            /\ response_to (if fWrite then PSPSERIALPDURRNID_RESPONSE_PSP_X86_MMIO_WRITE
                            else PSPSERIALPDURRNID_RESPONSE_PSP_X86_MMIO_READ) h.
Proof.
  intros Hlen Hw. unfold pspStubPduProcessPspX86MmioXfer, bind at 1, gets at 1.
  cbn [fst snd].
  apply Z.ltb_ge in Hlen. rewrite Hlen, Hw. cbn [negb orb]. responds_at.
  apply (responds_after _ _
           (fun r => fst r = INF_SUCCESS \/ fst r = ERR_INVALID_STATE));
    [apply pspStubX86PhysMap_neutral|apply pspStubX86PhysMap_rc|].
  intros [rc ppv] Hrc. cbn [fst] in Hrc.
  destruct (Z.eqb_spec rc 0) as [-> | Hne].
  - destruct fWrite.
    + apply responds_mapped;
        [apply pspStubMmioAccess_store_neutral|intros; apply responds_send_ok
        |apply pspStubX86PhysUnmapByPtr_neutral].
    + apply responds_mapped;
        [apply pspStubMmioAccess_load_neutral|intros; apply responds_send_ok
        |apply pspStubX86PhysUnmapByPtr_neutral].
  - destruct Hrc as [-> | ->]; [contradiction|]. apply responds_send_map_failure.
Qed.

Lemma process_labels_neq (i j : nat) (x y : Z) :
  process_labels !! i = Some x -> process_labels !! j = Some y -> i <> j ->
  (x =? y) = false.
Proof.
  intros Hi Hj Hne. apply Z.eqb_neq. intros ->. apply Hne.
  eapply NoDup_lookup; [exact process_labels_distinct|exact Hi|exact Hj].
Qed.

(** Decide every comparison of two labels in the goal, [x] being label [k]. *)
Ltac decide_labels k :=
  repeat match goal with
         | |- context [?x =? ?x] => rewrite (Z.eqb_refl x)
         | |- context [?x =? ?y] =>
             first
               [ rewrite (process_labels_neq k 0 x y eq_refl eq_refl) by discriminate
               | rewrite (process_labels_neq k 1 x y eq_refl eq_refl) by discriminate
               | rewrite (process_labels_neq k 2 x y eq_refl eq_refl) by discriminate
               | rewrite (process_labels_neq k 3 x y eq_refl eq_refl) by discriminate
               | rewrite (process_labels_neq k 4 x y eq_refl eq_refl) by discriminate
               | rewrite (process_labels_neq k 5 x y eq_refl eq_refl) by discriminate
               | rewrite (process_labels_neq k 6 x y eq_refl eq_refl) by discriminate
               | rewrite (process_labels_neq k 7 x y eq_refl eq_refl) by discriminate
               | rewrite (process_labels_neq k 8 x y eq_refl eq_refl) by discriminate
               | rewrite (process_labels_neq k 9 x y eq_refl eq_refl) by discriminate ]
         end.

(** [pspStubPduProcess] runs the handler of the case whose label is the
    PDU's tag, and the tag tells whether the transfer is width-constrained. *)
Lemma pspStubPduProcess_dispatch (k : nat) (f : Z -> Z -> St Z) (s : Sys) :
  process_labels !! k = Some (enmRrnId (hdr_at (abPdu (stub s)))) ->
  process_handlers !! k = Some f ->
  pspStubPduProcess s = f cbPduHdr (cbPdu (hdr_at (abPdu (stub s)))) s
  /\ width_constrained (enmRrnId (hdr_at (abPdu (stub s))))
     = match k with
       | 2 | 3 | 4 | 5 | 8 | 9 => true
       | _ => false
       end%nat.
Proof.
  intros Hk Hf. unfold pspStubPduProcess, bind, gets, width_constrained. cbn [fst snd existsb].
  generalize dependent (enmRrnId (hdr_at (abPdu (stub s)))). intros tag Hk.
  generalize (cbPdu (hdr_at (abPdu (stub s)))). intros cb.
  destruct k as [|[|[|[|[|[|[|[|[|[|k]]]]]]]]]]; try discriminate Hk;
    injection Hf as <-; injection Hk as <-.
  - decide_labels 0%nat. split; reflexivity.
  - decide_labels 1%nat. split; reflexivity.
  - decide_labels 2%nat. split; reflexivity.
  - decide_labels 3%nat. split; reflexivity.
  - decide_labels 4%nat. split; reflexivity.
  - decide_labels 5%nat. split; reflexivity.
  - decide_labels 6%nat. split; reflexivity.
  - decide_labels 7%nat. split; reflexivity.
  - decide_labels 8%nat. split; reflexivity.
  - decide_labels 9%nat. split; reflexivity.
Qed.

Lemma invalid_PspMemXfer pv cb fWrite (s : Sys) :
  cb < cbXferReq -> pspStubPduProcessPspMemXfer pv cb fWrite s = (ERR_INVALID_PARAMETER, s).
Proof.
  intros H. unfold pspStubPduProcessPspMemXfer. apply Z.ltb_lt in H. rewrite H. reflexivity.
Qed.

Lemma invalid_PspX86MemXfer pv cb fWrite (s : Sys) :
  cb < cbXferReq -> pspStubPduProcessPspX86MemXfer pv cb fWrite s = (ERR_INVALID_PARAMETER, s).
Proof.
  intros H. unfold pspStubPduProcessPspX86MemXfer. apply Z.ltb_lt in H. rewrite H.
  reflexivity.
Qed.

Lemma invalid_width (cb : Z) (w : bool) :
  (cbXferReq <=? cb) && w = false -> (cb <? cbXferReq) || negb w = true.
Proof.
  destruct (Z.leb_spec cbXferReq cb) as [Hle|Hlt]; destruct (Z.ltb_spec cb cbXferReq);
    destruct w; cbn; intros; try reflexivity; try discriminate; lia.
Qed.

Lemma invalid_PspMmioXfer pv cb fWrite (s : Sys) :
  (cbXferReq <=? cb) && mmio_width (req_cbXfer (abPdu (stub s)) pv) = false ->
  pspStubPduProcessPspMmioXfer pv cb fWrite s = (ERR_INVALID_PARAMETER, s).
Proof.
  intros H. unfold pspStubPduProcessPspMmioXfer, bind, gets. cbn [fst snd].
  rewrite (invalid_width _ _ H). reflexivity.
Qed.

Lemma invalid_PspSmnXfer pv cb fWrite (s : Sys) :
  (cbXferReq <=? cb) && mmio_width (req_cbXfer (abPdu (stub s)) pv) = false ->
  pspStubPduProcessPspSmnXfer pv cb fWrite s = (ERR_INVALID_PARAMETER, s).
Proof.
  intros H. unfold pspStubPduProcessPspSmnXfer, bind, gets. cbn [fst snd].
  rewrite (invalid_width _ _ H). reflexivity.
Qed.

Lemma invalid_PspX86MmioXfer pv cb fWrite (s : Sys) :
  (cbXferReq <=? cb) && mmio_width (req_cbXfer (abPdu (stub s)) pv) = false ->
  pspStubPduProcessPspX86MmioXfer pv cb fWrite s = (ERR_INVALID_PARAMETER, s).
Proof.
  intros H. unfold pspStubPduProcessPspX86MmioXfer, bind, gets. cbn [fst snd].
  rewrite (invalid_width _ _ H). reflexivity.
Qed.


(** A PDU whose tag is label [k]: validated by the handler of case [k],
    and answered, if valid, with one response carrying the ID that handler
    uses. *)
Lemma pspStubPduProcess_transfer (k : nat) (rt : Z) (s : Sys) :
  process_labels !! k = Some (enmRrnId (hdr_at (abPdu (stub s)))) ->
  process_responses !! k = Some rt ->
  if request_well_formed (stub s)
  then exists h : PSPSERIALPDUHDR,
         response_sent s (snd (pspStubPduProcess s)) h /\ response_to rt h
  else pspStubPduProcess s = (ERR_INVALID_PARAMETER, s).
Proof.
  intros Hk Hrt. unfold request_well_formed. cbn zeta.
  set (cb := cbPdu (hdr_at (abPdu (stub s)))) in *.
  assert (Hfree : forall f : Z -> Z -> St Z,
            process_handlers !! k = Some f ->
            width_constrained (enmRrnId (hdr_at (abPdu (stub s)))) = false ->
            (cbXferReq <= cb -> responds (f cbPduHdr cb) (response_to rt)) ->
            (cb < cbXferReq -> f cbPduHdr cb s = (ERR_INVALID_PARAMETER, s)) ->
            if (cbXferReq <=? cb)
               && (negb (width_constrained (enmRrnId (hdr_at (abPdu (stub s)))))
                   || mmio_width (req_cbXfer (abPdu (stub s)) cbPduHdr))
            then exists h, response_sent s (snd (pspStubPduProcess s)) h /\ response_to rt h
            else pspStubPduProcess s = (ERR_INVALID_PARAMETER, s)).
  { intros f Hf Hw Hok Hbad.
    destruct (pspStubPduProcess_dispatch k f s Hk Hf) as [Hd _]. fold cb in Hd.
    rewrite Hd, Hw. cbn [negb orb]. rewrite andb_true_r.
    destruct (Z.leb_spec cbXferReq cb) as [Hle|Hlt]; [exact (Hok Hle s)|exact (Hbad Hlt)]. }
  assert (Hwidth : forall f : Z -> Z -> St Z,
            process_handlers !! k = Some f ->
            width_constrained (enmRrnId (hdr_at (abPdu (stub s)))) = true ->
            (cbXferReq <= cb -> mmio_width (req_cbXfer (abPdu (stub s)) cbPduHdr) = true ->
             exists h, response_sent s (snd (f cbPduHdr cb s)) h /\ response_to rt h) ->
            ((cbXferReq <=? cb) && mmio_width (req_cbXfer (abPdu (stub s)) cbPduHdr) = false ->
             f cbPduHdr cb s = (ERR_INVALID_PARAMETER, s)) ->
            if (cbXferReq <=? cb)
               && (negb (width_constrained (enmRrnId (hdr_at (abPdu (stub s)))))
                   || mmio_width (req_cbXfer (abPdu (stub s)) cbPduHdr))
            then exists h, response_sent s (snd (pspStubPduProcess s)) h /\ response_to rt h
            else pspStubPduProcess s = (ERR_INVALID_PARAMETER, s)).
  { intros f Hf Hw Hok Hbad.
    destruct (pspStubPduProcess_dispatch k f s Hk Hf) as [Hd _]. fold cb in Hd.
    rewrite Hd, Hw. cbn [negb orb].
    destruct ((cbXferReq <=? cb) && mmio_width (req_cbXfer (abPdu (stub s)) cbPduHdr)) eqn:E;
      [|exact (Hbad eq_refl)].
    apply andb_true_iff in E as [Hle Hmw]. apply Z.leb_le in Hle. exact (Hok Hle Hmw). }
  destruct k as [|[|[|[|[|[|[|[|[|[|k]]]]]]]]]]; try discriminate Hk;
    injection Hrt as <-.
  - eapply Hfree; [reflexivity|exact (proj2 (pspStubPduProcess_dispatch 0 _ s Hk eq_refl))| |].
    + apply pspStubPduProcessPspMemXfer_responds.
    + apply invalid_PspMemXfer.
  - eapply Hfree; [reflexivity|exact (proj2 (pspStubPduProcess_dispatch 1 _ s Hk eq_refl))| |].
    + apply pspStubPduProcessPspMemXfer_responds.
    + apply invalid_PspMemXfer.
  - eapply Hwidth; [reflexivity|exact (proj2 (pspStubPduProcess_dispatch 2 _ s Hk eq_refl))| |].
    + apply pspStubPduProcessPspMmioXfer_responds.
    + apply invalid_PspMmioXfer.
  - eapply Hwidth; [reflexivity|exact (proj2 (pspStubPduProcess_dispatch 3 _ s Hk eq_refl))| |].
    + apply pspStubPduProcessPspMmioXfer_responds.
    + apply invalid_PspMmioXfer.
  - eapply Hwidth; [reflexivity|exact (proj2 (pspStubPduProcess_dispatch 4 _ s Hk eq_refl))| |].
    + apply pspStubPduProcessPspSmnXfer_responds.
    + apply invalid_PspSmnXfer.
  - eapply Hwidth; [reflexivity|exact (proj2 (pspStubPduProcess_dispatch 5 _ s Hk eq_refl))| |].
    + apply pspStubPduProcessPspSmnXfer_responds.
    + apply invalid_PspSmnXfer.
  - eapply Hfree; [reflexivity|exact (proj2 (pspStubPduProcess_dispatch 6 _ s Hk eq_refl))| |].
    + apply pspStubPduProcessPspX86MemXfer_responds.
    + apply invalid_PspX86MemXfer.
  - eapply Hfree; [reflexivity|exact (proj2 (pspStubPduProcess_dispatch 7 _ s Hk eq_refl))| |].
    + apply pspStubPduProcessPspX86MemXfer_responds.
    + apply invalid_PspX86MemXfer.
  - eapply Hwidth; [reflexivity|exact (proj2 (pspStubPduProcess_dispatch 8 _ s Hk eq_refl))| |].
    + apply pspStubPduProcessPspX86MmioXfer_responds.
    + apply invalid_PspX86MmioXfer.
  - eapply Hwidth; [reflexivity|exact (proj2 (pspStubPduProcess_dispatch 9 _ s Hk eq_refl))| |].
    + apply pspStubPduProcessPspX86MmioXfer_responds.
    + apply invalid_PspX86MmioXfer.
Qed.

(** The labels of the local-MMIO cases differ from the labels before them in
    the [switch]. *)
Lemma mmio_labels :
  PSPSERIALPDURRNID_REQUEST_PSP_MMIO_READ <> PSPSERIALPDURRNID_REQUEST_PSP_MEM_READ
  /\ PSPSERIALPDURRNID_REQUEST_PSP_MMIO_READ <> PSPSERIALPDURRNID_REQUEST_PSP_MEM_WRITE
  /\ PSPSERIALPDURRNID_REQUEST_PSP_MMIO_WRITE <> PSPSERIALPDURRNID_REQUEST_PSP_MEM_READ
  /\ PSPSERIALPDURRNID_REQUEST_PSP_MMIO_WRITE <> PSPSERIALPDURRNID_REQUEST_PSP_MEM_WRITE
  /\ PSPSERIALPDURRNID_REQUEST_PSP_MMIO_WRITE <> PSPSERIALPDURRNID_REQUEST_PSP_MMIO_READ.
Proof.
  pose proof process_labels_distinct as H.
  repeat split; intros E;
    [ pose proof (NoDup_lookup _ 2%nat 0%nat _ H eq_refl (f_equal Some (eq_sym E)))
    | pose proof (NoDup_lookup _ 2%nat 1%nat _ H eq_refl (f_equal Some (eq_sym E)))
    | pose proof (NoDup_lookup _ 3%nat 0%nat _ H eq_refl (f_equal Some (eq_sym E)))
    | pose proof (NoDup_lookup _ 3%nat 1%nat _ H eq_refl (f_equal Some (eq_sym E)))
    | pose proof (NoDup_lookup _ 3%nat 2%nat _ H eq_refl (f_equal Some (eq_sym E))) ];
    discriminate.
Qed.

(** [pspStubPduProcess] dispatches a local-MMIO request to
    [pspStubPduProcessPspMmioXfer]. *)
Lemma pspStubPduProcess_mmio (fWrite : bool) (s : Sys) :
  enmRrnId (hdr_at (abPdu (stub s)))
  = (if fWrite then PSPSERIALPDURRNID_REQUEST_PSP_MMIO_WRITE
     else PSPSERIALPDURRNID_REQUEST_PSP_MMIO_READ) ->
  pspStubPduProcess s
  = pspStubPduProcessPspMmioXfer cbPduHdr (cbPdu (hdr_at (abPdu (stub s)))) fWrite s.
Proof.
  intros Htag. destruct mmio_labels as (H1 & H2 & H3 & H4 & H5).
  unfold pspStubPduProcess, bind, gets. cbn [fst snd]. rewrite Htag.
  destruct fWrite.
  - apply Z.eqb_neq in H3, H4, H5. rewrite H3, H4, H5, Z.eqb_refl. reflexivity.
  - apply Z.eqb_neq in H1, H2. rewrite H1, H2, Z.eqb_refl. reflexivity.
Qed.

Lemma pspStubMmioAccess_load_frame (pv cb : Z) (s : Sys) :
  snd (pspStubMmioAccess_load pv cb s) = s.
Proof. unfold pspStubMmioAccess_load. destruct (mmio_width cb); reflexivity. Qed.

Lemma pspStubMmioAccess_store_frame (pv : Z) (buf : list Z) (off cb : Z) (s : Sys) :
  let s' := snd (pspStubMmioAccess_store pv buf off cb s) in
  stub s' = stub s /\ uart_tx (hw s') = uart_tx (hw s).
Proof. unfold pspStubMmioAccess_store. destruct (mmio_width cb); split; reflexivity. Qed.

(** C2 (what the code does).  A well-formed local-MMIO request is answered
    with the response tag of the local-MEMORY transfer of the same direction:
    [RESPONSE_PSP_MEM_READ] for [REQUEST_PSP_MMIO_READ],
    [RESPONSE_PSP_MEM_WRITE] for [REQUEST_PSP_MMIO_WRITE].  The first thing
    [pspStubPduProcess] writes to the UART is a header with that tag, unit ID
    0 and status 0.
    For all ten transfer requests: the one response to a well-formed request
    with label [k] carries the ID at position [k] of [process_responses] --
    the matching response constant for the local-memory, SMN, x86-memory and
    x86-MMIO transfers, the local-memory constant for the local-MMIO
    transfers -- and unit ID 0. *)
Theorem mmio_request_answered_with_mem_tag :
  (forall (fWrite : bool) (s : Sys),
     let pPdu := hdr_at (abPdu (stub s)) in
     enmRrnId pPdu
     = (if fWrite then PSPSERIALPDURRNID_REQUEST_PSP_MMIO_WRITE
        else PSPSERIALPDURRNID_REQUEST_PSP_MMIO_READ) ->
     cbXferReq <= cbPdu pPdu ->
     mmio_width (req_cbXfer (abPdu (stub s)) cbPduHdr) = true ->
     exists (h : PSPSERIALPDUHDR) (rc1 : Z) (rest : list TxWrite),
       uart_tx (hw (snd (pspStubPduProcess s)))
       = uart_tx (hw s) ++ {| tx_buf := BufHdr h; tx_rc := rc1 |} :: rest
       /\ enmRrnId h = wrap16 (if fWrite then PSPSERIALPDURRNID_RESPONSE_PSP_MEM_WRITE
                               else PSPSERIALPDURRNID_RESPONSE_PSP_MEM_READ)
       /\ idCcd h = 0
       /\ rcReq h = INF_SUCCESS)
  /\ (forall (k : nat) (rt : Z) (s : Sys),
        process_labels !! k = Some (enmRrnId (hdr_at (abPdu (stub s)))) ->
        process_responses !! k = Some rt ->
        request_well_formed (stub s) = true ->
        exists h : PSPSERIALPDUHDR,
          response_sent s (snd (pspStubPduProcess s)) h
          /\ enmRrnId h = wrap16 rt /\ idCcd h = 0).
Proof.
  split.
  2:{ intros k rt s Hk Hrt Hwf.
      pose proof (pspStubPduProcess_transfer k rt s Hk Hrt) as H. rewrite Hwf in H.
      destruct H as (h & Hsent & Htag & Hid & _). exists h. auto. }
  intros fWrite s pPdu Htag Hlen Hw.
  rewrite (pspStubPduProcess_mmio fWrite s Htag).
  unfold pspStubPduProcessPspMmioXfer, bind, gets. cbn [fst snd]. fold pPdu.
  apply Z.ltb_ge in Hlen. rewrite Hlen, Hw. cbn [negb orb].
  destruct fWrite.
  - match goal with |- context [pspStubMmioAccess_store ?a ?b ?c ?d s] =>
      pose proof (pspStubMmioAccess_store_frame a b c d s) as (_ & Htx0);
      destruct (pspStubMmioAccess_store a b c d s) as [[] s0] end.
    cbn [fst snd] in *.
    match goal with |- context [pspStubPduSend ?a ?b ?c0 ?d ?e s0] =>
      destruct (pspStubPduSend_spec a b c0 d e s0) as (ts & T & _ & Htx & _) end.
    cbn zeta in Htx. rewrite Htx, Htx0. unfold xmit_writes.
    eexists _, _, _. split; [reflexivity|]. repeat split.
  - match goal with |- context [pspStubMmioAccess_load ?a ?b s] =>
      pose proof (pspStubMmioAccess_load_frame a b s) as Hs0;
      destruct (pspStubMmioAccess_load a b s) as [abRead s0] end.
    cbn [fst snd] in *. subst s0.
    match goal with |- context [pspStubPduSend ?a ?b ?c0 ?d ?e s] =>
      destruct (pspStubPduSend_spec a b c0 d e s) as (ts & T & _ & Htx & _) end.
    cbn zeta in Htx. rewrite Htx. unfold xmit_writes.
    eexists _, _, _. split; [reflexivity|]. repeat split.
Qed.

End HandlerProperties.

(** ** The stream of send counters *)

Section TraceProperties.
Context {C : ProtocolConsts}.










































End TraceProperties.

(** ** Byte strings *)


Section Bytes.

Lemma le_bytes_length (n : nat) : forall v, length (le_bytes n v) = n.
Proof. induction n as [|n IH]; intros v; cbn [le_bytes length]; [reflexivity|]. rewrite IH. reflexivity. Qed.

Lemma le_val_le_bytes (n : nat) : forall v, le_val (le_bytes n v) = v mod 256 ^ Z.of_nat n.
Proof.
  induction n as [|n IH]; intros v; cbn [le_bytes le_val].
  - change (256 ^ Z.of_nat 0) with 1. rewrite Z.mod_1_r. reflexivity.
  - rewrite IH. change 255 with (Z.ones 8). rewrite Z.land_ones, Z.shiftr_div_pow2 by lia.
    change (2 ^ 8) with 256.
    rewrite Nat2Z.inj_succ, Z.pow_succ_r by lia.
    rewrite Z.rem_mul_r by lia. reflexivity.
Qed.

Lemma buf_read_take_drop (buf : list Z) (off n : Z) :
  (Z.to_nat off + Z.to_nat n <= length buf)%nat ->
  buf_read buf off n = take (Z.to_nat n) (drop (Z.to_nat off) buf).
Proof.
  intros Hlen. unfold buf_read. apply list_eq. intros i.
  rewrite list_lookup_fmap.
  destruct (decide (i < Z.to_nat n)%nat) as [Hi|Hi].
  - rewrite lookup_seq_lt by exact Hi. cbn [fmap option_fmap option_map Nat.add].
    rewrite lookup_take_lt by exact Hi. rewrite lookup_drop.
    rewrite nth_lookup.
    destruct (lookup_lt_is_Some_2 buf (Z.to_nat off + i)) as [x Hx]; [lia|].
    rewrite Hx. reflexivity.
  - rewrite lookup_seq_ge by lia. rewrite lookup_take_ge by lia. reflexivity.
Qed.

(** Reading a segment out of the middle of a buffer. *)
Lemma buf_read_middle (pre l rest : list Z) :
  buf_read (pre ++ l ++ rest) (Z.of_nat (length pre)) (Z.of_nat (length l)) = l.
Proof.
  rewrite buf_read_take_drop by (rewrite !Nat2Z.id, !length_app; lia).
  rewrite !Nat2Z.id. rewrite drop_app_length. apply take_app_length.
Qed.

Lemma buf_read_middle' (pre l rest : list Z) (off n : Z) :
  off = Z.of_nat (length pre) -> n = Z.of_nat (length l) ->
  buf_read (pre ++ l ++ rest) off n = l.
Proof. intros -> ->. apply buf_read_middle. Qed.

End Bytes.

Section ByteEdits.

Lemma buf_read_length (buf : list Z) (off n : Z) : length (buf_read buf off n) = Z.to_nat n.
Proof. unfold buf_read. rewrite length_map, length_seq. reflexivity. Qed.

Lemma buf_read_lookup (buf : list Z) (off n : Z) (k : nat) :
  (k < Z.to_nat n)%nat ->
  buf_read buf off n !! k = Some (nth (Z.to_nat off + k) buf 0).
Proof.
  intros Hk. unfold buf_read. rewrite list_lookup_fmap, lookup_seq_lt by exact Hk. reflexivity.
Qed.

Lemma nth_insert_ne (buf : list Z) (i j : nat) (b' : Z) :
  i <> j -> nth j (<[i := b']> buf) 0 = nth j buf 0.
Proof. intros Hne. rewrite !nth_lookup, list_lookup_insert_ne by exact Hne. reflexivity. Qed.

Lemma nth_insert_eq (buf : list Z) (i : nat) (b' : Z) :
  (i < length buf)%nat -> nth i (<[i := b']> buf) 0 = b'.
Proof. intros Hi. rewrite nth_lookup, list_lookup_insert_eq by exact Hi. reflexivity. Qed.

(** A byte changed outside the segment read. *)
Lemma buf_read_insert_out (buf : list Z) (off n : Z) (i : nat) (b' : Z) :
  (i < Z.to_nat off \/ Z.to_nat off + Z.to_nat n <= i)%nat ->
  buf_read (<[i := b']> buf) off n = buf_read buf off n.
Proof.
  intros Hout. unfold buf_read. apply map_ext_in. intros k Hin.
  apply in_seq in Hin. apply nth_insert_ne. lia.
Qed.

(** A byte changed inside the segment read. *)
Lemma buf_read_insert_in (buf : list Z) (off n : Z) (i : nat) (b' : Z) :
  (Z.to_nat off <= i < Z.to_nat off + Z.to_nat n)%nat -> (i < length buf)%nat ->
  buf_read (<[i := b']> buf) off n = <[(i - Z.to_nat off)%nat := b']> (buf_read buf off n)
  /\ buf_read buf off n !! (i - Z.to_nat off)%nat = Some (nth i buf 0).
Proof.
  intros Hin Hlen. split.
  - apply list_eq. intros k.
    destruct (decide (k < Z.to_nat n)%nat) as [Hk|Hk].
    + rewrite buf_read_lookup by exact Hk.
      destruct (decide (k = i - Z.to_nat off)%nat) as [->|Hne].
      * rewrite list_lookup_insert_eq by (rewrite buf_read_length; lia).
        replace (Z.to_nat off + (i - Z.to_nat off))%nat with i by lia.
        rewrite nth_insert_eq by exact Hlen. reflexivity.
      * rewrite list_lookup_insert_ne by (intros E; apply Hne; symmetry; exact E).
        rewrite buf_read_lookup by exact Hk. rewrite nth_insert_ne by lia. reflexivity.
    + rewrite !lookup_ge_None_2; [reflexivity| |].
      * rewrite length_insert, buf_read_length. lia.
      * rewrite buf_read_length. lia.
  - rewrite buf_read_lookup by lia. f_equal. f_equal. lia.
Qed.

Lemma byte_total_insert (l : list Z) : forall (k : nat) (b b' : Z),
  l !! k = Some b -> byte_total (<[k := b']> l) = byte_total l + (b' - b).
Proof.
  induction l as [|x l IH]; intros k b b' Hk; [discriminate|].
  destruct k as [|k].
  - injection Hk as ->. change (<[0%nat := b']> (b :: l)) with (b' :: l).
    change (byte_total (b' :: l)) with (b' + byte_total l).
    change (byte_total (b :: l)) with (b + byte_total l). lia.
  - change ((x :: l) !! S k) with (l !! k) in Hk.
    change (<[S k := b']> (x :: l)) with (x :: <[k := b']> l).
    change (byte_total (x :: <[k := b']> l)) with (x + byte_total (<[k := b']> l)).
    change (byte_total (x :: l)) with (x + byte_total l).
    rewrite (IH k b b' Hk). lia.
Qed.

Lemma le_val_insert (l : list Z) : forall (k : nat) (b b' : Z),
  l !! k = Some b -> le_val (<[k := b']> l) = le_val l + (b' - b) * 256 ^ Z.of_nat k.
Proof.
  induction l as [|x l IH]; intros k b b' Hk; [discriminate|].
  destruct k as [|k].
  - injection Hk as ->. change (<[0%nat := b']> (b :: l)) with (b' :: l).
    cbn [le_val]. change (256 ^ Z.of_nat 0) with 1. lia.
  - change ((x :: l) !! S k) with (l !! k) in Hk.
    change (<[S k := b']> (x :: l)) with (x :: <[k := b']> l).
    cbn [le_val]. rewrite (IH k b b' Hk).
    rewrite Nat2Z.inj_succ, Z.pow_succ_r by lia. lia.
Qed.

End ByteEdits.

(** ** Mapping windows, continued *)

Section X86Windows.
Context {C : ProtocolConsts}.

Lemma mod_64M_range a : 0 <= a mod _64M < _64M.
Proof. apply Z.mod_pos_bound. reflexivity. Qed.

Lemma align_off_mod a : a - align_mask a _64M = a mod _64M.
Proof. rewrite align_mask_64M, Z.mod_eq by discriminate. reflexivity. Qed.

Lemma x86_slot_of_window (idx : nat) (off : Z) :
  (idx < 15)%nat -> 0 <= off < _64M ->
  x86_slot_of (wrap32 (x86_window (Z.of_nat idx) + off)) = Z.of_nat idx.
Proof.
  intros Hidx Hoff. unfold x86_slot_of, x86_window.
  rewrite (x86_ptr_slot idx off Hidx Hoff). apply Z.div_mul. discriminate.
Qed.

(** Address translation.  A successful [pspStubX86PhysMap] hands out the
    address, inside the window of the slot it chose, that lies as far into
    the window as the x86 address lies into its 64 MiB block;
    [pspStubX86PhysUnmapByPtr] finds the slot back from that pointer; and no
    other slot of the table was touched. *)
Theorem x86_map_pointer_in_window (s : Sys) (PhysX86Addr : Z) (fMmio : bool) (pv : Z) :
  let r := pspStubX86PhysMap PhysX86Addr fMmio s in
  length (aX86MapSlots (stub s)) = 15%nat ->
  snd (fst r) = Some pv ->
  exists idx : nat,
    (idx < 15)%nat
    /\ fst (fst r) = INF_SUCCESS
    /\ pv = x86_window (Z.of_nat idx) + PhysX86Addr mod _64M
    /\ x86_window (Z.of_nat idx) <= pv < x86_window (Z.of_nat idx + 1)
    /\ x86_slot_of pv = Z.of_nat idx
    /\ (exists m, aX86MapSlots (stub (snd r)) !! idx = Some m
                  /\ PhysX86AddrBase m = PhysX86Addr - PhysX86Addr mod _64M
                  /\ uMemType m = (if fMmio then 6 else 4))
    /\ (forall j : nat, j <> idx ->
          aX86MapSlots (stub (snd r)) !! j = aX86MapSlots (stub s) !! j).
Proof.
  intros r Hlen Hpv. subst r.
  destruct (x86_find_slot (align_mask PhysX86Addr _64M) (if fMmio then 6 else 4) 0
              (aX86MapSlots (stub s))) as [[idx m]|] eqn:Hfind.
  2:{ exfalso. revert Hpv. unfold pspStubX86PhysMap, bind, gets. cbn [fst snd].
      rewrite Hfind. discriminate. }
  destruct (pspStubX86PhysMap_found s PhysX86Addr fMmio idx m Hfind) as (Hres & Hslots & _).
  destruct (x86_find_slot_Some _ _ _ _ _ _ Hfind) as (k & -> & Hk & _ & _).
  cbn [Nat.add] in *.
  assert (Hidx : (k < 15)%nat) by (rewrite <- Hlen; eapply lookup_lt_Some; exact Hk).
  rewrite Hres in Hpv. cbn [fst snd] in Hpv. injection Hpv as Hpv.
  rewrite align_off_mod in Hpv.
  pose proof (mod_64M_range PhysX86Addr) as Hoff.
  rewrite (wrap32_small (PhysX86Addr mod _64M)) in Hpv
    by (unfold _64M, _1M, _1K in *; lia).
  assert (Hpv' : pv = x86_window (Z.of_nat k) + PhysX86Addr mod _64M).
  { rewrite <- Hpv. unfold x86_window. apply wrap32_small.
    unfold _64M, _1M, _1K in *. lia. }
  exists k. split; [exact Hidx|]. split; [rewrite Hres; reflexivity|].
  split; [exact Hpv'|]. split.
  { rewrite Hpv'. unfold x86_window. lia. }
  split.
  { rewrite <- Hpv. apply (x86_slot_of_window k _ Hidx Hoff). }
  split.
  - eexists. rewrite Hslots. split.
    + apply list_lookup_insert_eq. rewrite Hlen. exact Hidx.
    + cbn [PhysX86AddrBase uMemType]. split; [|reflexivity].
      pose proof (align_off_mod PhysX86Addr). lia.
  - intros j Hj. rewrite Hslots. apply list_lookup_insert_ne. congruence.
Qed.

Lemma x86_slot_outside (pv : Z) :
  0 <= pv < 2 ^ 32 -> pv < x86_window 0 \/ x86_window 15 <= pv ->
  (x86_slot_of pv <? cX86MapSlots) = false.
Proof.
  intros Hpv Hout. apply Z.ltb_ge. unfold x86_slot_of, cX86MapSlots, x86_window in *.
  rewrite align_mask_64M. unfold _64M, _1M, _1K in *.
  change (64 * (1024 * 1024)) with 67108864 in *.
  pose proof (Z.div_mod pv 67108864 ltac:(lia)) as Hdm.
  pose proof (Z.mod_pos_bound pv 67108864 ltac:(lia)) as Hm.
  destruct Hout as [Hlow|Hhigh].
  - assert (pv / 67108864 = 0) by (apply Z.div_small; lia).
    replace (67108864 * (pv / 67108864) - 67108864) with (-67108864) by lia.
    vm_compute. discriminate.
  - assert (Hq : 16 <= pv / 67108864) by (apply Z.div_le_lower_bound; lia).
    assert (Hq' : pv / 67108864 < 64) by (apply Z.div_lt_upper_bound; lia).
    rewrite wrap32_small by lia.
    apply Z.div_le_lower_bound; lia.
Qed.

Lemma pspStubX86PhysUnmapByPtr_outside (s : Sys) (pv : Z) :
  (x86_slot_of pv <? cX86MapSlots) = false ->
  pspStubX86PhysUnmapByPtr pv s = (ERR_INVALID_PARAMETER, s).
Proof.
  intros E. unfold pspStubX86PhysUnmapByPtr. fold (x86_slot_of pv). rewrite E. reflexivity.
Qed.

Lemma pspStubX86PhysUnmapByPtr_unheld (s : Sys) (pv : Z) (m : PSPX86MAPPING) :
  aX86MapSlots (stub s) !! Z.to_nat (x86_slot_of pv) = Some m -> cRefs m <= 0 ->
  pspStubX86PhysUnmapByPtr pv s = (ERR_INVALID_PARAMETER, s).
Proof.
  intros Hm Hrefs. unfold pspStubX86PhysUnmapByPtr. fold (x86_slot_of pv).
  destruct ((x86_slot_of pv <? cX86MapSlots) && _); [|reflexivity].
  unfold bind, gets. cbn [fst snd]. rewrite Hm.
  assert (Hz : (0 <? cRefs m) = false) by (apply Z.ltb_ge; exact Hrefs).
  rewrite Hz. reflexivity.
Qed.

(** [pspStubX86PhysUnmapByPtr] refuses every pointer that falls into no
    window of the table -- below the first window, where the subtraction
    wraps, or behind the last -- and every pointer into the window of a slot
    nobody holds; it then touches nothing. *)
Theorem x86_unmap_refuses_stray_pointer (s : Sys) (pv : Z) :
  0 <= pv < 2 ^ 32 ->
  pv < x86_window 0
  \/ x86_window 15 <= pv
  \/ (exists m, aX86MapSlots (stub s) !! Z.to_nat (x86_slot_of pv) = Some m /\ cRefs m <= 0) ->
  pspStubX86PhysUnmapByPtr pv s = (ERR_INVALID_PARAMETER, s).
Proof.
  intros Hpv [Hlow|[Hhigh|(m & Hm & Hrefs)]].
  - apply pspStubX86PhysUnmapByPtr_outside, x86_slot_outside; [exact Hpv|left; exact Hlow].
  - apply pspStubX86PhysUnmapByPtr_outside, x86_slot_outside; [exact Hpv|right; exact Hhigh].
  - exact (pspStubX86PhysUnmapByPtr_unheld s pv m Hm Hrefs).
Qed.

Lemma x86_found_slot_kind (base mt : Z) (slots : list PSPX86MAPPING) (idx : nat)
  (m : PSPX86MAPPING) :
  Forall x86_slot_wf slots -> base <> NIL_X86PADDR ->
  x86_find_slot base mt 0 slots = Some (idx, m) ->
  slots !! idx = Some m
  /\ (idx < length slots)%nat
  /\ ((PhysX86AddrBase m = NIL_X86PADDR /\ uMemType m = 0 /\ cRefs m = 0)
      \/ (PhysX86AddrBase m = base /\ uMemType m = mt /\ 0 < cRefs m < 2 ^ 32)).
Proof.
  intros Hwf Hbase Hfind.
  destruct (x86_find_slot_Some _ _ _ _ _ _ Hfind) as (k & -> & Hk & Hu & _).
  cbn [Nat.add]. split; [exact Hk|]. split; [eapply lookup_lt_Some; exact Hk|].
  rewrite Forall_lookup in Hwf. specialize (Hwf _ _ Hk).
  destruct Hwf as [Hfree|[Hne Hc]]; [left; exact Hfree|right].
  unfold x86_slot_usable in Hu. apply orb_true_iff in Hu as [Hu|Hu];
    apply andb_true_iff in Hu as [H1 H2].
  - apply Z.eqb_eq in H1. contradiction.
  - apply Z.eqb_eq in H1, H2. auto.
Qed.

(** Map, then -- with the table as the map left it -- unmap the pointer
    handed out: the table is as it was before the map. *)
Lemma x86_map_then_unmap (s s2 : Sys) (PhysX86Addr : Z) (fMmio : bool) (pv : Z) :
  let r1 := pspStubX86PhysMap PhysX86Addr fMmio s in
  let r2 := pspStubX86PhysUnmapByPtr pv s2 in
  length (aX86MapSlots (stub s)) = 15%nat ->
  Forall x86_slot_wf (aX86MapSlots (stub s)) ->
  Forall (fun m => cRefs m < 2 ^ 32 - 1) (aX86MapSlots (stub s)) ->
  align_mask PhysX86Addr _64M <> NIL_X86PADDR ->
  snd (fst r1) = Some pv ->
  aX86MapSlots (stub s2) = aX86MapSlots (stub (snd r1)) ->
  fst r2 = INF_SUCCESS
  /\ aX86MapSlots (stub (snd r2)) = aX86MapSlots (stub s).
Proof.
  intros r1 r2 Hlen Hwf Hroom Hbase Hpv Hs2. subst r1 r2.
  destruct (x86_find_slot (align_mask PhysX86Addr _64M) (if fMmio then 6 else 4) 0
              (aX86MapSlots (stub s))) as [[idx m]|] eqn:Hfind.
  2:{ exfalso. revert Hpv. unfold pspStubX86PhysMap, bind, gets. cbn [fst snd].
      rewrite Hfind. discriminate. }
  destruct (pspStubX86PhysMap_found s PhysX86Addr fMmio idx m Hfind) as (Hres & Hslots & _).
  destruct (x86_found_slot_kind _ _ _ _ _ Hwf Hbase Hfind) as (Hk & Hidx & Hkind).
  rewrite Hlen in Hidx.
  rewrite Hres in Hpv. cbn [fst snd] in Hpv. injection Hpv as <-.
  rewrite Forall_lookup in Hroom. specialize (Hroom _ _ Hk).
  assert (Hc : 0 <= cRefs m < 2 ^ 32 - 1) by (destruct Hkind as [(_ & _ & ->)|(_ & _ & ?)]; lia).
  set (m1 := {| PhysX86AddrBase := align_mask PhysX86Addr _64M;
                uMemType := if fMmio then 6 else 4;
                cRefs := wrap32 (cRefs m + 1) |}) in *.
  rewrite Hslots in Hs2.
  assert (Hm1 : aX86MapSlots (stub s2) !! idx = Some m1).
  { rewrite Hs2. apply list_lookup_insert_eq. rewrite Hlen. exact Hidx. }
  assert (Hc1 : cRefs m1 = cRefs m + 1) by (apply wrap32_small; lia).
  pose proof (align_off_mod PhysX86Addr) as Hoff. cbv zeta in Hoff.
  destruct (pspStubX86PhysUnmapByPtr_held s2 idx
              (wrap32 (PhysX86Addr - align_mask PhysX86Addr _64M)) m1 Hidx)
    as (Hrc & Htab & _).
  { rewrite align_off_mod. pose proof (mod_64M_range PhysX86Addr) as H.
    rewrite wrap32_small by (unfold _64M, _1M, _1K in *; lia). exact H. }
  { exact Hm1. }
  { lia. }
  split; [exact Hrc|]. rewrite Htab, Hs2, list_insert_insert_eq.
  apply list_insert_id. rewrite Hk. f_equal. rewrite Hc1.
  replace (cRefs m + 1 - 1) with (cRefs m) by lia.
  destruct Hkind as [(Hb & Hmt & Hz)|(Hb & Hmt & Hpos)].
  - rewrite Hz. cbn [Z.eqb]. destruct m as [b t c]. cbn in *. subst. reflexivity.
  - assert (E : (cRefs m =? 0) = false) by (apply Z.eqb_neq; lia). rewrite E.
    destruct m as [b t c]. cbn in *. subst. reflexivity.
Qed.

Lemma x86_ptr_decompose (pv : Z) :
  0 <= pv < 2 ^ 32 -> x86_slot_of pv < cX86MapSlots ->
  exists (idx : nat) (off : Z),
    (idx < 15)%nat /\ 0 <= off < _64M /\ Z.of_nat idx = x86_slot_of pv
    /\ pv = wrap32 (0x04000000 + Z.of_nat idx * _64M + off).
Proof.
  intros Hpv Hslot. unfold x86_slot_of, cX86MapSlots in *.
  rewrite align_mask_64M in *. unfold _64M, _1M, _1K in *.
  change (64 * (1024 * 1024)) with 67108864 in *.
  pose proof (Z.div_mod pv 67108864 ltac:(lia)) as Hdm.
  pose proof (Z.mod_pos_bound pv 67108864 ltac:(lia)) as Hm.
  assert (Hq0 : 0 <= pv / 67108864) by (apply Z.div_pos; lia).
  assert (Hq1 : pv / 67108864 < 64) by (apply Z.div_lt_upper_bound; lia).
  destruct (Z.eq_dec (pv / 67108864) 0) as [E|E].
  { exfalso. rewrite E in Hslot. revert Hslot. vm_compute. discriminate. }
  rewrite wrap32_small in * by lia.
  replace (67108864 * (pv / 67108864) - 67108864) with ((pv / 67108864 - 1) * 67108864) in * by lia.
  rewrite Z.div_mul in * by lia.
  exists (Z.to_nat (pv / 67108864 - 1)), (pv mod 67108864).
  rewrite Z2Nat.id by lia.
  split; [lia|]. split; [exact Hm|]. split; [reflexivity|].
  rewrite wrap32_small by lia. lia.
Qed.

(** The table invariant.  [main] sets the table up free; [pspStubX86PhysMap]
    keeps every slot free-or-held as long as the reference count of the slot
    it takes has room; [pspStubX86PhysUnmapByPtr] keeps it for every pointer. *)
Theorem x86_table_stays_well_formed :
  (forall t : PSPSTUBSTATE, Forall x86_slot_wf (aX86MapSlots (main_init t)))
  /\ (forall (s : Sys) (PhysX86Addr : Z) (fMmio : bool),
        Forall x86_slot_wf (aX86MapSlots (stub s)) ->
        Forall (fun m => cRefs m < 2 ^ 32 - 1) (aX86MapSlots (stub s)) ->
        align_mask PhysX86Addr _64M <> NIL_X86PADDR ->
        Forall x86_slot_wf (aX86MapSlots (stub (snd (pspStubX86PhysMap PhysX86Addr fMmio s)))))
  /\ (forall (s : Sys) (pv : Z),
        0 <= pv < 2 ^ 32 ->
        Forall x86_slot_wf (aX86MapSlots (stub s)) ->
        Forall x86_slot_wf (aX86MapSlots (stub (snd (pspStubX86PhysUnmapByPtr pv s))))).
Proof.
  split; [|split].
  - intros t. cbn [main_init aX86MapSlots]. apply Forall_replicate. left. auto.
  - intros s a f Hwf Hroom Hbase.
    destruct (x86_find_slot (align_mask a _64M) (if f then 6 else 4) 0
                (aX86MapSlots (stub s))) as [[idx m]|] eqn:Hfind.
    + destruct (pspStubX86PhysMap_found s a f idx m Hfind) as (_ & Hslots & _).
      destruct (x86_found_slot_kind _ _ _ _ _ Hwf Hbase Hfind) as (Hk & Hidx & Hkind).
      rewrite Hslots. apply Forall_insert; [exact Hwf|].
      rewrite Forall_lookup in Hroom. specialize (Hroom _ _ Hk).
      right. cbn [PhysX86AddrBase cRefs]. split; [exact Hbase|].
      assert (0 <= cRefs m < 2 ^ 32 - 1)
        by (destruct Hkind as [(_ & _ & ->)|(_ & _ & ?)]; lia).
      rewrite wrap32_small by lia. lia.
    + unfold pspStubX86PhysMap, bind, gets. cbn [fst snd]. rewrite Hfind. exact Hwf.
  - intros s pv Hpv Hwf.
    destruct (Z.ltb_spec (x86_slot_of pv) cX86MapSlots) as [Hlt|Hge].
    2:{ unfold pspStubX86PhysUnmapByPtr. fold (x86_slot_of pv).
        assert (E : (x86_slot_of pv <? cX86MapSlots) = false) by (apply Z.ltb_ge; exact Hge).
        rewrite E. exact Hwf. }
    destruct (x86_ptr_decompose pv Hpv Hlt) as (idx & off & Hidx & Hoff & Hslot & ->).
    destruct (aX86MapSlots (stub s) !! idx) as [m|] eqn:Hk.
    2:{ unfold pspStubX86PhysUnmapByPtr.
        match goal with |- context [wrap32 (align_mask ?p _64M - 67108864) / _64M] =>
          change (wrap32 (align_mask p _64M - 67108864) / _64M) with (x86_slot_of p) end.
        rewrite <- Hslot, Nat2Z.id.
        destruct (_ && _); [|exact Hwf]. unfold bind, gets. cbn [fst snd]. rewrite Hk. exact Hwf. }
    destruct (Z.ltb_spec 0 (cRefs m)) as [Hpos|Hz].
    + destruct (pspStubX86PhysUnmapByPtr_held s idx off m Hidx Hoff Hk Hpos) as (_ & Htab & _).
      rewrite Htab. apply Forall_insert; [exact Hwf|].
      rewrite Forall_lookup in Hwf. specialize (Hwf _ _ Hk).
      destruct (Z.eqb_spec (cRefs m - 1) 0) as [E|E].
      * left. cbn. auto.
      * right. cbn [PhysX86AddrBase cRefs].
        destruct Hwf as [(_ & _ & Hc)|[Hb Hc]]; [lia|]. split; [exact Hb|lia].
    + rewrite (pspStubX86PhysUnmapByPtr_unheld _ _ m); [exact Hwf| |lia].
      pose proof (x86_slot_of_window idx off Hidx Hoff) as Hs. unfold x86_window in Hs.
      rewrite Hs, Nat2Z.id. exact Hk.
Qed.

End X86Windows.

Section SmnWindows.
Context {C : ProtocolConsts}.

Lemma align_mask_1M a : align_mask a _1M = _1M * (a / _1M).
Proof. change _1M with (2 ^ 20). apply align_mask_pow2. lia. Qed.

Lemma smn_find_slot_None base slots :
  Forall (fun m => smn_slot_usable base m = false) slots ->
  forall i, smn_find_slot base i slots = None.
Proof.
  induction 1 as [|m slots Hm _ IH]; intros i; cbn [smn_find_slot]; [reflexivity|].
  rewrite Hm. apply IH.
Qed.

Lemma smn_find_slot_Some base slots :
  forall i j m, smn_find_slot base i slots = Some (j, m) ->
  exists k, j = (i + k)%nat /\ slots !! k = Some m /\ smn_slot_usable base m = true.
Proof.
  induction slots as [|m0 slots IH]; intros i j m; cbn [smn_find_slot]; [discriminate|].
  destruct (smn_slot_usable base m0) eqn:Hu.
  - intros [= <- <-]. exists 0%nat. split; [lia|]. split; [reflexivity|exact Hu].
  - intros H. destruct (IH _ _ _ H) as (k & -> & Hk & Hm).
    exists (S k). split; [lia|]. split; [exact Hk|exact Hm].
Qed.

(** When every SMN slot is held for another base, [pspStubSmnPhysMap]
    returns [ERR_INVALID_STATE], stores no pointer and touches nothing. *)
Theorem smn_map_exhausted (s : Sys) (SmnAddr : Z) :
  Forall (fun m => 0 < cRefsSmn m /\ SmnAddrBase m <> wrap32 (align_mask SmnAddr _1M))
         (aSmnMapSlots (stub s)) ->
  pspStubSmnPhysMap SmnAddr s = ((ERR_INVALID_STATE, None), s).
Proof.
  intros Hall. unfold pspStubSmnPhysMap, bind, gets. cbn [fst snd].
  rewrite smn_find_slot_None; [reflexivity|].
  eapply Forall_impl; [exact Hall|]. intros m [Hc Hb]. unfold smn_slot_usable.
  apply orb_false_intro.
  - apply andb_false_intro2. apply Z.eqb_neq. lia.
  - apply Z.eqb_neq. exact Hb.
Qed.

Lemma le_val_le_bytes_4 v : le_val (le_bytes 4 v) = wrap32 v.
Proof. apply (le_val_le_bytes 4). Qed.

(** A 32-bit store followed by a 32-bit load of the same address gives the
    value stored. *)
Lemma load32_store32 (a v : Z) (s : Sys) :
  fst (load32 a (snd (store32 a v s))) = wrap32 v.
Proof.
  unfold load32, store32, getw, modifyw. cbn [fst snd hw mem set_reg_log set_mem].
  rewrite <- le_val_le_bytes_4. f_equal.
  unfold mem_read. change (Z.to_nat 4) with 4%nat. cbn [le_bytes mem_write seq map].
  change (Z.of_nat 0) with 0. change (Z.of_nat 1) with 1. change (Z.of_nat 2) with 2.
  change (Z.of_nat 3) with 3.
  replace (a + 0) with a by lia.
  replace (a + 2) with (a + 1 + 1) by lia.
  replace (a + 3) with (a + 1 + 1 + 1) by lia.
  repeat first [rewrite lookup_insert_eq | rewrite lookup_insert_ne by lia].
  reflexivity.
Qed.


(** What a successful [pspStubSmnPhysMap] does, given the slot its search
    loop finds. *)
Lemma pspStubSmnPhysMap_found (s : Sys) (SmnAddr : Z) (idx : nat) (m : PSPSMNMAPPING) :
  let base := wrap32 (align_mask SmnAddr _1M) in
  let reg := smn_ctrl_reg (Z.of_nat idx) in
  smn_find_slot base 0 (aSmnMapSlots (stub s)) = Some (idx, m) ->
  let r := pspStubSmnPhysMap SmnAddr s in
  fst r = (INF_SUCCESS,
           Some (wrap32 (0x01000000 + Z.of_nat idx * _1M + wrap32 (SmnAddr - base))))
  /\ aSmnMapSlots (stub (snd r))
     = <[idx := {| SmnAddrBase := base; cRefsSmn := wrap32 (cRefsSmn m + 1) |}]>
         (aSmnMapSlots (stub s))
  /\ aX86MapSlots (stub (snd r)) = aX86MapSlots (stub s)
  /\ hw (snd r)
     = (if SmnAddrBase m =? 0
        then hw (snd (store32 reg (Z.lor (fst (load32 reg s)) (smn_ctrl_bits (Z.of_nat idx) base)) s))
        else hw s).
Proof.
  intros base reg Hfind r.
  destruct (smn_find_slot_Some _ _ _ _ _ Hfind) as (k & Hk & Hlook & Huse).
  simpl in Hk. subst k.
  assert (Hbase : SmnAddrBase m = 0 \/ SmnAddrBase m = base).
  { unfold smn_slot_usable in Huse. apply orb_true_iff in Huse as [H|H].
    - apply andb_true_iff in H as [H1 _]. apply Z.eqb_eq in H1. auto.
    - apply Z.eqb_eq in H. auto. }
  subst r. unfold pspStubSmnPhysMap, bind, gets, upd_smn_slot, modify, ret.
  fold base. rewrite Hfind.
  destruct (SmnAddrBase m =? 0) eqn:Hz.
  - unfold load32, store32, getw, modifyw, smn_ctrl_bits, smn_ctrl_reg in *.
    cbn [fst snd stub hw aSmnMapSlots aX86MapSlots set_aSmnMapSlots mem set_mem set_reg_log].
    split; [reflexivity|]. split; [|split; [reflexivity|]].
    + apply list_eq. intros i. destruct (decide (i = idx)) as [->|Hne].
      * rewrite !list_lookup_alter_eq, list_lookup_insert_eq by (eapply lookup_lt_Some; eauto).
        rewrite Hlook. reflexivity.
      * rewrite !list_lookup_alter_ne, list_lookup_insert_ne by congruence. reflexivity.
    + destruct (Z.odd (Z.of_nat idx)); reflexivity.
  - cbn [fst snd stub hw aSmnMapSlots aX86MapSlots set_aSmnMapSlots].
    split; [reflexivity|]. split; [|split; reflexivity].
    apply Z.eqb_neq in Hz. destruct Hbase as [?|Hb]; [contradiction|].
    apply list_eq. intros i. destruct (decide (i = idx)) as [->|Hne].
    + rewrite list_lookup_alter_eq, list_lookup_insert_eq by (eapply lookup_lt_Some; eauto).
      rewrite Hlook. simpl. rewrite Hb. reflexivity.
    + rewrite list_lookup_alter_ne, list_lookup_insert_ne by congruence. reflexivity.
Qed.

Lemma lo_half_lor_hi r x : Z.land (Z.lor r (Z.shiftl x 16)) 0xffff = Z.land r 0xffff.
Proof.
  change 0xffff with (Z.ones 16). rewrite !Z.land_ones by lia.
  apply Z.bits_inj'. intros n Hn.
  destruct (Z.ltb_spec n 16).
  - rewrite !Z.mod_pow2_bits_low, Z.lor_spec, Z.shiftl_spec_low by lia.
    apply orb_false_r.
  - rewrite !Z.mod_pow2_bits_high by lia. reflexivity.
Qed.

Lemma hi_half_lor_lo r x : 0 <= x < 2 ^ 16 -> Z.shiftr (Z.lor r x) 16 = Z.shiftr r 16.
Proof.
  intros Hx. apply Z.bits_inj'. intros n Hn.
  rewrite !Z.shiftr_spec, Z.lor_spec by lia.
  replace (Z.testbit x (n + 16)) with false; [apply orb_false_r|].
  symmetry. destruct (Z.eq_dec x 0) as [->|Hne]; [apply Z.bits_0|].
  apply Z.bits_above_log2; [lia|].
  assert (Z.log2 x < 16) by (apply Z.log2_lt_pow2; lia). lia.
Qed.

Lemma lor_range (a b n : Z) :
  0 <= n -> 0 <= a < 2 ^ n -> 0 <= b < 2 ^ n -> 0 <= Z.lor a b < 2 ^ n.
Proof.
  intros Hn Ha Hb. split; [apply Z.lor_nonneg; lia|].
  destruct (Z.eq_dec (Z.lor a b) 0) as [->|Hne]; [lia|].
  apply Z.log2_lt_pow2; [pose proof (proj2 (Z.lor_nonneg a b) ltac:(lia)); lia|].
  rewrite Z.log2_lor by lia.
  destruct (Z.eq_dec a 0) as [->|Ha0]; destruct (Z.eq_dec b 0) as [->|Hb0].
  - exfalso. apply Hne. reflexivity.
  - rewrite Z.max_r by (rewrite Z.log2_nonpos by lia; apply Z.log2_nonneg).
    apply Z.log2_lt_pow2; lia.
  - rewrite Z.max_l by (rewrite (Z.log2_nonpos 0) by lia; apply Z.log2_nonneg).
    apply Z.log2_lt_pow2; lia.
  - apply Z.max_lub_lt; apply Z.log2_lt_pow2; lia.
Qed.

Lemma smn_off_mod a : 0 <= a < 2 ^ 32 ->
  wrap32 (align_mask a _1M) = a - a mod _1M /\ 0 <= a mod _1M < _1M.
Proof.
  intros Ha. rewrite align_mask_1M.
  pose proof (Z.mod_pos_bound a _1M ltac:(reflexivity)) as Hm.
  pose proof (Z.div_mod a _1M ltac:(discriminate)) as Hdm.
  split; [|exact Hm]. unfold _1M, _1K in *.
  change (1024 * 1024) with 1048576 in *. rewrite wrap32_small by lia. lia.
Qed.

Lemma smn_ptr_slot (idx : nat) (off : Z) :
  (idx < 32)%nat -> 0 <= off < _1M ->
  wrap32 (align_mask (wrap32 (0x01000000 + Z.of_nat idx * _1M + off)) _1M - 0x01000000)
  = Z.of_nat idx * _1M.
Proof.
  intros Hidx Hoff. rewrite align_mask_1M. unfold _1M, _1K in *.
  rewrite (wrap32_small (_ + _ + off)) by lia.
  assert (Hq : (16777216 + Z.of_nat idx * (1024 * 1024) + off) / (1024 * 1024)
               = Z.of_nat idx + 16).
  { symmetry. apply (Z.div_unique_pos _ _ _ off); lia. }
  rewrite Hq.
  replace (1024 * 1024 * (Z.of_nat idx + 16) - 16777216)
    with (Z.of_nat idx * (1024 * 1024)) by lia.
  apply wrap32_small. lia.
Qed.

(** Address translation for the SMN windows.  A successful
    [pspStubSmnPhysMap] hands out the address, inside the window of the slot
    it chose, that lies as far into the window as the SMN address lies into
    its 1 MiB block; [pspStubSmnUnmapByPtr] finds the slot back from that
    pointer; and no other slot of the table was touched. *)
Theorem smn_map_pointer_in_window (s : Sys) (SmnAddr : Z) (pv : Z) :
  let r := pspStubSmnPhysMap SmnAddr s in
  0 <= SmnAddr < 2 ^ 32 ->
  length (aSmnMapSlots (stub s)) = 32%nat ->
  snd (fst r) = Some pv ->
  exists idx : nat,
    (idx < 32)%nat
    /\ fst (fst r) = INF_SUCCESS
    /\ pv = smn_window (Z.of_nat idx) + SmnAddr mod _1M
    /\ smn_window (Z.of_nat idx) <= pv < smn_window (Z.of_nat idx + 1)
    /\ wrap32 (align_mask pv _1M - 0x01000000) / _1M = Z.of_nat idx
    /\ (exists m, aSmnMapSlots (stub (snd r)) !! idx = Some m
                  /\ SmnAddrBase m = SmnAddr - SmnAddr mod _1M)
    /\ (forall j : nat, j <> idx ->
          aSmnMapSlots (stub (snd r)) !! j = aSmnMapSlots (stub s) !! j).
Proof.
  intros r Haddr Hlen Hpv. subst r.
  destruct (smn_off_mod SmnAddr Haddr) as [Hbase Hoff].
  destruct (smn_find_slot (wrap32 (align_mask SmnAddr _1M)) 0 (aSmnMapSlots (stub s)))
    as [[idx m]|] eqn:Hfind.
  2:{ exfalso. revert Hpv. unfold pspStubSmnPhysMap, bind, gets. cbn [fst snd].
      rewrite Hfind. discriminate. }
  destruct (pspStubSmnPhysMap_found s SmnAddr idx m Hfind) as (Hres & Hslots & _).
  destruct (smn_find_slot_Some _ _ _ _ _ Hfind) as (k & -> & Hk & _).
  cbn [Nat.add] in *.
  assert (Hidx : (k < 32)%nat) by (rewrite <- Hlen; eapply lookup_lt_Some; exact Hk).
  rewrite Hres in Hpv. cbn [fst snd] in Hpv. injection Hpv as Hpv.
  rewrite Hbase in Hpv.
  replace (SmnAddr - (SmnAddr - SmnAddr mod _1M)) with (SmnAddr mod _1M) in Hpv by lia.
  rewrite (wrap32_small (SmnAddr mod _1M)) in Hpv by (unfold _1M, _1K in *; lia).
  assert (Hpv' : pv = smn_window (Z.of_nat k) + SmnAddr mod _1M).
  { rewrite <- Hpv. unfold smn_window. apply wrap32_small. unfold _1M, _1K in *. lia. }
  exists k. split; [exact Hidx|]. split; [rewrite Hres; reflexivity|].
  split; [exact Hpv'|]. split.
  { rewrite Hpv'. unfold smn_window. lia. }
  split.
  { rewrite <- Hpv, (smn_ptr_slot k _ Hidx Hoff). apply Z.div_mul. discriminate. }
  split.
  - eexists. rewrite Hslots. split.
    + apply list_lookup_insert_eq. rewrite Hlen. exact Hidx.
    + cbn [SmnAddrBase]. exact Hbase.
  - intros j Hj. rewrite Hslots. apply list_lookup_insert_ne. congruence.
Qed.

(** What [pspStubSmnUnmapByPtr] does with a pointer into the window of a
    held slot. *)
Lemma pspStubSmnUnmapByPtr_held (s : Sys) (idx : nat) (off : Z) (m : PSPSMNMAPPING) :
  (idx < 32)%nat -> 0 <= off < _1M ->
  aSmnMapSlots (stub s) !! idx = Some m ->
  0 < cRefsSmn m ->
  let reg := smn_ctrl_reg (Z.of_nat idx) in
  let r := pspStubSmnUnmapByPtr (wrap32 (0x01000000 + Z.of_nat idx * _1M + off)) s in
  fst r = INF_SUCCESS
  /\ aSmnMapSlots (stub (snd r))
     = <[idx := {| SmnAddrBase := if cRefsSmn m - 1 =? 0 then 0 else SmnAddrBase m;
                   cRefsSmn := cRefsSmn m - 1 |}]> (aSmnMapSlots (stub s))
  /\ aX86MapSlots (stub (snd r)) = aX86MapSlots (stub s)
  /\ hw (snd r)
     = (if cRefsSmn m - 1 =? 0
        then hw (snd (store32 reg
                        (if Z.odd (Z.of_nat idx) then Z.land (fst (load32 reg s)) 0xffff
                         else Z.land (fst (load32 reg s)) 0xffff0000) s))
        else hw s).
Proof.
  intros Hidx Hoff Hlook Hrefs reg r. subst r reg. unfold pspStubSmnUnmapByPtr.
  rewrite (smn_ptr_slot idx off Hidx Hoff).
  assert (Hdiv : Z.of_nat idx * _1M / _1M = Z.of_nat idx) by (apply Z.div_mul; discriminate).
  assert (Hmod : Z.of_nat idx * _1M mod _1M = 0) by (apply Z.mod_mul; discriminate).
  rewrite Hdiv, Hmod, Nat2Z.id.
  assert (Hlt : (Z.of_nat idx <? cSmnMapSlots) = true) by (apply Z.ltb_lt; unfold cSmnMapSlots; lia).
  rewrite Hlt. cbn [andb Z.eqb].
  unfold bind, gets, upd_smn_slot, modify, ret. rewrite Hlook.
  assert (Hpos : (0 <? cRefsSmn m) = true) by (apply Z.ltb_lt; exact Hrefs).
  rewrite Hpos. destruct (cRefsSmn m - 1 =? 0) eqn:Hz.
  - unfold load32, store32, getw, modifyw, smn_ctrl_reg.
    cbn [fst snd stub hw aSmnMapSlots aX86MapSlots set_aSmnMapSlots mem set_mem set_reg_log].
    split; [reflexivity|]. split; [|split; [reflexivity|]].
    + apply list_eq. intros i. destruct (decide (i = idx)) as [->|Hne].
      * rewrite !list_lookup_alter_eq, list_lookup_insert_eq by (eapply lookup_lt_Some; eauto).
        rewrite Hlook. reflexivity.
      * rewrite !list_lookup_alter_ne, list_lookup_insert_ne by congruence. reflexivity.
    + destruct (Z.odd (Z.of_nat idx)); reflexivity.
  - cbn [fst snd stub hw aSmnMapSlots aX86MapSlots set_aSmnMapSlots].
    split; [reflexivity|]. split; [|split; reflexivity].
    apply list_eq. intros i. destruct (decide (i = idx)) as [->|Hne].
    + rewrite list_lookup_alter_eq, list_lookup_insert_eq by (eapply lookup_lt_Some; eauto).
      rewrite Hlook. reflexivity.
    + rewrite list_lookup_alter_ne, list_lookup_insert_ne by congruence. reflexivity.
Qed.


Lemma land_range (a b n : Z) : 0 <= n -> 0 <= a < 2 ^ n -> 0 <= b -> 0 <= Z.land a b < 2 ^ n.
Proof.
  intros Hn Ha Hb. split; [apply Z.land_nonneg; lia|].
  destruct (Z.eq_dec (Z.land a b) 0) as [->|Hne]; [lia|].
  assert (0 <= Z.land a b) by (apply Z.land_nonneg; lia).
  apply Z.log2_lt_pow2; [lia|].
  pose proof (Z.log2_land a b ltac:(lia) ltac:(lia)) as Hl.
  destruct (Z.eq_dec a 0) as [->|Ha0]; [rewrite Z.land_0_l in Hne; contradiction|].
  assert (Z.log2 a < n) by (apply Z.log2_lt_pow2; lia). lia.
Qed.

Lemma load32_hw (a : Z) (s1 s2 : Sys) : hw s1 = hw s2 -> fst (load32 a s1) = fst (load32 a s2).
Proof. intros H. unfold load32, getw. cbn [fst]. rewrite H. reflexivity. Qed.

(** Two SMN slots share one control register.  Setting up a free slot
    changes only that slot's half of the register and leaves in it the
    megabyte number of the base (if the half was clear); releasing the last
    reference clears that half and nothing else. *)
Theorem smn_ctrl_register_halves :
  (forall (s : Sys) (SmnAddr : Z) (idx : nat) (m : PSPSMNMAPPING),
     let reg := smn_ctrl_reg (Z.of_nat idx) in
     let old := fst (load32 reg s) in
     let new := fst (load32 reg (snd (pspStubSmnPhysMap SmnAddr s))) in
     0 <= SmnAddr < 2 ^ 32 ->
     smn_find_slot (wrap32 (align_mask SmnAddr _1M)) 0 (aSmnMapSlots (stub s)) = Some (idx, m) ->
     SmnAddrBase m = 0 ->
     0 <= old < 2 ^ 32 ->
     smn_other_half (Z.of_nat idx) new = smn_other_half (Z.of_nat idx) old
     /\ (smn_own_half (Z.of_nat idx) old = 0 ->
         smn_own_half (Z.of_nat idx) new = SmnAddr / _1M))
  /\ (forall (s : Sys) (idx : nat) (off : Z) (m : PSPSMNMAPPING),
        let reg := smn_ctrl_reg (Z.of_nat idx) in
        let old := fst (load32 reg s) in
        let new := fst (load32 reg (snd (pspStubSmnUnmapByPtr
                                           (wrap32 (smn_window (Z.of_nat idx) + off)) s))) in
        (idx < 32)%nat -> 0 <= off < _1M ->
        aSmnMapSlots (stub s) !! idx = Some m ->
        cRefsSmn m = 1 ->
        0 <= old < 2 ^ 32 ->
        smn_other_half (Z.of_nat idx) new = smn_other_half (Z.of_nat idx) old
        /\ smn_own_half (Z.of_nat idx) new = 0).
Proof.
  split.
  - intros s SmnAddr idx m reg old new Haddr Hfind Hfree Hold.
    destruct (pspStubSmnPhysMap_found s SmnAddr idx m Hfind) as (_ & _ & _ & Hhw).
    rewrite Hfree in Hhw. cbn [Z.eqb] in Hhw.
    assert (Hnew : new = wrap32 (Z.lor old (smn_ctrl_bits (Z.of_nat idx)
                                              (wrap32 (align_mask SmnAddr _1M))))).
    { subst new. rewrite (load32_hw _ _ _ Hhw). apply load32_store32. }
    clearbody new old. subst new.
    assert (Hq : Z.shiftr (wrap32 (align_mask SmnAddr _1M)) 20 = SmnAddr / _1M).
    { rewrite align_mask_1M. unfold _1M, _1K. change (1024 * 1024) with (2 ^ 20).
      pose proof (Z.div_mod SmnAddr (2 ^ 20) ltac:(lia)) as Hdm.
      pose proof (Z.mod_pos_bound SmnAddr (2 ^ 20) ltac:(lia)) as Hm.
      rewrite wrap32_small by lia.
      rewrite Z.shiftr_div_pow2 by lia. rewrite Z.mul_comm. apply Z.div_mul. lia. }
    assert (Hqr : 0 <= SmnAddr / _1M < 2 ^ 12).
    { unfold _1M, _1K. change (1024 * 1024) with (2 ^ 20).
      split; [apply Z.div_pos; lia|apply Z.div_lt_upper_bound; lia]. }
    unfold smn_ctrl_bits, smn_other_half, smn_own_half.
    rewrite Hq. set (q := SmnAddr / _1M) in *.
    destruct (Z.odd (Z.of_nat idx)).
    + assert (Hsh : 0 <= Z.shiftl q 16 < 2 ^ 32) by (rewrite Z.shiftl_mul_pow2 by lia; lia).
      rewrite (wrap32_small (Z.shiftl q 16)) by exact Hsh.
      rewrite wrap32_small by (apply lor_range; lia).
      split; [apply lo_half_lor_hi|].
      intros Hown. rewrite Z.shiftr_lor, Hown, Z.lor_0_l.
      rewrite Z.shiftr_shiftl_l by lia. apply Z.shiftl_0_r.
    + rewrite wrap32_small by (apply lor_range; lia).
      split; [apply hi_half_lor_lo; lia|].
      intros Hown. rewrite Z.land_lor_distr_l, Hown, Z.lor_0_l.
      change 0xffff with (Z.ones 16). rewrite Z.land_ones by lia. apply Z.mod_small. lia.
  - intros s idx off m reg old new Hidx Hoff Hlook Hone Hold.
    destruct (pspStubSmnUnmapByPtr_held s idx off m Hidx Hoff Hlook ltac:(lia))
      as (_ & _ & _ & Hhw).
    rewrite Hone in Hhw. cbn [Z.sub Z.eqb Z.add Z.opp Z.pos_sub] in Hhw.
    assert (Hnew : new = wrap32 (if Z.odd (Z.of_nat idx) then Z.land old 0xffff
                                 else Z.land old 0xffff0000)).
    { subst new. unfold smn_window. rewrite (load32_hw _ _ _ Hhw). apply load32_store32. }
    clearbody new old. subst new.
    unfold smn_other_half, smn_own_half.
    destruct (Z.odd (Z.of_nat idx)).
    + rewrite wrap32_small by (apply land_range; lia).
      split.
      * rewrite <- Z.land_assoc. reflexivity.
      * change 0xffff with (Z.ones 16). rewrite Z.land_ones, Z.shiftr_div_pow2 by lia.
        apply Z.div_small. apply Z.mod_pos_bound. lia.
    + rewrite wrap32_small by (apply land_range; lia).
      split.
      * rewrite Z.shiftr_land. change (Z.shiftr 0xffff0000 16) with (Z.ones 16).
        rewrite Z.land_ones by lia. apply Z.mod_small.
        rewrite Z.shiftr_div_pow2 by lia.
        split; [apply Z.div_pos; lia|apply Z.div_lt_upper_bound; lia].
      * rewrite <- Z.land_assoc. change (Z.land 0xffff0000 0xffff) with 0. apply Z.land_0_r.
Qed.

(** Map, then -- with the table as the map left it -- unmap the pointer
    handed out: the SMN table is as it was before the map. *)
Lemma smn_map_then_unmap (s s2 : Sys) (SmnAddr : Z) (pv : Z) :
  let r1 := pspStubSmnPhysMap SmnAddr s in
  let r2 := pspStubSmnUnmapByPtr pv s2 in
  0 <= SmnAddr < 2 ^ 32 ->
  length (aSmnMapSlots (stub s)) = 32%nat ->
  Forall smn_slot_wf (aSmnMapSlots (stub s)) ->
  snd (fst r1) = Some pv ->
  aSmnMapSlots (stub s2) = aSmnMapSlots (stub (snd r1)) ->
  fst r2 = INF_SUCCESS
  /\ aSmnMapSlots (stub (snd r2)) = aSmnMapSlots (stub s).
Proof.
  intros r1 r2 Haddr Hlen Hwf Hpv Hs2. subst r1 r2.
  destruct (smn_off_mod SmnAddr Haddr) as [Hbase Hoff].
  destruct (smn_find_slot (wrap32 (align_mask SmnAddr _1M)) 0 (aSmnMapSlots (stub s)))
    as [[idx m]|] eqn:Hfind.
  2:{ exfalso. revert Hpv. unfold pspStubSmnPhysMap, bind, gets. cbn [fst snd].
      rewrite Hfind. discriminate. }
  destruct (pspStubSmnPhysMap_found s SmnAddr idx m Hfind) as (Hres & Hslots & _).
  destruct (smn_find_slot_Some _ _ _ _ _ Hfind) as (k & -> & Hk & Hu).
  cbn [Nat.add] in *.
  assert (Hidx : (k < 32)%nat) by (rewrite <- Hlen; eapply lookup_lt_Some; exact Hk).
  rewrite Hres in Hpv. cbn [fst snd] in Hpv. injection Hpv as <-.
  rewrite Forall_lookup in Hwf. destruct (Hwf _ _ Hk) as [Hc Hzero].
  set (m1 := {| SmnAddrBase := wrap32 (align_mask SmnAddr _1M);
                cRefsSmn := wrap32 (cRefsSmn m + 1) |}) in *.
  rewrite Hslots in Hs2.
  assert (Hm1 : aSmnMapSlots (stub s2) !! k = Some m1).
  { rewrite Hs2. apply list_lookup_insert_eq. rewrite Hlen. exact Hidx. }
  assert (Hc1 : cRefsSmn m1 = cRefsSmn m + 1) by (apply wrap32_small; lia).
  destruct (pspStubSmnUnmapByPtr_held s2 k
              (wrap32 (SmnAddr - wrap32 (align_mask SmnAddr _1M))) m1 Hidx)
    as (Hrc & Htab & _).
  { rewrite Hbase. replace (SmnAddr - (SmnAddr - SmnAddr mod _1M)) with (SmnAddr mod _1M) by lia.
    rewrite wrap32_small by (unfold _1M, _1K in *; lia). exact Hoff. }
  { exact Hm1. }
  { lia. }
  split; [exact Hrc|]. rewrite Htab, Hs2, list_insert_insert_eq.
  apply list_insert_id. rewrite Hk. f_equal. rewrite Hc1.
  replace (cRefsSmn m + 1 - 1) with (cRefsSmn m) by lia.
  destruct (Z.eqb_spec (cRefsSmn m) 0) as [Hz|Hnz].
  - destruct m as [b c]. cbn in *. subst c. rewrite (Hzero eq_refl). reflexivity.
  - unfold smn_slot_usable in Hu. apply orb_true_iff in Hu as [Hu|Hu].
    + apply andb_true_iff in Hu as [_ Hu]. apply Z.eqb_eq in Hu. contradiction.
    + apply Z.eqb_eq in Hu. destruct m as [b c]. cbn in *. subst b. reflexivity.
Qed.

End SmnWindows.

(** ** Footprints of the send and of the main loop *)

Section Frames.
Context {C : ProtocolConsts}.

(** One send, write by write.  [pspStubPduSend] hands the UART between one
    and three buffers and stops at the first write that fails: every write
    but the last has status 0, and the status of the last write is what the
    function returns.  When it returns 0 the buffers are the header, the
    payload (unless the pointer is [NULL] or the length is 0) and the
    footer.  The send counter has moved up by one either way. *)
Theorem send_stops_at_first_failed_write rc id tag pv cb (s : Sys) :
  let r := pspStubPduSend rc id tag pv cb s in
  exists ws : list TxWrite,
    uart_tx (hw (snd r)) = uart_tx (hw s) ++ ws
    /\ (1 <= length ws <= 3)%nat
    /\ Forall (fun w => tx_rc w = 0) (removelast ws)
    /\ fst r = tx_rc (List.last ws {| tx_buf := BufPayload []; tx_rc := 0 |})
    /\ (fst r = 0 ->
        exists h p f,
          map tx_buf ws
          = BufHdr h
            :: (if negb (payload_is_null pv) && negb (cb =? 0) then [BufPayload p] else [])
            ++ [BufFooter f])
    /\ cPdusSent (stub (snd r)) = wrap32 (cPdusSent (stub s) + 1).
Proof.
  intros r. subst r.
  destruct (pspStubPduSend_spec rc id tag pv cb s) as (ts & T & Hstub & Htx & Hrc & Hok).
  cbn zeta in *. eexists. split; [exact Htx|].
  split; [|split; [|split; [exact Hrc|split]]].
  - unfold xmit_writes. destruct (hd 0 (uart_wr_rcs (hw s)) =? 0); [|cbn; lia].
    destruct (negb (payload_is_null pv) && negb (cb =? 0)); [|cbn; lia].
    destruct (hd 0 (tl (uart_wr_rcs (hw s))) =? 0); cbn; lia.
  - unfold xmit_writes. destruct (hd 0 (uart_wr_rcs (hw s)) =? 0) eqn:H1; [|constructor].
    apply Z.eqb_eq in H1.
    destruct (negb (payload_is_null pv) && negb (cb =? 0)).
    + destruct (hd 0 (tl (uart_wr_rcs (hw s))) =? 0) eqn:H2; cbn [removelast].
      * apply Z.eqb_eq in H2. repeat constructor; assumption.
      * repeat constructor; assumption.
    + cbn [removelast]. repeat constructor; assumption.
  - intros Hz. specialize (Hok Hz). eexists _, _, _. rewrite Hok. reflexivity.
  - rewrite Hstub. reflexivity.
Qed.

Lemma send_frame_refl s : send_frame s s.
Proof. unfold send_frame. repeat split. exists []. symmetry. apply app_nil_r. Qed.

Lemma send_frame_trans s1 s2 s3 : send_frame s1 s2 -> send_frame s2 s3 -> send_frame s1 s3.
Proof.
  unfold send_frame.
  intros (?&?&?&?&?&?&?&?&?&?&?&?&?&?&?&l1&Hl1) (?&?&?&?&?&?&?&?&?&?&?&?&?&?&?&l2&Hl2).
  repeat split; try congruence. exists (l1 ++ l2). rewrite Hl2, Hl1, app_assoc. reflexivity.
Qed.

Lemma PSPUartWrite_frame b s : send_frame s (snd (PSPUartWrite b s)).
Proof. unfold send_frame, PSPUartWrite. cbn. repeat split. eexists. reflexivity. Qed.

Lemma pspStubPduSend_frame rc id tag pv cb (s : Sys) :
  send_frame s (snd (pspStubPduSend rc id tag pv cb s)).
Proof.
  destruct (pspStubPduSend_init_spec rc id tag pv cb s) as (ts & T & n & sc & E).
  cbn zeta in E. unfold pspStubPduSend, bind at 1. rewrite E.
  eapply send_frame_trans.
  { instantiate (1 := {| stub := set_Timer T (set_cPdusSent (wrap32 (cPdusSent (stub s) + 1)) (stub s));
                        hw := set_cnt n sc (hw s) |}).
    unfold send_frame. cbn. repeat split. exists []. symmetry. apply app_nil_r. }
  generalize ({| stub := set_Timer T (set_cPdusSent (wrap32 (cPdusSent (stub s) + 1)) (stub s));
                 hw := set_cnt n sc (hw s) |}). intros s0.
  unfold pspStubPduSend_xmit, bind.
  pose proof (PSPUartWrite_frame (BufHdr (sent_hdr rc id tag cb
                                           (wrap32 (cPdusSent (stub s) + 1)) ts)) s0) as H1.
  destruct (PSPUartWrite _ s0) as [rc1 s1]. cbn [fst snd] in *.
  assert (H2 : forall (m : St Z), (forall x, send_frame x (snd (m x))) ->
               send_frame s0 (snd (m s1))).
  { intros m Hm. eapply send_frame_trans; [exact H1|apply Hm]. }
  clear H1.
  set (m2 := if (rc1 =? 0) && negb (payload_is_null pv) && negb (cb =? 0)
             then PSPUartWrite (BufPayload (payload_bytes (hw s) pv cb)) else ret rc1).
  assert (Hm2 : forall x, send_frame x (snd (m2 x))).
  { intros x. subst m2. destruct (_ && _ && _); [apply PSPUartWrite_frame|apply send_frame_refl]. }
  pose proof (H2 m2 Hm2) as H12. destruct (m2 s1) as [rc2 s2]. cbn [fst snd] in *.
  set (m3 := if rc2 =? 0 then PSPUartWrite (BufFooter _) else ret rc2).
  assert (Hm3 : forall x, send_frame x (snd (m3 x))).
  { intros x. subst m3. destruct (rc2 =? 0); [apply PSPUartWrite_frame|apply send_frame_refl]. }
  pose proof (Hm3 s2) as H23. destruct (m3 s2) as [rc3 s3]. cbn [fst snd ret] in *.
  eapply send_frame_trans; eassumption.
Qed.

End Frames.

(** Relations on states that hold across every step of a computation. *)
Section StepRelations.
Context {C : ProtocolConsts}.
Variable R : Sys -> Sys -> Prop.
Hypothesis R_refl : forall s, R s s.
Hypothesis R_trans : forall s1 s2 s3, R s1 s2 -> R s2 s3 -> R s1 s3.

Lemma st_frames_ret {A} (a : A) : st_frames R (ret a).
Proof. intros s. apply R_refl. Qed.

Lemma st_frames_gets {A} (f : PSPSTUBSTATE -> A) : st_frames R (gets f).
Proof. intros s. apply R_refl. Qed.

Lemma st_frames_getw {A} (f : World -> A) : st_frames R (getw f).
Proof. intros s. apply R_refl. Qed.

Lemma st_frames_bind {A B} (m : St A) (k : A -> St B) :
  st_frames R m -> (forall a, st_frames R (k a)) -> st_frames R (bind m k).
Proof.
  intros Hm Hk s. unfold bind. specialize (Hm s). destruct (m s) as [a s1].
  eapply R_trans; [exact Hm|apply Hk].
Qed.

Lemma run_frames_rret {A} (a : A) : run_frames R (rret a).
Proof. intros s. apply R_refl. Qed.

Lemma run_frames_stop {A} (r : Sys -> Res A) :
  (forall s, final_state (r s) = s) -> run_frames R r.
Proof. intros Hr s. rewrite Hr. apply R_refl. Qed.

Lemma run_frames_rbind {A B} (m : Run A) (k : A -> Run B) :
  run_frames R m -> (forall a, run_frames R (k a)) -> run_frames R (rbind m k).
Proof.
  intros Hm Hk s. unfold rbind. specialize (Hm s).
  destruct (m s) as [a s1|s1|s1]; cbn [final_state] in *;
    [eapply R_trans; [exact Hm|apply Hk]|exact Hm|exact Hm].
Qed.

Lemma run_frames_lift {A} (m : St A) : st_frames R m -> run_frames R (lift m).
Proof. intros Hm s. unfold lift. specialize (Hm s). destruct (m s) as [a s1]. exact Hm. Qed.

(** *** The receive path *)

Hypothesis R_millies : st_frames R pspStubGetMillies.
Hypothesis R_poll : forall rc p, st_frames R (recv_poll rc p).

Lemma recv_again_frames ts c rc : st_frames R (recv_again ts c rc).
Proof.
  unfold recv_again. apply st_frames_bind; [|intros ?; apply st_frames_ret].
  destruct (rc =? 0); [|apply st_frames_ret].
  apply st_frames_bind; [exact R_millies|intros ?; apply st_frames_ret].
Qed.

Lemma pspStubPduRecv_loop_frames (fuel : nat) (ts c : Z) :
  forall rc p, run_frames R (pspStubPduRecv_loop fuel ts c rc p).
Proof.
  induction fuel as [|fuel IH]; intros rc p; cbn [pspStubPduRecv_loop].
  - apply run_frames_stop. reflexivity.
  - apply run_frames_rbind; [apply run_frames_lift, R_poll|].
    intros [[rc1 p1] brk]. destruct brk; [apply run_frames_rret|].
    apply run_frames_rbind; [apply run_frames_lift, recv_again_frames|].
    intros again. destruct again; [apply IH|apply run_frames_rret].
Qed.

Lemma pspStubPduRecv_frames (fuel : nat) (c : Z) : run_frames R (pspStubPduRecv fuel c).
Proof.
  unfold pspStubPduRecv.
  apply run_frames_rbind; [apply run_frames_lift, R_millies|].
  intros ts. apply run_frames_rbind; [apply pspStubPduRecv_loop_frames|].
  intros [rc p]. apply run_frames_rbind; [apply run_frames_lift, R_millies|].
  intros now. apply run_frames_rret.
Qed.

(** *** The beacon phase *)

Hypothesis R_send : forall rc id tag pv cb, st_frames R (pspStubPduSend rc id tag pv cb).
Hypothesis R_beacon_count :
  st_frames R (modify (fun t => set_cBeaconsSent (wrap32 (cBeaconsSent t + 1)) t)).
(** The connect response: the counter reset, the send, and the flag. *)
Hypothesis R_connect :
  st_frames R (modify (set_cPdusSent 0) ;;
             let* rc := pspStubPduSend INF_SUCCESS 0 PSPSERIALPDURRNID_RESPONSE_CONNECT
                          (InBuf connect_resp) (Z.of_nat (length connect_resp)) in
             if rc =? 0 then modify (set_fConnected true) else ret tt).

Lemma pspStubCheckConnection_frames (fuel : nat) (c : Z) :
  run_frames R (pspStubCheckConnection fuel c).
Proof.
  unfold pspStubCheckConnection.
  apply run_frames_rbind; [apply pspStubPduRecv_frames|]. intros [rc p].
  destruct (rc =? INF_SUCCESS); [|apply run_frames_rret].
  destruct p; [apply run_frames_stop; reflexivity|].
  apply run_frames_rbind; [apply run_frames_lift, st_frames_gets|]. intros tag.
  destruct (tag =? PSPSERIALPDURRNID_REQUEST_CONNECT); [|apply run_frames_rret].
  intros s. specialize (R_connect s). revert R_connect.
  unfold rbind, lift, bind, modify, rret. cbn [fst snd].
  destruct (pspStubPduSend _ _ _ _ _ _) as [rc2 s2].
  destruct (rc2 =? 0); cbn [fst snd final_state ret]; exact (fun H => H).
Qed.

Lemma pspStubMainloop_beacon_frames (fuel : nat) :
  forall rc, run_frames R (pspStubMainloop_beacon fuel rc).
Proof.
  induction fuel as [|fuel IH]; intros rc; cbn [pspStubMainloop_beacon].
  - apply run_frames_stop. reflexivity.
  - apply run_frames_rbind; [apply run_frames_lift, st_frames_gets|].
    intros conn. destruct (negb conn && (rc =? 0)); [|apply run_frames_rret].
    apply run_frames_rbind; [apply run_frames_lift, R_beacon_count|]. intros _.
    apply run_frames_rbind; [apply run_frames_lift, st_frames_gets|]. intros n.
    apply run_frames_rbind; [apply run_frames_lift, R_send|]. intros rc1.
    apply run_frames_rbind; [|apply IH].
    destruct (rc1 =? 0); [apply pspStubCheckConnection_frames|apply run_frames_rret].
Qed.

(** *** The connected phase and [main] *)

Hypothesis R_process : st_frames R pspStubPduProcess.

Lemma pspStubMainloop_turn_frames (fuel : nat) : run_frames R (pspStubMainloop_turn fuel).
Proof.
  unfold pspStubMainloop_turn.
  apply run_frames_rbind; [apply pspStubPduRecv_frames|]. intros [rc p].
  destruct (rc =? 0); [|apply run_frames_rret].
  destruct p; [apply run_frames_stop; reflexivity|apply run_frames_lift, R_process].
Qed.

Lemma pspStubMainloop_connected_frames (fuel : nat) :
  run_frames R (pspStubMainloop_connected fuel).
Proof.
  induction fuel as [|fuel IH]; cbn [pspStubMainloop_connected].
  - apply run_frames_stop. reflexivity.
  - apply run_frames_rbind; [apply pspStubMainloop_turn_frames|]. intros _. exact IH.
Qed.

Lemma pspStubMainloop_frames (fuel : nat) : run_frames R (pspStubMainloop fuel).
Proof.
  unfold pspStubMainloop.
  apply run_frames_rbind; [apply pspStubMainloop_beacon_frames|]. intros rc.
  apply run_frames_rbind; [apply run_frames_lift, st_frames_gets|]. intros conn.
  destruct (_ && _); [apply pspStubMainloop_connected_frames|apply run_frames_rret].
Qed.

(** [main] behind its first step, the initialisation of the stub state. *)
Hypothesis R_map : forall a f, st_frames R (pspStubX86PhysMap a f).
Hypothesis R_timer_init : st_frames R pspStubTimerInit.

Lemma main_frames (fuel : nat) (s : Sys) :
  R {| stub := main_init (stub s); hw := hw s |} (final_state (main fuel s)).
Proof.
  unfold main.
  match goal with |- context [rbind (lift (modify main_init)) ?k] =>
    change (rbind (lift (modify main_init)) k s)
      with (k tt {| stub := main_init (stub s); hw := hw s |});
    cut (run_frames R (k tt)); [intros Hk; apply Hk|]
  end.
  apply run_frames_rbind; [apply run_frames_lift, R_map|]. intros [rc0 ppv].
  repeat (apply run_frames_rbind;
          [match goal with
           | |- run_frames R (if ?b then _ else _) =>
               destruct b;
               [match goal with
                | |- run_frames R (lift (getw _)) => apply run_frames_lift, st_frames_getw
                | |- run_frames R (lift pspStubTimerInit) => apply run_frames_lift, R_timer_init
                | |- run_frames R (pspStubMainloop _) => apply pspStubMainloop_frames
                end
               |apply run_frames_rret]
           end|intros ?]).
  apply run_frames_stop. reflexivity.
Qed.

End StepRelations.

Section BeaconPhase.
Context {C : ProtocolConsts}.

Lemma recv_poll_preserves rc p s : recv_preserves s (snd (recv_poll rc p s)).
Proof.
  revert s. change (st_frames recv_preserves (recv_poll rc p)).
  pose proof recv_preserves_refl as Hr. pose proof recv_preserves_trans as Ht.
  unfold recv_poll.
  apply (st_frames_bind _ Ht); [intros s; apply PSPUartGetDataAvail_frame|].
  intros cbAvail. destruct (negb (cbAvail =? 0)); [|apply (st_frames_ret _ Hr)].
  apply (st_frames_bind _ Ht); [apply (st_frames_gets _ Hr)|]. intros cbLeft.
  apply (st_frames_bind _ Ht); [apply (st_frames_gets _ Hr)|]. intros off.
  cbv zeta.
  apply (st_frames_bind _ Ht); [intros s; apply PSPUartRead_frame|]. intros rc1.
  destruct (rc1 =? 0); [|apply (st_frames_ret _ Hr)].
  apply (st_frames_bind _ Ht); [intros s; repeat split|]. intros _.
  apply (st_frames_bind _ Ht); [apply (st_frames_gets _ Hr)|]. intros cbLeft'.
  destruct (cbLeft' =? 0); [|apply (st_frames_ret _ Hr)].
  apply (st_frames_bind _ Ht); [intros s; apply pspStubPduRecvAdvance_spec|].
  intros [rc2 [|]]; apply (st_frames_ret _ Hr).
Qed.

Lemma untouched_refl s : untouched s s.
Proof. repeat split. Qed.

Lemma untouched_trans s1 s2 s3 : untouched s1 s2 -> untouched s2 s3 -> untouched s1 s3.
Proof. unfold untouched. intros (?&?&?&?) (?&?&?&?). repeat split; congruence. Qed.

Lemma untouched_recv s s' : recv_preserves s s' -> untouched s s'.
Proof. intros (?&?&_&_&_&_&_&_&?&?). repeat split; assumption. Qed.

Lemma untouched_send s s' : send_frame s s' -> untouched s s'.
Proof. intros (?&?&_&_&_&_&_&_&_&_&_&_&_&?&?&_). repeat split; assumption. Qed.

(** Until a peer has connected, whatever arrives on the UART and however
    the sends go, the stub touches neither memory nor a control register nor
    a mapping table. *)
Theorem beacon_phase_touches_nothing (fuel : nat) (rc : Z) (s : Sys) :
  untouched s (final_state (pspStubMainloop_beacon fuel rc s)).
Proof.
  apply (pspStubMainloop_beacon_frames untouched untouched_refl untouched_trans).
  - intros s0. apply untouched_recv, pspStubGetMillies_preserves.
  - intros rc0 p s0. apply untouched_recv, recv_poll_preserves.
  - intros rc0 id tag pv cb s0. apply untouched_send, pspStubPduSend_frame.
  - intros s0. repeat split.
  - intros s0. unfold bind, modify. cbn [fst snd].
    match goal with |- context [pspStubPduSend ?a ?b ?c0 ?d ?e ?x] =>
      pose proof (pspStubPduSend_frame a b c0 d e x) as H;
      destruct (pspStubPduSend a b c0 d e x) as [rc2 s2] end.
    apply untouched_send in H. cbn [fst snd stub hw] in *.
    destruct (rc2 =? 0); cbn [snd ret stub hw]; exact H.
Qed.

End BeaconPhase.

(** ** Receive with the indefinite bound *)

Section IndefiniteWait.
Context {C : ProtocolConsts}.

Lemma recv_again_indefinite ts rc s :
  fst (recv_again ts PSP_SERIAL_STUB_INDEFINITE_WAIT rc s) = true.
Proof.
  unfold recv_again, bind, ret.
  destruct (rc =? 0); [destruct (pspStubGetMillies s) as [now s1]|];
    cbn [fst]; apply orb_true_r.
Qed.

Lemma pspStubPduRecv_loop_indefinite (fuel : nat) (ts : Z) :
  forall rc s rc' p' s',
    pspStubPduRecv_loop fuel ts PSP_SERIAL_STUB_INDEFINITE_WAIT rc PduNull s = Ret (rc', p') s' ->
    p' = PduBuf /\ rc' = 0.
Proof.
  induction fuel as [|fuel IH]; intros rc s rc' p' s'; cbn [pspStubPduRecv_loop].
  - discriminate.
  - unfold rbind, lift.
    pose proof (recv_poll_spec rc s) as (_ & Ho & Hb).
    destruct (recv_poll rc PduNull s) as [[[rc1 p1] brk] s1]. cbn [fst snd] in *.
    destruct Ho as [(-> & -> & _)|(-> & _)]; subst brk.
    + unfold rret. intros [= <- <- <-]. split; reflexivity.
    + pose proof (recv_again_indefinite ts rc1 s1) as Ha.
      destruct (recv_again ts PSP_SERIAL_STUB_INDEFINITE_WAIT rc1 s1) as [again s2].
      cbn [fst] in Ha. subst again. apply IH.
Qed.

Lemma pspStubPduRecv_loop_defined (fuel : nat) (ts c : Z) :
  forall rc p s s', pspStubPduRecv_loop fuel ts c rc p s <> Undefined s'.
Proof.
  induction fuel as [|fuel IH]; intros rc p s s'; cbn [pspStubPduRecv_loop].
  - discriminate.
  - unfold rbind, lift.
    destruct (recv_poll rc p s) as [[[rc1 p1] brk] s1].
    destruct brk; [discriminate|].
    destruct (recv_again ts c rc1 s1) as [again s2].
    destruct again; [apply IH|discriminate].
Qed.

Lemma pspStubPduRecv_defined (fuel : nat) (c : Z) (s s' : Sys) :
  pspStubPduRecv fuel c s <> Undefined s'.
Proof.
  unfold pspStubPduRecv, rbind, lift.
  destruct (pspStubGetMillies s) as [ts s0].
  pose proof (pspStubPduRecv_loop_defined fuel ts c INF_SUCCESS PduNull s0) as Hl.
  destruct (pspStubPduRecv_loop fuel ts c INF_SUCCESS PduNull s0) as [[rc p] s1|s1|s1];
    [|discriminate|exfalso; exact (Hl _ eq_refl)].
  destruct (pspStubGetMillies s1) as [now s2]. discriminate.
Qed.

(** With the indefinite bound the receive loop is left only through its
    [break]: [pspStubPduRecv] returns only with a PDU handed out (its status
    is 0, or [INF_TRY_AGAIN] from the check behind the loop), so a turn of the
    connected phase never reads through an unset PDU pointer, and the
    connected phase goes on for as long as it is run. *)
Theorem indefinite_wait_returns_only_with_pdu :
  (forall (fuel : nat) (s : Sys) (rc : Z) (p : PduPtr) (s' : Sys),
     pspStubPduRecv fuel PSP_SERIAL_STUB_INDEFINITE_WAIT s = Ret (rc, p) s' ->
     p = PduBuf /\ (rc = INF_SUCCESS \/ rc = INF_TRY_AGAIN)
     /\ cPduRecvNext (stub s') = wrap32 (cPduRecvNext (stub s) + 1))
  /\ (forall (fuel : nat) (s s' : Sys), pspStubMainloop_turn fuel s <> Undefined s')
  /\ (forall (fuel : nat) (s : Sys),
        exists s', pspStubMainloop_connected fuel s = OutOfFuel s').
Proof.
  assert (H1 : forall fuel s rc p s',
             pspStubPduRecv fuel PSP_SERIAL_STUB_INDEFINITE_WAIT s = Ret (rc, p) s' ->
             p = PduBuf /\ (rc = INF_SUCCESS \/ rc = INF_TRY_AGAIN)).
  { intros fuel s rc p s'. unfold pspStubPduRecv, rbind, lift, rret.
    destruct (pspStubGetMillies s) as [ts s0].
    destruct (pspStubPduRecv_loop fuel ts PSP_SERIAL_STUB_INDEFINITE_WAIT INF_SUCCESS PduNull s0)
      as [[rc1 p1] s1|s1|s1] eqn:Hloop; try discriminate.
    destruct (pspStubPduRecv_loop_indefinite _ _ _ _ _ _ _ Hloop) as (-> & ->).
    destruct (pspStubGetMillies s1) as [now s2].
    intros [= <- <- <-]. split; [reflexivity|].
    destruct (_ <=? _); [right|left]; reflexivity. }
  assert (H2 : forall fuel s s', pspStubMainloop_turn fuel s <> Undefined s').
  { intros fuel s s'. unfold pspStubMainloop_turn, rbind.
    pose proof (pspStubPduRecv_defined fuel PSP_SERIAL_STUB_INDEFINITE_WAIT s) as Hd.
    destruct (pspStubPduRecv fuel PSP_SERIAL_STUB_INDEFINITE_WAIT s)
      as [[rc p] s1|s1|s1] eqn:Hrecv; [|discriminate|exfalso; exact (Hd _ eq_refl)].
    destruct (H1 _ _ _ _ _ Hrecv) as (-> & _).
    destruct (rc =? 0); [|discriminate].
    unfold lift. destruct (pspStubPduProcess s1). discriminate. }
  split; [|split; [exact H2|]].
  - intros fuel s rc p s' Hrecv. destruct (H1 _ _ _ _ _ Hrecv) as (Hp & Hrc).
    split; [exact Hp|split; [exact Hrc|]].
    destruct (pspStubPduRecv_spec _ _ _ _ _ _ Hrecv) as (_ & [[_ Hn]|[Hx _]]);
      [exact Hn|congruence].
  - induction fuel as [|fuel IH]; intros s; cbn [pspStubMainloop_connected].
    + eexists. reflexivity.
    + unfold rbind. pose proof (H2 fuel s) as Hd.
      destruct (pspStubMainloop_turn fuel s) as [rc s1|s1|s1];
        [apply IH|eexists; reflexivity|exfalso; exact (Hd _ eq_refl)].
Qed.

End IndefiniteWait.

(** ** Footprint of request processing *)

(** Walks through a computation built from [bind], [ret], conditionals and
    matches, leaving the steps it does not know. *)
Ltac head_of t := match t with ?f _ => head_of f | _ => t end.

Ltac frames_walk Hr Ht :=
  repeat match goal with
    | |- st_frames _ (ret _) => apply (st_frames_ret _ Hr)
    | |- st_frames _ (gets _) => apply (st_frames_gets _ Hr)
    | |- st_frames _ (getw _) => apply (st_frames_getw _ Hr)
    | |- st_frames _ (bind _ _) => apply (st_frames_bind _ Ht); [|intros ?]
    | |- st_frames _ (if ?b then _ else _) => destruct b
    | |- st_frames _ (match ?x with _ => _ end) => destruct x
    | H : ?T |- st_frames _ ?m =>
        let hm := head_of m in
        match T with context [hm] => apply H end
    end.

Section ProcessFrame.
Context {C : ProtocolConsts}.

Lemma process_frame_refl s : process_frame s s.
Proof. unfold process_frame. repeat split. exists []. symmetry. apply app_nil_r. Qed.

Lemma process_frame_trans s1 s2 s3 :
  process_frame s1 s2 -> process_frame s2 s3 -> process_frame s1 s3.
Proof.
  unfold process_frame.
  intros (?&?&?&?&?&?&?&?&?&?&?&l1&Hl1) (?&?&?&?&?&?&?&?&?&?&?&l2&Hl2).
  repeat split; try congruence. exists (l1 ++ l2). rewrite Hl2, Hl1, app_assoc. reflexivity.
Qed.

Lemma process_frame_send s s' : send_frame s s' -> process_frame s s'.
Proof.
  intros (?&?&?&?&?&?&?&?&?&?&?&?&?&?&?&?). repeat split; assumption.
Qed.

(** A step that changes only the mapping tables, memory and the register
    log. *)
Ltac quiet_step :=
  intros s;
  unfold process_frame, store32, upd_x86_slot, upd_smn_slot, memcpy_to_mem, modify, modifyw;
  cbn [fst snd stub hw set_mem set_reg_log set_aX86MapSlots set_aSmnMapSlots
       set_Timer cCcds fConnected cBeaconsSent cPduRecvNext enmPduRecvState cbPduRecvLeft offPduRecv
       abPdu uart_fifo uart_arrivals uart_rd_rcs uart_tx];
  repeat split; exists []; symmetry; apply app_nil_r.

Lemma store32_frame addr v : st_frames process_frame (store32 addr v).
Proof. quiet_step. Qed.

Lemma upd_x86_slot_frame i f : st_frames process_frame (upd_x86_slot i f).
Proof. quiet_step. Qed.

Lemma upd_smn_slot_frame i f : st_frames process_frame (upd_smn_slot i f).
Proof. quiet_step. Qed.

Lemma memcpy_to_mem_frame pv buf off cb : st_frames process_frame (memcpy_to_mem pv buf off cb).
Proof. quiet_step. Qed.

Lemma pspStubMmioAccess_store_process_frame pv buf off cb :
  st_frames process_frame (pspStubMmioAccess_store pv buf off cb).
Proof.
  unfold pspStubMmioAccess_store. destruct (mmio_width cb).
  - quiet_step.
  - apply st_frames_ret, process_frame_refl.
Qed.

Lemma pspStubMmioAccess_load_process_frame pv cb :
  st_frames process_frame (pspStubMmioAccess_load pv cb).
Proof.
  unfold pspStubMmioAccess_load. destruct (mmio_width cb);
    [apply st_frames_getw|apply st_frames_ret]; apply process_frame_refl.
Qed.

Lemma load32_frame addr : st_frames process_frame (load32 addr).
Proof. apply st_frames_getw, process_frame_refl. Qed.

Lemma pspStubPduSend_process_frame rc id tag pv cb :
  st_frames process_frame (pspStubPduSend rc id tag pv cb).
Proof. intros s. apply process_frame_send, pspStubPduSend_frame. Qed.

Lemma x86_program_slot_frame i b m : st_frames process_frame (x86_program_slot i b m).
Proof.
  pose proof process_frame_refl as Hr. pose proof process_frame_trans as Ht.
  pose proof store32_frame as H1.
  unfold x86_program_slot. cbv zeta. frames_walk Hr Ht.
Qed.

Lemma x86_clear_slot_frame i : st_frames process_frame (x86_clear_slot i).
Proof.
  pose proof process_frame_refl as Hr. pose proof process_frame_trans as Ht.
  pose proof store32_frame as H1.
  unfold x86_clear_slot. cbv zeta. frames_walk Hr Ht.
Qed.

Lemma pspStubX86PhysMap_frame a f : st_frames process_frame (pspStubX86PhysMap a f).
Proof.
  pose proof process_frame_refl as Hr. pose proof process_frame_trans as Ht.
  pose proof upd_x86_slot_frame as H1. pose proof x86_program_slot_frame as H2.
  unfold pspStubX86PhysMap. cbv zeta. frames_walk Hr Ht.
Qed.

Lemma pspStubX86PhysUnmapByPtr_frame pv : st_frames process_frame (pspStubX86PhysUnmapByPtr pv).
Proof.
  pose proof process_frame_refl as Hr. pose proof process_frame_trans as Ht.
  pose proof upd_x86_slot_frame as H1. pose proof x86_clear_slot_frame as H2.
  unfold pspStubX86PhysUnmapByPtr. cbv zeta. frames_walk Hr Ht.
Qed.

Lemma pspStubSmnPhysMap_frame a : st_frames process_frame (pspStubSmnPhysMap a).
Proof.
  pose proof process_frame_refl as Hr. pose proof process_frame_trans as Ht.
  pose proof upd_smn_slot_frame as H1. pose proof store32_frame as H2.
  pose proof load32_frame as H3.
  unfold pspStubSmnPhysMap. cbv zeta. frames_walk Hr Ht.
Qed.

Lemma pspStubSmnUnmapByPtr_frame pv : st_frames process_frame (pspStubSmnUnmapByPtr pv).
Proof.
  pose proof process_frame_refl as Hr. pose proof process_frame_trans as Ht.
  pose proof upd_smn_slot_frame as H1. pose proof store32_frame as H2.
  pose proof load32_frame as H3.
  unfold pspStubSmnUnmapByPtr. cbv zeta. frames_walk Hr Ht.
Qed.

Lemma pspStubPduProcess_frame : st_frames process_frame pspStubPduProcess.
Proof.
  pose proof process_frame_refl as Hr. pose proof process_frame_trans as Ht.
  pose proof pspStubPduSend_process_frame as H1.
  pose proof memcpy_to_mem_frame as H2.
  pose proof pspStubMmioAccess_store_process_frame as H3.
  pose proof pspStubMmioAccess_load_process_frame as H4.
  pose proof pspStubX86PhysMap_frame as H5.
  pose proof pspStubX86PhysUnmapByPtr_frame as H6.
  pose proof pspStubSmnPhysMap_frame as H7.
  pose proof pspStubSmnUnmapByPtr_frame as H8.
  unfold pspStubPduProcess, pspStubPduProcessPspMemXfer, pspStubPduProcessPspMmioXfer,
    pspStubPduProcessPspSmnXfer, pspStubPduProcessPspX86MemXfer,
    pspStubPduProcessPspX86MmioXfer.
  cbv zeta. frames_walk Hr Ht.
Qed.

Lemma pspStubTimerInit_frame : st_frames process_frame pspStubTimerInit.
Proof.
  pose proof process_frame_refl as Hr. pose proof process_frame_trans as Ht.
  pose proof store32_frame as H1.
  unfold pspStubTimerInit. frames_walk Hr Ht. quiet_step.
Qed.



End ProcessFrame.

(** ** Transfers that stray *)

Section Strays.
Context {C : ProtocolConsts}.

Lemma range_meets_byte (a n k : Z) (r : Z * Z) :
  0 <= k < n -> fst r <= a + k < snd r -> range_meets a n r = true.
Proof.
  intros Hk Hr. unfold range_meets. apply andb_true_iff. split; apply Z.ltb_lt; lia.
Qed.

(** A store that does not stray puts no byte into the members of
    [g_StubState] in front of [abScratch], none into the rest of the stub's
    image, and none behind the end of the address space. *)
Lemma store_clear (a n k : Z) :
  store_strays a n = false -> 0 <= k < n ->
  ~ (PspAddrScratch - cbStubStateTail <= a + k < PspAddrScratch)
  /\ Forall (fun r => ~ (fst r <= a + k < snd r)) stub_image
  /\ a + k < 2 ^ 32.
Proof.
  unfold store_strays. intros H Hk.
  apply orb_false_iff in H as [H Hend]. apply orb_false_iff in H as [Htail Himg].
  apply Z.ltb_ge in Hend. split; [|split; [|lia]].
  - intros Hin.
    rewrite (range_meets_byte a n k (PspAddrScratch - cbStubStateTail, PspAddrScratch) Hk Hin)
      in Htail.
    discriminate.
  - apply Forall_forall. intros r Hr Hin.
    assert (E : existsb (range_meets a n) stub_image = true).
    { apply existsb_exists. exists r. split; [apply list_elem_of_In; exact Hr|].
      exact (range_meets_byte a n k r Hk Hin). }
    rewrite E in Himg. discriminate.
Qed.

Lemma mem_write_outside (bs : list Z) : forall (m : gmap Z Z) (a x : Z),
  x < a \/ a + Z.of_nat (length bs) <= x -> mem_write m a bs !! x = m !! x.
Proof.
  induction bs as [|b bs IH]; intros m a x Hx; cbn [mem_write]; [reflexivity|].
  cbn [length] in Hx. rewrite IH by lia. apply lookup_insert_ne. lia.
Qed.

(** A transfer that has not strayed has left every byte of the stub's own
    storage as it was. *)
Lemma xfer_to_mem_own_storage (pv : Z) (buf : list Z) (off cb : Z) (w : World) (x : Z) :
  strayed (xfer_to_mem pv buf off cb w) = false ->
  PspAddrScratch - cbStubStateTail <= x < PspAddrScratch
  \/ Exists (fun r => fst r <= x < snd r) stub_image ->
  mem (xfer_to_mem pv buf off cb w) !! x = mem w !! x.
Proof.
  unfold xfer_to_mem. cbn [strayed set_strayed mem set_mem]. intros Hs Hx.
  apply orb_false_iff in Hs as [_ Hs].
  destruct (Z.ltb_spec 0 cb) as [Hpos|Hzero].
  - cbn [andb] in Hs. apply orb_false_iff in Hs as [Hst _].
    apply mem_write_outside. rewrite buf_read_length, Z2Nat.id by lia.
    destruct (Z_lt_ge_dec x pv) as [Hlt|Hge]; [left; exact Hlt|].
    destruct (Z_lt_ge_dec x (pv + cb)) as [Hin|Hout]; [|right; lia].
    exfalso.
    destruct (store_clear pv cb (x - pv) Hst ltac:(lia)) as (Htail & Himg & _).
    replace (pv + (x - pv)) with x in * by lia.
    destruct Hx as [Hx|Hx]; [exact (Htail Hx)|].
    apply Exists_exists in Hx as (r & Hr & Hin').
    rewrite Forall_forall in Himg. exact (Himg r Hr Hin').
  - assert (E : buf_read buf off cb = []).
    { unfold buf_read. replace (Z.to_nat cb) with 0%nat by lia. reflexivity. }
    rewrite E. reflexivity.
Qed.

Lemma stray_kept_refl s : stray_kept s s.
Proof. reflexivity. Qed.
Lemma stray_kept_trans s1 s2 s3 : stray_kept s1 s2 -> stray_kept s2 s3 -> stray_kept s1 s3.
Proof. unfold stray_kept. congruence. Qed.

Lemma stray_sticks_refl s : stray_sticks s s.
Proof. intros H. exact H. Qed.
Lemma stray_sticks_trans s1 s2 s3 :
  stray_sticks s1 s2 -> stray_sticks s2 s3 -> stray_sticks s1 s3.
Proof. unfold stray_sticks. auto. Qed.
Lemma stray_kept_sticks s s' : stray_kept s s' -> stray_sticks s s'.
Proof. unfold stray_kept, stray_sticks, intact. congruence. Qed.

Lemma pspStubGetMillies_stray_kept : st_frames stray_kept pspStubGetMillies.
Proof.
  intros s. destruct (pspStubGetMillies_frame s) as (ts & T & n & sc & E). rewrite E.
  reflexivity.
Qed.

Lemma PSPUartWrite_stray_kept b : st_frames stray_kept (PSPUartWrite b).
Proof. intros s. reflexivity. Qed.

Lemma modify_stray_kept (f : PSPSTUBSTATE -> PSPSTUBSTATE) : st_frames stray_kept (modify f).
Proof. intros s. reflexivity. Qed.

(** A send leaves [strayed] as it is. *)
Lemma pspStubPduSend_stray_kept rc id tag pv cb :
  st_frames stray_kept (pspStubPduSend rc id tag pv cb).
Proof.
  pose proof stray_kept_refl as Hr. pose proof stray_kept_trans as Ht.
  pose proof pspStubGetMillies_stray_kept as H1.
  pose proof PSPUartWrite_stray_kept as H2.
  pose proof modify_stray_kept as H3.
  unfold pspStubPduSend, pspStubPduSend_init, pspStubPduSend_xmit. cbv zeta.
  frames_walk Hr Ht.
Qed.

(** What a local memory write leaves in [strayed]. *)
Lemma pspStubPduProcessPspMemXfer_write_strayed (s : Sys) (pv cb : Z) :
  cbXferReq <= cb ->
  let a := wrap32 (req_addr (abPdu (stub s)) pv) in
  let n := req_cbXfer (abPdu (stub s)) pv in
  strayed (hw (snd (pspStubPduProcessPspMemXfer pv cb true s)))
  = strayed (hw s) || ((0 <? n) && (store_strays a n || copy_overruns (pv + cbXferReq) n)).
Proof.
  intros Hcb a n. unfold pspStubPduProcessPspMemXfer.
  apply Z.ltb_ge in Hcb. rewrite Hcb. unfold bind, gets, memcpy_to_mem, modifyw.
  cbn [fst snd]. rewrite pspStubPduSend_stray_kept. reflexivity.
Qed.

(** What a local MMIO write leaves in [strayed]. *)
Lemma pspStubPduProcessPspMmioXfer_write_strayed (s : Sys) (pv cb : Z) :
  let a := wrap32 (req_addr (abPdu (stub s)) pv) in
  let n := req_cbXfer (abPdu (stub s)) pv in
  cbXferReq <= cb -> mmio_width n = true ->
  strayed (hw (snd (pspStubPduProcessPspMmioXfer pv cb true s)))
  = strayed (hw s) || ((0 <? n) && (store_strays a n || copy_overruns (pv + cbXferReq) n)).
Proof.
  intros a n Hcb Hw. unfold pspStubPduProcessPspMmioXfer, bind at 1, gets at 1.
  cbn [fst snd]. apply Z.ltb_ge in Hcb. fold n. rewrite Hcb, Hw. cbn [negb orb].
  unfold bind, pspStubMmioAccess_store, modifyw. rewrite Hw. cbn [fst snd].
  rewrite pspStubPduSend_stray_kept. reflexivity.
Qed.

(** A read request, and a request the handler turns down, leave [strayed]
    as it is. *)
Lemma pspStubPduProcessPspMemXfer_read_stray_kept pv cb :
  st_frames stray_kept (pspStubPduProcessPspMemXfer pv cb false).
Proof.
  pose proof stray_kept_refl as Hr. pose proof stray_kept_trans as Ht.
  pose proof pspStubPduSend_stray_kept as H1.
  unfold pspStubPduProcessPspMemXfer. frames_walk Hr Ht.
Qed.

(** [strayed] is never cleared: a run that ends with the flag down has not
    strayed at any point. *)
Lemma kept_sticks {A} (m : St A) : st_frames stray_kept m -> st_frames stray_sticks m.
Proof. intros H s. apply stray_kept_sticks, H. Qed.

Lemma modifyw_xfer_sticks pv buf off cb :
  st_frames stray_sticks (modifyw (xfer_to_mem pv buf off cb)).
Proof.
  intros s. unfold stray_sticks, intact, modifyw, xfer_to_mem. cbn [snd hw strayed set_strayed].
  intros H. apply orb_false_iff in H as [H _]. exact H.
Qed.

Lemma recv_poll_stray_kept rc p : st_frames stray_kept (recv_poll rc p).
Proof.
  pose proof stray_kept_refl as Hr. pose proof stray_kept_trans as Ht.
  pose proof modify_stray_kept as H1.
  assert (H2 : st_frames stray_kept PSPUartGetDataAvail) by (intros s; reflexivity).
  assert (H3 : forall off cb, st_frames stray_kept (PSPUartRead off cb)).
  { intros off cb s. unfold PSPUartRead. destruct (_ =? 0); reflexivity. }
  unfold recv_poll, pspStubPduRecvAdvance, pspStubPduRecvReset. cbv zeta.
  frames_walk Hr Ht.
Qed.

Lemma pspStubPduProcess_stray_sticks : st_frames stray_sticks pspStubPduProcess.
Proof.
  pose proof stray_sticks_refl as Hr. pose proof stray_sticks_trans as Ht.
  pose proof (fun a b c d e => kept_sticks _ (pspStubPduSend_stray_kept a b c d e)) as H1.
  pose proof (fun f => kept_sticks _ (modify_stray_kept f)) as H2.
  pose proof modifyw_xfer_sticks as H3.
  assert (H4 : forall a v, st_frames stray_sticks (store32 a v)).
  { intros a v s H. exact H. }
  unfold pspStubPduProcess, pspStubPduProcessPspMemXfer, pspStubPduProcessPspMmioXfer,
    pspStubPduProcessPspSmnXfer, pspStubPduProcessPspX86MemXfer,
    pspStubPduProcessPspX86MmioXfer, pspStubX86PhysMap, pspStubX86PhysUnmapByPtr,
    pspStubSmnPhysMap, pspStubSmnUnmapByPtr, x86_program_slot, x86_clear_slot,
    memcpy_to_mem, pspStubMmioAccess_store, pspStubMmioAccess_load, upd_x86_slot,
    upd_smn_slot, load32.
  cbv zeta. frames_walk Hr Ht.
Qed.

Lemma pspStubMainloop_stray_sticks (fuel : nat) (s : Sys) :
  intact (final_state (pspStubMainloop fuel s)) -> intact s.
Proof.
  apply (pspStubMainloop_frames stray_sticks stray_sticks_refl stray_sticks_trans).
  - apply kept_sticks, pspStubGetMillies_stray_kept.
  - intros rc p. apply kept_sticks, recv_poll_stray_kept.
  - intros rc id tag pv cb. apply kept_sticks, pspStubPduSend_stray_kept.
  - apply kept_sticks, modify_stray_kept.
  - pose proof stray_sticks_refl as Hr. pose proof stray_sticks_trans as Ht.
    pose proof (fun a b c d e => kept_sticks _ (pspStubPduSend_stray_kept a b c d e)) as H1.
    pose proof (fun f => kept_sticks _ (modify_stray_kept f)) as H2.
    frames_walk Hr Ht.
  - exact pspStubPduProcess_stray_sticks.
Qed.

End Strays.

(** ** One response to a well-formed request *)

Section Answers.
Context {C : ProtocolConsts}.



































End Answers.

(** ** The millisecond clock *)

Section Clock.
Context {C : ProtocolConsts}.

Lemma next_count_range (s : Sys) : clock_ok s -> 0 <= next_count s < 2 ^ 32.
Proof.
  intros (_ & _ & _ & Hnow & Hsc). unfold next_count, read_counter.
  destruct (cnt_script (hw s)) as [|v rest]; cbn [fst]; [exact Hnow|].
  inversion Hsc; subst. assumption.
Qed.

(** [pspStubTimerHandle], in terms of the counter value it reads. *)
Lemma pspStubTimerHandle_spec (s : Sys) :
  let t := Timer (stub s) in
  let cnts := next_count s in
  let s' := snd (pspStubTimerHandle s) in
  let t' := Timer (stub s') in
  0 <= cnts < 2 ^ 32 ->
  0 <= cCnts t < 2 ^ 32 ->
  0 <= cSubMsTicks t < 100 * 1000 ->
  cCnts t' = cnts
  /\ 0 <= cSubMsTicks t' < 100 * 1000
  /\ 100 * 1000 * Tm t' + cSubMsTicks t'
     = 100 * 1000 * Tm t + cSubMsTicks t + wrap32 (cnts - cCnts t)
  /\ Tm t <= Tm t'
  /\ hw s' = hw (snd (read_counter s)).
Proof.
  intros t cnts s' t' Hcnts Hold Hsub. subst t' s'.
  unfold pspStubTimerHandle, bind, next_count in *.
  destruct (read_counter s) as [c s1] eqn:Hrd. cbn [fst snd] in *. subst cnts.
  assert (Hs1 : Timer (stub s1) = t).
  { unfold read_counter in Hrd. destruct (cnt_script (hw s)); injection Hrd as <- <-; reflexivity. }
  unfold gets. cbn [fst snd]. rewrite Hs1.
  set (d := if cCnts t <=? c then wrap32 (c - cCnts t)
            else wrap32 (c + (0xffffffff - cCnts t) + 1)).
  assert (Hd : d = wrap32 (c - cCnts t)).
  { subst d. destruct (cCnts t <=? c); [reflexivity|].
    unfold wrap32. replace (c + (0xffffffff - cCnts t) + 1) with (c - cCnts t + 1 * 2 ^ 32) by lia.
    apply Z.mod_add. lia. }
  assert (Hdr : 0 <= d < 2 ^ 32) by (rewrite Hd; apply wrap32_range).
  rewrite (timer_whole_ms_spec _ (Tm t) d) by (first [lia | rewrite Z2Nat.id; [lia|apply Z.div_pos; lia]]).
  change (100 * 1000) with 100000 in *.
  pose proof (Z.mod_pos_bound d 100000 ltac:(lia)) as Hm.
  pose proof (Z.div_mod d 100000 ltac:(lia)) as Hdm.
  assert (Hq : 0 <= d / 100000) by (apply Z.div_pos; lia).
  rewrite (wrap32_small (d mod 100000 + cSubMsTicks t)) by lia.
  rewrite <- Hd.
  destruct (Z.leb_spec 100000 (d mod 100000 + cSubMsTicks t));
    unfold modify, TMTick; cbn [fst snd stub hw Timer set_Timer Tm cCnts cSubMsTicks];
    repeat split; lia.
Qed.

Lemma read_counter_hw (s : Sys) :
  clock_ok s ->
  0 <= cnt_now (hw (snd (read_counter s))) < 2 ^ 32
  /\ Forall (fun v => 0 <= v < 2 ^ 32) (cnt_script (hw (snd (read_counter s)))).
Proof.
  intros (_ & _ & _ & Hnow & Hsc). unfold read_counter.
  destruct (cnt_script (hw s)) as [|v rest] eqn:E; cbn [snd hw].
  - rewrite E. split; [exact Hnow|constructor].
  - inversion Hsc; subst. cbn [set_cnt cnt_now cnt_script hw]. split; assumption.
Qed.

Lemma pspStubGetMillies_clock (s : Sys) :
  clock_ok s ->
  let r := pspStubGetMillies s in
  clock_ok (snd r)
  /\ Tm (Timer (stub s)) <= Tm (Timer (stub (snd r)))
  /\ fst r = wrap32 (Tm (Timer (stub (snd r)))).
Proof.
  intros Hok r. subst r. pose proof Hok as (Htm & Hc & Hsub & Hnow & Hsc).
  destruct (pspStubTimerHandle_spec s (next_count_range s Hok) Hc Hsub)
    as (Hc' & Hsub' & _ & Hmono & Hhw).
  destruct (read_counter_hw s Hok) as (Hnow' & Hsc').
  unfold pspStubGetMillies, bind, gets, TMGetMillies.
  destruct (pspStubTimerHandle s) as [[] s1]. cbn [fst snd] in *.
  split; [|split; [exact Hmono|reflexivity]].
  unfold clock_ok. rewrite Hhw, Hc'.
  split; [lia|]. split; [apply next_count_range, Hok|]. split; [exact Hsub'|].
  split; assumption.
Qed.

Lemma clock_advances_refl s : clock_advances s s.
Proof. intros H. split; [exact H|lia]. Qed.

Lemma clock_advances_trans s1 s2 s3 :
  clock_advances s1 s2 -> clock_advances s2 s3 -> clock_advances s1 s3.
Proof.
  intros H12 H23 H1. destruct (H12 H1) as (H2 & Hle1). destruct (H23 H2) as (H3 & Hle2).
  split; [exact H3|lia].
Qed.

Lemma clock_kept_advances s s' : clock_kept s s' -> clock_advances s s'.
Proof.
  intros (Ht & Hn & Hs) H. unfold clock_ok. rewrite Ht, Hn, Hs. split; [exact H|lia].
Qed.

Lemma clock_kept_refl s : clock_kept s s.
Proof. repeat split. Qed.

Lemma clock_kept_trans s1 s2 s3 : clock_kept s1 s2 -> clock_kept s2 s3 -> clock_kept s1 s3.
Proof. unfold clock_kept. intros (?&?&?) (?&?&?). repeat split; congruence. Qed.

Lemma pspStubGetMillies_advances : st_frames clock_advances pspStubGetMillies.
Proof. intros s H. destruct (pspStubGetMillies_clock s H) as (H1 & H2 & _). split; assumption. Qed.

(** The steps that do not touch the clock. *)
Ltac kept_step := intros s; repeat split.

Lemma modify_kept (f : PSPSTUBSTATE -> PSPSTUBSTATE) :
  (forall t, Timer (f t) = Timer t) -> st_frames clock_kept (modify f).
Proof. intros Hf s. unfold clock_kept, modify. cbn [snd stub hw]. rewrite Hf. repeat split. Qed.

Lemma modifyw_kept (f : World -> World) :
  (forall w, cnt_now (f w) = cnt_now w) -> (forall w, cnt_script (f w) = cnt_script w) ->
  st_frames clock_kept (modifyw f).
Proof.
  intros H1 H2 s. unfold clock_kept, modifyw. cbn [snd stub hw]. rewrite H1, H2. repeat split.
Qed.

Lemma PSPUartGetDataAvail_kept : st_frames clock_kept PSPUartGetDataAvail.
Proof. kept_step. Qed.

Lemma PSPUartRead_kept off cb : st_frames clock_kept (PSPUartRead off cb).
Proof. intros s. unfold PSPUartRead. destruct (_ =? 0); repeat split. Qed.

Lemma PSPUartWrite_kept b : st_frames clock_kept (PSPUartWrite b).
Proof. kept_step. Qed.

Lemma store32_kept a v : st_frames clock_kept (store32 a v).
Proof. kept_step. Qed.

Lemma load32_kept a : st_frames clock_kept (load32 a).
Proof. kept_step. Qed.

Lemma upd_x86_slot_kept i f : st_frames clock_kept (upd_x86_slot i f).
Proof. kept_step. Qed.

Lemma upd_smn_slot_kept i f : st_frames clock_kept (upd_smn_slot i f).
Proof. kept_step. Qed.

Lemma memcpy_to_mem_kept pv buf off cb : st_frames clock_kept (memcpy_to_mem pv buf off cb).
Proof. kept_step. Qed.

Lemma pspStubMmioAccess_store_kept pv buf off cb :
  st_frames clock_kept (pspStubMmioAccess_store pv buf off cb).
Proof. intros s. unfold pspStubMmioAccess_store. destruct (mmio_width cb); repeat split. Qed.

Lemma pspStubMmioAccess_load_kept pv cb : st_frames clock_kept (pspStubMmioAccess_load pv cb).
Proof. intros s. unfold pspStubMmioAccess_load. destruct (mmio_width cb); repeat split. Qed.

Lemma pspStubPduRecvReset_kept : st_frames clock_kept pspStubPduRecvReset.
Proof. kept_step. Qed.

Lemma set_parser_kept (f : PSPSTUBSTATE -> PSPSERIALPDURECVSTATE) (g h : PSPSTUBSTATE -> Z) :
  st_frames clock_kept (modify (fun t => set_parser (f t) (g t) (h t) t)).
Proof. kept_step. Qed.

Lemma set_cPduRecvNext_kept (g : PSPSTUBSTATE -> Z) :
  st_frames clock_kept (modify (fun t => set_cPduRecvNext (g t) t)).
Proof. kept_step. Qed.

Lemma pspStubPduRecvAdvance_kept : st_frames clock_kept pspStubPduRecvAdvance.
Proof.
  pose proof clock_kept_refl as Hr. pose proof clock_kept_trans as Ht.
  pose proof pspStubPduRecvReset_kept as H1.
  unfold pspStubPduRecvAdvance. frames_walk Hr Ht;
    try (intros s; repeat split).
Qed.

Lemma recv_poll_kept rc p : st_frames clock_kept (recv_poll rc p).
Proof.
  pose proof clock_kept_refl as Hr. pose proof clock_kept_trans as Ht.
  pose proof PSPUartGetDataAvail_kept as H1. pose proof PSPUartRead_kept as H2.
  pose proof pspStubPduRecvAdvance_kept as H3.
  unfold recv_poll. cbv zeta. frames_walk Hr Ht; try (intros s; repeat split).
Qed.

End Clock.

Section ClockTheorems.
Context {C : ProtocolConsts}.

(** [pspStubTimerHandle] loses no tick: milliseconds and sub-millisecond
    remainder together advance by the wrap-safe difference of the two
    counter readings; the remainder stays below one millisecond; the
    millisecond count never goes back. *)
Theorem timer_handle_conserves_ticks (s : Sys) :
  let t := Timer (stub s) in
  let cnts := next_count s in
  let t' := Timer (stub (snd (pspStubTimerHandle s))) in
  0 <= cnts < 2 ^ 32 ->
  0 <= cCnts t < 2 ^ 32 ->
  0 <= cSubMsTicks t < 100 * 1000 ->
  cCnts t' = cnts
  /\ 0 <= cSubMsTicks t' < 100 * 1000
  /\ 100 * 1000 * Tm t' + cSubMsTicks t'
     = 100 * 1000 * Tm t + cSubMsTicks t + wrap32 (cnts - cCnts t)
  /\ Tm t <= Tm t'.
Proof.
  intros t cnts t' H1 H2 H3.
  destruct (pspStubTimerHandle_spec s H1 H2 H3) as (Ha & Hb & Hc & Hd & _).
  repeat split; assumption || apply Hb.
Qed.



Lemma kept_advances {A} (m : St A) : st_frames clock_kept m -> st_frames clock_advances m.
Proof. intros Hm s. apply clock_kept_advances, Hm. Qed.

Lemma pspStubPduSend_advances rc id tag pv cb :
  st_frames clock_advances (pspStubPduSend rc id tag pv cb).
Proof.
  pose proof clock_advances_refl as Hr. pose proof clock_advances_trans as Ht.
  pose proof pspStubGetMillies_advances as H1.
  pose proof (fun b => kept_advances _ (PSPUartWrite_kept b)) as H2.
  pose proof (fun f H => kept_advances _ (modify_kept f H)) as H3.
  unfold pspStubPduSend, pspStubPduSend_init, pspStubPduSend_xmit. cbv zeta.
  frames_walk Hr Ht; try (intros; reflexivity).
Qed.

Lemma pspStubPduProcess_advances : st_frames clock_advances pspStubPduProcess.
Proof.
  pose proof clock_advances_refl as Hr. pose proof clock_advances_trans as Ht.
  pose proof pspStubPduSend_advances as H1.
  pose proof (fun a b c d => kept_advances _ (memcpy_to_mem_kept a b c d)) as H2.
  pose proof (fun a b c d => kept_advances _ (pspStubMmioAccess_store_kept a b c d)) as H3.
  pose proof (fun a b => kept_advances _ (pspStubMmioAccess_load_kept a b)) as H4.
  pose proof (fun a b => kept_advances _ (store32_kept a b)) as H5.
  pose proof (fun a => kept_advances _ (load32_kept a)) as H6.
  pose proof (fun a b => kept_advances _ (upd_x86_slot_kept a b)) as H7.
  pose proof (fun a b => kept_advances _ (upd_smn_slot_kept a b)) as H8.
  unfold pspStubPduProcess, pspStubPduProcessPspMemXfer, pspStubPduProcessPspMmioXfer,
    pspStubPduProcessPspSmnXfer, pspStubPduProcessPspX86MemXfer,
    pspStubPduProcessPspX86MmioXfer, pspStubX86PhysMap, pspStubX86PhysUnmapByPtr,
    pspStubSmnPhysMap, pspStubSmnUnmapByPtr, x86_program_slot, x86_clear_slot.
  cbv zeta. frames_walk Hr Ht.
Qed.

(** The millisecond clock never goes back.  With the timekeeper's registers
    in range and a counter register that reads 32-bit values, the main loop
    -- beacons, receive polls, connect response, request handling -- keeps
    the registers in range and never lowers the millisecond count, wherever
    it is stopped, as long as no transfer has strayed by then (a write
    request is free to aim at [g_StubState.Timer]). *)
Theorem millisecond_clock_never_goes_back (fuel : nat) (s : Sys) :
  clock_ok s ->
  intact (final_state (pspStubMainloop fuel s)) ->
  clock_ok (final_state (pspStubMainloop fuel s))
  /\ Tm (Timer (stub s)) <= Tm (Timer (stub (final_state (pspStubMainloop fuel s)))).
Proof.
  intros Hok _. revert Hok.
  apply (pspStubMainloop_frames clock_advances clock_advances_refl clock_advances_trans).
  - exact pspStubGetMillies_advances.
  - intros rc p. apply kept_advances, recv_poll_kept.
  - exact pspStubPduSend_advances.
  - apply kept_advances, modify_kept. reflexivity.
  - pose proof clock_advances_refl as Hr. pose proof clock_advances_trans as Ht.
    pose proof pspStubPduSend_advances as H1.
    pose proof (fun f H => kept_advances _ (modify_kept f H)) as H3.
    frames_walk Hr Ht; try (intros; reflexivity).
  - exact pspStubPduProcess_advances.
Qed.

End ClockTheorems.

(** ** The receive buffer *)

Section ParserBounds.
Context {C : ProtocolConsts}.

Lemma buf_write_length (bs : list Z) : forall (buf : list Z) (off : nat),
  length (buf_write buf off bs) = length buf.
Proof.
  induction bs as [|b bs IH]; intros buf off; cbn [buf_write]; [reflexivity|].
  rewrite IH. apply length_insert.
Qed.

Lemma buf_write_Forall (P : Z -> Prop) (bs : list Z) : forall (buf : list Z) (off : nat),
  Forall P buf -> Forall P bs -> Forall P (buf_write buf off bs).
Proof.
  induction bs as [|b bs IH]; intros buf off Hbuf Hbs; cbn [buf_write]; [exact Hbuf|].
  inversion Hbs; subst. apply IH; [|assumption].
  destruct (decide (off < length buf)%nat) as [Hlt|Hge].
  - apply Forall_insert; assumption.
  - rewrite list_insert_ge by lia. exact Hbuf.
Qed.

Lemma buf_read_bytes (buf : list Z) (off n : Z) :
  Forall is_byte buf -> Forall is_byte (buf_read buf off n).
Proof.
  intros Hbuf. unfold buf_read. apply Forall_map, Forall_forall. intros i _. cbn.
  destruct (nth_in_or_default (Z.to_nat off + i) buf 0) as [Hin| ->].
  - rewrite Forall_forall in Hbuf. apply Hbuf. apply list_elem_of_In. exact Hin.
  - unfold is_byte. lia.
Qed.

Lemma le_val_nonneg (bs : list Z) : Forall is_byte bs -> 0 <= le_val bs.
Proof.
  induction 1 as [|b bs Hb _ IH]; cbn [le_val]; [lia|]. unfold is_byte in Hb. lia.
Qed.

(** [pspStubPduRecvAdvance], called when the bytes of the current state are
    all in. *)
Lemma pspStubPduRecvAdvance_ok (s : Sys) :
  let t := stub s in
  length (abPdu t) = Z.to_nat cbAbPdu -> Forall is_byte (abPdu t) ->
  0 <= offPduRecv t -> cbPduRecvLeft t = 0 ->
  match enmPduRecvState t with
  | PSPSERIALPDURECVSTATE_HDR => offPduRecv t = cbPduHdr
  | PSPSERIALPDURECVSTATE_PAYLOAD => offPduRecv t + cbPduFooter <= cbAbPdu
  | PSPSERIALPDURECVSTATE_FOOTER => offPduRecv t <= cbAbPdu
  | PSPSERIALPDURECVSTATE_INVALID => False
  end ->
  parser_ok (stub (snd (pspStubPduRecvAdvance s))) /\ hw (snd (pspStubPduRecvAdvance s)) = hw s.
Proof.
  intros t Hlen Hbytes Hoff Hleft Hst. subst t.
  unfold pspStubPduRecvAdvance, bind, gets. cbn [fst snd]. unfold id.
  assert (Hreset : forall t, abPdu t = abPdu (stub s) ->
                             parser_ok (set_parser PSPSERIALPDURECVSTATE_HDR cbPduHdr 0 t)).
  { intros t Ht. unfold parser_ok, cbPduHdr.
    cbn [stub abPdu offPduRecv cbPduRecvLeft enmPduRecvState set_parser]. rewrite Ht.
    repeat split; try assumption; lia. }
  destruct (enmPduRecvState (stub s)) eqn:He; [contradiction| | |].
  - destruct (Z.eqb_spec (pspStubPduHdrValidate (stub s) (hdr_at (abPdu (stub s)))) 0) as [Hv|Hv].
    + assert (Hcb : cbPdu (hdr_at (abPdu (stub s))) <= _4K - cbPduHdr - cbPduFooter).
      { destruct (Z.le_gt_cases (cbPdu (hdr_at (abPdu (stub s)))) (_4K - cbPduHdr - cbPduFooter))
          as [Hle|Hgt]; [exact Hle|].
        exfalso. assert (Hne : pspStubPduHdrValidate (stub s) (hdr_at (abPdu (stub s))) <> 0)
          by (apply pspStubPduHdrValidate_rejects; right; left; lia).
        contradiction. }
      assert (Hnn : 0 <= cbPdu (hdr_at (abPdu (stub s)))).
      { cbn [hdr_at cbPdu]. apply le_val_nonneg, buf_read_bytes, Hbytes. }
      unfold _4K, _1K, cbPduHdr, cbPduFooter in Hcb.
      destruct (Z.eqb_spec (cbPdu (hdr_at (abPdu (stub s)))) 0) as [E|E]; cbn [negb];
        (split; [|reflexivity]);
        unfold parser_ok, modify;
        cbn [fst snd stub abPdu offPduRecv cbPduRecvLeft enmPduRecvState set_parser ret];
        (split; [exact Hlen|split; [exact Hbytes|]]);
        unfold cbAbPdu, _4K, _1K, cbPduHdr, cbPduFooter in *; lia.
    + split; [|reflexivity]. apply Hreset. reflexivity.
  - split; [|reflexivity]. unfold parser_ok, modify.
    cbn [fst snd stub abPdu offPduRecv cbPduRecvLeft enmPduRecvState set_parser ret].
    split; [exact Hlen|split; [exact Hbytes|]].
    unfold cbAbPdu, _4K, _1K, cbPduHdr, cbPduFooter in *. lia.
  - destruct (pspStubPduValidate (abPdu (stub s)) =? 0);
      (split; [|reflexivity]); apply Hreset; reflexivity.
Qed.

Lemma recv_ok_rx (t : PSPSTUBSTATE) (fifo : list Z) (arr : list (list Z)) (rcs : list Z)
  (w : World) :
  parser_ok t -> Forall is_byte fifo -> Forall (Forall is_byte) arr ->
  recv_ok {| stub := t; hw := set_uart_rx fifo arr rcs w |}.
Proof. intros Ht Hf Ha. split; [exact Ht|split; assumption]. Qed.

(** One poll keeps the registers inside the buffer. *)
Lemma recv_poll_ok (rc : Z) (p : PduPtr) (s : Sys) :
  recv_ok s -> recv_ok (snd (recv_poll rc p s)).
Proof.
  intros (Hpok & (Hfifo & Harr)). pose proof Hpok as (Hlen & Hbytes & Hoff & Hleft & Hst).
  unfold recv_poll, bind, PSPUartGetDataAvail. cbn [fst snd].
  set (fifo := uart_fifo (hw s) ++ hd [] (uart_arrivals (hw s))).
  assert (Hfifo1 : Forall is_byte fifo).
  { subst fifo. apply Forall_app. split; [exact Hfifo|].
    destruct Harr as [|a l Ha _]; [constructor|exact Ha]. }
  assert (Harr1 : Forall (Forall is_byte) (tl (uart_arrivals (hw s)))).
  { destruct Harr as [|a l _ Hl]; [constructor|exact Hl]. }
  destruct (Z.eqb_spec (Z.of_nat (length fifo)) 0) as [E|E]; cbn [negb].
  { unfold ret. cbn [snd]. eapply recv_ok_rx; eassumption. }
  unfold gets. cbn [fst snd stub hw].
  set (cbThis := Z.min (Z.of_nat (length fifo)) (cbPduRecvLeft (stub s))).
  assert (Hthis : 0 < cbThis <= cbPduRecvLeft (stub s)) by (subst cbThis; lia).
  assert (Hcap : offPduRecv (stub s) + cbPduRecvLeft (stub s) <= cbAbPdu).
  { unfold cbAbPdu, _4K, _1K, cbPduHdr, cbPduFooter in *.
    destruct (enmPduRecvState (stub s)); [contradiction|lia|lia|lia]. }
  unfold PSPUartRead. cbn [stub hw uart_rd_rcs set_uart_rx uart_fifo uart_arrivals].
  destruct (hd 0 (uart_rd_rcs (hw s)) =? 0) eqn:Hrd; cbn [fst snd]; rewrite Hrd.
  2:{ unfold ret. cbn [snd]. eapply recv_ok_rx; eassumption. }
  unfold modify. cbn [fst snd stub hw set_abPdu set_parser enmPduRecvState cbPduRecvLeft
                      offPduRecv abPdu].
  set (buf := buf_write (abPdu (stub s)) (Z.to_nat (offPduRecv (stub s)))
                (take (Z.to_nat cbThis) fifo)).
  assert (Hlen1 : length buf = Z.to_nat cbAbPdu) by (subst buf; rewrite buf_write_length; exact Hlen).
  assert (Hbytes1 : Forall is_byte buf).
  { subst buf. apply buf_write_Forall; [exact Hbytes|apply Forall_take, Hfifo1]. }
  assert (Hdrop : Forall is_byte (drop (Z.to_nat cbThis) fifo)) by apply Forall_drop, Hfifo1.
  assert (Hwl : wrap32 (cbPduRecvLeft (stub s) - cbThis) = cbPduRecvLeft (stub s) - cbThis).
  { apply wrap32_small. unfold cbAbPdu, _4K, _1K in Hcap. lia. }
  assert (Hwo : wrap32 (offPduRecv (stub s) + cbThis) = offPduRecv (stub s) + cbThis).
  { apply wrap32_small. unfold cbAbPdu, _4K, _1K in Hcap. lia. }
  rewrite Hwl, Hwo.
  destruct (Z.eqb_spec (cbPduRecvLeft (stub s) - cbThis) 0) as [E0|E0].
  - match goal with |- context [pspStubPduRecvAdvance ?s0] =>
      destruct (pspStubPduRecvAdvance_ok s0) as (Hok & Hhw);
      [exact Hlen1|exact Hbytes1|cbn; lia|cbn; lia| |
       destruct (pspStubPduRecvAdvance s0) as [[rc2 p2] s2]] end.
    + cbn [stub enmPduRecvState offPduRecv set_parser].
      unfold cbAbPdu, _4K, _1K, cbPduHdr, cbPduFooter in *.
      destruct (enmPduRecvState (stub s)); [contradiction|lia|lia|lia].
    + cbn [fst snd] in *. destruct p2; unfold ret; cbn [snd];
        (split; [exact Hok|rewrite Hhw; split; assumption]).
  - unfold ret. cbn [snd]. eapply recv_ok_rx; [|eassumption|eassumption].
    unfold parser_ok. cbn [stub abPdu offPduRecv cbPduRecvLeft enmPduRecvState set_parser].
    split; [exact Hlen1|split; [exact Hbytes1|]].
    split; [lia|split; [lia|]].
    unfold cbAbPdu, _4K, _1K, cbPduHdr, cbPduFooter in *.
    destruct (enmPduRecvState (stub s)); [contradiction|lia|lia|lia].
Qed.

Lemma recv_ok_same (s s' : Sys) :
  enmPduRecvState (stub s') = enmPduRecvState (stub s) ->
  cbPduRecvLeft (stub s') = cbPduRecvLeft (stub s) ->
  offPduRecv (stub s') = offPduRecv (stub s) ->
  abPdu (stub s') = abPdu (stub s) ->
  uart_fifo (hw s') = uart_fifo (hw s) ->
  uart_arrivals (hw s') = uart_arrivals (hw s) ->
  recv_ok s -> recv_ok s'.
Proof.
  intros H1 H2 H3 H4 H5 H6. unfold recv_ok, parser_ok, rx_bytes.
  rewrite H1, H2, H3, H4, H5, H6. exact (fun H => H).
Qed.

Lemma recv_ok_process (s s' : Sys) : process_frame s s' -> recv_ok s -> recv_ok s'.
Proof. intros (_&_&_&_&?&?&?&?&?&?&_). apply recv_ok_same; assumption. Qed.


Lemma keeps_recv_ok_refl s : keeps_recv_ok s s.
Proof. exact (fun H => H). Qed.

Lemma keeps_recv_ok_trans s1 s2 s3 :
  keeps_recv_ok s1 s2 -> keeps_recv_ok s2 s3 -> keeps_recv_ok s1 s3.
Proof. unfold keeps_recv_ok. auto. Qed.

Lemma pspStubGetMillies_recv_ok : st_frames keeps_recv_ok pspStubGetMillies.
Proof.
  intros s. destruct (pspStubGetMillies_frame s) as (ts & T & n & sc & E). rewrite E.
  unfold keeps_recv_ok. cbn [snd]. apply recv_ok_same; reflexivity.
Qed.

Lemma beacon_count_recv_ok :
  st_frames keeps_recv_ok (modify (fun t => set_cBeaconsSent (wrap32 (cBeaconsSent t + 1)) t)).
Proof. intros s. unfold keeps_recv_ok. apply recv_ok_same; reflexivity. Qed.

Lemma connect_recv_ok :
  st_frames keeps_recv_ok
    (modify (set_cPdusSent 0) ;;
     let* rc := pspStubPduSend INF_SUCCESS 0 PSPSERIALPDURRNID_RESPONSE_CONNECT
                  (InBuf connect_resp) (Z.of_nat (length connect_resp)) in
     if rc =? 0 then modify (set_fConnected true) else ret tt).
Proof.
  intros s. unfold bind, modify. cbn [fst snd].
  match goal with |- context [pspStubPduSend ?a ?b ?c0 ?d ?e ?x] =>
    pose proof (pspStubPduSend_process_frame a b c0 d e x) as H;
    destruct (pspStubPduSend a b c0 d e x) as [rc2 s2] end.
  destruct H as (_&_&_&_&?&?&?&?&?&?&_). cbn [fst snd stub hw] in *.
  unfold keeps_recv_ok.
  destruct (rc2 =? 0); cbn [snd ret]; apply recv_ok_same; assumption.
Qed.

Lemma process_recv_ok {A} (m : St A) : st_frames process_frame m -> st_frames keeps_recv_ok m.
Proof. intros Hm s. unfold keeps_recv_ok. apply recv_ok_process, Hm. Qed.

(** The receive path never leaves the PDU buffer.  Between two polls the
    parser is in one of its three states, the write offset is not negative,
    bytes are still to come, and they fit into [abPdu] behind the offset; so
    the read a poll issues -- [MIN(cbAvail, cbPduRecvLeft)] bytes at
    [offPduRecv] -- lies inside the buffer.  [main] establishes this and the
    main loop keeps it, whatever arrives and wherever the run is stopped, as
    long as no transfer has strayed by then (a write request is free to aim
    at the parser registers in [g_StubState]). *)
Theorem receive_stays_inside_pdu_buffer :
  (forall (s : Sys) (cbAvail : Z),
     recv_ok s -> 0 <= cbAvail ->
     0 <= offPduRecv (stub s)
     /\ offPduRecv (stub s) + Z.min cbAvail (cbPduRecvLeft (stub s))
        <= Z.of_nat (length (abPdu (stub s))))
  /\ (forall (fuel : nat) (s : Sys),
        recv_ok s ->
        intact (final_state (pspStubMainloop fuel s)) ->
        recv_ok (final_state (pspStubMainloop fuel s)))
  /\ (forall (fuel : nat) (s : Sys),
        length (abPdu (stub s)) = Z.to_nat cbAbPdu -> Forall is_byte (abPdu (stub s)) ->
        rx_bytes (hw s) ->
        intact (final_state (main fuel s)) ->
        recv_ok (final_state (main fuel s))).
Proof.
  split; [|split].
  - intros s cbAvail ((Hlen & _ & Hoff & Hleft & Hst) & _) Havail.
    split; [exact Hoff|]. rewrite Hlen.
    unfold cbAbPdu, _4K, _1K, cbPduHdr, cbPduFooter in *.
    destruct (enmPduRecvState (stub s)); [contradiction|lia|lia|lia].
  - intros fuel s Hok _. revert Hok.
    apply (pspStubMainloop_frames keeps_recv_ok keeps_recv_ok_refl keeps_recv_ok_trans).
    + exact pspStubGetMillies_recv_ok.
    + intros rc p s0. exact (recv_poll_ok rc p s0).
    + intros rc id tag pv cb. apply process_recv_ok, pspStubPduSend_process_frame.
    + exact beacon_count_recv_ok.
    + exact connect_recv_ok.
    + apply process_recv_ok, pspStubPduProcess_frame.
  - intros fuel s Hlen Hbytes Hrx _.
    apply (main_frames keeps_recv_ok keeps_recv_ok_refl keeps_recv_ok_trans).
    + exact pspStubGetMillies_recv_ok.
    + intros rc p s0. exact (recv_poll_ok rc p s0).
    + intros rc id tag pv cb. apply process_recv_ok, pspStubPduSend_process_frame.
    + exact beacon_count_recv_ok.
    + exact connect_recv_ok.
    + apply process_recv_ok, pspStubPduProcess_frame.
    + intros a f. apply process_recv_ok, pspStubX86PhysMap_frame.
    + apply process_recv_ok, pspStubTimerInit_frame.
    + split; [|exact Hrx]. unfold parser_ok, main_init, cbPduHdr.
      cbn [stub abPdu offPduRecv cbPduRecvLeft enmPduRecvState].
      repeat split; try assumption; lia.
Qed.

End ParserBounds.

(** ** A silent line *)

Section SilentLine.
Context {C : ProtocolConsts}.

Lemma silent_step_refl s : silent_step s s.
Proof. intros H. split; [exact H|repeat split]. Qed.

Lemma silent_step_trans s1 s2 s3 : silent_step s1 s2 -> silent_step s2 s3 -> silent_step s1 s3.
Proof.
  intros H12 H23 H1. destruct (H12 H1) as (H2 & K12). destruct (H23 H2) as (H3 & K23).
  split; [exact H3|]. unfold parser_kept in *.
  destruct K12 as (?&?&?&?&?&?), K23 as (?&?&?&?&?&?). repeat split; congruence.
Qed.

Lemma pspStubGetMillies_silent : st_frames silent_step pspStubGetMillies.
Proof.
  intros s. destruct (pspStubGetMillies_frame s) as (ts & T & n & sc & E). rewrite E.
  intros H. split; [exact H|repeat split].
Qed.

(** A poll of a silent line reads nothing and leaves its status and its
    pointer as they were. *)
Lemma recv_poll_silent (rc : Z) (p : PduPtr) (s : Sys) :
  rx_silent s ->
  fst (recv_poll rc p s) = (rc, p, false)
  /\ rx_silent (snd (recv_poll rc p s))
  /\ parser_kept s (snd (recv_poll rc p s)).
Proof.
  intros (Hf & Ha). unfold recv_poll, bind, PSPUartGetDataAvail. cbn [fst snd].
  rewrite Hf, Ha. cbn [hd tl app length Z.of_nat Z.eqb negb ret fst snd].
  split; [reflexivity|]. split; [split; reflexivity|repeat split].
Qed.

Lemma pspStubPduRecv_loop_silent (fuel : nat) (ts c : Z) :
  forall (rc : Z) (p : PduPtr) (s : Sys) (rc' : Z) (p' : PduPtr) (s' : Sys),
    rx_silent s ->
    pspStubPduRecv_loop fuel ts c rc p s = Ret (rc', p') s' ->
    rc' = rc /\ p' = p.
Proof.
  induction fuel as [|fuel IH]; intros rc p s rc' p' s' Hs; cbn [pspStubPduRecv_loop].
  - discriminate.
  - unfold rbind, lift.
    destruct (recv_poll_silent rc p s Hs) as (E & Hs1 & _).
    destruct (recv_poll rc p s) as [[[rc1 p1] brk] s1]. cbn [fst snd] in *.
    injection E as -> -> ->.
    pose proof (recv_again_frames silent_step silent_step_refl silent_step_trans
                  pspStubGetMillies_silent ts c rc s1 Hs1) as (Hs2 & _).
    destruct (recv_again ts c rc s1) as [again s2]. cbn [fst snd] in *.
    destruct again; [apply IH; exact Hs2|].
    unfold rret. intros [= <- <- _]. split; reflexivity.
Qed.

(** On a silent line [pspStubPduRecv] disturbs nothing of the receive side:
    the parser state, its offset and count, the PDU buffer and the expected
    counter are as the call found them, wherever the call is stopped, so a
    PDU received in part is resumed by the next call; and if the call
    returns, it hands out nothing and its status is [INF_SUCCESS] or
    [INF_TRY_AGAIN]. *)
Theorem silent_line_leaves_parser_alone (fuel : nat) (c : Z) (s : Sys) :
  rx_silent s ->
  parser_kept s (final_state (pspStubPduRecv fuel c s))
  /\ rx_silent (final_state (pspStubPduRecv fuel c s))
  /\ (forall (rc : Z) (p : PduPtr) (s' : Sys),
        pspStubPduRecv fuel c s = Ret (rc, p) s' ->
        p = PduNull /\ (rc = INF_SUCCESS \/ rc = INF_TRY_AGAIN)).
Proof.
  intros Hs.
  destruct (pspStubPduRecv_frames silent_step silent_step_refl silent_step_trans
              pspStubGetMillies_silent
              (fun rc p x Hx => match recv_poll_silent rc p x Hx with
                                | conj _ K => K end)
              fuel c s Hs) as (Hq & Hk).
  split; [exact Hk|]. split; [exact Hq|].
  intros rc p s'. unfold pspStubPduRecv, rbind, lift, rret.
  destruct (pspStubGetMillies_silent s Hs) as (Hs0 & _).
  destruct (pspStubGetMillies s) as [ts s0]. cbn [fst snd] in *.
  destruct (pspStubPduRecv_loop fuel ts c INF_SUCCESS PduNull s0)
    as [[rc1 p1] s1|s1|s1] eqn:Hloop; try discriminate.
  destruct (pspStubPduRecv_loop_silent _ _ _ _ _ _ _ _ _ Hs0 Hloop) as (-> & ->).
  destruct (pspStubGetMillies s1) as [now s2].
  intros [= <- <- _]. split; [reflexivity|].
  destruct (_ <=? _); [right|left]; reflexivity.
Qed.

End SilentLine.

(** ** The handshake *)

Section Handshake.
Context {C : ProtocolConsts}.

Lemma connect_response_sent_app (log l : list TxWrite) :
  connect_response_sent log -> connect_response_sent (log ++ l).
Proof.
  intros (pre & post & h & -> & Hh). exists pre, (post ++ l), h. split; [|exact Hh].
  rewrite <- !app_assoc. reflexivity.
Qed.

Lemma keeps_connected_ok_refl s : keeps_connected_ok s s.
Proof. exact (fun H => H). Qed.

Lemma keeps_connected_ok_trans s1 s2 s3 :
  keeps_connected_ok s1 s2 -> keeps_connected_ok s2 s3 -> keeps_connected_ok s1 s3.
Proof. unfold keeps_connected_ok. auto. Qed.

Lemma connected_ok_grows (s s' : Sys) :
  fConnected (stub s') = fConnected (stub s) ->
  (exists l, uart_tx (hw s') = uart_tx (hw s) ++ l) ->
  keeps_connected_ok s s'.
Proof.
  intros Hc (l & Hl) Hok Hconn. rewrite Hl. apply connect_response_sent_app, Hok.
  rewrite <- Hc. exact Hconn.
Qed.

Lemma connected_ok_process {A} (m : St A) :
  st_frames process_frame m -> st_frames keeps_connected_ok m.
Proof.
  intros Hm s. destruct (Hm s) as (_&Hc&_&_&_&_&_&_&_&_&_&Hl).
  apply connected_ok_grows; assumption.
Qed.

Lemma connected_ok_recv (s s' : Sys) : recv_preserves s s' -> keeps_connected_ok s s'.
Proof.
  intros (_&_&_&Hc&_&_&Htx&_). apply connected_ok_grows; [exact Hc|].
  exists []. rewrite Htx. symmetry. apply app_nil_r.
Qed.

Lemma connect_resp_bytes : buf_read connect_resp 0 (Z.of_nat (length connect_resp)) = connect_resp.
Proof. reflexivity. Qed.

(** The connect response of [pspStubCheckConnection]: the flag goes up only
    behind a response that went out whole. *)
Lemma connect_connected_ok :
  st_frames keeps_connected_ok
    (modify (set_cPdusSent 0) ;;
     let* rc := pspStubPduSend INF_SUCCESS 0 PSPSERIALPDURRNID_RESPONSE_CONNECT
                  (InBuf connect_resp) (Z.of_nat (length connect_resp)) in
     if rc =? 0 then modify (set_fConnected true) else ret tt).
Proof.
  intros s. unfold bind, modify. cbn [fst snd].
  set (s0 := {| stub := set_cPdusSent 0 (stub s); hw := hw s |}).
  destruct (pspStubPduSend_spec INF_SUCCESS 0 PSPSERIALPDURRNID_RESPONSE_CONNECT
              (InBuf connect_resp) (Z.of_nat (length connect_resp)) s0)
    as (ts & T & Hstub & Htx & Hrc & _).
  cbn zeta in *.
  destruct (pspStubPduSend INF_SUCCESS 0 PSPSERIALPDURRNID_RESPONSE_CONNECT
              (InBuf connect_resp) (Z.of_nat (length connect_resp)) s0) as [rc2 s2].
  cbn [fst snd] in *.
  destruct (Z.eqb_spec rc2 0) as [Hz|Hnz]; cbn [snd ret].
  - intros _ _. cbn [stub hw]. rewrite Htx.
    revert Hrc. unfold xmit_writes. cbn [payload_is_null negb andb].
    change (Z.of_nat (length connect_resp) =? 0) with false. cbn [negb].
    unfold payload_bytes. rewrite connect_resp_bytes.
    subst s0. cbn [stub hw cPdusSent set_cPdusSent].
    destruct (Z.eqb_spec (hd 0 (uart_wr_rcs (hw s))) 0) as [E1|E1];
      [|cbn [List.last tx_rc]; intros ->; contradiction].
    destruct (Z.eqb_spec (hd 0 (tl (uart_wr_rcs (hw s)))) 0) as [E2|E2];
      [|cbn [List.last tx_rc]; intros ->; contradiction].
    cbn [List.last tx_rc]. intros E3. rewrite Hz in E3. rewrite E1, E2, <- E3.
    eexists (uart_tx (hw s)), [], _. split; [reflexivity|].
    cbn [sent_hdr enmRrnId cPdus rcReq]. repeat split.
  - apply connected_ok_grows.
    + rewrite Hstub. reflexivity.
    + rewrite Htx. eexists. reflexivity.
Qed.

(** The stub takes itself for connected only behind a connect response that
    the UART has taken whole: from power-up, wherever [main] is stopped,
    [fConnected] set means the log of UART writes holds the header of a
    CONNECT response numbered 1 with status 0, its payload and its footer,
    one after the other, each written with status 0. *)
Theorem connected_only_after_connect_response (fuel : nat) (s : Sys) :
  fConnected (stub (final_state (main fuel s))) = true ->
  connect_response_sent (uart_tx (hw (final_state (main fuel s)))).
Proof.
  cut (connected_ok (final_state (main fuel s))); [exact (fun H => H)|].
  apply (main_frames keeps_connected_ok keeps_connected_ok_refl keeps_connected_ok_trans).
  - intros s0. apply connected_ok_recv, pspStubGetMillies_preserves.
  - intros rc p s0. apply connected_ok_recv, recv_poll_preserves.
  - intros rc id tag pv cb. apply connected_ok_process, pspStubPduSend_process_frame.
  - intros s0. apply connected_ok_grows; [reflexivity|].
    exists []. symmetry. apply app_nil_r.
  - exact connect_connected_ok.
  - apply connected_ok_process, pspStubPduProcess_frame.
  - intros a f. apply connected_ok_process, pspStubX86PhysMap_frame.
  - apply connected_ok_process, pspStubTimerInit_frame.
  - intros Hc. discriminate Hc.
Qed.

End Handshake.

(** ** Framing and checksum *)

Section Framing.
Context {C : ProtocolConsts}.

Lemma le_val_le_bytes_u32 v : 0 <= v < 2 ^ 32 -> le_val (le_bytes 4 v) = v.
Proof. intros H. rewrite le_val_le_bytes. apply Z.mod_small. exact H. Qed.

Lemma le_val_le_bytes_u16 v : 0 <= v < 2 ^ 16 -> le_val (le_bytes 2 v) = v.
Proof. intros H. rewrite le_val_le_bytes. apply Z.mod_small. exact H. Qed.

Lemma signed32_le_bytes v : - 2 ^ 31 <= v < 2 ^ 31 -> signed32 (le_val (le_bytes 4 v)) = v.
Proof.
  intros H. rewrite le_val_le_bytes. change (256 ^ Z.of_nat 4) with (2 ^ 32).
  unfold signed32. destruct (Z_lt_ge_dec v 0) as [Hneg|Hpos].
  - replace (v mod 2 ^ 32) with (v + 2 ^ 32).
    + destruct (Z.ltb_spec (v + 2 ^ 32) (2 ^ 31)); lia.
    + apply Z.mod_unique with (q := -1); lia.
  - rewrite Z.mod_small by lia. destruct (Z.ltb_spec v (2 ^ 31)); lia.
Qed.

Lemma hdr_eta (h : PSPSERIALPDUHDR) :
  {| u32Magic := u32Magic h; cbPdu := cbPdu h; cPdus := cPdus h; enmRrnId := enmRrnId h;
     idCcd := idCcd h; rcReq := rcReq h; tsMillies := tsMillies h |} = h.
Proof. destruct h; reflexivity. Qed.

(** Picks the segment [l] out of a buffer written as a chain of appends. *)
Ltac read_segment pre l rest :=
  match goal with
  | |- context [buf_read ?buf ?off ?n] =>
      replace buf with (pre ++ l ++ rest) by (rewrite <- ?app_assoc; reflexivity);
      rewrite (buf_read_middle' pre l rest off n)
        by (rewrite ?length_app, ?le_bytes_length; cbn [length]; lia)
  end.

(** A PDU framed the way [pspStubPduSend] frames it -- header, payload,
    footer with the checksum over byte view and payload -- read back from a
    buffer: the receive side sees the same header, payload and footer, the
    checksum test of [pspStubPduValidate] passes, and the PDU is accepted
    exactly if its end magic is the one of the receive direction. *)
Theorem framed_pdu_reads_back (h : PSPSERIALPDUHDR) (p rest : list Z) (M : Z) :
  hdr_in_range h ->
  cbPdu h = Z.of_nat (length p) ->
  0 <= M < 2 ^ 32 ->
  let f := {| u32ChkSum := u32ChkSum (sent_footer h p); u32MagicEnd := M |} in
  let buf := hdr_bytes h ++ p ++ footer_bytes f ++ rest in
  hdr_at buf = h
  /\ buf_read buf cbPduHdr (cbPdu h) = p
  /\ footer_at buf = f
  /\ wrap32 (recv_chksum buf + u32ChkSum (footer_at buf)) = 0
  /\ (pspStubPduValidate buf = 0 <-> M = PSP_SERIAL_EXT_2_PSP_PDU_END_MAGIC).
Proof.
  intros (Hm & Hcb & Hcnt & Htag & Hid & Hrc & Hts) Hlen HM f buf.
  set (chk := u32ChkSum (sent_footer h p)).
  assert (Hchk : 0 <= chk < 2 ^ 32) by apply wrap32_range.
  set (b0 := le_bytes 4 (u32Magic h)). set (b1 := le_bytes 4 (cbPdu h)).
  set (b2 := le_bytes 4 (cPdus h)). set (b3 := le_bytes 2 (enmRrnId h)).
  set (b4 := le_bytes 2 (idCcd h)). set (b5 := le_bytes 4 (rcReq h)).
  set (b6 := le_bytes 4 (tsMillies h)).
  set (c := le_bytes 4 chk). set (m := le_bytes 4 M).
  assert (Ebuf : buf = b0 ++ b1 ++ b2 ++ b3 ++ b4 ++ b5 ++ b6 ++ p ++ c ++ m ++ rest).
  { subst buf f. unfold hdr_bytes, hdr_ab, footer_bytes. cbn [u32ChkSum u32MagicEnd].
    rewrite <- !app_assoc. reflexivity. }
  assert (L0 : length b0 = 4%nat) by apply le_bytes_length.
  assert (L1 : length b1 = 4%nat) by apply le_bytes_length.
  assert (L2 : length b2 = 4%nat) by apply le_bytes_length.
  assert (L3 : length b3 = 2%nat) by apply le_bytes_length.
  assert (L4 : length b4 = 2%nat) by apply le_bytes_length.
  assert (L5 : length b5 = 4%nat) by apply le_bytes_length.
  assert (L6 : length b6 = 4%nat) by apply le_bytes_length.
  assert (Lc : length c = 4%nat) by apply le_bytes_length.
  assert (Lm : length m = 4%nat) by apply le_bytes_length.
  assert (R0 : buf_read buf 0 4 = b0).
  { rewrite Ebuf. apply (buf_read_middle' [] b0); cbn [length]; lia. }
  assert (R1 : buf_read buf 4 4 = b1).
  { rewrite Ebuf. apply (buf_read_middle' b0 b1); lia. }
  assert (R2 : buf_read buf 8 4 = b2).
  { rewrite Ebuf. rewrite (app_assoc b0). apply (buf_read_middle' (b0 ++ b1) b2);
      rewrite ?length_app; lia. }
  assert (R3 : buf_read buf 12 2 = b3).
  { rewrite Ebuf. rewrite !(app_assoc _ _ (b3 ++ _)).
    apply (buf_read_middle' ((b0 ++ b1) ++ b2) b3); rewrite ?length_app; lia. }
  assert (R4 : buf_read buf 14 2 = b4).
  { rewrite Ebuf. rewrite !(app_assoc _ _ (b4 ++ _)).
    apply (buf_read_middle' (((b0 ++ b1) ++ b2) ++ b3) b4); rewrite ?length_app; lia. }
  assert (R5 : buf_read buf 16 4 = b5).
  { rewrite Ebuf. rewrite !(app_assoc _ _ (b5 ++ _)).
    apply (buf_read_middle' ((((b0 ++ b1) ++ b2) ++ b3) ++ b4) b5); rewrite ?length_app; lia. }
  assert (R6 : buf_read buf 20 4 = b6).
  { rewrite Ebuf. rewrite !(app_assoc _ _ (b6 ++ _)).
    apply (buf_read_middle' (((((b0 ++ b1) ++ b2) ++ b3) ++ b4) ++ b5) b6);
      rewrite ?length_app; lia. }
  assert (Rab : buf_read buf 4 cbHdrAb = hdr_ab h).
  { rewrite Ebuf. unfold hdr_ab. fold b1 b2 b3 b4 b5 b6.
    replace (b0 ++ b1 ++ b2 ++ b3 ++ b4 ++ b5 ++ b6 ++ p ++ c ++ m ++ rest)
      with (b0 ++ (b1 ++ b2 ++ b3 ++ b4 ++ b5 ++ b6) ++ (p ++ c ++ m ++ rest))
      by (rewrite <- !app_assoc; reflexivity).
    apply buf_read_middle'; unfold cbHdrAb; rewrite ?length_app; lia. }
  assert (Rp : buf_read buf cbPduHdr (cbPdu h) = p).
  { rewrite Ebuf.
    replace (b0 ++ b1 ++ b2 ++ b3 ++ b4 ++ b5 ++ b6 ++ p ++ c ++ m ++ rest)
      with ((b0 ++ b1 ++ b2 ++ b3 ++ b4 ++ b5 ++ b6) ++ p ++ (c ++ m ++ rest))
      by (rewrite <- !app_assoc; reflexivity).
    apply buf_read_middle'; unfold cbPduHdr; rewrite ?length_app; lia. }
  assert (Rc : buf_read buf (cbPduHdr + cbPdu h) 4 = c).
  { rewrite Ebuf.
    replace (b0 ++ b1 ++ b2 ++ b3 ++ b4 ++ b5 ++ b6 ++ p ++ c ++ m ++ rest)
      with ((b0 ++ b1 ++ b2 ++ b3 ++ b4 ++ b5 ++ b6 ++ p) ++ c ++ (m ++ rest))
      by (rewrite <- !app_assoc; reflexivity).
    apply buf_read_middle'; unfold cbPduHdr; rewrite ?length_app; lia. }
  assert (Rm : buf_read buf (cbPduHdr + cbPdu h + 4) 4 = m).
  { rewrite Ebuf.
    replace (b0 ++ b1 ++ b2 ++ b3 ++ b4 ++ b5 ++ b6 ++ p ++ c ++ m ++ rest)
      with ((b0 ++ b1 ++ b2 ++ b3 ++ b4 ++ b5 ++ b6 ++ p ++ c) ++ m ++ rest)
      by (rewrite <- !app_assoc; reflexivity).
    apply buf_read_middle'; unfold cbPduHdr; rewrite ?length_app; lia. }
  assert (Hhdr : hdr_at buf = h).
  { unfold hdr_at. rewrite R0, R1, R2, R3, R4, R5, R6. subst b0 b1 b2 b3 b4 b5 b6.
    rewrite signed32_le_bytes by assumption.
    rewrite !le_val_le_bytes_u32, !le_val_le_bytes_u16 by assumption.
    apply hdr_eta. }
  assert (Hfoot : footer_at buf = f).
  { unfold footer_at. rewrite Hhdr, Rc, Rm. subst c m.
    rewrite !le_val_le_bytes_u32 by assumption. reflexivity. }
  assert (Hsum : wrap32 (recv_chksum buf + u32ChkSum (footer_at buf)) = 0).
  { rewrite Hfoot. unfold recv_chksum. rewrite Hhdr, Rab, Rp. subst f. cbn [u32ChkSum].
    subst chk. cbn [sent_footer u32ChkSum]. apply chksum_of_cancels. }
  split; [exact Hhdr|]. split; [exact Rp|]. split; [exact Hfoot|]. split; [exact Hsum|].
  unfold pspStubPduValidate. cbv zeta. rewrite Hsum. rewrite Hfoot.
  cbn [Z.eqb negb orb u32MagicEnd f].
  subst f. cbn [u32MagicEnd].
  destruct (Z.eqb_spec M PSP_SERIAL_EXT_2_PSP_PDU_END_MAGIC) as [E|E]; cbn [negb].
  - split; [intros _; exact E|reflexivity].
  - split; [discriminate|contradiction].
Qed.

End Framing.

Section Corruption.
Context {C : ProtocolConsts}.

Lemma le_val_nonneg_bytes (bs : list Z) : Forall is_byte bs -> 0 <= le_val bs.
Proof.
  induction 1 as [|b bs Hb _ IH]; cbn [le_val]; [lia|]. unfold is_byte in Hb. lia.
Qed.

Lemma nth_byte (buf : list Z) (i : nat) : Forall is_byte buf -> is_byte (nth i buf 0).
Proof.
  intros Hb. destruct (nth_in_or_default i buf 0) as [Hin| ->].
  - rewrite Forall_forall in Hb. apply Hb, list_elem_of_In, Hin.
  - unfold is_byte. lia.
Qed.

Lemma wrap32_shift_nonzero (d : Z) (k : Z) :
  d <> 0 -> -256 < d < 256 -> 0 <= k < 4 -> wrap32 (d * 256 ^ k) <> 0.
Proof.
  intros Hd Hr Hk Hz. unfold wrap32 in Hz.
  apply Z.mod_divide in Hz; [|lia]. destruct Hz as [q Hq].
  assert (Hp : 0 < 256 ^ k) by (apply Z.pow_pos_nonneg; lia).
  assert (Hle : 256 ^ k <= 256 ^ 3) by (apply Z.pow_le_mono_r; lia).
  change (256 ^ 3) with 16777216 in Hle. change (2 ^ 32) with 4294967296 in Hq.
  assert (q = 0) by nia. subst q. nia.
Qed.

(** The checksum and the end magic catch every single-byte error behind the
    length field: in a buffer that holds a PDU [pspStubPduValidate] accepts,
    changing one byte of the counter, tag, unit, status or timestamp field,
    of the payload, of the checksum or of the end magic gives a buffer it
    rejects. *)
Theorem single_byte_error_is_rejected (buf : list Z) (i : nat) (b' : Z) :
  Forall is_byte buf ->
  pspStubPduValidate buf = 0 ->
  8 <= Z.of_nat i < cbPduHdr + cbPdu (hdr_at buf) + cbPduFooter ->
  (i < length buf)%nat ->
  is_byte b' -> buf !! i <> Some b' ->
  pspStubPduValidate (<[i := b']> buf) <> 0.
Proof.
  intros Hbytes Hok Hi Hlen Hb' Hne.
  set (b := nth i buf 0).
  assert (Hb : is_byte b) by apply nth_byte, Hbytes.
  assert (Hd : b' - b <> 0).
  { intros E. apply Hne. destruct (lookup_lt_is_Some_2 buf i Hlen) as [x Hx].
    rewrite Hx. f_equal. subst b. rewrite nth_lookup, Hx in E. cbn in E. lia. }
  unfold is_byte in Hb, Hb'.
  set (cb := cbPdu (hdr_at buf)) in *.
  assert (Hcb : 0 <= cb).
  { subst cb. cbn [hdr_at cbPdu]. apply le_val_nonneg_bytes. unfold buf_read.
    apply Forall_map, Forall_forall. intros k _. apply nth_byte, Hbytes. }
  assert (Hcb' : cbPdu (hdr_at (<[i := b']> buf)) = cb).
  { subst cb. cbn [hdr_at cbPdu]. rewrite buf_read_insert_out by lia. reflexivity. }
  apply pspStubPduValidate_ok in Hok. destruct Hok as (Hsum & Hmagic).
  rewrite pspStubPduValidate_ok. intros (Hsum' & Hmagic'). revert Hsum' Hmagic'.
  unfold footer_at. rewrite Hcb'. fold cb. cbn [u32ChkSum u32MagicEnd].
  unfold footer_at in Hsum, Hmagic. fold cb in Hsum, Hmagic.
  cbn [u32ChkSum u32MagicEnd] in Hsum, Hmagic.
  unfold cbPduHdr, cbPduFooter, cbHdrAb in *.
  destruct (Z_lt_ge_dec (Z.of_nat i) 24) as [Hhdr|Hge24].
  { (* header byte view *)
    destruct (buf_read_insert_in buf 4 20 i b') as (E & Ek); [lia|exact Hlen|].
    rewrite E, (byte_total_insert _ _ _ _ Ek).
    rewrite !buf_read_insert_out by lia. fold b.
    intros Hsum' _. apply (wrap32_shift_nonzero (b' - b) 0 Hd); [lia|lia|].
    rewrite Z.pow_0_r, Z.mul_1_r.
    match type of Hsum with wrap32 ?X = 0 =>
      transitivity (wrap32 (wrap32 X + (b' - b))); [rewrite Hsum; f_equal; lia|] end.
    rewrite wrap32_add_l, <- Hsum'. f_equal. lia. }
  destruct (Z_lt_ge_dec (Z.of_nat i) (24 + cb)) as [Hpay|Hgep].
  { (* payload *)
    destruct (buf_read_insert_in buf 24 cb i b') as (E & Ek); [lia|exact Hlen|].
    rewrite E, (byte_total_insert _ _ _ _ Ek).
    rewrite !buf_read_insert_out by lia. fold b.
    intros Hsum' _. apply (wrap32_shift_nonzero (b' - b) 0 Hd); [lia|lia|].
    rewrite Z.pow_0_r, Z.mul_1_r.
    match type of Hsum with wrap32 ?X = 0 =>
      transitivity (wrap32 (wrap32 X + (b' - b))); [rewrite Hsum; f_equal; lia|] end.
    rewrite wrap32_add_l, <- Hsum'. f_equal. lia. }
  destruct (Z_lt_ge_dec (Z.of_nat i) (24 + cb + 4)) as [Hchk|Hgec].
  { (* checksum *)
    destruct (buf_read_insert_in buf (24 + cb) 4 i b') as (E & Ek); [lia|exact Hlen|].
    rewrite E, (le_val_insert _ _ _ _ Ek).
    rewrite !buf_read_insert_out by lia. fold b.
    intros Hsum' _.
    apply (wrap32_shift_nonzero (b' - b) (Z.of_nat (i - Z.to_nat (24 + cb))) Hd); [lia|lia|].
    match type of Hsum with wrap32 ?X = 0 =>
      match goal with |- wrap32 ?D = 0 =>
        transitivity (wrap32 (wrap32 X + D)); [rewrite Hsum; f_equal; lia|] end end.
    rewrite wrap32_add_l, <- Hsum'. f_equal. lia. }
  { (* end magic *)
    destruct (buf_read_insert_in buf (24 + cb + 4) 4 i b') as (E & Ek); [lia|exact Hlen|].
    rewrite E, (le_val_insert _ _ _ _ Ek). fold b.
    intros _ Hmagic'. rewrite Hmagic in Hmagic'.
    assert (Hp : 0 < 256 ^ Z.of_nat (i - Z.to_nat (24 + cb + 4)))
      by (apply Z.pow_pos_nonneg; lia).
    nia. }
Qed.

End Corruption.

(** ** Windows taken for a transfer *)

Section Leases.
Context {C : ProtocolConsts}.

Lemma x86_kept_refl s : x86_kept s s.
Proof. reflexivity. Qed.
Lemma x86_kept_trans s1 s2 s3 : x86_kept s1 s2 -> x86_kept s2 s3 -> x86_kept s1 s3.
Proof. unfold x86_kept. congruence. Qed.
Lemma smn_kept_refl s : smn_kept s s.
Proof. reflexivity. Qed.
Lemma smn_kept_trans s1 s2 s3 : smn_kept s1 s2 -> smn_kept s2 s3 -> smn_kept s1 s3.
Proof. unfold smn_kept. congruence. Qed.

Lemma pspStubPduSend_x86_kept rc id tag pv cb : st_frames x86_kept (pspStubPduSend rc id tag pv cb).
Proof. intros s. destruct (pspStubPduSend_frame rc id tag pv cb s) as (H & _). exact H. Qed.

Lemma pspStubPduSend_smn_kept rc id tag pv cb : st_frames smn_kept (pspStubPduSend rc id tag pv cb).
Proof. intros s. destruct (pspStubPduSend_frame rc id tag pv cb s) as (_ & H & _). exact H. Qed.

Lemma memcpy_to_mem_x86_kept pv buf off cb : st_frames x86_kept (memcpy_to_mem pv buf off cb).
Proof. intros s. reflexivity. Qed.
Lemma memcpy_to_mem_smn_kept pv buf off cb : st_frames smn_kept (memcpy_to_mem pv buf off cb).
Proof. intros s. reflexivity. Qed.

Lemma mmio_store_x86_kept pv buf off cb :
  st_frames x86_kept (pspStubMmioAccess_store pv buf off cb).
Proof. intros s. unfold pspStubMmioAccess_store. destruct (mmio_width cb); reflexivity. Qed.
Lemma mmio_store_smn_kept pv buf off cb :
  st_frames smn_kept (pspStubMmioAccess_store pv buf off cb).
Proof. intros s. unfold pspStubMmioAccess_store. destruct (mmio_width cb); reflexivity. Qed.
Lemma mmio_load_x86_kept pv cb : st_frames x86_kept (pspStubMmioAccess_load pv cb).
Proof. intros s. unfold pspStubMmioAccess_load. destruct (mmio_width cb); reflexivity. Qed.
Lemma mmio_load_smn_kept pv cb : st_frames smn_kept (pspStubMmioAccess_load pv cb).
Proof. intros s. unfold pspStubMmioAccess_load. destruct (mmio_width cb); reflexivity. Qed.

Lemma store32_x86_kept a v : st_frames x86_kept (store32 a v).
Proof. intros s. reflexivity. Qed.
Lemma store32_smn_kept a v : st_frames smn_kept (store32 a v).
Proof. intros s. reflexivity. Qed.
Lemma load32_x86_kept a : st_frames x86_kept (load32 a).
Proof. intros s. reflexivity. Qed.
Lemma load32_smn_kept a : st_frames smn_kept (load32 a).
Proof. intros s. reflexivity. Qed.
Lemma upd_x86_slot_smn_kept i f : st_frames smn_kept (upd_x86_slot i f).
Proof. intros s. reflexivity. Qed.
Lemma upd_smn_slot_x86_kept i f : st_frames x86_kept (upd_smn_slot i f).
Proof. intros s. reflexivity. Qed.

(** The x86 allocator does not touch the SMN table, nor the SMN allocator
    the x86 table. *)
Lemma pspStubX86PhysMap_smn_kept a f : st_frames smn_kept (pspStubX86PhysMap a f).
Proof.
  pose proof smn_kept_refl as Hr. pose proof smn_kept_trans as Ht.
  pose proof upd_x86_slot_smn_kept as H1. pose proof store32_smn_kept as H2.
  unfold pspStubX86PhysMap, x86_program_slot. cbv zeta. frames_walk Hr Ht.
Qed.

Lemma pspStubX86PhysUnmapByPtr_smn_kept pv : st_frames smn_kept (pspStubX86PhysUnmapByPtr pv).
Proof.
  pose proof smn_kept_refl as Hr. pose proof smn_kept_trans as Ht.
  pose proof upd_x86_slot_smn_kept as H1. pose proof store32_smn_kept as H2.
  unfold pspStubX86PhysUnmapByPtr, x86_clear_slot. cbv zeta. frames_walk Hr Ht.
Qed.

Lemma pspStubSmnPhysMap_x86_kept a : st_frames x86_kept (pspStubSmnPhysMap a).
Proof.
  pose proof x86_kept_refl as Hr. pose proof x86_kept_trans as Ht.
  pose proof upd_smn_slot_x86_kept as H1. pose proof store32_x86_kept as H2.
  pose proof load32_x86_kept as H3.
  unfold pspStubSmnPhysMap. cbv zeta. frames_walk Hr Ht.
Qed.

Lemma pspStubSmnUnmapByPtr_x86_kept pv : st_frames x86_kept (pspStubSmnUnmapByPtr pv).
Proof.
  pose proof x86_kept_refl as Hr. pose proof x86_kept_trans as Ht.
  pose proof upd_smn_slot_x86_kept as H1. pose proof store32_x86_kept as H2.
  pose proof load32_x86_kept as H3.
  unfold pspStubSmnUnmapByPtr. cbv zeta. frames_walk Hr Ht.
Qed.

Lemma pspStubX86PhysUnmapByPtr_null (s : Sys) :
  pspStubX86PhysUnmapByPtr 0 s = (ERR_INVALID_PARAMETER, s).
Proof. reflexivity. Qed.

Lemma pspStubSmnUnmapByPtr_null (s : Sys) :
  pspStubSmnUnmapByPtr 0 s = (ERR_INVALID_PARAMETER, s).
Proof. reflexivity. Qed.

(** A transfer through an x86 window: map, access and send, unmap. *)
Lemma x86_transfer_returns_window (s : Sys) (addr : Z) (mid : Z -> St Z) (fail : Z -> St Z) :
  length (aX86MapSlots (stub s)) = 15%nat ->
  Forall x86_slot_wf (aX86MapSlots (stub s)) ->
  Forall (fun m => cRefs m < 2 ^ 32 - 1) (aX86MapSlots (stub s)) ->
  align_mask addr _64M <> NIL_X86PADDR ->
  (forall pvMap, st_frames x86_kept (mid pvMap)) ->
  (forall rc, st_frames x86_kept (fail rc)) ->
  x86_kept s
    (snd ((let* (rc, ppv) := pspStubX86PhysMap addr false in
           let pvMap := default 0 ppv in
           if rc =? 0 then
             let* rc := mid pvMap in
             let* _ := pspStubX86PhysUnmapByPtr pvMap in
             ret rc
           else fail rc) s)).
Proof.
  intros Hlen Hwf Hroom Hbase Hmid Hfail. unfold bind at 1.
  destruct (x86_find_slot (align_mask addr _64M) 4 0 (aX86MapSlots (stub s)))
    as [[idx m]|] eqn:Hfind.
  - pose proof (pspStubX86PhysMap_found s addr false idx m Hfind) as (Hres & _).
    pose proof (fun s2 pv => x86_map_then_unmap s s2 addr false pv Hlen Hwf Hroom Hbase) as Hmu.
    cbv zeta in Hres, Hmu.
    destruct (pspStubX86PhysMap addr false s) as [[rc ppv] s1]. cbn [fst snd] in *.
    injection Hres as -> ->. cbn [Z.eqb INF_SUCCESS default from_option].
    unfold bind. specialize (Hmid (wrap32 (67108864 + Z.of_nat idx * _64M
                                             + wrap32 (addr - align_mask addr _64M))) s1).
    destruct (mid _ s1) as [rc2 s2]. cbn [fst snd] in *.
    destruct (Hmu s2 _ eq_refl Hmid) as (_ & Htab).
    destruct (pspStubX86PhysUnmapByPtr _ s2) as [rc3 s3]. cbn [fst snd ret] in *. exact Htab.
  - assert (Hmap : pspStubX86PhysMap addr false s = ((ERR_INVALID_STATE, None), s)).
    { unfold pspStubX86PhysMap, bind, gets. cbn [fst snd]. rewrite Hfind. reflexivity. }
    rewrite Hmap. cbn [default from_option].
    destruct (ERR_INVALID_STATE =? 0); [|apply Hfail].
    unfold bind. specialize (Hmid 0 s). destruct (mid 0 s) as [rc2 s2]. cbn [fst snd] in *.
    rewrite pspStubX86PhysUnmapByPtr_null. cbn [fst snd ret]. exact Hmid.
Qed.

Lemma smn_transfer_returns_window (s : Sys) (addr : Z) (mid : Z -> St Z) (fail : Z -> St Z) :
  0 <= addr < 2 ^ 32 ->
  length (aSmnMapSlots (stub s)) = 32%nat ->
  Forall smn_slot_wf (aSmnMapSlots (stub s)) ->
  (forall pvMap, st_frames smn_kept (mid pvMap)) ->
  (forall rc, st_frames smn_kept (fail rc)) ->
  smn_kept s
    (snd ((let* (rc, ppv) := pspStubSmnPhysMap addr in
           let pvMap := default 0 ppv in
           if rc =? 0 then
             let* rc := mid pvMap in
             let* _ := pspStubSmnUnmapByPtr pvMap in
             ret rc
           else fail rc) s)).
Proof.
  intros Haddr Hlen Hwf Hmid Hfail. unfold bind at 1.
  destruct (smn_find_slot (wrap32 (align_mask addr _1M)) 0 (aSmnMapSlots (stub s)))
    as [[idx m]|] eqn:Hfind.
  - pose proof (pspStubSmnPhysMap_found s addr idx m Hfind) as (Hres & _).
    pose proof (fun s2 pv => smn_map_then_unmap s s2 addr pv Haddr Hlen Hwf) as Hmu.
    cbv zeta in Hres, Hmu.
    destruct (pspStubSmnPhysMap addr s) as [[rc ppv] s1]. cbn [fst snd] in *.
    injection Hres as -> ->. cbn [Z.eqb INF_SUCCESS default from_option].
    unfold bind. specialize (Hmid (wrap32 (16777216 + Z.of_nat idx * _1M
                                             + wrap32 (addr - wrap32 (align_mask addr _1M)))) s1).
    destruct (mid _ s1) as [rc2 s2]. cbn [fst snd] in *.
    destruct (Hmu s2 _ eq_refl Hmid) as (_ & Htab).
    destruct (pspStubSmnUnmapByPtr _ s2) as [rc3 s3]. cbn [fst snd ret] in *. exact Htab.
  - assert (Hmap : pspStubSmnPhysMap addr s = ((ERR_INVALID_STATE, None), s)).
    { unfold pspStubSmnPhysMap, bind, gets. cbn [fst snd]. rewrite Hfind. reflexivity. }
    rewrite Hmap. cbn [default from_option].
    destruct (ERR_INVALID_STATE =? 0); [|apply Hfail].
    unfold bind. specialize (Hmid 0 s). destruct (mid 0 s) as [rc2 s2]. cbn [fst snd] in *.
    rewrite pspStubSmnUnmapByPtr_null. cbn [fst snd ret]. exact Hmid.
Qed.

Lemma x86_mem_xfer_x86_kept (s : Sys) (pv cb : Z) (fWrite : bool) :
  length (aX86MapSlots (stub s)) = 15%nat ->
  Forall x86_slot_wf (aX86MapSlots (stub s)) ->
  Forall (fun m => cRefs m < 2 ^ 32 - 1) (aX86MapSlots (stub s)) ->
  align_mask (req_addr (abPdu (stub s)) pv) _64M <> NIL_X86PADDR ->
  x86_kept s (snd (pspStubPduProcessPspX86MemXfer pv cb fWrite s)).
Proof.
  intros Hlen Hwf Hroom Hbase. unfold pspStubPduProcessPspX86MemXfer.
  destruct (cb <? cbXferReq); [reflexivity|].
  unfold bind at 1, gets at 1. cbn [fst snd]. cbv zeta.
  apply (x86_transfer_returns_window s (req_addr (abPdu (stub s)) pv)
           (fun pvMap =>
              if fWrite then
                memcpy_to_mem pvMap (abPdu (stub s)) (pv + cbXferReq)
                  (req_cbXfer (abPdu (stub s)) pv) ;;
                pspStubPduSend INF_SUCCESS 0
                  (if fWrite then PSPSERIALPDURRNID_RESPONSE_PSP_X86_MEM_WRITE
                   else PSPSERIALPDURRNID_RESPONSE_PSP_X86_MEM_READ) NULL 0
              else pspStubPduSend INF_SUCCESS 0
                     (if fWrite then PSPSERIALPDURRNID_RESPONSE_PSP_X86_MEM_WRITE
                      else PSPSERIALPDURRNID_RESPONSE_PSP_X86_MEM_READ)
                     (AtAddr pvMap) (req_cbXfer (abPdu (stub s)) pv))
           (fun rc => pspStubPduSend rc 0
                        (if fWrite then PSPSERIALPDURRNID_RESPONSE_PSP_X86_MEM_WRITE
                         else PSPSERIALPDURRNID_RESPONSE_PSP_X86_MEM_READ) NULL 0)
           Hlen Hwf Hroom Hbase).
  - intros pvMap. destruct fWrite; [|apply pspStubPduSend_x86_kept].
    apply (st_frames_bind _ x86_kept_trans); [apply memcpy_to_mem_x86_kept|].
    intros _. apply pspStubPduSend_x86_kept.
  - intros rc. apply pspStubPduSend_x86_kept.
Qed.

Lemma x86_mmio_xfer_x86_kept (s : Sys) (pv cb : Z) (fWrite : bool) :
  length (aX86MapSlots (stub s)) = 15%nat ->
  Forall x86_slot_wf (aX86MapSlots (stub s)) ->
  Forall (fun m => cRefs m < 2 ^ 32 - 1) (aX86MapSlots (stub s)) ->
  align_mask (req_addr (abPdu (stub s)) pv) _64M <> NIL_X86PADDR ->
  x86_kept s (snd (pspStubPduProcessPspX86MmioXfer pv cb fWrite s)).
Proof.
  intros Hlen Hwf Hroom Hbase. unfold pspStubPduProcessPspX86MmioXfer.
  unfold bind at 1, gets at 1. cbn [fst snd].
  destruct (_ || _); [reflexivity|]. cbv zeta.
  apply (x86_transfer_returns_window s (req_addr (abPdu (stub s)) pv)
           (fun pvMap =>
              if fWrite then
                pspStubMmioAccess_store pvMap (abPdu (stub s)) (pv + cbXferReq)
                  (req_cbXfer (abPdu (stub s)) pv) ;;
                pspStubPduSend INF_SUCCESS 0
                  (if fWrite then PSPSERIALPDURRNID_RESPONSE_PSP_X86_MMIO_WRITE
                   else PSPSERIALPDURRNID_RESPONSE_PSP_X86_MMIO_READ) NULL 0
              else
                let* abRead := pspStubMmioAccess_load pvMap (req_cbXfer (abPdu (stub s)) pv) in
                pspStubPduSend INF_SUCCESS 0
                  (if fWrite then PSPSERIALPDURRNID_RESPONSE_PSP_X86_MMIO_WRITE
                   else PSPSERIALPDURRNID_RESPONSE_PSP_X86_MMIO_READ)
                  (InBuf abRead) (req_cbXfer (abPdu (stub s)) pv))
           (fun rc => pspStubPduSend rc 0
                        (if fWrite then PSPSERIALPDURRNID_RESPONSE_PSP_X86_MMIO_WRITE
                         else PSPSERIALPDURRNID_RESPONSE_PSP_X86_MMIO_READ) NULL 0)
           Hlen Hwf Hroom Hbase).
  - intros pvMap. destruct fWrite.
    + apply (st_frames_bind _ x86_kept_trans); [apply mmio_store_x86_kept|].
      intros _. apply pspStubPduSend_x86_kept.
    + apply (st_frames_bind _ x86_kept_trans); [apply mmio_load_x86_kept|].
      intros ?. apply pspStubPduSend_x86_kept.
  - intros rc. apply pspStubPduSend_x86_kept.
Qed.

Lemma smn_xfer_smn_kept (s : Sys) (pv cb : Z) (fWrite : bool) :
  length (aSmnMapSlots (stub s)) = 32%nat ->
  Forall smn_slot_wf (aSmnMapSlots (stub s)) ->
  smn_kept s (snd (pspStubPduProcessPspSmnXfer pv cb fWrite s)).
Proof.
  intros Hlen Hwf. unfold pspStubPduProcessPspSmnXfer.
  unfold bind at 1, gets at 1. cbn [fst snd].
  destruct (_ || _); [reflexivity|]. cbv zeta.
  apply (smn_transfer_returns_window s (wrap32 (req_addr (abPdu (stub s)) pv))
           (fun pvMap =>
              if fWrite then
                pspStubMmioAccess_store pvMap (abPdu (stub s)) (pv + cbXferReq)
                  (req_cbXfer (abPdu (stub s)) pv) ;;
                pspStubPduSend INF_SUCCESS 0
                  (if fWrite then PSPSERIALPDURRNID_RESPONSE_PSP_SMN_WRITE
                   else PSPSERIALPDURRNID_RESPONSE_PSP_SMN_READ) NULL 0
              else
                let* abRead := pspStubMmioAccess_load pvMap (req_cbXfer (abPdu (stub s)) pv) in
                pspStubPduSend INF_SUCCESS 0
                  (if fWrite then PSPSERIALPDURRNID_RESPONSE_PSP_SMN_WRITE
                   else PSPSERIALPDURRNID_RESPONSE_PSP_SMN_READ)
                  (InBuf abRead) (req_cbXfer (abPdu (stub s)) pv))
           (fun rc => pspStubPduSend rc 0
                        (if fWrite then PSPSERIALPDURRNID_RESPONSE_PSP_SMN_WRITE
                         else PSPSERIALPDURRNID_RESPONSE_PSP_SMN_READ) NULL 0)
           (wrap32_range _) Hlen Hwf).
  - intros pvMap. destruct fWrite.
    + apply (st_frames_bind _ smn_kept_trans); [apply mmio_store_smn_kept|].
      intros _. apply pspStubPduSend_smn_kept.
    + apply (st_frames_bind _ smn_kept_trans); [apply mmio_load_smn_kept|].
      intros ?. apply pspStubPduSend_smn_kept.
  - intros rc. apply pspStubPduSend_smn_kept.
Qed.

(** The handlers that take no window of a table leave the table alone. *)
Lemma other_handlers_x86_kept pv cb fWrite :
  st_frames x86_kept (pspStubPduProcessPspMemXfer pv cb fWrite)
  /\ st_frames x86_kept (pspStubPduProcessPspMmioXfer pv cb fWrite)
  /\ st_frames x86_kept (pspStubPduProcessPspSmnXfer pv cb fWrite).
Proof.
  pose proof x86_kept_refl as Hr. pose proof x86_kept_trans as Ht.
  pose proof pspStubPduSend_x86_kept as H1. pose proof memcpy_to_mem_x86_kept as H2.
  pose proof mmio_store_x86_kept as H3. pose proof mmio_load_x86_kept as H4.
  pose proof pspStubSmnPhysMap_x86_kept as H5. pose proof pspStubSmnUnmapByPtr_x86_kept as H6.
  unfold pspStubPduProcessPspMemXfer, pspStubPduProcessPspMmioXfer, pspStubPduProcessPspSmnXfer.
  cbv zeta. repeat split; frames_walk Hr Ht.
Qed.

Lemma other_handlers_smn_kept pv cb fWrite :
  st_frames smn_kept (pspStubPduProcessPspMemXfer pv cb fWrite)
  /\ st_frames smn_kept (pspStubPduProcessPspMmioXfer pv cb fWrite)
  /\ st_frames smn_kept (pspStubPduProcessPspX86MemXfer pv cb fWrite)
  /\ st_frames smn_kept (pspStubPduProcessPspX86MmioXfer pv cb fWrite).
Proof.
  pose proof smn_kept_refl as Hr. pose proof smn_kept_trans as Ht.
  pose proof pspStubPduSend_smn_kept as H1. pose proof memcpy_to_mem_smn_kept as H2.
  pose proof mmio_store_smn_kept as H3. pose proof mmio_load_smn_kept as H4.
  pose proof pspStubX86PhysMap_smn_kept as H5. pose proof pspStubX86PhysUnmapByPtr_smn_kept as H6.
  unfold pspStubPduProcessPspMemXfer, pspStubPduProcessPspMmioXfer,
    pspStubPduProcessPspX86MemXfer, pspStubPduProcessPspX86MmioXfer.
  cbv zeta. repeat split; frames_walk Hr Ht.
Qed.

(** [pspStubPduProcess], handler by handler. *)
Lemma pspStubPduProcess_cases (P : Z * Sys -> Prop) (s : Sys) :
  let cb := cbPdu (hdr_at (abPdu (stub s))) in
  (forall w, P (pspStubPduProcessPspMemXfer cbPduHdr cb w s)) ->
  (forall w, P (pspStubPduProcessPspMmioXfer cbPduHdr cb w s)) ->
  (forall w, P (pspStubPduProcessPspSmnXfer cbPduHdr cb w s)) ->
  (forall w, P (pspStubPduProcessPspX86MemXfer cbPduHdr cb w s)) ->
  (forall w, P (pspStubPduProcessPspX86MmioXfer cbPduHdr cb w s)) ->
  P (INF_SUCCESS, s) ->
  P (pspStubPduProcess s).
Proof.
  intros cb H1 H2 H3 H4 H5 H0. unfold pspStubPduProcess, bind, gets. cbn [fst snd]. cbv zeta.
  fold cb.
  repeat match goal with
    | |- P ((if ?b then _ else _) s) => destruct b
    end;
    match goal with
    | |- P (pspStubPduProcessPspMemXfer _ _ _ _) => apply H1
    | |- P (pspStubPduProcessPspMmioXfer _ _ _ _) => apply H2
    | |- P (pspStubPduProcessPspSmnXfer _ _ _ _) => apply H3
    | |- P (pspStubPduProcessPspX86MemXfer _ _ _ _) => apply H4
    | |- P (pspStubPduProcessPspX86MmioXfer _ _ _ _) => apply H5
    | |- P (ret _ _) => exact H0
    end.
Qed.

(** Every window taken is returned.  Whatever the request and however the
    transfer and the send go, as long as the transfer does not stray (a
    write request is free to aim at the tables in [g_StubState]),
    [pspStubPduProcess] leaves both mapping tables exactly as it found them;
    and so does a map followed by the unmap of the pointer it handed out. *)
Theorem request_returns_every_window (s : Sys) :
  length (aX86MapSlots (stub s)) = 15%nat ->
  Forall x86_slot_wf (aX86MapSlots (stub s)) ->
  Forall (fun m => cRefs m < 2 ^ 32 - 1) (aX86MapSlots (stub s)) ->
  align_mask (req_addr (abPdu (stub s)) cbPduHdr) _64M <> NIL_X86PADDR ->
  length (aSmnMapSlots (stub s)) = 32%nat ->
  Forall smn_slot_wf (aSmnMapSlots (stub s)) ->
  (intact (snd (pspStubPduProcess s)) ->
   aX86MapSlots (stub (snd (pspStubPduProcess s))) = aX86MapSlots (stub s)
   /\ aSmnMapSlots (stub (snd (pspStubPduProcess s))) = aSmnMapSlots (stub s))
  /\ (forall (fMmio : bool) (pv : Z),
        let r := pspStubX86PhysMap (req_addr (abPdu (stub s)) cbPduHdr) fMmio s in
        snd (fst r) = Some pv ->
        fst (pspStubX86PhysUnmapByPtr pv (snd r)) = INF_SUCCESS
        /\ aX86MapSlots (stub (snd (pspStubX86PhysUnmapByPtr pv (snd r))))
           = aX86MapSlots (stub s))
  /\ (forall (SmnAddr pv : Z),
        let r := pspStubSmnPhysMap SmnAddr s in
        0 <= SmnAddr < 2 ^ 32 ->
        snd (fst r) = Some pv ->
        fst (pspStubSmnUnmapByPtr pv (snd r)) = INF_SUCCESS
        /\ aSmnMapSlots (stub (snd (pspStubSmnUnmapByPtr pv (snd r))))
           = aSmnMapSlots (stub s)).
Proof.
  intros Hlen Hwf Hroom Hbase Hlen' Hwf'.
  split; [|split].
  - intros _.
    apply (pspStubPduProcess_cases
             (fun r => aX86MapSlots (stub (snd r)) = aX86MapSlots (stub s)
                       /\ aSmnMapSlots (stub (snd r)) = aSmnMapSlots (stub s))).
    + intros w. destruct (other_handlers_x86_kept cbPduHdr (cbPdu (hdr_at (abPdu (stub s)))) w)
        as (A & _). destruct (other_handlers_smn_kept cbPduHdr (cbPdu (hdr_at (abPdu (stub s)))) w)
        as (B & _). split; [exact (A s)|exact (B s)].
    + intros w. destruct (other_handlers_x86_kept cbPduHdr (cbPdu (hdr_at (abPdu (stub s)))) w)
        as (_ & A & _).
      destruct (other_handlers_smn_kept cbPduHdr (cbPdu (hdr_at (abPdu (stub s)))) w)
        as (_ & B & _). split; [exact (A s)|exact (B s)].
    + intros w. destruct (other_handlers_x86_kept cbPduHdr (cbPdu (hdr_at (abPdu (stub s)))) w)
        as (_ & _ & A). split; [exact (A s)|].
      apply (smn_xfer_smn_kept s cbPduHdr); assumption.
    + intros w. destruct (other_handlers_smn_kept cbPduHdr (cbPdu (hdr_at (abPdu (stub s)))) w)
        as (_ & _ & B & _). split; [|exact (B s)].
      apply (x86_mem_xfer_x86_kept s cbPduHdr); assumption.
    + intros w. destruct (other_handlers_smn_kept cbPduHdr (cbPdu (hdr_at (abPdu (stub s)))) w)
        as (_ & _ & _ & B). split; [|exact (B s)].
      apply (x86_mmio_xfer_x86_kept s cbPduHdr); assumption.
    + split; reflexivity.
  - intros fMmio pv r Hpv. subst r.
    exact (x86_map_then_unmap s _ _ fMmio pv Hlen Hwf Hroom Hbase Hpv eq_refl).
  - intros SmnAddr pv r Haddr Hpv. subst r.
    exact (smn_map_then_unmap s _ SmnAddr pv Haddr Hlen' Hwf' Hpv eq_refl).
Qed.

End Leases.

(** ** Local memory transfers and the start of [main] *)

Section MemoryRoundTrip.
Context {C : ProtocolConsts}.

Lemma mem_write_below (bs : list Z) : forall (m : gmap Z Z) (a k : Z),
  k < a -> mem_write m a bs !! k = m !! k.
Proof.
  induction bs as [|b bs IH]; intros m a k Hk; cbn [mem_write]; [reflexivity|].
  rewrite IH by lia. apply lookup_insert_ne. lia.
Qed.

(** What was copied into the local address space reads back. *)
Lemma mem_read_write (bs : list Z) : forall (m : gmap Z Z) (a : Z),
  mem_read (mem_write m a bs) a (Z.of_nat (length bs)) = bs.
Proof.
  unfold mem_read.
  induction bs as [|b bs IH]; intros m a; [reflexivity|].
  rewrite Nat2Z.id. cbn [length seq map mem_write].
  rewrite Z.add_0_r, mem_write_below, lookup_insert_eq by lia. cbn [default from_option].
  f_equal. rewrite <- seq_shift, map_map.
  specialize (IH (<[a := b]> m) (a + 1)). rewrite Nat2Z.id in IH.
  rewrite <- IH at 2. apply map_ext. intros i.
  replace (a + Z.of_nat (S i)) with (a + 1 + Z.of_nat i) by lia. reflexivity.
Qed.

Lemma pspStubPduSend_mem rc id tag pv cb (s : Sys) :
  mem (hw (snd (pspStubPduSend rc id tag pv cb s))) = mem (hw s).
Proof. destruct (pspStubPduSend_frame rc id tag pv cb s) as (_&_&_&_&_&_&_&_&_&_&_&_&_&H&_). exact H. Qed.

(** A PSP memory write followed by a PSP memory read of the same range.
    As long as the write does not stray -- its bytes lie inside [abPdu] and
    its destination is clear of the stub itself -- the read response is built
    over the bytes the write request brought: they are the payload the
    checksum runs over and the payload handed to the UART (which
    [pspStubPduSend] leaves out when the address is 0 or the length is 0).
    The state in between may differ in anything but the local address space,
    which the receive path does not touch. *)
Theorem psp_mem_read_returns_what_was_written (s s2 : Sys) (pv cb pv' cb' : Z) :
  let a := wrap32 (req_addr (abPdu (stub s)) pv) in
  let n := req_cbXfer (abPdu (stub s)) pv in
  let data := req_data (abPdu (stub s)) pv n in
  length (abPdu (stub s)) = Z.to_nat cbAbPdu -> 0 <= pv ->
  cbXferReq <= cb -> cbXferReq <= cb' -> 0 <= n ->
  intact (snd (pspStubPduProcessPspMemXfer pv cb true s)) ->
  mem (hw s2) = mem (hw (snd (pspStubPduProcessPspMemXfer pv cb true s))) ->
  wrap32 (req_addr (abPdu (stub s2)) pv') = a ->
  req_cbXfer (abPdu (stub s2)) pv' = n ->
  data = take (Z.to_nat n) (drop (Z.to_nat (pv + cbXferReq)) (abPdu (stub s)))
  /\ Z.of_nat (length data) = n
  /\ exists ts : Z,
       let h := sent_hdr INF_SUCCESS 0 PSPSERIALPDURRNID_RESPONSE_PSP_MEM_READ n
                  (wrap32 (cPdusSent (stub s2) + 1)) ts in
       uart_tx (hw (snd (pspStubPduProcessPspMemXfer pv' cb' false s2)))
       = uart_tx (hw s2)
         ++ xmit_writes (uart_wr_rcs (hw s2)) (AtAddr a) n (h, data, sent_footer h data).
Proof.
  intros a n data Hbuf Hpv Hcb Hcb' Hn Hin Hmem Ha Hn'.
  assert (Hlen : n = Z.of_nat (length data)).
  { subst data. unfold req_data. rewrite buf_read_length. lia. }
  split; [|split; [symmetry; exact Hlen|]].
  { unfold intact in Hin.
    rewrite (pspStubPduProcessPspMemXfer_write_strayed s pv cb Hcb) in Hin.
    fold a n in Hin. apply orb_false_iff in Hin as [_ Hin].
    subst data. unfold req_data.
    destruct (Z.ltb_spec 0 n) as [Hpos|Hzero].
    - cbn [andb] in Hin. apply orb_false_iff in Hin as [_ Hover].
      unfold copy_overruns in Hover. apply Z.ltb_ge in Hover.
      apply buf_read_take_drop. rewrite Hbuf. unfold cbXferReq in *. lia.
    - assert (n = 0) as -> by lia. reflexivity. }
  assert (Hw : mem (hw (snd (pspStubPduProcessPspMemXfer pv cb true s)))
               = mem_write (mem (hw s)) a data).
  { unfold pspStubPduProcessPspMemXfer.
    assert (E : (cb <? cbXferReq) = false) by (apply Z.ltb_ge; exact Hcb). rewrite E.
    unfold bind, gets, memcpy_to_mem, modifyw. cbn [fst snd].
    rewrite pspStubPduSend_mem. reflexivity. }
  unfold pspStubPduProcessPspMemXfer.
  assert (E : (cb' <? cbXferReq) = false) by (apply Z.ltb_ge; exact Hcb'). rewrite E.
  unfold bind, gets. cbn [fst snd]. rewrite Ha, Hn'.
  destruct (pspStubPduSend_spec INF_SUCCESS 0 PSPSERIALPDURRNID_RESPONSE_PSP_MEM_READ
              (AtAddr a) n s2) as (ts & T & _ & Htx & _).
  cbn zeta in Htx. exists ts. cbn zeta. rewrite Htx.
  assert (Hp : payload_bytes (hw s2) (AtAddr a) n = data).
  { unfold payload_bytes. rewrite Hmem, Hw.
    pose proof (mem_read_write data (mem (hw s)) a) as X. rewrite <- Hlen in X. exact X. }
  rewrite Hp. reflexivity.
Qed.

End MemoryRoundTrip.

Section MainInit.
Context {C : ProtocolConsts}.


Lemma init_rcs_kept_refl s : init_rcs_kept s s.
Proof. repeat split. Qed.

Lemma init_rcs_kept_trans s1 s2 s3 :
  init_rcs_kept s1 s2 -> init_rcs_kept s2 s3 -> init_rcs_kept s1 s3.
Proof. unfold init_rcs_kept. intros (?&?&?&?&?&?) (?&?&?&?&?&?). repeat split; congruence. Qed.

Lemma store32_init_kept a v : st_frames init_rcs_kept (store32 a v).
Proof. intros s. repeat split. Qed.

Lemma upd_x86_slot_init_kept i f : st_frames init_rcs_kept (upd_x86_slot i f).
Proof. intros s. repeat split. Qed.

Lemma pspStubX86PhysMap_init_kept a f : st_frames init_rcs_kept (pspStubX86PhysMap a f).
Proof.
  pose proof init_rcs_kept_refl as Hr. pose proof init_rcs_kept_trans as Ht.
  pose proof store32_init_kept as H1. pose proof upd_x86_slot_init_kept as H2.
  unfold pspStubX86PhysMap, x86_program_slot. cbv zeta. frames_walk Hr Ht.
Qed.

Lemma pspStubTimerInit_init_kept : st_frames init_rcs_kept pspStubTimerInit.
Proof.
  pose proof init_rcs_kept_refl as Hr. pose proof init_rcs_kept_trans as Ht.
  pose proof store32_init_kept as H1.
  unfold pspStubTimerInit. frames_walk Hr Ht. intros s. repeat split.
Qed.

Lemma pspStubTimerInit_rc (s : Sys) : fst (pspStubTimerInit s) = rc_TMInit (hw s).
Proof.
  unfold pspStubTimerInit, bind, getw. cbn [fst snd].
  destruct (rc_TMInit (hw s) =? 0) eqn:E; [|reflexivity].
  unfold modify, store32, modifyw, ret. cbn [fst snd]. reflexivity.
Qed.

(** When one of the initialisers fails, [main] does not enter the main
    loop: it writes nothing to the UART, stays unconnected and spins
    forever. *)
Theorem main_spins_silently_when_init_fails (fuel : nat) (s : Sys) :
  rc_PSPUartCreate (hw s) <> 0 \/ rc_PSPUartParamsSet (hw s) <> 0
  \/ rc_TMInit (hw s) <> 0 \/ rc_LOGLoggerInit (hw s) <> 0 ->
  exists s' : Sys,
    main fuel s = OutOfFuel s'
    /\ uart_tx (hw s') = uart_tx (hw s)
    /\ fConnected (stub s') = false.
Proof.
  intros Hfail. unfold main, rbind, lift, modify. cbn [fst snd].
  set (s0 := {| stub := main_init (stub s); hw := hw s |}).
  pose proof (pspStubX86PhysMap_init_kept 0xfffdfc0003f8 true s0) as K1.
  destruct (pspStubX86PhysMap 0xfffdfc0003f8 true s0) as [[rc0 ppv] s1]. cbn [fst snd] in *.
  destruct K1 as (Htx1 & Hc1 & Ha1 & Hb1 & Hc1' & Hd1).
  subst s0. cbn [stub hw main_init fConnected] in *.
  assert (Hout : forall (rc : Z) (x : Sys) (k : Res unit),
             (rc =? 0) = false -> k = OutOfFuel x ->
             uart_tx (hw x) = uart_tx (hw s) -> fConnected (stub x) = false ->
             exists s', k = OutOfFuel s'
                        /\ uart_tx (hw s') = uart_tx (hw s) /\ fConnected (stub s') = false).
  { intros rc x k _ -> H1 H2. exists x. auto. }
  unfold rret, getw.
  destruct (rc0 =? 0) eqn:E0; cbn beta iota.
  2:{ repeat (progress (rewrite ?E0; cbn beta iota)). eapply Hout; eauto. }
  cbn [fst snd]. rewrite Ha1.
  destruct (rc_PSPUartCreate (hw s) =? 0) eqn:E1; cbn beta iota.
  2:{ repeat (progress (rewrite ?E1; cbn beta iota)). eapply Hout; eauto. }
  cbn [fst snd]. rewrite Hb1.
  destruct (rc_PSPUartParamsSet (hw s) =? 0) eqn:E2; cbn beta iota.
  2:{ repeat (progress (rewrite ?E2; cbn beta iota)). eapply Hout; eauto. }
  pose proof (pspStubTimerInit_init_kept s1) as (Htx2 & Hc2 & _ & _ & _ & Hd2).
  pose proof (pspStubTimerInit_rc s1) as Hrc.
  destruct (pspStubTimerInit s1) as [rc3 s2]. cbn [fst snd] in *.
  rewrite Hrc, Hc1'.
  destruct (rc_TMInit (hw s) =? 0) eqn:E3; cbn beta iota.
  2:{ repeat (progress (rewrite ?E3; cbn beta iota)). eapply Hout; eauto; congruence. }
  cbn [fst snd]. rewrite Hd2, Hd1.
  destruct (rc_LOGLoggerInit (hw s) =? 0) eqn:E4; cbn beta iota.
  2:{ eapply Hout; eauto; congruence. }
  exfalso. apply Z.eqb_eq in E1, E2, E3, E4.
  destruct Hfail as [?|[?|[?|?]]]; contradiction.
Qed.

End MainInit.

(** * Concrete runs

    The theorems above at concrete inputs, with the sample constants. *)

Section ConcreteRuns.
#[local] Existing Instance sample_consts.

(** ** Allocator *)

(** C7 at a concrete input: in the booted stub slot 0 holds the UART window
    and slot 1 is free; mapping x86 address 0x123456789 twice gives the same
    pointer into the window of slot 1. *)
Lemma x86_map_twice_witness :
  x86_find_slot (align_mask 0x123456789 _64M) 4 0 (aX86MapSlots (stub booted))
  = Some (1%nat, {| PhysX86AddrBase := NIL_X86PADDR; uMemType := 0; cRefs := 0 |})
  /\ exists pv : Z,
       fst (pspStubX86PhysMap 0x123456789 false booted) = (INF_SUCCESS, Some pv)
       /\ fst (pspStubX86PhysMap 0x123456789 false
                 (snd (pspStubX86PhysMap 0x123456789 false booted)))
          = (INF_SUCCESS, Some pv).
Proof.
  split; [vm_compute; reflexivity|].
  destruct (x86_map_twice_reuses_slot booted 0x123456789 false 1
              {| PhysX86AddrBase := NIL_X86PADDR; uMemType := 0; cRefs := 0 |})
    as (pv & H1 & H2 & _).
  - vm_compute. reflexivity.
  - vm_compute. discriminate.
  - vm_compute. reflexivity.
  - exists pv. split; assumption.
Defined.

(** C8 at a concrete input: all fifteen slots held, a sixteenth window. *)
Lemma x86_map_exhausted_witness :
  pspStubX86PhysMap (15 * _64M + 0x10) false (with_x86_slots slots_full booted)
  = ((ERR_INVALID_STATE, None), with_x86_slots slots_full booted).
Proof.
  apply x86_map_exhausted.
  apply (bool_decide_unpack _). vm_compute. exact I.
Defined.

(** ** Framer *)



(** ** Parser *)

(** C6 at a concrete input: a header with counter 7 where 1 is expected is
    rejected; the parser goes back to the header state, nothing is sent and
    the expected counter stays 1. *)
Lemma hdr_rejected_witness :
  pspStubPduHdrValidate (stub wrong_counter) (hdr_at (abPdu (stub wrong_counter))) <> 0
  /\ fst (pspStubPduRecvAdvance wrong_counter) = (INF_SUCCESS, PduNull)
  /\ enmPduRecvState (stub (snd (pspStubPduRecvAdvance wrong_counter)))
     = PSPSERIALPDURECVSTATE_HDR
  /\ uart_tx (hw (snd (pspStubPduRecvAdvance wrong_counter))) = uart_tx (hw wrong_counter)
  /\ cPduRecvNext (stub (snd (pspStubPduRecvAdvance wrong_counter))) = 1.
Proof.
  destruct hdr_rejected_iff_and_parser_resets as (Hiff & Hreset & _).
  assert (Hrej : pspStubPduHdrValidate (stub wrong_counter)
                   (hdr_at (abPdu (stub wrong_counter))) <> 0).
  { apply Hiff. right. right. right. left. vm_compute. discriminate. }
  split; [exact Hrej|].
  destruct (Hreset wrong_counter) as (H1 & H2 & H3); [vm_compute; reflexivity|exact Hrej|].
  split; [rewrite H1; reflexivity|]. split; [rewrite H1; reflexivity|].
  split; [exact H2|]. rewrite H3. vm_compute. reflexivity.
Defined.

(** ** Session *)


(** C10 at a concrete input: the early request is validated and consumed
    (the expected counter goes from 1 to 2), nothing is sent, the stub stays
    unconnected, and [pspStubCheckConnection] returns [INF_SUCCESS]. *)
Lemma check_connection_witness :
  pspStubCheckConnection 5 1000 early_request
  = Ret INF_SUCCESS (final_state (pspStubPduRecv 5 1000 early_request))
  /\ cPduRecvNext (stub early_request) = 1
  /\ cPduRecvNext (stub (final_state (pspStubPduRecv 5 1000 early_request))) = 2
  /\ uart_tx (hw (final_state (pspStubPduRecv 5 1000 early_request))) = []
  /\ fConnected (stub (final_state (pspStubPduRecv 5 1000 early_request))) = false.
Proof.
  destruct check_connection_swallows_pdu_and_errors as (H & _).
  destruct (H 5%nat 1000 early_request (final_state (pspStubPduRecv 5 1000 early_request)))
    as (H1 & H2 & H3 & H4).
  - vm_compute. reflexivity.
  - vm_compute. discriminate.
  - split; [exact H1|]. split; [reflexivity|].
    split; [rewrite H2; reflexivity|]. split; [rewrite H3; reflexivity|].
    rewrite H4. reflexivity.
Defined.

(** C3 at a concrete input: the request is received completely and at once
    (entry and exit time are both 600 ms, the bound is 1000 ms), and
    [pspStubPduRecv] returns [INF_TRY_AGAIN] with the PDU consumed. *)
Lemma recv_try_again_witness :
  fst (pspStubGetMillies connect_at_600ms) = 600
  /\ exists s2 : Sys,
       pspStubPduRecv 5 1000 connect_at_600ms = Ret (INF_TRY_AGAIN, PduBuf) s2
       /\ TMGetMillies (Tm (Timer (stub s2))) = 600
       /\ cPduRecvNext (stub connect_at_600ms) = 1
       /\ cPduRecvNext (stub s2) = 2.
Proof.
  split; [vm_compute; reflexivity|].
  destruct (recv_try_again_despite_complete_pdu 5 1000 connect_at_600ms
              (final_state (pspStubPduRecv_loop 5 600 1000 INF_SUCCESS PduNull
                              (snd (pspStubGetMillies connect_at_600ms)))))
    as (H1 & H2).
  - vm_compute. reflexivity.
  - vm_compute. discriminate.
  - eexists. split; [exact H1|]. split; [vm_compute; reflexivity|].
    split; [reflexivity|]. rewrite H2. reflexivity.
Defined.



(** C2 at the failing input [PSP_MMIO_READ{addr=0x03010424, len=4}]: the
    response header carries the PSP_MEM read response tag, which is not the
    PSP_MMIO read response tag.  A [PSP_MEM_READ] request, for comparison,
    is answered with the PSP_MEM read response tag. *)
Lemma mmio_mem_tag_witness :
  (exists (h : PSPSERIALPDUHDR) (rc1 : Z) (rest : list TxWrite),
     uart_tx (hw (snd (pspStubPduProcess (with_pdu (pdu_mmio_read 4) connected))))
     = uart_tx (hw (with_pdu (pdu_mmio_read 4) connected))
       ++ {| tx_buf := BufHdr h; tx_rc := rc1 |} :: rest
     /\ enmRrnId h = PSPSERIALPDURRNID_RESPONSE_PSP_MEM_READ
     /\ enmRrnId h <> PSPSERIALPDURRNID_RESPONSE_PSP_MMIO_READ
     /\ idCcd h = 0)
  /\ (exists h : PSPSERIALPDUHDR,
        response_sent (with_pdu pdu_mem_read connected)
          (snd (pspStubPduProcess (with_pdu pdu_mem_read connected))) h
        /\ enmRrnId h = PSPSERIALPDURRNID_RESPONSE_PSP_MEM_READ
        /\ idCcd h = 0).
Proof.
  destruct mmio_request_answered_with_mem_tag as [Hmmio Hall].
  split.
  - destruct (Hmmio false (with_pdu (pdu_mmio_read 4) connected))
      as (h & rc1 & rest & H1 & H2 & H3 & _).
    + vm_compute. reflexivity.
    + vm_compute. discriminate.
    + vm_compute. reflexivity.
    + exists h, rc1, rest. split; [exact H1|]. split; [exact H2|]. split; [|exact H3].
      rewrite H2. vm_compute. discriminate.
  - destruct (Hall 0%nat PSPSERIALPDURRNID_RESPONSE_PSP_MEM_READ
                (with_pdu pdu_mem_read connected)) as (h & H1 & H2 & H3).
    + vm_compute. reflexivity.
    + reflexivity.
    + vm_compute. reflexivity.
    + exists h. split; [exact H1|]. split; [exact H2|exact H3].
Defined.

(** C4 at a concrete input: the turn that processes the bad request leaves
    [ERR_INVALID_PARAMETER], and the loop goes on to the next turn. *)
Lemma connected_loop_witness :
  pspStubMainloop_turn 5 bad_then_good
  = Ret ERR_INVALID_PARAMETER (final_state (pspStubMainloop_turn 5 bad_then_good))
  /\ ERR_INVALID_PARAMETER <> 0
  /\ pspStubMainloop_connected 6 bad_then_good
     = pspStubMainloop_connected 5 (final_state (pspStubMainloop_turn 5 bad_then_good)).
Proof.
  assert (H : pspStubMainloop_turn 5 bad_then_good
              = Ret ERR_INVALID_PARAMETER (final_state (pspStubMainloop_turn 5 bad_then_good)))
    by (vm_compute; reflexivity).
  split; [exact H|]. split; [vm_compute; discriminate|].
  destruct connected_loop_never_exits as (_ & Hnext & _).
  exact (Hnext 5%nat bad_then_good _ _ H).
Defined.

(** After the erroring turn the loop serves the next request: the run ends
    (out of fuel, still in the loop) with the counters of the beacon, of the
    connect response and of one more response on the wire. *)
Example connected_loop_serves_next_request :
  exists s : Sys,
    pspStubMainloop_connected 8 bad_then_good = OutOfFuel s
    /\ sent_counters (uart_tx (hw s)) = [1; 1; 2]
    /\ cPduRecvNext (stub s) = 4.
Proof. eexists. split; [vm_compute; reflexivity|]. split; reflexivity. Qed.


(** ** Timekeeper, continued *)

(** One call of [pspStubTimerHandle] at 2.5 ms on the counter: two whole
    milliseconds and 50000 ticks of remainder. *)
Lemma timer_handle_witness :
  (0 <= next_count at_2500us < 2 ^ 32)
  /\ 100 * 1000 * Tm (Timer (stub (snd (pspStubTimerHandle at_2500us))))
     + cSubMsTicks (Timer (stub (snd (pspStubTimerHandle at_2500us))))
     = 100 * 1000 * Tm (Timer (stub at_2500us)) + cSubMsTicks (Timer (stub at_2500us))
       + wrap32 (next_count at_2500us - cCnts (Timer (stub at_2500us)))
  /\ Tm (Timer (stub at_2500us)) <= Tm (Timer (stub (snd (pspStubTimerHandle at_2500us)))).
Proof.
  assert (H1 : 0 <= next_count at_2500us < 2 ^ 32)
    by (vm_compute; split; [discriminate|reflexivity]).
  assert (H2 : 0 <= cCnts (Timer (stub at_2500us)) < 2 ^ 32)
    by (vm_compute; split; [discriminate|reflexivity]).
  assert (H3 : 0 <= cSubMsTicks (Timer (stub at_2500us)) < 100 * 1000)
    by (vm_compute; split; [discriminate|reflexivity]).
  destruct (timer_handle_conserves_ticks at_2500us H1 H2 H3) as (_ & _ & Hsum & Hmono).
  split; [exact H1|]. split; [exact Hsum|exact Hmono].
Defined.


Lemma clock_ok_ticking : clock_ok ticking.
Proof.
  assert (E1 : Timer (stub ticking) = {| Tm := 0; cCnts := 0; cSubMsTicks := 0 |})
    by (vm_compute; reflexivity).
  assert (E2 : cnt_now (hw ticking) = 0) by (vm_compute; reflexivity).
  assert (E3 : cnt_script (hw ticking)
               = [150000; 300000; 450000; 600000; 750000; 900000; 1050000; 1200000;
                  1350000; 1500000; 1650000; 1800000])
    by (vm_compute; reflexivity).
  unfold clock_ok. rewrite E1, E2, E3. cbn [Tm cCnts cSubMsTicks].
  split; [lia|]. split; [lia|]. split; [lia|]. split; [lia|].
  repeat (constructor; [lia|]). constructor.
Defined.

(** The main loop with the counter ticking: a beacon, the CONNECT request
    and its response, a PSP memory write to 0x50000 and its response, then
    the wait for the next request, stopped there.  No transfer has strayed,
    and the clock has got to 18 ms. *)
Lemma clock_never_goes_back_witness :
  clock_ok ticking
  /\ intact (final_state (pspStubMainloop 6 ticking))
  /\ Tm (Timer (stub (final_state (pspStubMainloop 6 ticking)))) = 18
  /\ clock_ok (final_state (pspStubMainloop 6 ticking))
  /\ Tm (Timer (stub ticking)) <= Tm (Timer (stub (final_state (pspStubMainloop 6 ticking)))).
Proof.
  assert (Hi : intact (final_state (pspStubMainloop 6 ticking))) by (vm_compute; reflexivity).
  split; [exact clock_ok_ticking|]. split; [exact Hi|]. split; [vm_compute; reflexivity|].
  exact (millisecond_clock_never_goes_back 6 ticking clock_ok_ticking Hi).
Defined.


(** ** Receive buffer *)

(** [main] from power-up, through the CONNECT request and a PSP memory
    write to 0x50000, stopped in the wait for the next request. *)
Lemma receive_stays_inside_witness :
  length (abPdu (stub connect_then_write)) = Z.to_nat cbAbPdu
  /\ intact (final_state (main 8 connect_then_write))
  /\ recv_ok (final_state (main 8 connect_then_write)).
Proof.
  assert (H1 : length (abPdu (stub connect_then_write)) = Z.to_nat cbAbPdu)
    by (vm_compute; reflexivity).
  assert (Hi : intact (final_state (main 8 connect_then_write)))
    by (vm_compute; reflexivity).
  split; [exact H1|]. split; [exact Hi|].
  destruct receive_stays_inside_pdu_buffer as (_ & _ & H). apply H.
  - exact H1.
  - assert (E : abPdu (stub connect_then_write) = replicate 4096 0)
      by (vm_compute; reflexivity).
    rewrite E. apply Forall_replicate. unfold is_byte. lia.
  - assert (E1 : uart_fifo (hw connect_then_write) = []) by reflexivity.
    assert (E2 : Forall (Forall is_byte) (uart_arrivals (hw connect_then_write))).
    { apply (bool_decide_unpack _). vm_compute. exact I. }
    split; [rewrite E1; constructor|exact E2].
  - exact Hi.
Defined.

(** ** Framing *)

Lemma framed_pdu_witness :
  hdr_in_range sample_hdr
  /\ pspStubPduValidate
       (hdr_bytes sample_hdr ++ [1; 2; 3; 4]
        ++ footer_bytes {| u32ChkSum := u32ChkSum (sent_footer sample_hdr [1; 2; 3; 4]);
                           u32MagicEnd := PSP_SERIAL_EXT_2_PSP_PDU_END_MAGIC |}
        ++ []) = 0.
Proof.
  assert (H1 : hdr_in_range sample_hdr).
  { unfold hdr_in_range.
    repeat split; vm_compute; first [discriminate|reflexivity]. }
  split; [exact H1|].
  destruct (framed_pdu_reads_back sample_hdr [1; 2; 3; 4] []
              PSP_SERIAL_EXT_2_PSP_PDU_END_MAGIC H1)
    as (_ & _ & _ & _ & Hiff).
  - reflexivity.
  - vm_compute. split; [discriminate|reflexivity].
  - apply Hiff. reflexivity.
Defined.

Lemma sample_pdu_bytes : Forall is_byte sample_pdu.
Proof.
  vm_compute.
  repeat (constructor; [split; [discriminate|reflexivity]|]). constructor.
Defined.

(** The second payload byte of the sample PDU changed from 2 to 9. *)
Lemma single_byte_error_witness :
  pspStubPduValidate sample_pdu = 0
  /\ sample_pdu !! 25%nat <> Some 9
  /\ pspStubPduValidate (<[25%nat := 9]> sample_pdu) <> 0.
Proof.
  assert (H1 : pspStubPduValidate sample_pdu = 0) by (vm_compute; reflexivity).
  assert (H2 : sample_pdu !! 25%nat <> Some 9) by (vm_compute; discriminate).
  split; [exact H1|]. split; [exact H2|].
  apply (single_byte_error_is_rejected sample_pdu 25 9 sample_pdu_bytes H1).
  - vm_compute. split; [discriminate|reflexivity].
  - vm_compute. lia.
  - unfold is_byte. lia.
  - exact H2.
Defined.

(** ** Handshake *)

(** [main] from power-up with a CONNECT request on the wire. *)
Lemma connected_only_after_response_witness :
  fConnected (stub (final_state (main 10 (with_rx [pdu_connect] powered_up)))) = true
  /\ connect_response_sent
       (uart_tx (hw (final_state (main 10 (with_rx [pdu_connect] powered_up))))).
Proof.
  assert (H1 : fConnected (stub (final_state (main 10 (with_rx [pdu_connect] powered_up))))
               = true) by (vm_compute; reflexivity).
  split; [exact H1|].
  exact (connected_only_after_connect_response 10 (with_rx [pdu_connect] powered_up) H1).
Defined.

(** A receive with the indefinite bound, a request on the wire. *)
Lemma indefinite_wait_witness :
  exists (rc : Z) (s' : Sys),
    pspStubPduRecv 4 PSP_SERIAL_STUB_INDEFINITE_WAIT (with_rx [pdu_mem_read] connected)
    = Ret (rc, PduBuf) s'
    /\ (rc = INF_SUCCESS \/ rc = INF_TRY_AGAIN).
Proof.
  destruct indefinite_wait_returns_only_with_pdu as (H & _).
  destruct (pspStubPduRecv 4 PSP_SERIAL_STUB_INDEFINITE_WAIT (with_rx [pdu_mem_read] connected))
    as [[rc p] s'|s'|s'] eqn:E.
  - destruct (H _ _ _ _ _ E) as (-> & Hrc & _). exists rc, s'. split; [reflexivity|exact Hrc].
  - exfalso. revert E. vm_compute. discriminate.
  - exfalso. revert E. vm_compute. discriminate.
Defined.

(** ** A silent line *)

(** A receive bounded by 5 ms on the line as [main] leaves it, stopped
    after three polls. *)
Lemma silent_line_witness :
  rx_silent booted
  /\ parser_kept booted (final_state (pspStubPduRecv 3 5 booted)).
Proof.
  assert (H : rx_silent booted) by (split; vm_compute; reflexivity).
  split; [exact H|].
  exact (proj1 (silent_line_leaves_parser_alone 3 5 booted H)).
Defined.

(** ** Mapping windows, continued *)

Lemma x86_table_booted :
  aX86MapSlots (stub x86_read_pending)
  = {| PhysX86AddrBase := 0xfffdfc000000; uMemType := 6; cRefs := 1 |}
    :: replicate 14 {| PhysX86AddrBase := NIL_X86PADDR; uMemType := 0; cRefs := 0 |}.
Proof. vm_compute. reflexivity. Defined.

Lemma smn_table_booted :
  aSmnMapSlots (stub x86_read_pending) = replicate 32 {| SmnAddrBase := 0; cRefsSmn := 0 |}.
Proof. vm_compute. reflexivity. Defined.

Lemma x86_table_write_pending :
  aX86MapSlots (stub x86_write_pending)
  = {| PhysX86AddrBase := 0xfffdfc000000; uMemType := 6; cRefs := 1 |}
    :: replicate 14 {| PhysX86AddrBase := NIL_X86PADDR; uMemType := 0; cRefs := 0 |}.
Proof. vm_compute. reflexivity. Defined.

Lemma smn_table_write_pending :
  aSmnMapSlots (stub x86_write_pending) = replicate 32 {| SmnAddrBase := 0; cRefsSmn := 0 |}.
Proof. vm_compute. reflexivity. Defined.

(** An x86 memory write of four bytes, processed: the transfer has not
    strayed, and both tables are as before. *)
Lemma request_returns_window_witness :
  align_mask (req_addr (abPdu (stub x86_write_pending)) cbPduHdr) _64M <> NIL_X86PADDR
  /\ intact (snd (pspStubPduProcess x86_write_pending))
  /\ aX86MapSlots (stub (snd (pspStubPduProcess x86_write_pending)))
     = aX86MapSlots (stub x86_write_pending)
  /\ aSmnMapSlots (stub (snd (pspStubPduProcess x86_write_pending)))
     = aSmnMapSlots (stub x86_write_pending).
Proof.
  assert (H4 : align_mask (req_addr (abPdu (stub x86_write_pending)) cbPduHdr) _64M
               <> NIL_X86PADDR) by (vm_compute; discriminate).
  assert (Hi : intact (snd (pspStubPduProcess x86_write_pending)))
    by (vm_compute; reflexivity).
  split; [exact H4|]. split; [exact Hi|].
  destruct (request_returns_every_window x86_write_pending) as (H & _).
  - rewrite x86_table_write_pending. reflexivity.
  - rewrite x86_table_write_pending. constructor.
    + right. split; [vm_compute; discriminate|vm_compute; split; reflexivity].
    + apply Forall_replicate. left. repeat split.
  - rewrite x86_table_write_pending. constructor.
    + vm_compute. reflexivity.
    + apply Forall_replicate. vm_compute. reflexivity.
  - exact H4.
  - rewrite smn_table_write_pending. reflexivity.
  - rewrite smn_table_write_pending. apply Forall_replicate. split.
    + vm_compute. split; [discriminate|reflexivity].
    + reflexivity.
  - exact (H Hi).
Defined.


(** x86 address 0x123456789 mapped in the booted stub: slot 1, at the same
    offset into its window. *)
Lemma x86_pointer_witness :
  snd (fst (pspStubX86PhysMap 0x123456789 false booted)) = Some 0x0b456789
  /\ exists idx : nat,
       (idx < 15)%nat
       /\ fst (fst (pspStubX86PhysMap 0x123456789 false booted)) = INF_SUCCESS
       /\ 0x0b456789 = x86_window (Z.of_nat idx) + 0x123456789 mod _64M
       /\ x86_slot_of 0x0b456789 = Z.of_nat idx.
Proof.
  assert (H1 : snd (fst (pspStubX86PhysMap 0x123456789 false booted)) = Some 0x0b456789)
    by (vm_compute; reflexivity).
  split; [exact H1|].
  destruct (x86_map_pointer_in_window booted 0x123456789 false 0x0b456789)
    as (idx & Hidx & Hrc & Hpv & _ & Hslot & _).
  - vm_compute. reflexivity.
  - exact H1.
  - exists idx. repeat split; assumption.
Defined.

(** The null pointer lies below the first window. *)
Lemma x86_stray_pointer_witness :
  0 < x86_window 0
  /\ pspStubX86PhysUnmapByPtr 0 booted = (ERR_INVALID_PARAMETER, booted).
Proof.
  assert (H1 : 0 < x86_window 0) by (vm_compute; reflexivity).
  split; [exact H1|].
  apply x86_unmap_refuses_stray_pointer; [vm_compute; split; [discriminate|reflexivity]|].
  left. exact H1.
Defined.

Lemma smn_slots_full_held :
  Forall (fun m => 0 < cRefsSmn m /\ SmnAddrBase m <> wrap32 (align_mask 0x5a000000 _1M))
         (aSmnMapSlots (stub smn_full)).
Proof.
  vm_compute.
  repeat (constructor; [split; [reflexivity|discriminate]|]). constructor.
Defined.

(** A map in the connected stub keeps every slot free or held. *)
Lemma x86_table_wf_witness :
  Forall x86_slot_wf (aX86MapSlots (stub x86_read_pending))
  /\ Forall x86_slot_wf
       (aX86MapSlots (stub (snd (pspStubX86PhysMap 0x123456789 false x86_read_pending)))).
Proof.
  assert (H1 : Forall x86_slot_wf (aX86MapSlots (stub x86_read_pending))).
  { rewrite x86_table_booted. constructor.
    - right. split; [vm_compute; discriminate|vm_compute; split; reflexivity].
    - apply Forall_replicate. left. repeat split. }
  split; [exact H1|].
  destruct x86_table_stays_well_formed as (_ & H & _). apply H.
  - exact H1.
  - rewrite x86_table_booted. constructor.
    + vm_compute. reflexivity.
    + apply Forall_replicate. vm_compute. reflexivity.
  - vm_compute. discriminate.
Defined.

(** SMN address 0x12345678 mapped in the booted stub: slot 0 takes the low
    half of the first control register, the high half stays. *)
Lemma smn_ctrl_register_witness :
  smn_find_slot (wrap32 (align_mask 0x12345678 _1M)) 0 (aSmnMapSlots (stub booted))
  = Some (0%nat, {| SmnAddrBase := 0; cRefsSmn := 0 |})
  /\ smn_other_half 0
       (fst (load32 (smn_ctrl_reg 0) (snd (pspStubSmnPhysMap 0x12345678 booted))))
     = smn_other_half 0 (fst (load32 (smn_ctrl_reg 0) booted))
  /\ smn_own_half 0
       (fst (load32 (smn_ctrl_reg 0) (snd (pspStubSmnPhysMap 0x12345678 booted))))
     = 0x12345678 / _1M.
Proof.
  assert (H1 : smn_find_slot (wrap32 (align_mask 0x12345678 _1M)) 0
                 (aSmnMapSlots (stub booted))
               = Some (0%nat, {| SmnAddrBase := 0; cRefsSmn := 0 |}))
    by (vm_compute; reflexivity).
  split; [exact H1|].
  destruct smn_ctrl_register_halves as (H & _).
  destruct (H booted 0x12345678 0%nat {| SmnAddrBase := 0; cRefsSmn := 0 |}) as (Ha & Hb).
  - vm_compute. split; [discriminate|reflexivity].
  - exact H1.
  - reflexivity.
  - vm_compute. split; [discriminate|reflexivity].
  - split; [exact Ha|]. apply Hb. vm_compute. reflexivity.
Defined.

(** With all thirty-two SMN slots held, a thirty-third base finds none. *)
Lemma smn_exhausted_witness :
  pspStubSmnPhysMap 0x5a000000 smn_full = ((ERR_INVALID_STATE, None), smn_full).
Proof. exact (smn_map_exhausted smn_full 0x5a000000 smn_slots_full_held). Defined.

(** SMN address 0x12345678 mapped in the booted stub: slot 0. *)
Lemma smn_pointer_witness :
  snd (fst (pspStubSmnPhysMap 0x12345678 booted)) = Some 0x01045678
  /\ exists idx : nat,
       (idx < 32)%nat
       /\ fst (fst (pspStubSmnPhysMap 0x12345678 booted)) = INF_SUCCESS
       /\ 0x01045678 = smn_window (Z.of_nat idx) + 0x12345678 mod _1M.
Proof.
  assert (H1 : snd (fst (pspStubSmnPhysMap 0x12345678 booted)) = Some 0x01045678)
    by (vm_compute; reflexivity).
  split; [exact H1|].
  destruct (smn_map_pointer_in_window booted 0x12345678 0x01045678)
    as (idx & Hidx & Hrc & Hpv & _).
  - vm_compute. split; [discriminate|reflexivity].
  - vm_compute. reflexivity.
  - exact H1.
  - exists idx. repeat split; assumption.
Defined.

(** ** Local memory transfers and the start of [main], continued *)

(** Four bytes written to 0x50000 and read back. *)
Lemma mem_write_read_witness :
  req_data (abPdu (stub mem_write_pending)) cbPduHdr
    (req_cbXfer (abPdu (stub mem_write_pending)) cbPduHdr) = [1; 2; 3; 4]
  /\ intact (snd (pspStubPduProcessPspMemXfer cbPduHdr 16 true mem_write_pending))
  /\ exists ts : Z,
       uart_tx (hw (snd (pspStubPduProcessPspMemXfer cbPduHdr 12 false mem_read_after_write)))
       = uart_tx (hw mem_read_after_write)
         ++ xmit_writes (uart_wr_rcs (hw mem_read_after_write))
              (AtAddr (wrap32 (req_addr (abPdu (stub mem_write_pending)) cbPduHdr)))
              (req_cbXfer (abPdu (stub mem_write_pending)) cbPduHdr)
              (sent_hdr INF_SUCCESS 0 PSPSERIALPDURRNID_RESPONSE_PSP_MEM_READ
                 (req_cbXfer (abPdu (stub mem_write_pending)) cbPduHdr)
                 (wrap32 (cPdusSent (stub mem_read_after_write) + 1)) ts,
               req_data (abPdu (stub mem_write_pending)) cbPduHdr
                 (req_cbXfer (abPdu (stub mem_write_pending)) cbPduHdr),
               sent_footer
                 (sent_hdr INF_SUCCESS 0 PSPSERIALPDURRNID_RESPONSE_PSP_MEM_READ
                    (req_cbXfer (abPdu (stub mem_write_pending)) cbPduHdr)
                    (wrap32 (cPdusSent (stub mem_read_after_write) + 1)) ts)
                 (req_data (abPdu (stub mem_write_pending)) cbPduHdr
                    (req_cbXfer (abPdu (stub mem_write_pending)) cbPduHdr))).
Proof.
  assert (Hi : intact (snd (pspStubPduProcessPspMemXfer cbPduHdr 16 true mem_write_pending)))
    by (vm_compute; reflexivity).
  split; [vm_compute; reflexivity|]. split; [exact Hi|].
  apply (psp_mem_read_returns_what_was_written mem_write_pending mem_read_after_write
           cbPduHdr 16 cbPduHdr 12).
  - vm_compute. reflexivity.
  - vm_compute. discriminate.
  - vm_compute. discriminate.
  - vm_compute. discriminate.
  - vm_compute. discriminate.
  - exact Hi.
  - vm_compute. reflexivity.
  - vm_compute. reflexivity.
  - vm_compute. reflexivity.
Defined.

(** The UART driver fails to come up: [main] spins without a word. *)
Lemma main_init_fails_witness :
  rc_PSPUartCreate (hw no_uart) <> 0
  /\ exists s' : Sys,
       main 5 no_uart = OutOfFuel s'
       /\ uart_tx (hw s') = uart_tx (hw no_uart)
       /\ fConnected (stub s') = false.
Proof.
  assert (H1 : rc_PSPUartCreate (hw no_uart) <> 0) by (vm_compute; discriminate).
  split; [exact H1|].
  apply main_spins_silently_when_init_fails. left. exact H1.
Defined.

(** Past 2^31 ms the guarantee of [recv_success_hands_out_pdu] is gone: on a
    silent line the wait times out, the sum of entry and exit time wraps
    below the bound, [pspStubPduRecv] returns [INF_SUCCESS] with nothing
    handed out, and [pspStubCheckConnection] reads the tag through the unset
    pointer. *)
Example check_connection_reads_unset_pointer_past_2_31_ms :
  exists s' : Sys,
    pspStubCheckConnection 3 1000 late_and_silent = Undefined s'
    /\ Tm (Timer (stub s')) = 2 ^ 31 + 1000.
Proof. vm_compute. eexists. split; reflexivity. Qed.

(** ** Transfers that stray *)

(** A PSP memory write of four bytes to [PspAddrScratch - 4116], where
    [g_StubState.cPdusSent] lies, strays; so does one of 4064 bytes, whose
    source runs on behind [abPdu]; one of four bytes to [abScratch] does
    not. *)
Example write_into_stub_state_strays :
  strayed (hw (snd (pspStubPduProcess
                      (with_pdu (request_pdu 2 PSPSERIALPDURRNID_REQUEST_PSP_MEM_WRITE
                                   (xfer_req (PspAddrScratch - 4116) 4 [42; 0; 0; 0]))
                         connected)))) = true
  /\ strayed (hw (snd (pspStubPduProcess
                         (with_pdu (request_pdu 2 PSPSERIALPDURRNID_REQUEST_PSP_MEM_WRITE
                                      (xfer_req 0x50000 4064 [1; 2; 3; 4]))
                            connected)))) = true
  /\ strayed (hw (snd (pspStubPduProcess
                         (with_pdu (request_pdu 2 PSPSERIALPDURRNID_REQUEST_PSP_MEM_WRITE
                                      (xfer_req PspAddrScratch 4 [42; 0; 0; 0]))
                            connected)))) = false.
Proof. split; [|split]; vm_compute; reflexivity. Qed.

End ConcreteRuns.
